(* ===== verification/_CoqProject ===== *)
-Q . S2P
Prelude.v
Float32.v
KvQuota.v
KvCache.v
CircuitBreaker.v
Hashing.v
Ordering.v
ReceiptMerkle.v
TelemetryMerkle.v
AuditChain.v
Lifecycle.v
LifecycleRules.v
PrefixKvCache.v
SingleFlight.v
AdapterStore.v
HotSwap.v
HotSwapManager.v
RequestPinner.v
Barrier.v
TickLedger.v
Signatures.v
WorkerAuth.v
StopController.v
Limiter.v
RoutePolicy.v
ModelKey.v
ModelCache.v
ReceiptDigest.v
Evidence.v
ReceiptVerify.v
CryptoReceipt.v
AdapterHeat.v
ActivationTracker.v
LifecycleManager.v
KReduction.v
TtlManager.v
BufferPool.v
TenantIsolation.v
RetryPolicy.v
