(* ===== verification/Prelude.v ===== *)
(** * A verification library for adapterOS

    adapterOS is an offline inference runtime for LoRA adapters: a control plane
    decides which adapters may be used, workers run inference and keep KV caches for
    it, and everything that happens is recorded in receipts, audit chains and
    telemetry bundles that third parties can check. This library models the parts of
    the Rust workspace (crates under src/crates) that carry these decisions and
    proves what makes them correct. Definitions keep the names of the source.

    ** Files, and the code they model

    - [Prelude]: results with the [?] operator, the error variants in use
      (adapteros-core/src/error.rs), 64- and 32-bit arithmetic as the code calls it
      (wrapping, saturating, checked), stable sorting, sums, runs of transition
      systems, the hint database [aos] and the tactics [branch], [breflect],
      [solve_range].
    - [Float32]: Rust's [f32] and [f64], computed: the executable IEEE 754 operations
      of the Standard Library at single and double precision.
    - [KvQuota] (adapteros-lora-worker/src/kv_quota.rs): the per-tenant quota
      manager. A record of its atomics and reservation list; one definition per
      method; reservations expire by a clock argument.
    - [KvCache] (adapteros-lora-worker/src/kvcache.rs): the slab allocator of KV
      sequences, with generations and guards, over the interface [QuotaManager] with
      its laws [QuotaLaws], which [KvQuota] implements. Module [Tiling] holds the
      theory of blocks that tile the buffer.
    - [PrefixKvCache] (adapteros-lora-worker/src/prefix_kv_cache.rs): the cache of
      prefilled prefixes. Entries are shared and mutated through atomics, so the
      state has an arena of entries and a map of keys to positions.
    - [SingleFlight] (adapteros-core/src/singleflight/sync_impl.rs): deduplication
      of concurrent loads, as an interleaving of threads around the in-flight map,
      the result lock, the condition variable and the panic guard.
    - [CircuitBreaker] (adapteros-core/src/circuit_breaker.rs): the breaker as
      admission, operation and completion steps of concurrent callers.
    - [Hashing] (adapteros-infra-common/src/hash.rs): 32-byte digests. BLAKE3 is the
      class [Blake3], of which nothing is assumed; the hex crate the class [Hex] with
      the laws [HexLaws], implemented by [hex_lower].
    - [Ordering]: lexicographic orders by a list of fields, as derived in the source.
      [Signatures]: the class [Ed25519] of signatures and its laws.
    - [ReceiptMerkle] (adapteros-core/src/receipt_merkle.rs) and [TelemetryMerkle]
      (adapteros-telemetry/src/merkle.rs): Merkle roots, inclusion proofs, their
      verification.
    - [AuditChain] (adapteros-core/src/audit_chain.rs): the hash chain of policy
      decisions and its verification, per tenant.
    - [Lifecycle] and [LifecycleRules] (adapteros-core/src/lifecycle.rs): the state
      machine of adapters, their tiers, semantic versions; the constraint validator
      over JSON contexts, activation and alias swaps.
    - [AdapterStore] (adapteros-core/src/adapter_store.rs): generations of adapter
      snapshots that requests pin, with reference counts shared by generations; the
      counters are an arena, a pin holds positions in it.
    - [HotSwap] (adapteros-lora-worker/src/adapter_hotswap.rs, [AdapterTable]; the
      stack hash of adapteros-core/src/stack.rs): staging, swap, rollback and the
      retirement of replaced stacks. [HotSwapManager] (the same file,
      [HotSwapManager]): commands, expected hashes, clean-up after failures, the
      cache budget and its evictions, over the class of calls the kernel backend
      offers.
    - [Barrier] (adapteros-deterministic-exec/src/multi_agent.rs): the barrier of
      agents as an interleaving of callers at each shared access.
    - [TickLedger] (adapteros-deterministic-exec/src/global_ledger.rs): the hash chain
      of executor events per host in a shared table, and its comparison across hosts.
    - [WorkerAuth] (adapteros-boot/src/worker_auth.rs, jti_cache.rs, key_ring.rs,
      key_update.rs; handlers of adapteros-lora-worker/src/uds_server.rs): signed
      tokens, the replay cache and its file, the rotating key ring, key updates.
    - [StopController] (adapteros-lora-worker/src/stop_controller.rs, the loops of
      inference_pipeline.rs, the policy of adapteros-api-types/src/inference.rs): when
      generation stops, what is kept of it, and the digests that go into receipts.
    - [Limiter] (adapteros-lora-worker/src/limiter.rs): admission of requests, as whole
      methods and as threads interleaved at each atomic access.
    - [RoutePolicy] (adapteros-lora-router/src/policy_mask.rs, routing in
      inference_pipeline.rs, adapteros-lora-worker/src/router_bridge.rs, [RouterRing]
      of adapteros-lora-kernel-api/src/lib.rs): policy masks and their digest, the
      filtering of routing decisions, the fallbacks, the ring given to the kernels.
    - [ModelKey] (adapteros-lora-worker/src/model_key.rs,
      adapteros-core/src/prefix_kv_key.rs): keys of models and of cached prefixes.
      [ModelCache] (adapteros-lora-worker/src/model_handle_cache.rs): the cache of
      loaded models with pins, guards and evictions, each critical section a step.
    - [ReceiptDigest] (adapteros-core/src/receipt_digest.rs): the digests of run
      receipts, version by version. [CryptoReceipt] (crypto_receipt.rs): receipts with
      their generator, verification and cancellations. [ReceiptVerify]
      (third_party_verification.rs): the verification of claims by a third party.
    - [Evidence] (adapteros-core/src/evidence_envelope.rs, evidence_verifier.rs):
      signed envelopes, their ingestion and the verification of their chains.
    - [AdapterHeat] (adapteros-lora-lifecycle/src/state.rs, policy.rs,
      category_policies.rs): the residency ladder of adapters and its policies.
      [ActivationTracker] (activation_tracker.rs): the window of routing decisions.
      [LifecycleManager] (lib.rs, loader.rs): the manager of adapters over a database
      and a source of files, with other threads wherever it lets go of its locks.
      [TtlManager] (ttl_manager.rs): records that expire.
    - [KReduction] (adapteros-memory/src/k_reduction_protocol.rs,
      k_reduction_integration.rs, adapteros-lora-lifecycle/src/
      k_reduction_coordinator.rs and lib.rs): fewer adapters per token when memory is
      short, from the request to the execution and its rollback.
    - [BufferPool] (adapteros-memory/src/buffer_pool.rs): pooled buffers and the cache
      of converted tensors.
    - [RequestPinner] (adapteros-lora-worker/src/request_pinner.rs): pinning the
      adapters of a request, over [HotSwap] and [AdapterStore].
    - [TenantIsolation] (adapteros-core/src/tenant_isolation): who may access which
      tenant's resources, as rules and their combination.
    - [RetryPolicy] (adapteros-core/src/retry_policy.rs, retry_strategies.rs): retries
      with jitter and backoff, the budget their callers share, the manager that puts
      them behind the circuit breaker, the strategies of the service types.

    The components meet where the code has them meet: the KV cache draws on the
    quota manager through an interface, the prefix cache builds entries as the
    leader of a single flight, the Merkle trees, the audit chain, the ledger, the
    stack hash, key ids and stop policies hash through [Hashing], the rules call the
    state machine, the hot-swap table publishes its active set as a generation of the
    adapter store, and the manager drives the table. The keys of cached prefixes are
    taken over model identities, the model cache is a map of model keys; receipts and
    third-party verification share the receipt digests. Requests to reduce K travel
    through the channel to the lifecycle manager, which evicts adapters whose records
    are the residency ladder and whose activity the tracker counts; a request pins what
    the hot-swap table publishes; the retry manager sends its loop through the breaker.
    Code of other packages is a class with the laws its documentation states (kernel
    backend, Ed25519, base64, JSON, LRU map, semaphore, random numbers), implemented by
    a small instance in the examples.

    ** What the theorems show

    - Memory: live sequences never overlap each other or free memory, live
      allocations never exceed the tenant quota (a refinement through the quota
      interface), used plus reserved bytes stay within the quota, each operation does
      what it says on every branch; the prefix cache stays in its byte budget, evicts
      oldest first and no more than needed, and finds the best intact prefix; two
      requests share a prefix key exactly when they agree in all that matters. The
      model cache stays in its budget, and its pins within their limit, in every
      interleaving of its critical sections; models in use or pinned stay cached unless
      everything is cleaned up or a mark is taken back by a caller that holds none. The
      buffer pool's counters are exact and each of its classes is bounded, acquired buffers are
      clean, and tensor layouts round-trip up to half precision.
    - Residency: the tracker's incremental percentages are the shares of the window; a
      pinned adapter stays resident and loaded under every interleaving that spares
      it; memory pressure evicts exactly the least active evictable adapter, or lowers K
      if it can; a request to reduce K is approved exactly under its condition, and an
      approved one evicts exactly the adapters chosen, or those up to the first whose
      event the telemetry refuses; expiry is exact.
    - Concurrency: one leader per key, all callers of a flight get one result, no
      waiter is left behind by a finished load; the breaker's windows and slots stay
      bounded, it opens exactly at its threshold and recovers; reference counts are
      the numbers of pins; a barrier releases callers only when all living agents have
      arrived, and then does; semaphores are never overdrawn and always given back.
    - Hot swap: as long as no two swaps overlap, the pinning index always matches the
      active set and active or staged adapters have counters, a swap followed by a
      rollback restores it, a failed swap changes nothing, the announced hash is the
      hash afterwards, retirement loops terminate and unload only what is
      unreferenced, the cache budget is enforced without evicting adapters in use.
    - Evidence: generated inclusion proofs verify, accepted proofs of the right depth
      prove membership, and the position for indices within the batch, batches do not depend on the order of receipts; the audit
      verdict is exact, the last hash commits to the whole history; ledgers read back
      as recorded and the cross-host report is exact; policy and mask digests commit
      to what they digest. Two inputs have one receipt digest exactly when they agree
      in what their version covers; a receipt binds its whole run; claims that verify
      against one receipt agree; a chain of envelopes is accepted exactly when every
      envelope is well-formed, accepted and linked.
    - Generation: the stop decision, kept with a bounded window, is the one read off
      the whole stream; outputs are within budget and free of end tokens, stop
      sequences and forbidden repetitions; generation terminates with a reason.
    - Authentication: a token is accepted once, generated tokens are accepted, key
      updates need the signature of a known key, rotations last their grace period,
      the replay defence survives restarts.
    - Access: whatever restrictive rules are added, callers reach only their own tenant
      or, as administrators, tenants they are granted; a request that is pinned, also
      half way through a swap, holds exactly the adapters of its stack.
    - Control: a retry loop ends at the first outcome that settles it, after at most
      the attempts allowed, and counts once for the breaker; lifecycles over any number of transitions, the default rules as one
      explicit condition, independence of the order of constraints; round trips of
      states and versions; routing keeps to its policy, its depth and its order.
    - Deviations: where the code does not do what it means to, a theorem states what
      it does instead (kind [error]): wedged quotas and breakers, a cache that does
      not recover, a lost wakeup, proofs that do not verify, ambiguous hash texts,
      leaked budget, limits that concurrent callers overrun, corrupted entries handed out, rollbacks that leave adapters
      detached, tokens that can be replayed while expired, a rate limit that never
      refills, a policy that falls back to the adapter it denies, memory pressure
      that is always computed as zero, adapters registered to be loaded and never
      loaded, pins and evictions undone by a transition that was under way, rollbacks
      that reload nothing, requests refused for locks long released, a tensor
      conversion answered with that of another tensor, pins of another stack after a
      rollback or after two swaps that overlap, proofs accepted for positions beyond
      the batch, clean-ups that evict models in use, rotated keys that cannot come
      back, a pool that holds more than its size, strategies whose own manager refuses
      them.

    ** Conventions

    A [u64], [usize] or [i64] is a [Z] with its wrap-around written out where the
    code can reach it; indices into lists are [nat]. Clock readings, random ids,
    answers of the database and results of external calls are arguments; where a
    method lets go of its locks, what other threads do meanwhile is the argument
    [others]. The telemetry of the lifecycle manager is an argument too, and may fail.
    A swap of the hot-swap table is made of its accesses ([swap_register], [swap_flip],
    [swap_publish], [swap_retire]): the table's own theorems run them together, the
    pinning of requests takes them apart. A panic or a loop out of fuel is [None]; the level loops of the Merkle
    trees get the number of leaves as fuel, which is enough because each level is
    shorter ([ReceiptMerkle.merkle_root_unfold], [sibling_loop_correct], [tree_pow2]);
    the retirement loops get the number of retired stacks, one of which goes in each
    round. Collision resistance is never assumed of all messages: theorems that need
    it ask for [collision_free] of the finite list of messages they hash, and the
    examples check it by evaluation with a toy hash. Maps are finite maps ([gmap]);
    where the source iterates an ordered map the model sorts. Logging, tracing and
    metrics have no effect on the modelled state.

    ** Not modelled

    Floating point beyond [f32] and [f64] arithmetic: usage ratios of reports, softmax, gate
    normalisation and half precision are parameters where a modelled function calls
    them. Metal buffer contents and unsafe writes in [KvCache]; interleavings inside
    one handler of the circuit breaker; the async single flight; key files and
    environment settings; serialization derives. Of the lifecycle manager: recovery
    after a crash and heartbeats, which are SQL statements, model downloads, the
    workflow executor, the parsing of adapter files. The server, database, user
    interfaces, kernels, model backends, training, retrieval, policy packs and
    operating-system services are left out: they are I/O, foreign code or data,
    around the decisions modelled here. *)

From stdpp Require Export base option list strings gmap relations pretty.
From Stdlib Require Export ZArith Lia Sorting.Sorted Sorting.Permutation.

Declare Scope aos_scope.
Delimit Scope aos_scope with aos.

(** ** Fallible computations

    Rust's [Result<T, E>] with the [?] operator written as a bind. *)

Inductive result (T E : Type) : Type :=
| Ok (t : T)
| Err (e : E).
Arguments Ok {T E} t.
Arguments Err {T E} e.

Definition result_bind {T U E} (r : result T E) (f : T -> result U E) : result U E :=
  match r with Ok t => f t | Err e => Err e end.

Notation "x '<-?' c ';;' k" := (result_bind c (fun x => k))
  (at level 100, c at next level, right associativity) : aos_scope.

Definition is_ok {T E} (r : result T E) : bool :=
  match r with Ok _ => true | Err _ => false end.

(** The variants of [AosError] the modelled code constructs or matches on. *)
Inductive AosError : Type :=
| InvalidHash (msg : string)
| Parse (msg : string)
| PolicyViolation (msg : string)
| Worker (msg : string)
| Config (msg : string)
| Telemetry (msg : string)
| DeterminismViolation (msg : string)
| MemoryPressure (msg : string)
| QuotaExceeded (resource : string) (failure_code : option string)
| Validation (msg : string)
| Lifecycle (msg : string)
| Internal (msg : string)
| CircuitBreakerOpen (service : string)
| CircuitBreakerHalfOpen (service : string)
| Kernel (msg : string)
| Database (msg : string)
| ResourceExhaustion (msg : string)
| NotFound (msg : string)
| IsolationViolation (msg : string)
| FileDescriptorExhausted (current limit : Z) (suggestion : string)
| ThreadPoolSaturated (active max queued estimated_wait_ms : Z)
| InvalidRateLimitConfig (parameter value reason : string)
| Routing (msg : string)
| Crypto (msg : string)
| CacheBudgetExceeded (needed_mb freed_mb : Z) (pinned_count active_count : nat) (max_mb : Z)
    (model_key : option string)
| CacheEntryPinned (key reason : string)
| CacheEntryActive (key reason : string)
| CacheEntryNotFound (key : string)
| Memory (msg : string)
| Authz (msg : string)
| Network (msg : string)
| Io (msg : string)
(** The duration, as it is printed. *)
| Timeout (duration : string).

(** [Display] of the errors above. *)
Definition error_text (e : AosError) : string :=
  match e with
  | InvalidHash m => "Invalid hash: " +:+ m
  | Parse m => "Parse error: " +:+ m
  | PolicyViolation m => "Policy violation: " +:+ m
  | Worker m => "Worker error: " +:+ m
  | Config m => "Configuration error: " +:+ m
  | Telemetry m => "Telemetry error: " +:+ m
  | DeterminismViolation m => "Determinism violation: " +:+ m
  | MemoryPressure m => "Memory pressure: " +:+ m
  | QuotaExceeded r _ => "Quota exceeded for resource '" +:+ r +:+ "'"
  | Validation m => "Validation error: " +:+ m
  | Lifecycle m => "Lifecycle error: " +:+ m
  | Internal m => "Internal error: " +:+ m
  | CircuitBreakerOpen s => "Circuit breaker is open for service '" +:+ s +:+ "'"
  | CircuitBreakerHalfOpen s => "Circuit breaker is half-open for service '" +:+ s +:+ "'"
  | Kernel m => "Kernel error: " +:+ m
  | Database m => "Database error: " +:+ m
  | ResourceExhaustion m => "Resource exhaustion: " +:+ m
  | NotFound m => "Not found: " +:+ m
  | IsolationViolation m => "Isolation violation: " +:+ m
  | FileDescriptorExhausted c l _ =>
      "File descriptor limit reached: " +:+ pretty c +:+ "/" +:+ pretty l +:+ " descriptors in use"
  | ThreadPoolSaturated a m q _ =>
      "Thread pool saturated: " +:+ pretty a +:+ "/" +:+ pretty m +:+ " threads busy, "
      +:+ pretty q +:+ " tasks queued"
  | InvalidRateLimitConfig _ _ r => "Invalid rate limit config: " +:+ r
  | Routing m => "Routing error: " +:+ m
  | Crypto m => "Cryptographic error: " +:+ m
  | CacheBudgetExceeded needed freed pinned active max _ =>
      "Model cache budget exceeded: needed " +:+ pretty needed +:+ " MB, freed " +:+ pretty freed
      +:+ " MB (pinned=" +:+ pretty pinned +:+ ", active=" +:+ pretty active +:+ "), max "
      +:+ pretty max +:+ " MB"
  | CacheEntryPinned k r => "Cache entry pinned: " +:+ k +:+ " - " +:+ r
  | CacheEntryActive k r => "Cache entry active: " +:+ k +:+ " - " +:+ r
  | CacheEntryNotFound k => "Cache entry not found: " +:+ k
  | Memory m => "Memory error: " +:+ m
  | Authz m => "Authorization error: " +:+ m
  | Network m => "Network error: " +:+ m
  | Io m => "IO error: " +:+ m
  | Timeout d => "Timeout waiting for response after " +:+ d
  end.

(** [str::contains]. *)
Fixpoint str_contains (needle hay : string) : bool :=
  String.prefix needle hay
  || match hay with EmptyString => false | String _ hay' => str_contains needle hay' end.

(** ** Machine integers

    A [u64] (and [usize], on the 64-bit targets the program supports) is a [Z]
    in [0, 2^64); the operations below are the ones the code calls. *)

Definition u64_mod : Z := 2 ^ 64.
Definition u64_max : Z := u64_mod - 1.
Definition u32_mod : Z := 2 ^ 32.
Definition u32_max : Z := u32_mod - 1.

Definition is_u64 (z : Z) : Prop := (0 <= z < u64_mod)%Z.
Definition is_u32 (z : Z) : Prop := (0 <= z < u32_mod)%Z.

(** [fetch_add]/[fetch_sub] on an [AtomicU64], [wrapping_add], [wrapping_sub]. *)
Definition u64_wrapping_add (a b : Z) : Z := ((a + b) mod u64_mod)%Z.
Definition u64_wrapping_sub (a b : Z) : Z := ((a - b) mod u64_mod)%Z.
Definition u64_wrapping_mul (a b : Z) : Z := ((a * b) mod u64_mod)%Z.
(** [u64::saturating_add], [saturating_sub]. *)
Definition u64_saturating_add (a b : Z) : Z := Z.min (a + b) u64_max.
Definition u64_saturating_mul (a b : Z) : Z := Z.min (a * b) u64_max.
Definition saturating_sub (a b : Z) : Z := Z.max 0 (a - b).
(** [u64::checked_add], [checked_sub]. *)
Definition u64_checked_add (a b : Z) : option Z :=
  if (a + b <=? u64_max)%Z then Some (a + b)%Z else None.
Definition u64_checked_sub (a b : Z) : option Z :=
  if (b <=? a)%Z then Some (a - b)%Z else None.

Definition u64_checked_mul (a b : Z) : option Z :=
  if (a * b <=? u64_max)%Z then Some (a * b)%Z else None.

#[export] Instance is_u64_dec z : Decision (is_u64 z).
Proof. unfold is_u64; apply _. Defined.
#[export] Instance is_u32_dec z : Decision (is_u32 z).
Proof. unfold is_u32; apply _. Defined.

(** ** Stable sorting

    [slice::sort_by] is a stable sort; [leb x y] holds when the comparator does
    not answer [Greater] on [x], [y]. *)

Section StableSort.
Context {A : Type} (leb : A -> A -> bool).

Fixpoint sorted_insert (x : A) (l : list A) : list A :=
  match l with
  | [] => [x]
  | y :: l' => if leb x y then x :: l else y :: sorted_insert x l'
  end.

Fixpoint stable_sort (l : list A) : list A :=
  match l with
  | [] => []
  | x :: l' => sorted_insert x (stable_sort l')
  end.

Lemma sorted_insert_perm x l : sorted_insert x l ≡ₚ x :: l.
Proof.
  induction l as [|y l IH]; simpl; [done|].
  destruct (leb x y); [done|]. rewrite IH. by apply Permutation_swap.
Qed.

Lemma stable_sort_perm l : stable_sort l ≡ₚ l.
Proof.
  induction l as [|x l IH]; simpl; [done|]. by rewrite sorted_insert_perm, IH.
Qed.

Lemma stable_sort_id l : StronglySorted (fun a b => leb a b = true) l -> stable_sort l = l.
Proof.
  induction 1 as [|x l _ IH Hx]; simpl; [done|]. rewrite IH.
  destruct Hx as [|y l Hy _]; simpl; [done|]. by rewrite Hy.
Qed.

Hypothesis leb_total : forall x y, leb x y = false -> leb y x = true.
Hypothesis leb_trans : forall x y z, leb x y = true -> leb y z = true -> leb x z = true.

Lemma sorted_insert_sorted x l :
  StronglySorted (fun a b => leb a b = true) l ->
  StronglySorted (fun a b => leb a b = true) (sorted_insert x l).
Proof.
  induction 1 as [|y l Hl IH Hy]; simpl; [by repeat constructor|].
  destruct (leb x y) eqn:E.
  - constructor; [by constructor|]. constructor; [done|].
    eapply Forall_impl; [exact Hy|]. eauto.
  - constructor; [done|]. rewrite sorted_insert_perm.
    constructor; eauto.
Qed.

Lemma stable_sort_sorted l :
  StronglySorted (fun a b => leb a b = true) (stable_sort l).
Proof. induction l; simpl; [constructor|]. by apply sorted_insert_sorted. Qed.
End StableSort.

(** Two comparators that agree on the elements of a list sort it alike. *)
Lemma stable_sort_ext {A} (leb leb' : A -> A -> bool) l :
  (forall x y, x ∈ l -> y ∈ l -> leb x y = leb' x y) -> stable_sort leb l = stable_sort leb' l.
Proof.
  induction l as [|x l IH]; intros H; simpl; [done|].
  rewrite IH by (intros; apply H; by right).
  assert (forall k, (forall y, y ∈ k -> y ∈ l) -> sorted_insert leb x k = sorted_insert leb' x k) as Hi.
  { intros k. induction k as [|y k IHk]; intros Hk; simpl; [done|].
    rewrite H by first [by left|right; apply Hk; by left].
    rewrite IHk by (intros; apply Hk; by right). done. }
  apply Hi. intros y. by rewrite stable_sort_perm.
Qed.

(** The first element of an ascending list that passes a test is least among those that do. *)
Lemma find_sorted_least {A} (leb : A -> A -> bool) (p : A -> bool) l a :
  StronglySorted (fun x y => leb x y = true) l -> List.find p l = Some a ->
  forall b, b ∈ l -> p b = true -> b = a \/ leb a b = true.
Proof.
  induction 1 as [|x l _ IH Hx]; simpl; [done|].
  destruct (p x) eqn:Ep.
  - intros [= ->] b [->|Hb]%elem_of_cons Hp; [by left|right]. rewrite Forall_forall in Hx. by apply Hx.
  - intros Hf b [->|Hb]%elem_of_cons Hp; [congruence|by apply IH].
Qed.

(** ** Sums over lists *)

Fixpoint sumZ (l : list Z) : Z :=
  match l with [] => 0 | z :: l' => z + sumZ l' end%Z.

Lemma sumZ_app l k : sumZ (l ++ k) = (sumZ l + sumZ k)%Z.
Proof. induction l; simpl; lia. Qed.

#[export] Instance sumZ_perm : Proper ((≡ₚ) ==> (=)) sumZ.
Proof. intros l k H. induction H; simpl in *; lia. Qed.

Lemma sumZ_nonneg l : Forall (fun z => 0 <= z)%Z l -> (0 <= sumZ l)%Z.
Proof. induction 1; simpl; lia. Qed.

Lemma sumZ_map_nonneg {A} (f : A -> Z) l :
  (forall x, In x l -> 0 <= f x)%Z -> (0 <= sumZ (map f l))%Z.
Proof.
  intros H. apply sumZ_nonneg, List.Forall_map, List.Forall_forall, H.
Qed.

Lemma sumZ_map_insert {A} (f : A -> Z) l i x y :
  l !! i = Some x -> sumZ (map f (<[i := y]> l)) = (sumZ (map f l) - f x + f y)%Z.
Proof.
  revert i. induction l as [|z l IH]; intros [|i]; simpl; try done.
  - intros [= ->]. lia.
  - intros Hi. rewrite (IH i Hi). lia.
Qed.

(** A list splits, as far as a sum is concerned, along a boolean test
    ([Vec::retain] keeps the first half). *)
Lemma sumZ_filter_split {A} (p : A -> bool) (f : A -> Z) (l : list A) :
  sumZ (map f l)
  = (sumZ (map f (List.filter p l)) + sumZ (map f (List.filter (fun x => negb (p x)) l)))%Z.
Proof. induction l as [|x l IH]; simpl; [done|]. destruct (p x); simpl; lia. Qed.

#[export] Instance List_filter_perm {A} (p : A -> bool) :
  Proper ((≡ₚ) ==> (≡ₚ)) (List.filter p).
Proof.
  intros l k H. induction H as [|x l k _ IH|x y l|l k m _ IH1 _ IH2]; simpl; [done| | |by etrans].
  - destruct (p x); by rewrite IH.
  - destruct (p x), (p y); try done. apply Permutation_swap.
Qed.

Lemma filter_split_perm {A} (p : A -> bool) (l : list A) :
  List.filter p l ++ List.filter (fun x => negb (p x)) l ≡ₚ l.
Proof.
  induction l as [|x l IH]; simpl; [done|]. destruct (p x); simpl.
  - by constructor.
  - rewrite <- Permutation_middle. by constructor.
Qed.

(** ** Runs of a transition system *)

Lemma prefix_app_self a b : String.prefix a (a +:+ b) = true.
Proof.
  induction a as [|c a IH]; simpl; [by destruct b|].
  by destruct (Ascii.ascii_dec c c).
Qed.

Lemma str_contains_prefix a b : str_contains a (a +:+ b) = true.
Proof.
  pose proof (prefix_app_self a b) as H.
  destruct (a +:+ b); simpl in *; by rewrite H.
Qed.

(** Rule induction on [rtc] for a state invariant. *)
Lemma rtc_invariant {A} (R : relation A) (I : A -> Prop) x y :
  (forall a b, I a -> R a b -> I b) -> I x -> rtc R x y -> I y.
Proof. intros Hstep Hx Hxy. induction Hxy; eauto. Qed.

(** ** Automation *)

Create HintDb aos.
#[export] Hint Resolve sumZ_nonneg : aos.
#[export] Hint Rewrite @sumZ_app : aos.

(** Case analysis on every test an unfolded handler branches on. *)
Ltac branch :=
  repeat match goal with
  | H : context [match ?x with _ => _ end] |- _ =>
      lazymatch type of x with
      | sumbool _ _ => destruct x
      | _ => destruct x eqn:?
      end; try discriminate
  | |- context [match ?x with _ => _ end] =>
      lazymatch type of x with
      | sumbool _ _ => destruct x
      | _ => destruct x eqn:?
      end; try discriminate
  end.

(** Turn the boolean tests of the code into propositions. *)
Ltac breflect :=
  repeat match goal with
  | H : (_ <? _)%Z = true |- _ => apply Z.ltb_lt in H
  | H : (_ <? _)%Z = false |- _ => apply Z.ltb_ge in H
  | H : (_ <=? _)%Z = true |- _ => apply Z.leb_le in H
  | H : (_ <=? _)%Z = false |- _ => apply Z.leb_gt in H
  | H : (_ =? _)%Z = true |- _ => apply Z.eqb_eq in H
  | H : (_ =? _)%Z = false |- _ => apply Z.eqb_neq in H
  | H : (_ <? _)%nat = true |- _ => apply Nat.ltb_lt in H
  | H : (_ <? _)%nat = false |- _ => apply Nat.ltb_ge in H
  | H : (_ <=? _)%nat = true |- _ => apply Nat.leb_le in H
  | H : (_ <=? _)%nat = false |- _ => apply Nat.leb_gt in H
  | H : (_ =? _)%nat = true |- _ => apply Nat.eqb_eq in H
  | H : (_ =? _)%nat = false |- _ => apply Nat.eqb_neq in H
  | H : bool_decide _ = true |- _ => apply bool_decide_eq_true in H
  | H : bool_decide _ = false |- _ => apply bool_decide_eq_false in H
  | H : (_ && _) = true |- _ => apply andb_true_iff in H; destruct H
  | H : (_ || _) = false |- _ => apply orb_false_iff in H; destruct H
  | H : negb _ = true |- _ => apply negb_true_iff in H
  | H : negb _ = false |- _ => apply negb_false_iff in H
  end.

(** Range side conditions on machine integers. *)
Ltac solve_range :=
  unfold is_u64, is_u32, u64_max, u32_max, u64_mod, u32_mod in *; lia.

(** Arithmetic of machine integers in range. *)
Lemma u64_wrapping_add_small a b :
  (0 <= a + b < u64_mod)%Z -> u64_wrapping_add a b = (a + b)%Z.
Proof. apply Z.mod_small. Qed.

Lemma u64_wrapping_sub_small a b :
  (0 <= a - b < u64_mod)%Z -> u64_wrapping_sub a b = (a - b)%Z.
Proof. apply Z.mod_small. Qed.

Lemma u64_wrapping_add_range a b : is_u64 (u64_wrapping_add a b).
Proof. by apply Z.mod_pos_bound. Qed.

Lemma u64_wrapping_sub_range a b : is_u64 (u64_wrapping_sub a b).
Proof. by apply Z.mod_pos_bound. Qed.

Lemma u64_saturating_add_range a b :
  is_u64 a -> is_u64 b -> is_u64 (u64_saturating_add a b).
Proof. unfold is_u64, u64_saturating_add, u64_max, u64_mod. lia. Qed.

#[export] Hint Resolve u64_wrapping_add_range u64_wrapping_sub_range
  u64_saturating_add_range : aos.

(** ** Updating one field of a record

    [self.f = v] of the source, written [self <| f := v |>]: the record is taken apart,
    the field that the projection reads is replaced, the others are kept. *)

Class Setter {R T : Type} (proj : R -> T) : Type := set_field : T -> R -> R.
Arguments set_field {R T} proj {_} v r.

Ltac build_setter proj :=
  let v := fresh "v" in let r := fresh "r" in let w := fresh "w" in
  intros v r; pose (w := proj r); destruct r;
  match goal with
  | w := _ ?c |- _ =>
      let x := eval cbn in (proj c) in
      let p := eval pattern x in c in
      match p with ?f _ => let t := eval cbn beta in (f v) in clear w; exact t end
  end.

Ltac solve_setter proj :=
  match type of proj with
  | ?R -> ?T =>
      let t := constr:(ltac:(build_setter proj) : T -> R -> R) in
      let t := eval cbv beta zeta in t in exact t
  end.

#[export] Hint Extern 0 (Setter ?proj) => solve_setter proj : typeclass_instances.

Notation "r '<|' f ':=' v '|>'" := (set_field f v r)
  (at level 8, left associativity, format "r  '<|'  f  ':='  v  '|>'") : aos_scope.
