(* ===== verification/Float32.v ===== *)
(** Single-precision floating point, as the [f32] of the source computes with it:
    the executable IEEE 754 operations of the Standard Library at a precision of 24
    bits and a largest exponent of 128, rounding to nearest, ties to even. *)

From S2P Require Import Prelude.
From Stdlib Require Import SpecFloat.

Declare Scope f32_scope.
Delimit Scope f32_scope with f32.

Definition f32 : Type := spec_float.

(** [n as f32] for an integer. *)
Definition f32_of_Z (z : Z) : f32 := binary_normalize 24 128 z 0 false.

Definition f32_add (x y : f32) : f32 := SFadd 24 128 x y.
Definition f32_sub (x y : f32) : f32 := SFsub 24 128 x y.
Definition f32_mul (x y : f32) : f32 := SFmul 24 128 x y.
Definition f32_div (x y : f32) : f32 := SFdiv 24 128 x y.
Definition f32_abs (x : f32) : f32 := SFabs x.

(** [PartialOrd]: [<], [<=] and [partial_cmp], none of which holds of a NaN. *)
Definition f32_lt (x y : f32) : bool := SFltb x y.
Definition f32_le (x y : f32) : bool := SFleb x y.
Definition f32_partial_cmp (x y : f32) : option comparison := SFcompare x y.

Infix "+" := f32_add : f32_scope.
Infix "-" := f32_sub : f32_scope.
Infix "*" := f32_mul : f32_scope.
Infix "/" := f32_div : f32_scope.
Infix "<?" := f32_lt : f32_scope.
Infix "<=?" := f32_le : f32_scope.
Notation "x >? y" := (f32_lt y x) : f32_scope.

Definition f32_is_nan (x : f32) : bool :=
  match x with S754_nan => true | _ => false end.

(** [f32::min]: the other argument when one is a NaN. *)
Definition f32_min (x y : f32) : f32 :=
  if f32_is_nan x then y else if f32_is_nan y then x else if f32_lt y x then y else x.

(** A decimal literal [num / den]. Both are exact in single precision, so that one
    correctly rounded division gives the nearest [f32]. *)
Definition f32_lit (num den : Z) : f32 := f32_div (f32_of_Z num) (f32_of_Z den).

Definition f32_zero : f32 := f32_lit 0 1.
Definition f32_one : f32 := f32_lit 1 1.

(** [x as usize]: towards zero, saturating, zero for a NaN. *)
Definition f32_as_usize (x : f32) : Z :=
  match x with
  | S754_nan | S754_zero _ => 0
  | S754_infinity s => if s then 0 else u64_max
  | S754_finite s m e =>
      if s then 0 else Z.min u64_max (Z.shiftl (Zpos m) e)
  end.

(** ** The order *)

Lemma f32_cmp_opp x y :
  f32_partial_cmp y x = option_map CompOpp (f32_partial_cmp x y).
Proof.
  unfold f32_partial_cmp.
  destruct x as [[]|[]| |[] m e], y as [[]|[]| |[] m' e']; simpl; try done;
    rewrite (Z.compare_antisym e e'); destruct (Z.compare e e'); simpl; try done;
    change (Pos.compare_cont Eq m' m) with (Pos.compare_cont (CompOpp Eq) m' m);
    rewrite <- (Pos.compare_cont_antisym m m' Eq);
    by destruct (Pos.compare_cont Eq m m').
Qed.

Lemma f32_cmp_nan x y :
  f32_partial_cmp x y = None <-> f32_is_nan x = true \/ f32_is_nan y = true.
Proof. destruct x as [[]|[]| |[] m e], y as [[]|[]| |[] m' e']; simpl; naive_solver. Qed.

Lemma f32_lt_irrefl x : f32_lt x x = false.
Proof.
  unfold f32_lt, SFltb. pose proof (f32_cmp_opp x x) as H. unfold f32_partial_cmp in H.
  by destruct (SFcompare x x) as [[]|].
Qed.

Lemma f32_lt_asym x y : f32_lt x y = true -> f32_lt y x = false.
Proof.
  unfold f32_lt, SFltb. pose proof (f32_cmp_opp x y) as H. unfold f32_partial_cmp in H.
  rewrite H. by destruct (SFcompare x y) as [[]|].
Qed.

(** The position of a number: its sign, then its exponent, then its mantissa. *)
Definition f32_key (x : f32) : Z * Z * Z :=
  match x with
  | S754_infinity true => (-2, 0, 0)
  | S754_finite true m e => (-1, - e, Zneg m)
  | S754_zero _ => (0, 0, 0)
  | S754_finite false m e => (1, e, Zpos m)
  | S754_infinity false => (2, 0, 0)
  | S754_nan => (3, 0, 0)
  end%Z.

Definition key_compare (a b : Z * Z * Z) : comparison :=
  let '(a1, a2, a3) := a in
  let '(b1, b2, b3) := b in
  match Z.compare a1 b1 with
  | Eq => match Z.compare a2 b2 with Eq => Z.compare a3 b3 | c => c end
  | c => c
  end.

Lemma f32_cmp_key x y :
  f32_is_nan x = false -> f32_is_nan y = false ->
  f32_partial_cmp x y = Some (key_compare (f32_key x) (f32_key y)).
Proof.
  unfold f32_partial_cmp.
  destruct x as [[]|[]| |[] m e], y as [[]|[]| |[] m' e']; simpl; intros; try done.
  - rewrite Z.compare_opp. rewrite (Z.compare_antisym e e').
    by destruct (Z.compare e e').
Qed.

Lemma key_compare_not_gt a b c :
  key_compare a b <> Gt -> key_compare b c <> Gt -> key_compare a c <> Gt.
Proof.
  destruct a as [[a1 a2] a3], b as [[b1 b2] b3], c as [[c1 c2] c3]. unfold key_compare.
  repeat match goal with |- context [Z.compare ?x ?y] => destruct (Z.compare_spec x y) end;
    subst; try done; lia.
Qed.

(** The comparator [a.partial_cmp(&b).unwrap_or(Equal)] as the test of a stable
    sort, on keys of type [f32]. *)
Definition f32_leb (x y : f32) : bool :=
  match f32_partial_cmp x y with Some Gt => false | _ => true end.

Lemma f32_leb_total x y : f32_leb x y = false -> f32_leb y x = true.
Proof.
  unfold f32_leb. rewrite (f32_cmp_opp x y). by destruct (f32_partial_cmp x y) as [[]|].
Qed.

Lemma f32_leb_trans x y z :
  f32_is_nan x = false -> f32_is_nan y = false -> f32_is_nan z = false ->
  f32_leb x y = true -> f32_leb y z = true -> f32_leb x z = true.
Proof.
  unfold f32_leb. intros Hx Hy Hz. rewrite !f32_cmp_key by done.
  pose proof (key_compare_not_gt (f32_key x) (f32_key y) (f32_key z)) as H.
  destruct (key_compare (f32_key x) (f32_key y)), (key_compare (f32_key y) (f32_key z)),
    (key_compare (f32_key x) (f32_key z)); try done; intros; exfalso; by apply H.
Qed.

Lemma f32_leb_lt x y :
  f32_is_nan x = false -> f32_is_nan y = false -> f32_leb x y = negb (f32_lt y x).
Proof.
  unfold f32_leb, f32_lt, SFltb. intros Hx Hy.
  pose proof (f32_cmp_opp x y) as H. unfold f32_partial_cmp in *. rewrite H.
  by destruct (SFcompare x y) as [[]|].
Qed.

(** The same order on positions, NaNs last: total, and the comparator's on numbers. *)
Definition f32_key_leb (x y : f32) : bool :=
  match key_compare (f32_key x) (f32_key y) with Gt => false | _ => true end.

Lemma f32_key_leb_trans x y z :
  f32_key_leb x y = true -> f32_key_leb y z = true -> f32_key_leb x z = true.
Proof.
  unfold f32_key_leb. pose proof (key_compare_not_gt (f32_key x) (f32_key y) (f32_key z)) as H.
  destruct (key_compare (f32_key x) (f32_key y)), (key_compare (f32_key y) (f32_key z)),
    (key_compare (f32_key x) (f32_key z)); try done; intros; exfalso; by apply H.
Qed.

Lemma f32_key_leb_total x y : f32_key_leb x y = false -> f32_key_leb y x = true.
Proof.
  unfold f32_key_leb. destruct (f32_key x) as [[a1 a2] a3], (f32_key y) as [[b1 b2] b3]. unfold key_compare.
  rewrite (Z.compare_antisym a1 b1), (Z.compare_antisym a2 b2), (Z.compare_antisym a3 b3).
  by destruct (Z.compare a1 b1), (Z.compare a2 b2), (Z.compare a3 b3).
Qed.

Lemma f32_leb_key x y :
  f32_is_nan x = false -> f32_is_nan y = false -> f32_leb x y = f32_key_leb x y.
Proof. intros. unfold f32_leb, f32_key_leb. by rewrite f32_cmp_key. Qed.

(** Nothing divided by something is not above a positive number. *)
Lemma f32_zero_share l x :
  f32_lt (f32_of_Z 0) l = true -> f32_lt l (f32_div (f32_of_Z 0) x) = false.
Proof.
  unfold f32_lt, f32_div, f32_of_Z. simpl.
  destruct l as [[]|[]| |[] m e]; try done; by destruct x as [[]|[]| |[] m' e'].
Qed.

(** ** Double precision

    The [f64] of the source: a precision of 53 bits and a largest exponent of 1024. *)

Definition f64 : Type := spec_float.

Definition f64_of_Z (z : Z) : f64 := binary_normalize 53 1024 z 0 false.
Definition f64_add (x y : f64) : f64 := SFadd 53 1024 x y.
Definition f64_sub (x y : f64) : f64 := SFsub 53 1024 x y.
Definition f64_mul (x y : f64) : f64 := SFmul 53 1024 x y.
Definition f64_div (x y : f64) : f64 := SFdiv 53 1024 x y.
Definition f64_lt (x y : f64) : bool := SFltb x y.
Definition f64_le (x y : f64) : bool := SFleb x y.

(** [f64::min] and the literal [num / den]. *)
Definition f64_min (x y : f64) : f64 :=
  if f32_is_nan x then y else if f32_is_nan y then x else if f64_lt y x then y else x.
Definition f64_lit (num den : Z) : f64 := f64_div (f64_of_Z num) (f64_of_Z den).

(** [x as u64]. *)
Definition f64_as_u64 (x : f64) : Z := f32_as_usize x.

Lemma f64_as_u64_range x : (0 <= f64_as_u64 x <= u64_max)%Z.
Proof.
  unfold f64_as_u64, f32_as_usize. assert (0 <= u64_max)%Z by done.
  destruct x as [s|[]| |[] m e]; try lia.
  assert (0 <= Z.shiftl (Z.pos m) e)%Z by (apply Z.shiftl_nonneg; lia). lia.
Qed.
