(* ===== verification/KvQuota.v ===== *)
(** * Per-tenant KV cache quota (adapteros-lora-worker/src/kv_quota.rs)

    The state of [TenantKvQuotaManager] and each of its operations. Every
    mutating operation of the source runs under [usage_lock], so an operation is
    one step. Clock readings ([Instant::now], [SystemTime::now]) are arguments,
    in nanoseconds. The floating-point [usage_pct] of [usage] is not modelled. *)

From S2P Require Import Prelude.
#[local] Open Scope string_scope.
#[local] Open Scope Z_scope.

Module KvQuota.

Definition RESERVATION_TIMEOUT : Z := 300 * 1000000000.

Record KvReservation := mkReservation {
  id : string;
  size_bytes : Z;
  created_at : Z;
  expires_at : Z
}.

Definition KvReservation_new (now : Z) (id : string) (size : Z) : KvReservation :=
  {| id := id; size_bytes := size; created_at := now; expires_at := now + RESERVATION_TIMEOUT |}.

Definition is_expired (now : Z) (r : KvReservation) : bool := expires_at r <? now.

Record TenantKvQuotaManager := mkQuota {
  tenant_id : string;
  quota_bytes : option Z;
  used_bytes : Z;
  reserved_bytes : Z;
  reservations : list KvReservation;
  evictions : Z;
  quota_enforced : bool
}.

Definition new (tenant : string) (quota : option Z) : TenantKvQuotaManager :=
  {| tenant_id := tenant; quota_bytes := quota; used_bytes := 0; reserved_bytes := 0;
     reservations := []; evictions := 0;
     quota_enforced := match quota with Some _ => true | None => false end |}.

(** The three counters and the reservation list, replaced. *)
Definition set_usage (q : TenantKvQuotaManager) (used reserved : Z) (rs : list KvReservation) :=
  {| tenant_id := tenant_id q; quota_bytes := quota_bytes q; used_bytes := used;
     reserved_bytes := reserved; reservations := rs; evictions := evictions q;
     quota_enforced := quota_enforced q |}.

Definition quota_error (q : TenantKvQuotaManager) (total_needed quota : Z) : AosError :=
  MemoryPressure
    ("KV quota exceeded" +:+ (" for tenant " +:+ tenant_id q +:+ ": need " +:+ pretty total_needed
     +:+ " bytes, quota " +:+ pretty quota +:+ " bytes (used: " +:+ pretty (used_bytes q)
     +:+ ", reserved: " +:+ pretty (reserved_bytes q) +:+ ")")).

Definition check_quota (q : TenantKvQuotaManager) (bytes : Z) : result unit AosError :=
  match quota_bytes q with
  | None => Ok tt
  | Some quota =>
      let total_needed :=
        u64_saturating_add (u64_saturating_add (used_bytes q) (reserved_bytes q)) bytes in
      if quota <? total_needed then Err (quota_error q total_needed quota) else Ok tt
  end.

(** The accumulator of [retain]'s closure. *)
Definition expired_bytes (now : Z) (rs : list KvReservation) : Z :=
  foldl (fun acc r => if is_expired now r then u64_wrapping_add acc (size_bytes r) else acc) 0 rs.

Definition cleanup_expired (now : Z) (q : TenantKvQuotaManager) : TenantKvQuotaManager :=
  let expired := expired_bytes now (reservations q) in
  let kept := List.filter (fun r => negb (is_expired now r)) (reservations q) in
  if 0 <? expired
  then set_usage q (used_bytes q) (u64_wrapping_sub (reserved_bytes q) expired) kept
  else set_usage q (used_bytes q) (reserved_bytes q) kept.

Definition reservation_id (q : TenantKvQuotaManager) (nanos : Z) : string :=
  "kvres_" +:+ tenant_id q +:+ "_" +:+ pretty nanos.

(** [reserve]: expired reservations are dropped even when the quota check then
    fails, so the manager is returned on both branches. *)
Definition reserve (now nanos bytes : Z) (q0 : TenantKvQuotaManager)
  : result KvReservation AosError * TenantKvQuotaManager :=
  let q := cleanup_expired now q0 in
  match check_quota q bytes with
  | Err e => (Err e, q)
  | Ok _ =>
      let r := KvReservation_new now (reservation_id q nanos) bytes in
      (Ok r, set_usage q (used_bytes q) (u64_wrapping_add (reserved_bytes q) bytes)
               (reservations q ++ [r]))
  end.

Definition remove_id (i : string) (rs : list KvReservation) : list KvReservation :=
  List.filter (fun r => negb (String.eqb (id r) i)) rs.

Definition finalize (r : KvReservation) (q : TenantKvQuotaManager)
  : result unit AosError * TenantKvQuotaManager :=
  (Ok tt, set_usage q (u64_wrapping_add (used_bytes q) (size_bytes r))
            (u64_wrapping_sub (reserved_bytes q) (size_bytes r))
            (remove_id (id r) (reservations q))).

Definition rollback (r : KvReservation) (q : TenantKvQuotaManager) : TenantKvQuotaManager :=
  set_usage q (used_bytes q) (u64_wrapping_sub (reserved_bytes q) (size_bytes r))
    (remove_id (id r) (reservations q)).

Definition release (bytes : Z) (q : TenantKvQuotaManager) : TenantKvQuotaManager :=
  set_usage q (u64_wrapping_sub (used_bytes q) bytes) (reserved_bytes q) (reservations q).

Definition set_evictions (q : TenantKvQuotaManager) (n : Z) : TenantKvQuotaManager :=
  {| tenant_id := tenant_id q; quota_bytes := quota_bytes q; used_bytes := used_bytes q;
     reserved_bytes := reserved_bytes q; reservations := reservations q; evictions := n;
     quota_enforced := quota_enforced q |}.

Definition record_eviction (q : TenantKvQuotaManager) : TenantKvQuotaManager :=
  set_evictions q ((evictions q + 1) mod u32_mod).

Definition reset_evictions (q : TenantKvQuotaManager) : TenantKvQuotaManager :=
  set_evictions q 0.

Record KvQuotaUsage := mkUsage {
  usage_used : Z; usage_reserved : Z; usage_quota : option Z; available_bytes : Z
}.

Definition usage (q : TenantKvQuotaManager) : KvQuotaUsage :=
  let total := u64_wrapping_add (used_bytes q) (reserved_bytes q) in
  {| usage_used := used_bytes q; usage_reserved := reserved_bytes q;
     usage_quota := quota_bytes q;
     available_bytes := match quota_bytes q with
                        | Some quota => saturating_sub quota total
                        | None => u64_max
                        end |}.

#[local] Arguments reservation_id : simpl never.
#[local] Arguments quota_error : simpl never.

(** ** Invariant *)

(** Bytes of the reservations still on the list. *)
Definition live_bytes (q : TenantKvQuotaManager) : Z := sumZ (map size_bytes (reservations q)).

(** The counters agree with the reservation list, and a quota bounds them. A quota
    of [u64::MAX] is excluded: there the saturating total of [check_quota] cannot
    exceed the quota, so that value means unlimited. *)
Record wf (q : TenantKvQuotaManager) : Prop := {
  wf_used : is_u64 (used_bytes q);
  wf_sizes : Forall (fun r => is_u64 (size_bytes r)) (reservations q);
  wf_reserved : reserved_bytes q = live_bytes q mod u64_mod;
  wf_ids : NoDup (map id (reservations q));
  wf_quota : forall quota, quota_bytes q = Some quota ->
    0 <= quota < u64_max /\ used_bytes q + live_bytes q <= quota
}.

(** One call on the manager. A reservation is finalized or rolled back while it
    is on the list, and no more is released than was allocated: the protocol of
    the callers. Reservation ids are clock readings; [fresh] is that the reading
    differs from those of the live reservations. *)
Inductive step (q : TenantKvQuotaManager) : TenantKvQuotaManager -> Prop :=
| step_reserve now nanos bytes :
    is_u64 bytes ->
    reservation_id q nanos ∉ map id (reservations (cleanup_expired now q)) ->
    step q (reserve now nanos bytes q).2
| step_finalize r : In r (reservations q) -> step q (finalize r q).2
| step_rollback r : In r (reservations q) -> step q (rollback r q)
| step_release bytes : 0 <= bytes <= used_bytes q -> step q (release bytes q)
| step_record_eviction : step q (record_eviction q)
| step_reset_evictions : step q (reset_evictions q).

(** ** Lemmas on the reservation list *)

Lemma sizes_nonneg q : wf q -> 0 <= live_bytes q.
Proof.
  intros H. apply sumZ_map_nonneg. intros r Hr.
  pose proof (proj1 (List.Forall_forall _ _) (wf_sizes q H) r Hr) as Hs. by destruct Hs.
Qed.

Lemma expired_bytes_mod now rs :
  expired_bytes now rs = sumZ (map size_bytes (List.filter (is_expired now) rs)) mod u64_mod.
Proof.
  unfold expired_bytes.
  assert (forall acc, is_u64 acc ->
    foldl (fun acc r => if is_expired now r then u64_wrapping_add acc (size_bytes r) else acc) acc rs
    = (acc + sumZ (map size_bytes (List.filter (is_expired now) rs))) mod u64_mod) as Hgen.
  { induction rs as [|r rs IH]; intros acc Hacc; simpl.
    - rewrite Z.add_0_r. symmetry. by apply Z.mod_small.
    - destruct (is_expired now r); simpl; rewrite IH; auto with aos.
      unfold u64_wrapping_add. rewrite Zplus_mod_idemp_l. f_equal. lia. }
  rewrite Hgen; [by rewrite Z.add_0_l | unfold is_u64, u64_mod; lia].
Qed.

Lemma live_split now q :
  live_bytes q
  = sumZ (map size_bytes (List.filter (is_expired now) (reservations q)))
    + sumZ (map size_bytes (List.filter (fun r => negb (is_expired now r)) (reservations q))).
Proof. apply sumZ_filter_split. Qed.

Lemma remove_id_split i rs r :
  NoDup (map id rs) -> In r rs -> id r = i ->
  sumZ (map size_bytes rs) = size_bytes r + sumZ (map size_bytes (remove_id i rs)).
Proof.
  induction rs as [|x rs IH]; simpl; [done|].
  intros Hnd [->|Hin] Hid; apply NoDup_cons in Hnd as [Hx Hnd].
  - rewrite Hid, String.eqb_refl; simpl. f_equal. f_equal. f_equal.
    unfold remove_id. clear IH. induction rs as [|y rs IH]; simpl; [done|].
    simpl in Hx. destruct (String.eqb_spec (id y) i) as [E|E]; simpl.
    + exfalso. apply Hx. subst i. rewrite <- E. constructor.
    + f_equal. apply IH; [intros ?; apply Hx; by constructor|].
      by apply NoDup_cons in Hnd as [_ Hnd].
  - destruct (String.eqb_spec (id x) i) as [E|E]; simpl.
    + exfalso. apply Hx. rewrite E, <- Hid. by apply list_elem_of_In, in_map.
    + rewrite (IH Hnd Hin Hid). lia.
Qed.

Lemma NoDup_map_filter {A B} (f : A -> B) (p : A -> bool) l :
  NoDup (map f l) -> NoDup (map f (List.filter p l)).
Proof.
  induction l as [|x l IH]; simpl; [done|].
  intros [Hx Hnd]%NoDup_cons. destruct (p x); simpl; [|auto].
  apply NoDup_cons; split; [|auto].
  rewrite list_elem_of_In in Hx |- *. intros (y & Hy & Hin)%in_map_iff.
  apply Hx. rewrite <- Hy. apply in_map. by apply filter_In in Hin as [? _].
Qed.

Lemma Forall_List_filter {A} (P : A -> Prop) (p : A -> bool) l :
  Forall P l -> Forall P (List.filter p l).
Proof. induction 1; simpl; [done|]. destruct (p x); auto. Qed.

#[local] Hint Resolve NoDup_map_filter Forall_List_filter : aos.

(** ** Preservation of the invariant, operation by operation *)

Lemma new_wf tenant quota :
  (forall n, quota = Some n -> 0 <= n < u64_max) -> wf (new tenant quota).
Proof.
  intros H. split; simpl; try done; try constructor.
  - auto.
  - apply H in H0. unfold live_bytes; simpl. destruct H0; lia.
Qed.

Lemma cleanup_reserved now q :
  wf q ->
  reserved_bytes (cleanup_expired now q) = live_bytes (cleanup_expired now q) mod u64_mod.
Proof.
  intros H. unfold cleanup_expired. pose proof (expired_bytes_mod now (reservations q)) as E.
  pose proof (wf_reserved q H) as R. pose proof (live_split now q) as S.
  destruct (0 <? _) eqn:Hpos; unfold live_bytes; simpl.
  - unfold u64_wrapping_sub. rewrite E, R, <- Zminus_mod. f_equal.
    unfold live_bytes in *. lia.
  - breflect. rewrite E in Hpos. rewrite R, S, Z.add_mod by done.
    assert (sumZ (map size_bytes (List.filter (is_expired now) (reservations q))) mod u64_mod = 0)
      as ->.
    { pose proof (Z.mod_pos_bound (sumZ (map size_bytes
        (List.filter (is_expired now) (reservations q)))) u64_mod eq_refl). lia. }
    by rewrite Z.add_0_l, Z.mod_mod.
Qed.

Lemma cleanup_reservations now q :
  reservations (cleanup_expired now q)
  = List.filter (fun r => negb (is_expired now r)) (reservations q).
Proof. unfold cleanup_expired. by destruct (0 <? _). Qed.

Lemma cleanup_used now q : used_bytes (cleanup_expired now q) = used_bytes q.
Proof. unfold cleanup_expired. by destruct (0 <? _). Qed.

Lemma cleanup_quota now q : quota_bytes (cleanup_expired now q) = quota_bytes q.
Proof. unfold cleanup_expired. by destruct (0 <? _). Qed.

Lemma cleanup_tenant now q : tenant_id (cleanup_expired now q) = tenant_id q.
Proof. unfold cleanup_expired. by destruct (0 <? _). Qed.

Lemma cleanup_live_le now q : wf q -> live_bytes (cleanup_expired now q) <= live_bytes q.
Proof.
  intros H. rewrite (live_split now q). unfold live_bytes. rewrite cleanup_reservations.
  assert (0 <= sumZ (map size_bytes (List.filter (is_expired now) (reservations q)))); [|lia].
  apply sumZ_map_nonneg. intros r [Hr _]%filter_In.
  pose proof (proj1 (List.Forall_forall _ _) (wf_sizes q H) r Hr) as Hs. by destruct Hs.
Qed.

Lemma cleanup_wf now q : wf q -> wf (cleanup_expired now q).
Proof.
  intros H. split.
  - rewrite cleanup_used. apply H.
  - rewrite cleanup_reservations. apply Forall_List_filter, H.
  - by apply cleanup_reserved.
  - rewrite cleanup_reservations. apply NoDup_map_filter, H.
  - intros quota. rewrite cleanup_quota, cleanup_used. intros [Hq Hle]%(wf_quota q H).
    split; [done|]. pose proof (cleanup_live_le now q H). lia.
Qed.

(** Below the quota the saturating total is the exact one. *)
Lemma check_quota_ok_iff q bytes quota :
  wf q -> is_u64 bytes -> quota_bytes q = Some quota ->
  check_quota q bytes = Ok tt <-> used_bytes q + live_bytes q + bytes <= quota.
Proof.
  intros H Hb Hq. destruct (wf_quota q H quota Hq) as [Hu Hle].
  pose proof (sizes_nonneg q H) as Hl. pose proof (wf_used q H) as Hused.
  unfold check_quota. rewrite Hq, (wf_reserved q H).
  unfold is_u64, u64_saturating_add in *.
  assert (u64_max = u64_mod - 1) by done.
  rewrite Z.mod_small by lia.
  destruct (quota <? _) eqn:E; breflect; split; intros; try done; lia.
Qed.

Lemma reserve_wf now nanos bytes q :
  wf q -> is_u64 bytes ->
  reservation_id q nanos ∉ map id (reservations (cleanup_expired now q)) ->
  wf (reserve now nanos bytes q).2.
Proof.
  intros H Hb Hfresh. unfold reserve. apply (cleanup_wf now) in H as Hc.
  destruct (check_quota _ bytes) as [[]|e] eqn:E; simpl; [|done].
  assert (live_bytes (set_usage (cleanup_expired now q) (used_bytes (cleanup_expired now q))
      (u64_wrapping_add (reserved_bytes (cleanup_expired now q)) bytes)
      (reservations (cleanup_expired now q) ++
         [KvReservation_new now (reservation_id (cleanup_expired now q) nanos) bytes]))
    = live_bytes (cleanup_expired now q) + bytes) as HL.
  { unfold live_bytes; simpl. rewrite map_app, sumZ_app. simpl. lia. }
  split.
  - apply Hc.
  - apply Forall_app; split; [apply Hc|by apply Forall_singleton].
  - rewrite HL. simpl. unfold u64_wrapping_add.
    by rewrite (wf_reserved _ Hc), Zplus_mod_idemp_l.
  - simpl. rewrite map_app. apply NoDup_app. split; [apply Hc|].
    split; [|apply NoDup_singleton].
    intros i Hi Hi'. simpl in Hi'. apply list_elem_of_singleton in Hi' as ->.
    apply Hfresh. unfold reservation_id in *. by rewrite cleanup_tenant in Hi.
  - intros quota Hq. simpl in Hq. destruct (wf_quota _ Hc _ Hq) as [Hu _].
    split; [done|]. rewrite HL. simpl.
    apply (check_quota_ok_iff _ _ _ Hc Hb Hq) in E. lia.
Qed.

Lemma remove_live q r :
  wf q -> In r (reservations q) ->
  live_bytes q = size_bytes r + sumZ (map size_bytes (remove_id (id r) (reservations q))).
Proof. intros H Hr. apply remove_id_split; [apply H|done|done]. Qed.

Lemma finalize_wf r q : wf q -> In r (reservations q) -> wf (finalize r q).2.
Proof.
  intros H Hr. pose proof (remove_live q r H Hr) as HL.
  split; simpl; auto with aos.
  - apply Forall_List_filter, H.
  - unfold u64_wrapping_sub. rewrite (wf_reserved q H), Zminus_mod_idemp_l.
    unfold live_bytes at 2; simpl. f_equal. lia.
  - apply NoDup_map_filter, H.
  - intros quota Hq. destruct (wf_quota q H quota Hq) as [Hu Hle]. split; [done|].
    assert (is_u64 (size_bytes r)) as Hs
      by exact (proj1 (List.Forall_forall _ _) (wf_sizes q H) r Hr).
    pose proof (wf_used q H). unfold live_bytes at 1; simpl.
    assert (0 <= sumZ (map size_bytes (remove_id (id r) (reservations q)))).
    { apply sumZ_map_nonneg. intros r' [Hr' _]%filter_In.
      pose proof (proj1 (List.Forall_forall _ _) (wf_sizes q H) r' Hr') as Hs'. by destruct Hs'. }
    unfold is_u64, u64_max in *. rewrite u64_wrapping_add_small; lia.
Qed.

Lemma rollback_wf r q : wf q -> In r (reservations q) -> wf (rollback r q).
Proof.
  intros H Hr. pose proof (remove_live q r H Hr) as HL.
  split; simpl; [apply H|apply Forall_List_filter, H| |apply NoDup_map_filter, H|].
  - unfold u64_wrapping_sub. rewrite (wf_reserved q H), Zminus_mod_idemp_l.
    unfold live_bytes at 2; simpl. f_equal. lia.
  - intros quota Hq. destruct (wf_quota q H quota Hq) as [Hu Hle]. split; [done|].
    assert (is_u64 (size_bytes r)) as Hs
      by exact (proj1 (List.Forall_forall _ _) (wf_sizes q H) r Hr).
    unfold live_bytes at 1; simpl. unfold is_u64 in *. lia.
Qed.

Lemma release_wf bytes q : wf q -> 0 <= bytes <= used_bytes q -> wf (release bytes q).
Proof.
  intros H Hb. split; simpl; try apply H; auto with aos.
  intros quota Hq. destruct (wf_quota q H quota Hq) as [Hu Hle]. split; [done|].
  pose proof (wf_used q H). unfold is_u64 in *.
  rewrite u64_wrapping_sub_small by lia. unfold live_bytes in *; simpl in *. lia.
Qed.

Lemma set_evictions_wf q n : wf q -> wf (set_evictions q n).
Proof. intros [? ? ? ? ?]. by split. Qed.

#[local] Hint Resolve reserve_wf finalize_wf rollback_wf release_wf set_evictions_wf : aos.

Lemma step_wf q q' : wf q -> step q q' -> wf q'.
Proof.
  intros H Hs. destruct Hs; auto with aos; by apply set_evictions_wf.
Qed.

Lemma step_quota_const q q' : step q q' -> quota_bytes q' = quota_bytes q.
Proof.
  destruct 1; simpl; try done. unfold reserve.
  destruct (check_quota _ _); simpl; apply cleanup_quota.
Qed.

Lemma cleanup_none now q :
  Forall (fun r => is_expired now r = false) (reservations q) -> cleanup_expired now q = q.
Proof.
  intros H.
  assert (List.filter (fun r => negb (is_expired now r)) (reservations q) = reservations q) as Hk.
  { induction H as [|r rs Hr H IH]; simpl; [done|]. by rewrite Hr, IH. }
  assert (expired_bytes now (reservations q) = 0) as He.
  { unfold expired_bytes. clear Hk. induction H as [|r rs Hr H IH]; simpl; [done|]. by rewrite Hr. }
  unfold cleanup_expired. rewrite Hk, He. by destruct q.
Qed.

Lemma remove_id_fresh r rs :
  id r ∉ map id rs -> remove_id (id r) (rs ++ [r]) = rs.
Proof.
  intros Hf. unfold remove_id. rewrite List.filter_app. simpl. rewrite String.eqb_refl. simpl.
  rewrite app_nil_r. induction rs as [|x rs IH]; simpl; [done|].
  simpl in Hf. destruct (String.eqb_spec (id x) (id r)) as [E|E]; simpl.
  - exfalso. apply Hf. rewrite E. constructor.
  - rewrite IH; [done|]. intros ?. apply Hf. by constructor.
Qed.

Lemma wrapping_add_sub a b : is_u64 a -> u64_wrapping_sub (u64_wrapping_add a b) b = a.
Proof.
  intros Ha. unfold u64_wrapping_sub, u64_wrapping_add.
  rewrite Zminus_mod_idemp_l, Z.add_simpl_r. by apply Z.mod_small.
Qed.

Lemma reserve_fresh tenant quota t n size :
  0 < size <= quota -> quota < u64_max ->
  reserve t n size (new tenant (Some quota))
  = (Ok (KvReservation_new t (reservation_id (new tenant (Some quota)) n) size),
     set_usage (new tenant (Some quota)) 0 size
       [KvReservation_new t (reservation_id (new tenant (Some quota)) n) size]).
Proof.
  intros Hs Hq. unfold u64_max in *. unfold reserve. rewrite cleanup_none by constructor.
  unfold check_quota, u64_saturating_add, u64_max. cbn -[u64_mod].
  rewrite (proj2 (Z.ltb_ge _ _)) by lia. by rewrite u64_wrapping_add_small by lia.
Qed.

Lemma cleanup_single q t t' i used size :
  t + RESERVATION_TIMEOUT < t' -> 0 < size < u64_mod ->
  cleanup_expired t' (set_usage q used size [KvReservation_new t i size])
  = set_usage q used 0 [].
Proof.
  intros Hexp Hs. unfold cleanup_expired, expired_bytes, is_expired.
  cbn -[u64_mod RESERVATION_TIMEOUT]. rewrite (proj2 (Z.ltb_lt _ _) Hexp).
  cbn -[u64_mod RESERVATION_TIMEOUT]. rewrite u64_wrapping_add_small by lia.
  rewrite (proj2 (Z.ltb_lt _ _)) by lia. unfold u64_wrapping_sub.
  by rewrite Z.add_0_l, Z.sub_diag.
Qed.

Lemma reserve_full q now nanos bytes quota :
  quota_bytes (cleanup_expired now q) = Some quota ->
  quota < u64_saturating_add (u64_saturating_add (used_bytes (cleanup_expired now q))
            (reserved_bytes (cleanup_expired now q))) bytes ->
  is_ok (reserve now nanos bytes q).1 = false
  /\ (reserve now nanos bytes q).2 = cleanup_expired now q.
Proof.
  intros Hq Hlt. unfold reserve, check_quota. rewrite Hq.
  by rewrite (proj2 (Z.ltb_lt _ _) Hlt).
Qed.

Lemma wrapping_sub_zero n : 0 < n < u64_mod -> u64_wrapping_sub 0 n = u64_mod - n.
Proof.
  intros Hn. unfold u64_wrapping_sub. rewrite <- (Z.mod_add _ 1) by done.
  replace (0 - n + 1 * u64_mod) with (u64_mod - n) by lia. apply Z.mod_small. lia.
Qed.

(** ** Theorems *)

(** [C25] No sequence of calls on a fresh manager that follows the reservation
    protocol lets the bytes in use and the bytes reserved together exceed the
    tenant's quota, and the reserved counter always equals the sum of the live
    reservations. *)
Theorem quota_never_exceeded tenant quota q :
  0 <= quota < u64_max ->
  rtc step (new tenant (Some quota)) q ->
  used_bytes q + reserved_bytes q <= quota /\ reserved_bytes q = live_bytes q.
Proof.
  intros Hq Hrun.
  assert (wf q /\ quota_bytes q = Some quota) as [Hwf Hquota].
  { revert Hrun. apply (rtc_invariant step (fun q => wf q /\ quota_bytes q = Some quota)).
    - intros a b [Ha Hqa] Hs. split; [by eapply step_wf|]. by rewrite (step_quota_const _ _ Hs).
    - split; [|done]. apply new_wf. by intros n [= <-]. }
  destruct (wf_quota q Hwf quota Hquota) as [_ Hle].
  pose proof (sizes_nonneg q Hwf). pose proof (wf_used q Hwf). unfold is_u64, u64_max in *.
  rewrite (wf_reserved q Hwf), Z.mod_small by lia. done.
Qed.

Lemma quota_never_exceeded_witness :
  let q := (reserve 0 7 600 (new "t" (Some 1000))).2 in
  used_bytes q + reserved_bytes q <= 1000 /\ reserved_bytes q = live_bytes q.
Proof.
  apply (quota_never_exceeded "t"); [solve_range|].
  apply rtc_once. apply step_reserve; [solve_range|].
  vm_compute. intros H. inversion H.
Defined.

(** [reserve] succeeds exactly when the bytes in use, the unexpired
    reservations and the request fit the quota; it then reserves the request and
    nothing else. Otherwise it answers the memory-pressure error whose message
    names the quota, and changes nothing but dropping the expired reservations. *)
Theorem reserve_outcome now nanos bytes quota q :
  wf q -> is_u64 bytes -> quota_bytes q = Some quota ->
  let q1 := cleanup_expired now q in
  if decide (used_bytes q + live_bytes q1 + bytes <= quota)
  then exists r, reserve now nanos bytes q
         = (Ok r, set_usage q1 (used_bytes q) (live_bytes q1 + bytes) (reservations q1 ++ [r]))
       /\ size_bytes r = bytes /\ expires_at r = now + RESERVATION_TIMEOUT
  else exists msg, reserve now nanos bytes q = (Err (MemoryPressure msg), q1)
       /\ str_contains "KV quota exceeded" msg = true.
Proof.
  intros H Hb Hq q1. apply (cleanup_wf now) in H as Hc. fold q1 in Hc.
  assert (quota_bytes q1 = Some quota) as Hq1 by (unfold q1; by rewrite cleanup_quota).
  pose proof (check_quota_ok_iff q1 bytes quota Hc Hb Hq1) as Hiff.
  pose proof (cleanup_used now q) as Hu. fold q1 in Hu. rewrite Hu in Hiff.
  unfold reserve. fold q1. case_decide as D.
  - rewrite (proj2 Hiff D). exists (KvReservation_new now (reservation_id q1 nanos) bytes).
    split; [|done]. rewrite Hu. do 2 f_equal.
    destruct (wf_quota q1 Hc quota Hq1) as [? _]. pose proof (sizes_nonneg q1 Hc).
    pose proof (wf_used q H). unfold is_u64, u64_max in *.
    rewrite (wf_reserved q1 Hc), Z.mod_small by lia. apply u64_wrapping_add_small. lia.
  - destruct (check_quota q1 bytes) as [[]|e] eqn:E; [exfalso; apply D; by apply Hiff|].
    unfold check_quota in E. rewrite Hq1 in E. destruct (quota <? _); [|done].
    injection E as <-. eexists. split; [reflexivity|]. apply str_contains_prefix.
Qed.

Lemma reserve_outcome_witness :
  (exists r, reserve 5 7 600 (new "t" (Some 1000))
     = (Ok r, set_usage (new "t" (Some 1000)) 0 600 [r]) /\ size_bytes r = 600
       /\ expires_at r = 5 + RESERVATION_TIMEOUT)
  /\ exists msg, reserve 5 7 1001 (new "t" (Some 1000)) = (Err (MemoryPressure msg), new "t" (Some 1000))
       /\ str_contains "KV quota exceeded" msg = true.
Proof.
  assert (wf (new "t" (Some 1000))) as H by (apply new_wf; intros n [= <-]; solve_range).
  split.
  - apply (reserve_outcome 5 7 600 1000 _ H); [solve_range|reflexivity].
  - apply (reserve_outcome 5 7 1001 1000 _ H); [solve_range|reflexivity].
Defined.

(** With no expired reservation and a fresh id, rolling a reservation back,
    or finalizing it and releasing its bytes, restores the manager exactly. *)
Theorem reserve_undo now nanos bytes r q q' :
  wf q -> is_u64 bytes ->
  Forall (fun r => is_expired now r = false) (reservations q) ->
  reservation_id q nanos ∉ map id (reservations q) ->
  reserve now nanos bytes q = (Ok r, q') ->
  rollback r q' = q /\ release bytes (finalize r q').2 = q.
Proof.
  intros H Hb Hexp Hfresh. unfold reserve. rewrite (cleanup_none now q Hexp).
  destruct (check_quota q bytes); [|done]. intros [= <- <-].
  assert (is_u64 (reserved_bytes q)) as Hr.
  { rewrite (wf_reserved q H). by apply Z.mod_pos_bound. }
  pose proof (wf_used q H) as Hu.
  unfold rollback, release, finalize; simpl.
  pose proof (remove_id_fresh (KvReservation_new now (reservation_id q nanos) bytes)
                (reservations q) Hfresh) as Hrm.
  simpl in Hrm. rewrite Hrm, !wrapping_add_sub by done. by destruct q.
Qed.

Lemma reserve_undo_witness :
  let q := new "t" (Some 1000) in
  let r := KvReservation_new 5 (reservation_id q 7) 600 in
  let q' := (reserve 5 7 600 q).2 in
  rollback r q' = q /\ release 600 (finalize r q').2 = q.
Proof.
  apply (reserve_undo 5 7 600); [|solve_range|constructor| |reflexivity].
  - apply new_wf. intros n [= <-]. solve_range.
  - intros H. inversion H.
Defined.

(** A reservation finalized after it expired and was swept (reserve, more
    than 300 s pass, any other [reserve] runs, finalize) subtracts its bytes from
    the reserved counter twice: the counter wraps to 2^64 minus the size, and from
    then on every [reserve] of the tenant fails and leaves the manager unchanged. *)
Theorem finalize_after_expiry_wedges_quota tenant quota size t0 n0 t1 n1 big :
  0 < size <= quota -> quota < u64_max -> is_u64 big -> quota < big ->
  t0 + RESERVATION_TIMEOUT < t1 ->
  let (r0, q1) := reserve t0 n0 size (new tenant (Some quota)) in
  let q2 := (reserve t1 n1 big q1).2 in
  exists r, r0 = Ok r /\
    let q3 := (finalize r q2).2 in
    reserved_bytes q3 = u64_mod - size /\
    forall now nanos bytes, is_u64 bytes ->
      is_ok (reserve now nanos bytes q3).1 = false /\ (reserve now nanos bytes q3).2 = q3.
Proof.
  intros Hs Hq Hbig Hlt Hexp. unfold is_u64, u64_max in *.
  rewrite reserve_fresh by (unfold u64_max; lia). eexists. split; [reflexivity|].
  destruct (reserve_full (set_usage (new tenant (Some quota)) 0 size
      [KvReservation_new t0 (reservation_id (new tenant (Some quota)) n0) size]) t1 n1 big quota)
    as [_ ->]; rewrite ?cleanup_single by lia; [done| |].
  { unfold u64_saturating_add, u64_max. cbn -[u64_mod]. lia. }
  unfold finalize; cbn -[u64_mod reserve].
  rewrite wrapping_sub_zero, u64_wrapping_add_small by lia. split; [done|].
  intros now nanos bytes Hb. rewrite <- (cleanup_none now) at 3 by constructor.
  apply (reserve_full _ now nanos bytes quota); rewrite cleanup_none by constructor; [done|].
  unfold u64_saturating_add, u64_max. cbn -[u64_mod]. lia.
Qed.

Lemma finalize_after_expiry_wedges_quota_witness :
  let (r0, q1) := reserve 0 0 600 (new "t" (Some 1000)) in
  let q2 := (reserve 300000000001 1 1001 q1).2 in
  exists r, r0 = Ok r /\
    let q3 := (finalize r q2).2 in
    reserved_bytes q3 = u64_mod - 600 /\
    forall now nanos bytes, is_u64 bytes ->
      is_ok (reserve now nanos bytes q3).1 = false /\ (reserve now nanos bytes q3).2 = q3.
Proof.
  apply (finalize_after_expiry_wedges_quota "t" 1000 600 0 0 300000000001 1 1001);
    unfold RESERVATION_TIMEOUT; solve_range.
Defined.

End KvQuota.
