(* ===== verification/KvCache.v ===== *)
(** * KV cache slab allocator (adapteros-lora-worker/src/kvcache.rs)

    [KvCache] hands out byte ranges of the K/V buffers to sequences, keeps a free
    list, and charges a quota manager. The cache is modelled over the interface
    [QuotaManager]; KvQuota.v's manager is an instance. The contents of the Metal
    buffers are not modelled (the cache state is the same without a device); the
    arithmetic is that of a release build, where [+], [-] and [*] on [u64] wrap. *)

From S2P Require Import Prelude KvQuota.
#[local] Open Scope string_scope.
#[local] Open Scope Z_scope.

(** ** What the cache needs of a quota manager *)

Class QuotaManager (Q R : Type) := {
  qm_reserve : Z -> Z -> Z -> Q -> result R AosError * Q;
  qm_finalize : R -> Q -> result unit AosError * Q;
  qm_rollback : R -> Q -> Q;
  qm_release : Z -> Q -> Q;
  qm_used : Q -> Z
}.

(** The promises the cache relies on: [qm_ok] is the manager's invariant,
    [qm_fresh] that the clock reading names no live reservation, [qm_limit] the
    bound on the bytes in use. *)
Class QuotaLaws (Q R : Type) `{QuotaManager Q R} := {
  qm_ok : Q -> Prop;
  qm_fresh : Z -> Z -> Q -> Prop;
  qm_limit : Q -> option Z;
  qm_reserve_finalize now nanos bytes r q q' :
    qm_ok q -> is_u64 bytes -> qm_fresh now nanos q -> qm_used q + bytes < u64_mod ->
    qm_reserve now nanos bytes q = (Ok r, q') ->
    exists q'', qm_finalize r q' = (Ok tt, q'') /\ qm_ok q''
      /\ qm_used q'' = qm_used q + bytes /\ qm_limit q'' = qm_limit q;
  qm_reserve_rollback now nanos bytes r q q' :
    qm_ok q -> is_u64 bytes -> qm_fresh now nanos q ->
    qm_reserve now nanos bytes q = (Ok r, q') ->
    qm_ok (qm_rollback r q') /\ qm_used (qm_rollback r q') = qm_used q
      /\ qm_limit (qm_rollback r q') = qm_limit q;
  qm_reserve_err now nanos bytes e q q' :
    qm_ok q -> qm_reserve now nanos bytes q = (Err e, q') ->
    qm_ok q' /\ qm_used q' = qm_used q /\ qm_limit q' = qm_limit q;
  qm_release_ok bytes q :
    qm_ok q -> 0 <= bytes <= qm_used q ->
    qm_ok (qm_release bytes q) /\ qm_used (qm_release bytes q) = qm_used q - bytes
      /\ qm_limit (qm_release bytes q) = qm_limit q;
  qm_used_nonneg q : qm_ok q -> 0 <= qm_used q;
  qm_within_limit q n : qm_ok q -> qm_limit q = Some n -> qm_used q <= n
}.

(** [TenantKvQuotaManager] implements the interface. *)
#[export] Instance tenant_quota
  : QuotaManager KvQuota.TenantKvQuotaManager KvQuota.KvReservation := {
  qm_reserve := KvQuota.reserve;
  qm_finalize := KvQuota.finalize;
  qm_rollback := KvQuota.rollback;
  qm_release := KvQuota.release;
  qm_used := KvQuota.used_bytes
}.

Lemma reserve_ok_inv now nanos bytes r q q' :
  KvQuota.reserve now nanos bytes q = (Ok r, q') ->
  In r (KvQuota.reservations q') /\ KvQuota.size_bytes r = bytes
  /\ KvQuota.used_bytes q' = KvQuota.used_bytes q /\ KvQuota.quota_bytes q' = KvQuota.quota_bytes q.
Proof.
  unfold KvQuota.reserve. destruct (KvQuota.check_quota _ _); [|done].
  intros [= <- <-]. simpl. rewrite KvQuota.cleanup_used, KvQuota.cleanup_quota.
  split; [apply in_app_iff; right; by left|done].
Qed.

#[export] Instance tenant_quota_laws
  : QuotaLaws KvQuota.TenantKvQuotaManager KvQuota.KvReservation.
Proof.
  refine {| qm_ok := KvQuota.wf;
            qm_fresh now nanos q :=
              KvQuota.reservation_id q nanos
              ∉ map KvQuota.id (KvQuota.reservations (KvQuota.cleanup_expired now q));
            qm_limit := KvQuota.quota_bytes |}; simpl.
  - intros now nanos bytes r q q' H Hb Hf Hlt Hr.
    pose proof (KvQuota.reserve_wf now nanos bytes q H Hb Hf) as H'. rewrite Hr in H'. simpl in H'.
    apply reserve_ok_inv in Hr as (Hin & Hsize & Hused & Hquota).
    eexists. split; [reflexivity|]. split; [by apply (KvQuota.finalize_wf r q')|].
    simpl. rewrite Hused, Hsize, Hquota. split; [|done]. pose proof (KvQuota.wf_used q H).
    apply u64_wrapping_add_small. solve_range.
  - intros now nanos bytes r q q' H Hb Hf Hr.
    pose proof (KvQuota.reserve_wf now nanos bytes q H Hb Hf) as H'. rewrite Hr in H'. simpl in H'.
    apply reserve_ok_inv in Hr as (Hin & Hsize & Hused & Hquota).
    split; [by apply KvQuota.rollback_wf|done].
  - intros now nanos bytes e q q' H. unfold KvQuota.reserve.
    destruct (KvQuota.check_quota _ _); [done|]. intros [= _ <-].
    split; [by apply KvQuota.cleanup_wf|].
    by rewrite KvQuota.cleanup_used, KvQuota.cleanup_quota.
  - intros bytes q H Hb. split; [by apply KvQuota.release_wf|].
    pose proof (KvQuota.wf_used q H). split; [|done]. apply u64_wrapping_sub_small. solve_range.
  - intros q H. apply H.
  - intros q n H Hn. destruct (KvQuota.wf_quota q H n Hn) as [_ Hle].
    pose proof (KvQuota.sizes_nonneg q H). lia.
Defined.

(** ** Byte ranges that tile an interval *)

Module Tiling.

(** A block is (offset, size); two blocks are disjoint when no byte is in both. *)
Definition disjoint (b1 b2 : Z * Z) : Prop :=
  b1.2 <= 0 \/ b2.2 <= 0 \/ b1.1 + b1.2 <= b2.1 \/ b2.1 + b2.2 <= b1.1.

Fixpoint pairwise_disjoint (bs : list (Z * Z)) : Prop :=
  match bs with
  | [] => True
  | b :: bs' => Forall (disjoint b) bs' /\ pairwise_disjoint bs'
  end.

Definition in_range (top : Z) (b : Z * Z) : Prop := 0 <= b.1 /\ 0 <= b.2 /\ b.1 + b.2 <= top.

(** The blocks are inside [0, top), do not overlap and account for every byte. *)
Definition tiling (top : Z) (bs : list (Z * Z)) : Prop :=
  Forall (in_range top) bs /\ pairwise_disjoint bs /\ sumZ (map snd bs) = top.

Lemma disjoint_sym b1 b2 : disjoint b1 b2 -> disjoint b2 b1.
Proof. unfold disjoint. lia. Qed.

Lemma pairwise_disjoint_perm bs bs' :
  bs ≡ₚ bs' -> pairwise_disjoint bs -> pairwise_disjoint bs'.
Proof.
  induction 1 as [|b l l' Hl IH|b b' l|l1 l2 l3 _ IH1 _ IH2]; simpl; auto.
  - intros [Hb Hd]. split; [by rewrite <- Hl|auto].
  - intros [Hb [Hb' Hd]]. apply Forall_cons in Hb as [Hbb Hb].
    repeat split; auto. constructor; [by apply disjoint_sym|done].
Qed.

Lemma tiling_perm top bs bs' : bs ≡ₚ bs' -> tiling top bs -> tiling top bs'.
Proof.
  intros Hp (Hr & Hd & Hs). split; [by rewrite <- Hp|].
  split; [by eapply pairwise_disjoint_perm|]. by rewrite <- Hp.
Qed.

#[export] Instance tiling_proper top : Proper ((≡ₚ) ==> iff) (tiling top).
Proof. intros bs bs' Hp. split; apply tiling_perm; [done|by symmetry]. Qed.

Lemma tiling_range top bs b : tiling top bs -> b ∈ bs -> in_range top b.
Proof. intros (Hr & _) Hb. by eapply Forall_forall in Hr. Qed.

Lemma tiling_append top bs n :
  0 <= top -> 0 <= n -> tiling top bs -> tiling (top + n) ((top, n) :: bs).
Proof.
  intros Ht Hn (Hr & Hd & Hs). repeat split.
  - constructor; [unfold in_range; simpl; lia|].
    eapply Forall_impl; [exact Hr|]. unfold in_range. lia.
  - eapply Forall_impl; [exact Hr|]. unfold in_range, disjoint. simpl. lia.
  - done.
  - simpl. lia.
Qed.

Lemma tiling_split top bs o s n :
  0 <= n <= s -> tiling top ((o, s) :: bs) -> tiling top ((o, n) :: (o + n, s - n) :: bs).
Proof.
  intros Hn (Hr & [Hb Hd] & Hs). apply Forall_cons in Hr as [H0 Hr].
  unfold in_range in H0; simpl in *. repeat split.
  - repeat constructor; simpl; try lia. done.
  - constructor; [unfold disjoint; simpl; lia|].
    eapply Forall_impl; [exact Hb|]. unfold disjoint. simpl. lia.
  - eapply Forall_impl; [exact Hb|]. unfold disjoint. simpl. lia.
  - done.
  - simpl. lia.
Qed.

Lemma tiling_drop_empty top bs o : tiling top ((o, 0) :: bs) -> tiling top bs.
Proof.
  intros (Hr & [_ Hd] & Hs). apply Forall_cons in Hr as [_ Hr]. simpl in *. by repeat split.
Qed.

Lemma tiling_merge top bs o s s' :
  tiling top ((o, s) :: (o + s, s') :: bs) -> tiling top ((o, s + s') :: bs).
Proof.
  intros (Hr & ([_ Hb]%Forall_cons & Hb' & Hd) & Hs).
  apply Forall_cons in Hr as [H1 Hr]. apply Forall_cons in Hr as [H2 Hr].
  unfold in_range in H1, H2; simpl in *. repeat split; [| |done|simpl; lia].
  - constructor; [unfold in_range; simpl; lia|done].
  - eapply Forall_impl with (P := fun b => in_range top b /\ disjoint (o, s) b /\ disjoint (o + s, s') b).
    + rewrite Forall_forall in *. intros b Hx. repeat split; apply Hr || apply Hb || apply Hb'; done.
    + unfold disjoint, in_range. simpl. lia.
Qed.

Lemma tiling_top_nonneg top bs : tiling top bs -> 0 <= top.
Proof.
  intros (Hr & _ & <-). apply sumZ_nonneg. apply List.Forall_map.
  eapply Forall_impl; [exact Hr|]. unfold in_range. lia.
Qed.

(** Part of a tiling uses at most the whole interval. *)
Lemma tiling_sum_le top bs bs' : tiling top (bs ++ bs') -> sumZ (map snd bs) <= top.
Proof.
  intros (Hr & _ & <-). rewrite map_app, sumZ_app. apply Forall_app in Hr as [_ Hr].
  assert (0 <= sumZ (map snd bs')); [|lia]. apply sumZ_nonneg, List.Forall_map.
  eapply Forall_impl; [exact Hr|]. unfold in_range. lia.
Qed.

End Tiling.
Import Tiling.

(** ** The cache *)

Module KvCache.

Section Cache.
Context {Q R : Type} `{QM : QuotaManager Q R}.

Record KvAllocation := mkAllocation {
  sequence_id : Z; k_offset : Z; k_size : Z; v_offset : Z; v_size : Z
}.

Record SequenceGuard := mkGuard { guard_sequence_id : Z; guard_generation : Z; active : bool }.

Definition SequenceGuard_new (seq_id generation : Z) : SequenceGuard :=
  {| guard_sequence_id := seq_id; guard_generation := generation; active := true |}.

Definition deactivate (g : SequenceGuard) : SequenceGuard :=
  {| guard_sequence_id := guard_sequence_id g; guard_generation := guard_generation g;
     active := false |}.

Record KvCache := mkCache {
  capacity_bytes : Z;
  used_bytes : Z;
  allocations : gmap Z KvAllocation;
  next_seq_id : Z;
  bytes_per_token : Z;
  free_regions : list (Z * Z);
  stack_generation : Z;
  active_guards : gmap Z Z;
  quota_manager : option Q
}.

Definition new_with_quota (capacity : Z) (qm : option Q) : KvCache :=
  {| capacity_bytes := capacity; used_bytes := 0; allocations := ∅; next_seq_id := 1;
     bytes_per_token := 8192; free_regions := []; stack_generation := 0;
     active_guards := ∅; quota_manager := qm |}.

Definition new (capacity : Z) : KvCache := new_with_quota capacity None.

(** Field updates, one per group of fields the operations assign. *)
Definition set_quota (c : KvCache) (qm : option Q) : KvCache :=
  {| capacity_bytes := capacity_bytes c; used_bytes := used_bytes c;
     allocations := allocations c; next_seq_id := next_seq_id c;
     bytes_per_token := bytes_per_token c; free_regions := free_regions c;
     stack_generation := stack_generation c; active_guards := active_guards c;
     quota_manager := qm |}.

Definition set_guards (c : KvCache) (gs : gmap Z Z) : KvCache :=
  {| capacity_bytes := capacity_bytes c; used_bytes := used_bytes c;
     allocations := allocations c; next_seq_id := next_seq_id c;
     bytes_per_token := bytes_per_token c; free_regions := free_regions c;
     stack_generation := stack_generation c; active_guards := gs;
     quota_manager := quota_manager c |}.

Definition set_memory (c : KvCache) (used : Z) (al : gmap Z KvAllocation) (next : Z)
    (fr : list (Z * Z)) : KvCache :=
  {| capacity_bytes := capacity_bytes c; used_bytes := used; allocations := al;
     next_seq_id := next; bytes_per_token := bytes_per_token c; free_regions := fr;
     stack_generation := stack_generation c; active_guards := active_guards c;
     quota_manager := quota_manager c |}.

Definition set_generation (c : KvCache) (generation : Z) : KvCache :=
  {| capacity_bytes := capacity_bytes c; used_bytes := used_bytes c;
     allocations := allocations c; next_seq_id := next_seq_id c;
     bytes_per_token := bytes_per_token c; free_regions := free_regions c;
     stack_generation := generation; active_guards := active_guards c;
     quota_manager := quota_manager c |}.

(** [map(|a| a.k_size.saturating_add(a.v_size)).sum()] over the allocations. *)
Definition allocated_bytes (al : gmap Z KvAllocation) : Z :=
  foldr (fun a acc => u64_wrapping_add (u64_saturating_add (k_size a) (v_size a)) acc) 0
    (map snd (map_to_list al)).

Definition release_allocation_quota (c : KvCache) : KvCache :=
  match quota_manager c with
  | None => c
  | Some qm =>
      let allocated := allocated_bytes (allocations c) in
      if allocated =? 0 then c else
      let release_bytes := Z.min allocated (qm_used qm) in
      if 0 <? release_bytes then set_quota c (Some (qm_release release_bytes qm)) else c
  end.

Definition reset_all (c : KvCache) : KvCache :=
  set_guards (set_memory (release_allocation_quota c) 0 ∅ 1 []) ∅.

(** [zeroize] keeps the guards and the id counter. *)
Definition zeroize (c : KvCache) : KvCache :=
  set_memory (release_allocation_quota c) 0 ∅ (next_seq_id c) [].

Definition zeroize_all (c : KvCache) : KvCache :=
  set_guards (set_memory (release_allocation_quota c) 0 ∅ (next_seq_id c)
                [(0, capacity_bytes c)]) ∅.

Definition ensure_cache_coherence (c : KvCache) (current_generation : Z)
  : result bool AosError * KvCache :=
  if negb (current_generation =? stack_generation c)
  then (Ok true, set_generation (reset_all c) current_generation)
  else (Ok false, c).

(** Slab size in tokens: at most 2^20, at least one of the slab classes. *)
Definition rounded_len (seq_len0 : Z) : Z :=
  let seq_len := Z.min seq_len0 (Z.shiftl 1 20) in
  if seq_len <=? 128 then 128
  else if seq_len <=? 256 then 256
  else if seq_len <=? 512 then 512
  else seq_len.

(** First free region of at least [need] bytes, and the list without it. *)
Fixpoint take_region (need : Z) (rs : list (Z * Z)) : option ((Z * Z) * list (Z * Z)) :=
  match rs with
  | [] => None
  | (off, size) :: rs' =>
      if need <=? size then Some ((off, size), rs')
      else match take_region need rs' with
           | Some (r, rest) => Some (r, (off, size) :: rest)
           | None => None
           end
  end.

(** [reserve(required_bytes * 2)] when there is a manager, with the quota error
    rewritten to [QuotaExceeded]. *)
Definition reserve_quota (now nanos bytes : Z) (c : KvCache)
  : result (option R) AosError * KvCache :=
  match quota_manager c with
  | None => (Ok None, c)
  | Some qm =>
      match qm_reserve now nanos bytes qm with
      | (Ok res, qm') => (Ok (Some res), set_quota c (Some qm'))
      | (Err (MemoryPressure msg), qm') =>
          if str_contains "KV quota exceeded" msg
          then (Err (QuotaExceeded "kv_cache" (Some "KV_QUOTA_EXCEEDED")), set_quota c (Some qm'))
          else (Err (MemoryPressure msg), set_quota c (Some qm'))
      | (Err e, qm') => (Err e, set_quota c (Some qm'))
      end
  end.

Definition rollback_quota (res : option R) (c : KvCache) : KvCache :=
  match res, quota_manager c with
  | Some r, Some qm => set_quota c (Some (qm_rollback r qm))
  | _, _ => c
  end.

(** Placement: the range [k_offset] starts at, and the free list afterwards. *)
Definition place (c : KvCache) (size : Z) : Z * list (Z * Z) :=
  match take_region (u64_wrapping_mul size 2) (free_regions c) with
  | Some ((off, rsize), rest) =>
      let consumed := u64_wrapping_add size size in
      let remaining := u64_wrapping_sub rsize consumed in
      let start := u64_wrapping_add off consumed in
      (off, if 0 <? remaining then (rest ++ [(start, remaining)])%list else rest)
  | None => (used_bytes c, free_regions c)
  end.

Definition cache_full (c : KvCache) : AosError :=
  MemoryPressure ("KV cache full: " +:+ pretty (used_bytes c) +:+ " / "
                  +:+ pretty (capacity_bytes c) +:+ " bytes used").

(** Everything after the capacity check: id, placement, bookkeeping, finalize. *)
Definition commit_allocation (size : Z) (res : option R) (c : KvCache)
  : result Z AosError * KvCache :=
  let seq_id := next_seq_id c in
  let (k_off, regions) := place c size in
  let v_off := u64_wrapping_add k_off size in
  let al := <[seq_id := mkAllocation seq_id k_off size v_off size]> (allocations c) in
  let end_pos := u64_wrapping_add v_off size in
  let used := if used_bytes c <? end_pos then end_pos else used_bytes c in
  let c' := set_memory c used al (u64_wrapping_add seq_id 1) regions in
  match res, quota_manager c' with
  | Some r, Some qm =>
      match qm_finalize r qm with
      | (Ok _, qm') => (Ok seq_id, set_quota c' (Some qm'))
      | (Err e, qm') =>
          (Err e, set_quota
             (set_memory c' (if end_pos =? used
                             then u64_wrapping_sub used (u64_wrapping_add size size) else used)
                (delete seq_id al) (next_seq_id c') regions) (Some qm'))
      end
  | _, _ => (Ok seq_id, c')
  end.

Definition allocate (now nanos seq_len : Z) (c : KvCache) : result Z AosError * KvCache :=
  match u64_checked_mul (rounded_len seq_len) (bytes_per_token c) with
  | None => (Err (Validation "Sequence length overflow"), c)
  | Some required_bytes =>
      match reserve_quota now nanos (u64_wrapping_mul required_bytes 2) c with
      | (Err e, c1) => (Err e, c1)
      | (Ok res, c1) =>
          if capacity_bytes c1
             <? u64_wrapping_add (used_bytes c1) (u64_wrapping_mul required_bytes 2)
          then (Err (cache_full c1), rollback_quota res c1)
          else commit_allocation required_bytes res c1
      end
  end.

Definition allocate_with_guard (now nanos seq_len generation : Z) (c : KvCache)
  : result SequenceGuard AosError * KvCache :=
  match ensure_cache_coherence c generation with
  | (Err e, c1) => (Err e, c1)
  | (Ok _, c1) =>
      match allocate now nanos seq_len c1 with
      | (Err e, c2) => (Err e, c2)
      | (Ok seq_id, c2) =>
          (Ok (SequenceGuard_new seq_id generation),
           set_guards c2 (<[seq_id := generation]> (active_guards c2)))
      end
  end.

Definition has_active_sequences_with_generation (c : KvCache) (generation : Z) : bool :=
  existsb (fun g => negb (g =? generation)) (map snd (map_to_list (active_guards c))).

Fixpoint coalesce_loop (current : Z * Z) (rest : list (Z * Z)) : list (Z * Z) :=
  match rest with
  | [] => [current]
  | (off, size) :: rest' =>
      if off =? u64_wrapping_add current.1 current.2
      then coalesce_loop (current.1, u64_wrapping_add current.2 size) rest'
      else current :: coalesce_loop (off, size) rest'
  end.

Definition coalesce_free_regions (rs : list (Z * Z)) : list (Z * Z) :=
  match stable_sort (fun r1 r2 => r1.1 <=? r2.1) rs with
  | [] => []
  | r :: rest => coalesce_loop r rest
  end.

Definition free (seq_id : Z) (c0 : KvCache) : result unit AosError * KvCache :=
  let c := set_guards c0 (delete seq_id (active_guards c0)) in
  match allocations c !! seq_id with
  | Some a =>
      let freed := u64_wrapping_add (k_size a) (v_size a) in
      let c1 := set_memory c (used_bytes c) (delete seq_id (allocations c)) (next_seq_id c)
                  (coalesce_free_regions (free_regions c ++ [(k_offset a, freed)])%list) in
      (Ok tt, match quota_manager c1 with
              | Some qm => set_quota c1 (Some (qm_release freed qm))
              | None => c1
              end)
  | None =>
      (Err (Worker ("Sequence ID " +:+ pretty seq_id +:+ " not found in KV cache")), c)
  end.

(** [drain_active_sequences]: frees every guarded sequence, ignoring the errors. *)
Definition drain_active_sequences (c : KvCache) : nat * KvCache :=
  let count := size (active_guards c) in
  if (0 <? count)%nat
  then (count, set_guards (foldl (fun c seq_id => (free seq_id c).2) c
                             (map fst (map_to_list (active_guards c)))) ∅)
  else (count, c).

Definition zeroize_sequence (seq_id : Z) (c : KvCache) : result unit AosError * KvCache :=
  match allocations c !! seq_id with
  | None => (Err (Worker ("Sequence ID " +:+ pretty seq_id +:+ " not found")), c)
  | Some _ => free seq_id c
  end.

Definition usage (c : KvCache) : Z * Z := (used_bytes c, capacity_bytes c).
Definition active_sequences (c : KvCache) : nat := size (allocations c).
Definition is_allocated (c : KvCache) (seq_id : Z) : bool :=
  bool_decide (is_Some (allocations c !! seq_id)).
Definition get_allocation (c : KvCache) (seq_id : Z) : option (Z * Z * Z * Z) :=
  (fun a => (k_offset a, k_size a, v_offset a, v_size a)) <$> allocations c !! seq_id.

(** ** Invariant *)

(** The bytes an allocation owns. *)
Definition block (a : KvAllocation) : Z * Z := (k_offset a, k_size a + v_size a).

Definition alloc_blocks (al : gmap Z KvAllocation) : list (Z * Z) :=
  map (fun p => block p.2) (map_to_list al).

Definition blocks (c : KvCache) : list (Z * Z) :=
  (alloc_blocks (allocations c) ++ free_regions c)%list.

Definition alloc_total (al : gmap Z KvAllocation) : Z := sumZ (map snd (alloc_blocks al)).

Definition alloc_ok (used next : Z) (i : Z) (a : KvAllocation) : Prop :=
  0 < i < next /\ 0 <= k_offset a /\ 0 <= k_size a /\ v_size a = k_size a
  /\ v_offset a = k_offset a + k_size a /\ v_offset a + v_size a <= used.

(** The free region that reaches the end of the buffer, which [zeroize_all] creates. *)
Definition tail_region (cap used : Z) (rs : list (Z * Z)) : Prop :=
  exists o s, (o, s) ∈ rs /\ o <= used /\ o + s = cap.

(** Allocations and free regions tile [0, used_bytes), or the whole buffer when a
    free region reaches its end. *)
Record inv (c : KvCache) : Prop := {
  inv_capacity : 0 <= capacity_bytes c < 2 ^ 63;
  inv_token : 0 <= bytes_per_token c <= 2 ^ 41;
  inv_next : 0 < next_seq_id c <= u64_max;
  inv_used : 0 <= used_bytes c <= capacity_bytes c;
  inv_allocs : map_Forall (alloc_ok (used_bytes c) (next_seq_id c)) (allocations c);
  inv_tiling : exists top, used_bytes c <= top <= capacity_bytes c /\ tiling top (blocks c)
    /\ (top = used_bytes c
        \/ top = capacity_bytes c
           /\ tail_region (capacity_bytes c) (used_bytes c) (free_regions c))
}.

Lemma inv_set_quota c q : inv c -> inv (set_quota c q).
Proof. intros [? ? ? ? ? ?]. by split. Qed.
Lemma inv_set_guards c g : inv c -> inv (set_guards c g).
Proof. intros [? ? ? ? ? ?]. by split. Qed.
Lemma inv_set_generation c g : inv c -> inv (set_generation c g).
Proof. intros [? ? ? ? ? ?]. by split. Qed.
#[local] Hint Resolve inv_set_quota inv_set_guards inv_set_generation : aos.

Lemma alloc_blocks_insert al i a :
  al !! i = None -> alloc_blocks (<[i := a]> al) ≡ₚ block a :: alloc_blocks al.
Proof. intros Hi. unfold alloc_blocks. by rewrite (map_to_list_insert _ _ _ Hi). Qed.

Lemma alloc_blocks_delete al i a :
  al !! i = Some a -> alloc_blocks al ≡ₚ block a :: alloc_blocks (delete i al).
Proof. intros Hi. unfold alloc_blocks. by rewrite <- (map_to_list_delete _ _ _ Hi). Qed.

Lemma take_region_spec need rs :
  match take_region need rs with
  | Some (r, rest) => rs ≡ₚ r :: rest /\ need <= r.2
  | None => Forall (fun r => r.2 < need) rs
  end.
Proof.
  induction rs as [|[o s] rs IH]; simpl; [constructor|].
  destruct (need <=? s) eqn:E; breflect; [done|].
  destruct (take_region need rs) as [[r rest]|].
  - destruct IH as [Hp Hn]. split; [|done]. rewrite Hp. apply Permutation_swap.
  - by constructor.
Qed.

Lemma take_region_tail cap used need rs :
  tail_region cap used rs -> used + need <= cap -> take_region need rs <> None.
Proof.
  intros (o & s & Hin & Ho & Hs) Hle Hnone.
  pose proof (take_region_spec need rs) as Hspec. rewrite Hnone in Hspec.
  rewrite Forall_forall in Hspec. apply Hspec in Hin. simpl in Hin. lia.
Qed.

Lemma tail_region_mono cap used used' rs rs' :
  rs ⊆ rs' -> used <= used' -> tail_region cap used rs -> tail_region cap used' rs'.
Proof. intros Hs Hu (o & s & Hin & Ho & Hc). exists o, s. split; [by apply Hs|lia]. Qed.

(** Placing [size + size] bytes under the capacity check keeps the tiling. *)
Lemma place_tiling c size k rs :
  inv c -> 0 <= size <= 2 ^ 61 -> used_bytes c + (size + size) <= capacity_bytes c ->
  place c size = (k, rs) ->
  let used' := Z.max (used_bytes c) (k + (size + size)) in
  0 <= k /\ exists top, used' <= top <= capacity_bytes c
    /\ tiling top ((k, size + size) :: alloc_blocks (allocations c) ++ rs)%list
    /\ (top = used' \/ top = capacity_bytes c /\ tail_region (capacity_bytes c) used' rs).
Proof.
  intros H Hs Hle Hplace used'.
  destruct (inv_tiling c H) as (top & Htop & Ht & Htail). unfold blocks in Ht.
  pose proof (inv_capacity c H) as Hc. pose proof (inv_used c H) as Hu.
  unfold place in Hplace. assert (u64_wrapping_mul size 2 = size + size) as Em.
  { unfold u64_wrapping_mul. rewrite Z.mod_small; solve_range. }
  pose proof (take_region_spec (u64_wrapping_mul size 2) (free_regions c)) as Htake.
  destruct (take_region _ _) as [[[o s] rest]|] eqn:E.
  - destruct Htake as [Hp Hn]. simpl in Hn. rewrite Em in Hn.
    rewrite Hp, <- Permutation_middle in Ht.
    pose proof (tiling_range _ _ (o, s) Ht ltac:(constructor)) as Ho. unfold in_range in Ho.
    simpl in Ho.
    rewrite (u64_wrapping_add_small size) in Hplace by solve_range.
    rewrite u64_wrapping_sub_small, u64_wrapping_add_small in Hplace by solve_range.
    injection Hplace as <- <-. split; [lia|]. exists top.
    apply (tiling_split _ _ o s (size + size)) in Ht; [|lia].
    assert (s - (size + size) = 0 \/ 0 < s - (size + size)) as [Hz|Hpos] by lia.
    + rewrite (proj2 (Z.ltb_ge _ _)) by lia. rewrite Hz in Ht.
      split; [lia|split].
      * rewrite Permutation_swap in Ht. by eapply tiling_drop_empty.
      * destruct Htail as [->|[-> Htail]]; [left; lia|].
        destruct Htail as (o' & s' & Hin & Ho' & Hs'). rewrite Hp in Hin.
        apply elem_of_cons in Hin as [[= -> ->]|Hin]; [left; lia|right].
        split; [done|]. exists o', s'. split; [done|lia].
    + rewrite (proj2 (Z.ltb_lt _ _)) by lia. split; [lia|split].
      * by rewrite app_assoc, Permutation_app_comm.
      * destruct Htail as [->|[-> Htail]]; [left; lia|right]. split; [done|].
        destruct Htail as (o' & s' & Hin & Ho' & Hs'). rewrite Hp in Hin.
        apply elem_of_cons in Hin as [[= -> ->]|Hin].
        -- exists (o + (size + size)), (s - (size + size)). split; [|lia].
           apply elem_of_app. right. by apply list_elem_of_singleton.
        -- exists o', s'. split; [|lia]. apply elem_of_app. by left.
  - injection Hplace as <- <-. split; [lia|].
    destruct Htail as [->|[-> Htail]];
      [|by destruct (take_region_tail _ _ (u64_wrapping_mul size 2) _ Htail ltac:(rewrite Em; lia) E)].
    exists (used_bytes c + (size + size)).
    split; [lia|]. split; [|left; lia]. apply tiling_append; [lia|lia|done].
Qed.

(** [commit_allocation] with no manager to finalize, or one that accepts. *)
Lemma commit_inv c size k rs :
  inv c -> 0 <= size <= 2 ^ 61 -> used_bytes c + (size + size) <= capacity_bytes c ->
  next_seq_id c < u64_max -> place c size = (k, rs) ->
  let used := if used_bytes c <? u64_wrapping_add (u64_wrapping_add k size) size
              then u64_wrapping_add (u64_wrapping_add k size) size else used_bytes c in
  allocations c !! next_seq_id c = None /\
  inv (set_memory c used
         (<[next_seq_id c := mkAllocation (next_seq_id c) k size (u64_wrapping_add k size) size]>
            (allocations c))
         (u64_wrapping_add (next_seq_id c) 1) rs).
Proof.
  intros H Hs Hle Hnext Hplace used.
  destruct (place_tiling c size k rs H Hs Hle Hplace) as (Hk & top & Htop & Ht & Htail).
  pose proof (inv_capacity c H) as Hc. pose proof (inv_used c H) as Hu.
  pose proof (inv_next c H) as Hn.
  assert (used = Z.max (used_bytes c) (k + (size + size))) as Eu.
  { unfold used. rewrite (u64_wrapping_add_small k size), u64_wrapping_add_small by solve_range.
    destruct (used_bytes c <? k + size + size) eqn:E; breflect; lia. }
  assert (allocations c !! next_seq_id c = None) as Hfresh.
  { destruct (allocations c !! next_seq_id c) eqn:E; [|done].
    apply (inv_allocs c H) in E as [? _]. lia. }
  split; [done|]. split; simpl; rewrite ?Eu; try done; try lia.
  - apply H.
  - rewrite u64_wrapping_add_small; solve_range.
  - rewrite (u64_wrapping_add_small (next_seq_id c)) by solve_range.
    apply map_Forall_insert_2.
    + unfold alloc_ok. simpl. rewrite u64_wrapping_add_small by solve_range. lia.
    + eapply map_Forall_impl; [apply (inv_allocs c H)|]. unfold alloc_ok. lia.
  - exists top. split; [lia|]. split; [|done]. unfold blocks. simpl.
    by rewrite (alloc_blocks_insert _ _ _ Hfresh).
Qed.

Lemma coalesce_loop_tiling top pre cur rest :
  top < u64_mod ->
  tiling top (pre ++ cur :: rest)%list -> tiling top (pre ++ coalesce_loop cur rest)%list.
Proof.
  intros Hm. revert pre cur. induction rest as [|[o s] rest IH]; intros pre [o' s'] Ht; simpl; [done|].
  pose proof (tiling_range _ _ (o', s') Ht ltac:(set_solver)) as H1.
  pose proof (tiling_range _ _ (o, s) Ht ltac:(set_solver)) as H2.
  unfold in_range in H1, H2. simpl in H1, H2.
  rewrite (u64_wrapping_add_small o') by lia.
  destruct (o =? o' + s') eqn:E; breflect.
  - subst o. rewrite (u64_wrapping_add_small s') by lia. apply IH.
    rewrite <- !Permutation_middle in Ht.
    rewrite <- Permutation_middle. by apply tiling_merge.
  - specialize (IH (pre ++ [(o', s')])%list (o, s)). rewrite <- !app_assoc in IH. by apply IH.
Qed.

Lemma coalesce_loop_cover top pre cur rest b :
  top < u64_mod -> tiling top (pre ++ cur :: rest)%list -> b ∈ cur :: rest ->
  exists b', b' ∈ coalesce_loop cur rest /\ b'.1 <= b.1 /\ b.1 + b.2 <= b'.1 + b'.2.
Proof.
  intros Hm. revert pre cur b.
  induction rest as [|[o s] rest IH]; intros pre [o' s'] b Ht Hb; simpl.
  { apply list_elem_of_singleton in Hb as ->. exists (o', s'). set_solver by lia. }
  pose proof (tiling_range _ _ (o', s') Ht ltac:(set_solver)) as H1.
  pose proof (tiling_range _ _ (o, s) Ht ltac:(set_solver)) as H2.
  unfold in_range in H1, H2. simpl in H1, H2.
  rewrite (u64_wrapping_add_small o') by lia.
  destruct (o =? o' + s') eqn:E; breflect.
  - subst o. rewrite (u64_wrapping_add_small s') by lia.
    assert (tiling top (pre ++ (o', s' + s) :: rest)%list) as Ht'.
    { rewrite <- Permutation_middle. apply tiling_merge. by rewrite <- !Permutation_middle in Ht. }
    rewrite !elem_of_cons in Hb. destruct Hb as [->|[->|Hb]].
    + destruct (IH pre (o', s' + s) (o', s' + s) Ht' ltac:(constructor)) as (b' & ? & ? & ?).
      exists b'. simpl in *. repeat split; [done|lia|lia].
    + destruct (IH pre (o', s' + s) (o', s' + s) Ht' ltac:(constructor)) as (b' & ? & ? & ?).
      exists b'. simpl in *. repeat split; [done|lia|lia].
    + apply (IH pre (o', s' + s) b Ht'). by constructor.
  - apply elem_of_cons in Hb as [->|Hb].
    + exists (o', s'). split; [constructor|simpl; lia].
    + destruct (IH (pre ++ [(o', s')])%list (o, s) b) as (b' & ? & ?); [|done|].
      { by rewrite <- app_assoc. }
      exists b'. split; [by constructor|done].
Qed.

Lemma coalesce_tiling top pre rs :
  top < u64_mod -> tiling top (pre ++ rs)%list ->
  tiling top (pre ++ coalesce_free_regions rs)%list.
Proof.
  intros Hm Ht. unfold coalesce_free_regions.
  pose proof (stable_sort_perm (fun r1 r2 => r1.1 <=? r2.1) rs) as Hp.
  rewrite <- Hp in Ht. destruct (stable_sort _ rs); [done|]. by apply coalesce_loop_tiling.
Qed.

Lemma coalesce_tail top pre rs used :
  top < u64_mod -> tiling top (pre ++ rs)%list ->
  tail_region top used rs -> tail_region top used (coalesce_free_regions rs).
Proof.
  intros Hm Ht (o & s & Hin & Ho & Hs).
  pose proof (coalesce_tiling top pre rs Hm Ht) as Ht'.
  unfold coalesce_free_regions in *.
  pose proof (stable_sort_perm (fun r1 r2 => r1.1 <=? r2.1) rs) as Hp.
  rewrite <- Hp in Ht, Hin. destruct (stable_sort _ rs) as [|cur rest]; [by apply not_elem_of_nil in Hin|].
  destruct (coalesce_loop_cover top pre cur rest _ Hm Ht Hin) as ([o' s'] & Hb & Hlo & Hhi).
  simpl in *. exists o', s'. split; [done|].
  pose proof (tiling_range _ _ (o', s') Ht' ltac:(apply elem_of_app; by right)) as Hr.
  unfold in_range in Hr. simpl in Hr. lia.
Qed.

Lemma free_memory_inv c seq_id a :
  inv c -> allocations c !! seq_id = Some a ->
  inv (set_memory c (used_bytes c) (delete seq_id (allocations c)) (next_seq_id c)
         (coalesce_free_regions (free_regions c ++ [block a])%list)).
Proof.
  intros H Ha. destruct (inv_tiling c H) as (top & Htop & Ht & Htail).
  pose proof (inv_capacity c H) as Hc.
  split; simpl; try apply H.
  - apply map_Forall_delete, H.
  - exists top. split; [done|]. unfold blocks in *. simpl.
    rewrite (alloc_blocks_delete _ _ _ Ha), <- app_comm_cons, Permutation_cons_append, <- app_assoc
      in Ht.
    split; [apply coalesce_tiling; [solve_range|done]|].
    destruct Htail as [->|[-> Htail]]; [by left|right]. split; [done|].
    eapply coalesce_tail; [solve_range|exact Ht|].
    eapply tail_region_mono; [|reflexivity|exact Htail]. set_solver.
Qed.

Lemma freed_bytes_exact c seq_id a :
  inv c -> allocations c !! seq_id = Some a ->
  u64_wrapping_add (k_size a) (v_size a) = k_size a + v_size a.
Proof.
  intros H Ha. pose proof (inv_allocs c H _ _ Ha) as (_ & ? & ? & ? & ? & ?).
  pose proof (inv_used c H). pose proof (inv_capacity c H).
  apply u64_wrapping_add_small. solve_range.
Qed.

Lemma free_inv seq_id c : inv c -> inv (free seq_id c).2.
Proof.
  intros H. unfold free. simpl. destruct (allocations c !! seq_id) as [a|] eqn:Ha; [|simpl; auto with aos].
  rewrite (freed_bytes_exact c seq_id a H Ha). simpl.
  apply (inv_set_guards _ (delete seq_id (active_guards c))), (free_memory_inv _ seq_id a) in H; [|done].
  destruct (quota_manager c); auto with aos.
Qed.

Lemma release_allocation_quota_fields c :
  exists q, release_allocation_quota c = set_quota c q.
Proof.
  unfold release_allocation_quota. destruct (quota_manager c) as [qm|] eqn:E.
  - destruct (_ =? 0); [exists (Some qm); destruct c; simpl in *; by subst|].
    destruct (0 <? _); [by eexists|exists (Some qm); destruct c; simpl in *; by subst].
  - exists None. destruct c; simpl in *. by subst.
Qed.

(** A cleared cache satisfies the invariant whichever free list it starts with. *)
Lemma cleared_inv c next rs :
  inv c -> 0 < next <= u64_max -> (rs = [] \/ rs = [(0, capacity_bytes c)]) ->
  inv (set_memory (release_allocation_quota c) 0 ∅ next rs).
Proof.
  intros H Hn Hrs. destruct (release_allocation_quota_fields c) as [q ->].
  pose proof (inv_capacity c H).
  split; simpl; try apply H; try done; try lia.
  destruct Hrs as [ -> | -> ]; unfold blocks; simpl.
  - exists 0. split; [lia|]. split; [by repeat constructor|by left].
  - exists (capacity_bytes c). split; [lia|].
    assert (alloc_blocks ∅ = []) as -> by done. split.
    + repeat split; simpl; try done; [|lia]. constructor; [|done]. unfold in_range. simpl. lia.
    + right. split; [done|]. exists 0, (capacity_bytes c). split; [constructor|lia].
Qed.

Lemma reset_all_inv c : inv c -> inv (reset_all c).
Proof. intros H. apply inv_set_guards, cleared_inv; [done|solve_range|by left]. Qed.

Lemma zeroize_inv c : inv c -> inv (zeroize c).
Proof. intros H. apply cleared_inv; [done|apply H|by left]. Qed.

Lemma zeroize_all_inv c : inv c -> inv (zeroize_all c).
Proof. intros H. apply inv_set_guards, cleared_inv; [done|apply H|by right]. Qed.

Lemma coherence_inv c g : inv c -> inv (ensure_cache_coherence c g).2.
Proof.
  intros H. unfold ensure_cache_coherence.
  destruct (negb _); simpl; [|done]. by apply inv_set_generation, reset_all_inv.
Qed.

Lemma new_inv capacity qm : 0 <= capacity < 2 ^ 63 -> inv (new_with_quota capacity qm).
Proof.
  intros H. split; simpl; try done; try solve_range.
  exists 0. split; [lia|]. split; [by repeat constructor|by left].
Qed.

Lemma rounded_len_range len : 0 <= len -> 0 < rounded_len len <= 2 ^ 20.
Proof.
  intros H. unfold rounded_len. change (Z.shiftl 1 20) with (2 ^ 20).
  repeat (case_match; breflect); lia.
Qed.

(** ** The cache and its quota manager together *)

Lemma alloc_total_insert al i a :
  al !! i = None -> alloc_total (<[i := a]> al) = k_size a + v_size a + alloc_total al.
Proof. intros Hi. unfold alloc_total. by rewrite (alloc_blocks_insert al i a Hi). Qed.

Lemma alloc_total_delete al i a :
  al !! i = Some a -> alloc_total al = k_size a + v_size a + alloc_total (delete i al).
Proof. intros Hi. unfold alloc_total. by rewrite (alloc_blocks_delete al i a Hi). Qed.

Lemma alloc_total_range c : inv c -> 0 <= alloc_total (allocations c) <= capacity_bytes c.
Proof.
  intros H. destruct (inv_tiling c H) as (top & Htop & Ht & _). unfold blocks in Ht.
  pose proof (tiling_sum_le _ _ _ Ht). split; [|unfold alloc_total; lia].
  destruct Ht as (Hr & _). apply Forall_app in Hr as [Hr _].
  apply sumZ_nonneg, List.Forall_map. eapply Forall_impl; [exact Hr|]. unfold in_range. lia.
Qed.

Lemma allocated_bytes_exact c :
  inv c -> allocated_bytes (allocations c) = alloc_total (allocations c).
Proof.
  intros H. pose proof (alloc_total_range c H) as Ht. pose proof (inv_capacity c H) as Hc.
  assert (allocated_bytes (allocations c) = alloc_total (allocations c) mod u64_mod) as ->.
  2: { apply Z.mod_small. solve_range. }
  unfold allocated_bytes, alloc_total, alloc_blocks.
  assert (Forall (fun p => 0 <= k_size p.2 /\ v_size p.2 = k_size p.2 /\ k_size p.2 < 2 ^ 63)
            (map_to_list (allocations c))) as Hall.
  { apply Forall_forall. intros [i a] Hin%elem_of_map_to_list.
    apply (inv_allocs c H) in Hin as (_ & ? & ? & ? & ? & ?). simpl.
    pose proof (inv_used c H). lia. }
  induction Hall as [|[i a] l Ha Hall IH]; simpl in *; [done|].
  rewrite IH. unfold u64_wrapping_add, u64_saturating_add, u64_max.
  rewrite Zplus_mod_idemp_r. f_equal. solve_range.
Qed.

(** The cache after a successful placement, in exact arithmetic. *)
Definition allocated (c : KvCache) (size k : Z) (rs : list (Z * Z)) : KvCache :=
  set_memory c (Z.max (used_bytes c) (k + (size + size)))
    (<[next_seq_id c := mkAllocation (next_seq_id c) k size (k + size) size]> (allocations c))
    (next_seq_id c + 1) rs.

Section Commit.
Context (c : KvCache) (size k : Z) (rs : list (Z * Z)).
Context (H : inv c) (Hs : 0 <= size <= 2 ^ 61).
Context (Hle : used_bytes c + (size + size) <= capacity_bytes c).
Context (Hnext : next_seq_id c < u64_max) (Hp : place c size = (k, rs)).

Lemma placed_arith :
  u64_wrapping_add k size = k + size
  /\ u64_wrapping_add (next_seq_id c) 1 = next_seq_id c + 1
  /\ u64_wrapping_add (k + size) size = k + (size + size)
  /\ (if used_bytes c <? k + (size + size) then k + (size + size) else used_bytes c)
     = Z.max (used_bytes c) (k + (size + size)).
Proof.
  pose proof (inv_capacity c H). pose proof (inv_used c H). pose proof (inv_next c H).
  destruct (place_tiling c size k rs H Hs Hle Hp) as (Hk & top & Htop & _).
  rewrite !u64_wrapping_add_small by solve_range.
  destruct (used_bytes c <? k + (size + size)) eqn:E; breflect; lia.
Qed.

Lemma allocated_inv :
  allocations c !! next_seq_id c = None /\ inv (allocated c size k rs).
Proof.
  destruct (commit_inv c size k rs H Hs Hle Hnext Hp) as [Hfresh Hinv]. split; [done|].
  destruct placed_arith as (E1 & E2 & E3 & E4). unfold allocated.
  by rewrite E1, E2, E3, E4 in Hinv.
Qed.

Lemma commit_eq res :
  commit_allocation size res c =
  match res, quota_manager c with
  | Some r, Some qm =>
      match qm_finalize r qm with
      | (Ok _, qm') => (Ok (next_seq_id c), set_quota (allocated c size k rs) (Some qm'))
      | (Err e, qm') =>
          (Err e, set_quota
             (set_memory (allocated c size k rs)
                (if k + (size + size) =? Z.max (used_bytes c) (k + (size + size))
                 then u64_wrapping_sub (Z.max (used_bytes c) (k + (size + size)))
                        (u64_wrapping_add size size)
                 else Z.max (used_bytes c) (k + (size + size)))
                (delete (next_seq_id c) (allocations (allocated c size k rs)))
                (next_seq_id c + 1) rs) (Some qm'))
      end
  | _, _ => (Ok (next_seq_id c), allocated c size k rs)
  end.
Proof.
  destruct placed_arith as (E1 & E2 & E3 & E4). unfold commit_allocation, allocated.
  rewrite Hp. cbn zeta iota. rewrite E1, E3, E4, E2. simpl.
  by destruct res as [r|], (quota_manager c) as [qm|].
Qed.
End Commit.

Lemma size_range c len :
  inv c -> 0 <= len -> 0 <= rounded_len len * bytes_per_token c <= 2 ^ 61.
Proof.
  intros H Hlen. pose proof (rounded_len_range len Hlen). pose proof (inv_token c H). nia.
Qed.

Section WithLaws.
Context `{L : !QuotaLaws Q R}.

(** The manager's used counter is the number of bytes the cache has handed out. *)
Definition quota_ok (c : KvCache) : Prop :=
  forall q, quota_manager c = Some q ->
    qm_ok q /\ qm_used q = alloc_total (allocations c).

Definition limit_of (c : KvCache) : option Z := quota_manager c ≫= qm_limit.

Definition clock_ok (now nanos : Z) (c : KvCache) : Prop :=
  forall q, quota_manager c = Some q -> qm_fresh now nanos q.

(** [c'] keeps the invariants and the tenant's limit. *)
Definition keeps (c c' : KvCache) : Prop := inv c' /\ quota_ok c' /\ limit_of c' = limit_of c.

Lemma keeps_trans c1 c2 c3 : keeps c1 c2 -> keeps c2 c3 -> keeps c1 c3.
Proof. unfold keeps. intuition congruence. Qed.

Lemma release_allocation_quota_keeps c :
  inv c -> quota_ok c ->
  let c' := release_allocation_quota c in
  limit_of c' = limit_of c /\
  forall q, quota_manager c' = Some q -> qm_ok q /\ qm_used q = 0.
Proof.
  intros H Hq. unfold release_allocation_quota, limit_of.
  destruct (quota_manager c) as [qm|] eqn:E; [|rewrite E; split; [done|congruence]].
  destruct (Hq qm E) as [Hok Hused]. pose proof (alloc_total_range c H) as Ht.
  rewrite (allocated_bytes_exact c H), Hused, Z.min_id.
  destruct (_ =? 0) eqn:Ez; breflect.
  { rewrite E. split; [done|]. intros q [= <-]. split; [done|lia]. }
  rewrite (proj2 (Z.ltb_lt _ _)) by lia. simpl.
  destruct (qm_release_ok (alloc_total (allocations c)) qm Hok) as (Hok' & Hused' & Hlim); [lia|].
  split; [done|]. intros q [= <-]. split; [done|lia].
Qed.

Lemma cleared_keeps c next rs :
  inv c -> quota_ok c -> 0 < next <= u64_max -> (rs = [] \/ rs = [(0, capacity_bytes c)]) ->
  keeps c (set_memory (release_allocation_quota c) 0 ∅ next rs).
Proof.
  intros H Hq Hn Hrs. destruct (release_allocation_quota_keeps c H Hq) as [Hlim Hzero].
  split; [by apply cleared_inv|]. by split.
Qed.

Lemma set_guards_keeps c c' g : keeps c c' -> keeps c (set_guards c' g).
Proof. intros (? & ? & ?). by split; [apply inv_set_guards|]. Qed.

Lemma set_generation_keeps c c' g : keeps c c' -> keeps c (set_generation c' g).
Proof. intros (? & ? & ?). by split; [apply inv_set_generation|]. Qed.

Lemma keeps_refl c : inv c -> quota_ok c -> keeps c c.
Proof. by split. Qed.

Lemma reset_all_keeps c : inv c -> quota_ok c -> keeps c (reset_all c).
Proof. intros. apply set_guards_keeps, cleared_keeps; [done|done|solve_range|by left]. Qed.

Lemma zeroize_keeps c : inv c -> quota_ok c -> keeps c (zeroize c).
Proof. intros H ?. apply cleared_keeps; [done|done|apply H|by left]. Qed.

Lemma zeroize_all_keeps c : inv c -> quota_ok c -> keeps c (zeroize_all c).
Proof. intros H ?. apply set_guards_keeps, cleared_keeps; [done|done|apply H|by right]. Qed.

Lemma coherence_keeps c g : inv c -> quota_ok c -> keeps c (ensure_cache_coherence c g).2.
Proof.
  intros. unfold ensure_cache_coherence. destruct (negb _); simpl; [|by apply keeps_refl].
  by apply set_generation_keeps, reset_all_keeps.
Qed.

Lemma free_keeps seq_id c : inv c -> quota_ok c -> keeps c (free seq_id c).2.
Proof.
  intros H Hq. split; [by apply free_inv|]. unfold free, quota_ok, limit_of. simpl.
  destruct (allocations c !! seq_id) as [a|] eqn:Ha; simpl; [|done].
  rewrite (freed_bytes_exact c seq_id a H Ha).
  destruct (quota_manager c) as [qm|] eqn:E; simpl; [|rewrite E; split; [congruence|done]].
  destruct (Hq qm E) as [Hok Hused].
  pose proof (alloc_total_delete _ _ _ Ha) as Ht.
  pose proof (inv_allocs c H _ _ Ha) as (_ & ? & ? & ? & ? & ?).
  assert (inv (free seq_id c).2) as H' by by apply free_inv.
  apply alloc_total_range in H'. unfold free in H'. simpl in H'. rewrite Ha in H'. simpl in H'.
  rewrite E in H'. simpl in H'.
  destruct (qm_release_ok (k_size a + v_size a) qm Hok) as (? & ? & ?); [lia|].
  split; [|done]. intros q [= <-]. split; [done|lia].
Qed.

Lemma drain_keeps c : inv c -> quota_ok c -> keeps c (drain_active_sequences c).2.
Proof.
  intros H Hq. unfold drain_active_sequences. destruct (0 <? _)%nat; simpl; [|by apply keeps_refl].
  apply set_guards_keeps. generalize (map fst (map_to_list (active_guards c))) as ids.
  intros ids. revert c H Hq. induction ids as [|i ids IH]; intros c H Hq; simpl; [by apply keeps_refl|].
  destruct (free_keeps i c H Hq) as (H' & Hq' & Hl').
  eapply keeps_trans; [|by apply IH]. by split.
Qed.

(** Outcomes of the reservation stage. *)
Lemma reserve_quota_outcome now nanos bytes c :
  inv c -> quota_ok c -> clock_ok now nanos c -> is_u64 bytes ->
  match reserve_quota now nanos bytes c with
  | (Err _, c') => exists q, c' = set_quota c q /\ keeps c c'
  | (Ok None, c') => c' = c /\ quota_manager c = None
  | (Ok (Some r), c') => exists qm qm', quota_manager c = Some qm /\ c' = set_quota c (Some qm')
      /\ qm_reserve now nanos bytes qm = (Ok r, qm')
  end.
Proof.
  intros H Hq Hclock Hb. unfold reserve_quota.
  destruct (quota_manager c) as [qm|] eqn:E; [|done].
  destruct (Hq qm E) as [Hok Hused].
  destruct (qm_reserve now nanos bytes qm) as [[r|e] qm'] eqn:Er; [by eexists _, _|].
  assert (keeps c (set_quota c (Some qm'))) as Hkeep.
  { destruct (qm_reserve_err _ _ _ _ _ _ Hok Er) as (? & ? & ?).
    split; [by apply inv_set_quota|]. split; [intros q [= <-]; simpl; split; [done|lia]|].
    unfold limit_of. by rewrite E. }
  destruct e; try by eexists. destruct (str_contains _ _); by eexists.
Qed.

Lemma commit_outcome now nanos size k rs c res c1 :
  inv c -> quota_ok c -> clock_ok now nanos c ->
  0 <= size <= 2 ^ 61 -> used_bytes c + (size + size) <= capacity_bytes c ->
  next_seq_id c < u64_max -> place c size = (k, rs) ->
  reserve_quota now nanos (size + size) c = (Ok res, c1) ->
  exists q, commit_allocation size res c1 = (Ok (next_seq_id c), set_quota (allocated c size k rs) q)
    /\ keeps c (set_quota (allocated c size k rs) q).
Proof.
  intros H Hq Hclock Hs Hle Hnext Hp Hres.
  destruct (allocated_inv c size k rs H Hs Hle Hnext Hp) as (Hfresh & Hinv).
  pose proof (alloc_total_insert _ _ (mkAllocation (next_seq_id c) k size (k + size) size) Hfresh) as Ht.
  simpl in Ht. pose proof (inv_capacity c H). pose proof (inv_used c H).
  pose proof (alloc_total_range c H).
  pose proof (reserve_quota_outcome now nanos (size + size) c H Hq Hclock ltac:(solve_range)) as Ho.
  rewrite Hres in Ho. destruct res as [r|].
  - destruct Ho as (qm & qm' & Em & -> & Er). destruct (Hq qm Em) as [Hok Hused].
    destruct (qm_reserve_finalize now nanos (size + size) r qm qm' Hok ltac:(solve_range) (Hclock qm Em)
      ltac:(solve_range) Er) as (q'' & Ef & Hok' & Hused' & Hlim).
    exists (Some q''). rewrite (commit_eq (set_quota c (Some qm')) size k rs); try done;
      [|by apply inv_set_quota].
    simpl. rewrite Ef. split; [done|]. split; [by apply inv_set_quota|].
    split; [|unfold limit_of; simpl; by rewrite Em].
    intros q [= <-]. split; [done|]. simpl. lia.
  - destruct Ho as [-> En]. exists None. rewrite (commit_eq c size k rs) by done. cbv iota.
    assert (set_quota (allocated c size k rs) None = allocated c size k rs) as Eq0.
    { unfold set_quota, allocated, set_memory. simpl. by rewrite En. }
    rewrite Eq0. split; [done|]. split; [done|]. split; [|done].
    intros q. simpl. by rewrite En.
Qed.

(** Outcomes of [allocate]: an error leaves memory and bookkeeping alone; success
    returns the next id and places [2 * size] bytes. *)
Lemma allocate_outcome now nanos len c :
  inv c -> quota_ok c -> 0 <= len -> next_seq_id c < u64_max -> clock_ok now nanos c ->
  let size := rounded_len len * bytes_per_token c in
  (exists e q, allocate now nanos len c = (Err e, set_quota c q) /\ keeps c (set_quota c q))
  \/ (exists k rs q,
       place c size = (k, rs) /\ used_bytes c + (size + size) <= capacity_bytes c /\
       allocate now nanos len c = (Ok (next_seq_id c), set_quota (allocated c size k rs) q)
       /\ keeps c (set_quota (allocated c size k rs) q)).
Proof.
  intros H Hq Hlen Hnext Hclock size.
  pose proof (size_range c len H Hlen) as Hs. fold size in Hs.
  pose proof (inv_capacity c H) as Hc. pose proof (inv_used c H) as Hu.
  unfold allocate, u64_checked_mul. fold size. rewrite (proj2 (Z.leb_le _ _)) by solve_range.
  assert (u64_wrapping_mul size 2 = size + size) as ->.
  { unfold u64_wrapping_mul. rewrite Z.mod_small; solve_range. }
  pose proof (reserve_quota_outcome now nanos (size + size) c H Hq Hclock ltac:(solve_range)) as Ho.
  destruct (reserve_quota now nanos (size + size) c) as [[res|e] c1] eqn:Er.
  2: { left. destruct Ho as (q & -> & Hk). by exists e, q. }
  assert (used_bytes c1 = used_bytes c /\ capacity_bytes c1 = capacity_bytes c) as [-> ->].
  { destruct res; [destruct Ho as (? & ? & _ & -> & _)|destruct Ho as [-> _]]; done. }
  rewrite u64_wrapping_add_small by solve_range.
  destruct (capacity_bytes c <? _) eqn:Ecap; breflect.
  - left. exists (cache_full c1). destruct res as [r|].
    + destruct Ho as (qm & qm' & Em & -> & Er'). exists (Some (qm_rollback r qm')).
      split; [done|]. destruct (Hq qm Em) as [Hok Hused].
      destruct (qm_reserve_rollback now nanos (size + size) r qm qm' Hok ltac:(solve_range) (Hclock qm Em) Er')
        as (? & ? & ?).
      split; [by apply inv_set_quota|]. split; [intros q [= <-]; simpl; split; [done|lia]|].
      unfold limit_of. by rewrite Em.
    + destruct Ho as [-> En]. exists None.
      assert (set_quota c None = c) as -> by (destruct c; simpl in *; by subst).
      split; [done|by apply keeps_refl].
  - right. destruct (place c size) as [k rs] eqn:Ep. exists k, rs.
    destruct (commit_outcome now nanos size k rs c res c1) as (q & Heq & Hk); try done.
    by exists q.
Qed.

(** One public call on the cache. [allow_set] admits the raw [set_generation]. *)
Inductive step (allow_set : bool) (c : KvCache) : KvCache -> Prop :=
| step_allocate now nanos len :
    0 <= len -> next_seq_id c < u64_max -> clock_ok now nanos c ->
    step allow_set c (allocate now nanos len c).2
| step_allocate_with_guard now nanos len generation :
    0 <= len -> next_seq_id (ensure_cache_coherence c generation).2 < u64_max ->
    clock_ok now nanos (ensure_cache_coherence c generation).2 ->
    step allow_set c (allocate_with_guard now nanos len generation c).2
| step_free seq_id : step allow_set c (free seq_id c).2
| step_coherence generation : step allow_set c (ensure_cache_coherence c generation).2
| step_set_generation generation : allow_set = true -> step allow_set c (set_generation c generation)
| step_drain : step allow_set c (drain_active_sequences c).2
| step_zeroize : step allow_set c (zeroize c)
| step_zeroize_sequence seq_id : step allow_set c (zeroize_sequence seq_id c).2
| step_zeroize_all : step allow_set c (zeroize_all c)
| step_reset_all : step allow_set c (reset_all c).

Lemma allocate_keeps now nanos len c :
  inv c -> quota_ok c -> 0 <= len -> next_seq_id c < u64_max -> clock_ok now nanos c ->
  keeps c (allocate now nanos len c).2.
Proof.
  intros H Hq Hlen Hn Hc.
  destruct (allocate_outcome now nanos len c H Hq Hlen Hn Hc)
    as [(e & q & -> & Hk)|(k & rs & q & _ & _ & -> & Hk)]; done.
Qed.

Lemma step_keeps b c c' : inv c -> quota_ok c -> step b c c' -> keeps c c'.
Proof.
  intros H Hq Hs. destruct Hs.
  - by apply allocate_keeps.
  - destruct (coherence_keeps c generation H Hq) as (Hi1 & Hq1 & Hl1).
    assert (keeps (ensure_cache_coherence c generation).2
              (allocate now nanos len (ensure_cache_coherence c generation).2).2) as Hk
      by by apply allocate_keeps.
    unfold allocate_with_guard, ensure_cache_coherence in *.
    destruct (negb _); simpl in *;
      destruct (allocate _ _ _ _) as [[]]; simpl in *; try apply set_guards_keeps;
      (eapply keeps_trans; [|exact Hk]); by split.
  - by apply free_keeps.
  - by apply coherence_keeps.
  - by apply set_generation_keeps, keeps_refl.
  - by apply drain_keeps.
  - by apply zeroize_keeps.
  - unfold zeroize_sequence. destruct (allocations c !! seq_id); [by apply free_keeps|by apply keeps_refl].
  - by apply zeroize_all_keeps.
  - by apply reset_all_keeps.
Qed.

Lemma run_keeps b c c' : inv c -> quota_ok c -> rtc (step b) c c' -> keeps c c'.
Proof.
  intros H Hq Hrun. induction Hrun as [c|c c1 c' Hs _ IH]; [by apply keeps_refl|].
  destruct (step_keeps b c c1 H Hq Hs) as (H1 & Hq1 & Hl1).
  eapply keeps_trans; [|by apply IH]. by split.
Qed.

(** Disjointness of the tiling, read off per allocation. *)
Lemma tiling_allocs_disjoint c i j a b :
  inv c -> i <> j -> allocations c !! i = Some a -> allocations c !! j = Some b ->
  disjoint (block a) (block b).
Proof.
  intros H Hij Ha Hb. destruct (inv_tiling c H) as (top & _ & (_ & Hd & _) & _).
  unfold blocks in Hd.
  assert (alloc_blocks (allocations c)
          ≡ₚ block a :: block b :: alloc_blocks (delete j (delete i (allocations c)))) as Hp.
  { rewrite (alloc_blocks_delete _ _ _ Ha). f_equiv. apply alloc_blocks_delete.
    by rewrite lookup_delete_ne. }
  eapply pairwise_disjoint_perm in Hd; [|by rewrite Hp].
  destruct Hd as [Hd _]. by apply Forall_cons in Hd as [? _].
Qed.

Lemma tiling_free_disjoint c i a r :
  inv c -> allocations c !! i = Some a -> r ∈ free_regions c -> disjoint (block a) r.
Proof.
  intros H Ha Hr. destruct (inv_tiling c H) as (top & _ & (_ & Hd & _) & _).
  unfold blocks in Hd. eapply pairwise_disjoint_perm in Hd; [|by rewrite (alloc_blocks_delete _ _ _ Ha)].
  destruct Hd as [Hd _]. rewrite Forall_forall in Hd. apply Hd. apply elem_of_app. by right.
Qed.

Lemma fresh_quota_ok capacity qm :
  (forall q, qm = Some q -> qm_ok q /\ qm_used q = 0) -> quota_ok (new_with_quota capacity qm).
Proof. intros H q Hq. by destruct (H q Hq). Qed.

(** Guards of the current generation only. *)
Definition guards_current (c : KvCache) : Prop :=
  map_Forall (fun _ g => g = stack_generation c) (active_guards c).

Lemma free_guards seq_id c :
  stack_generation (free seq_id c).2 = stack_generation c /\
  active_guards (free seq_id c).2 = delete seq_id (active_guards c).
Proof.
  unfold free. simpl. destruct (allocations c !! seq_id); simpl; [|done].
  by destruct (quota_manager c).
Qed.

Lemma allocate_guards now nanos len c :
  stack_generation (allocate now nanos len c).2 = stack_generation c /\
  active_guards (allocate now nanos len c).2 = active_guards c.
Proof.
  unfold allocate. destruct (u64_checked_mul _ _); [|done]. unfold reserve_quota.
  destruct (quota_manager c) as [qm|] eqn:E.
  - destruct (qm_reserve _ _ _ _) as [[r|e] qm']; simpl.
    + destruct (_ <? _); [done|]. unfold commit_allocation.
      destruct (place _ _). simpl. by destruct (qm_finalize _ _) as [[]].
    + destruct e; try done. by destruct (str_contains _ _).
  - destruct (_ <? _); [done|]. unfold commit_allocation. by destruct (place _ _).
Qed.

Lemma cleared_guards c next rs :
  active_guards (set_memory (release_allocation_quota c) 0 ∅ next rs) = active_guards c
  /\ stack_generation (set_memory (release_allocation_quota c) 0 ∅ next rs) = stack_generation c.
Proof. by destruct (release_allocation_quota_fields c) as [q ->]. Qed.

Lemma drain_guards c : active_guards (drain_active_sequences c).2 = ∅.
Proof.
  unfold drain_active_sequences. destruct (0 <? _)%nat eqn:E; simpl; [done|].
  breflect. apply map_size_empty_inv. lia.
Qed.

Lemma coherence_guards c g :
  guards_current c ->
  guards_current (ensure_cache_coherence c g).2
  /\ stack_generation (ensure_cache_coherence c g).2 = g.
Proof.
  intros Hg. unfold ensure_cache_coherence.
  destruct (g =? stack_generation c) eqn:E; breflect; simpl; [by subst|done].
Qed.

Lemma step_guards c c' : guards_current c -> step false c c' -> guards_current c'.
Proof.
  unfold guards_current. intros Hg Hs. destruct Hs; try done.
  - by destruct (allocate_guards now nanos len c) as [-> ->].
  - destruct (coherence_guards c generation Hg) as [Hg' Hgen]. unfold allocate_with_guard.
    unfold ensure_cache_coherence in *. destruct (negb _); simpl in *.
    all: match goal with |- context [allocate ?n ?m ?l ?c] =>
           destruct (allocate_guards n m l c) as [E1 E2]; destruct (allocate n m l c) as [[]] end.
    all: simpl in *; rewrite E1, E2; try done.
    all: apply map_Forall_insert_2; done.
  - destruct (free_guards seq_id c) as [-> ->]. by apply map_Forall_delete.
  - by apply coherence_guards.
  - by rewrite drain_guards.
  - unfold zeroize. by destruct (cleared_guards c (next_seq_id c) []) as [-> ->].
  - unfold zeroize_sequence. destruct (allocations c !! seq_id); [|done].
    destruct (free_guards seq_id c) as [-> ->]. by apply map_Forall_delete.
Qed.

(** ** Theorems over the interface *)

(** [C1] After any sequence of calls the ranges handed to two live sequences share
    no byte, lie inside the buffer with V directly after K, and share no byte with
    a free region. *)
Theorem live_sequences_disjoint b capacity qm c :
  0 <= capacity < 2 ^ 63 ->
  (forall q, qm = Some q -> qm_ok q /\ qm_used q = 0) ->
  rtc (step b) (new_with_quota capacity qm) c ->
  forall i x, allocations c !! i = Some x ->
    0 <= k_offset x /\ v_offset x = k_offset x + k_size x
    /\ v_offset x + v_size x <= used_bytes c <= capacity_bytes c
    /\ (forall j y, i <> j -> allocations c !! j = Some y -> disjoint (block x) (block y))
    /\ (forall r, r ∈ free_regions c -> disjoint (block x) r).
Proof.
  intros Hcap Hqm Hrun i x Hx.
  destruct (run_keeps b _ c (new_inv capacity qm Hcap) (fresh_quota_ok capacity qm Hqm) Hrun)
    as (H & _ & _).
  pose proof (inv_allocs c H i x Hx) as (_ & ? & ? & ? & ? & ?). pose proof (inv_used c H).
  repeat split; try lia.
  - intros j y Hij Hy. by eapply tiling_allocs_disjoint.
  - intros r Hr. by eapply tiling_free_disjoint.
Qed.

(** After any sequence of calls the manager's used counter is exactly the
    number of bytes of the live allocations, so the live allocations of a tenant
    never exceed the tenant's quota. *)
Theorem allocated_within_quota b capacity q0 c q n :
  0 <= capacity < 2 ^ 63 -> qm_ok q0 -> qm_used q0 = 0 -> qm_limit q0 = Some n ->
  rtc (step b) (new_with_quota capacity (Some q0)) c -> quota_manager c = Some q ->
  qm_used q = alloc_total (allocations c) /\ alloc_total (allocations c) <= n.
Proof.
  intros Hcap Hok Hused Hlim Hrun Hq.
  destruct (run_keeps b _ c (new_inv capacity (Some q0) Hcap)
    ltac:(apply fresh_quota_ok; by intros q1 [= <-]) Hrun) as (H & Hquota & Hl).
  destruct (Hquota q Hq) as [Hqok Hqu]. split; [done|].
  unfold limit_of in Hl. rewrite Hq in Hl. simpl in Hl. rewrite Hlim in Hl.
  rewrite <- Hqu. by apply qm_within_limit.
Qed.

(** [allocate] either fails, changing nothing but the manager, or returns an
    id that was not live, records for it K and V ranges of the rounded slab size
    and leaves every other sequence's ranges, the generation and the guards
    alone. *)
Theorem allocate_frame now nanos len c :
  inv c -> quota_ok c -> 0 <= len -> next_seq_id c < u64_max -> clock_ok now nanos c ->
  let (r, c') := allocate now nanos len c in
  match r with
  | Err _ => exists q, c' = set_quota c q
  | Ok seq_id => allocations c !! seq_id = None
      /\ (exists a, allocations c' !! seq_id = Some a /\ k_size a = v_size a
           /\ k_size a = rounded_len len * bytes_per_token c)
      /\ (forall j, j <> seq_id -> allocations c' !! j = allocations c !! j)
      /\ stack_generation c' = stack_generation c /\ active_guards c' = active_guards c
  end.
Proof.
  intros H Hq Hlen Hn Hc. pose proof (size_range c len H Hlen) as Hs.
  destruct (allocate_outcome now nanos len c H Hq Hlen Hn Hc)
    as [(e & q & -> & Hk)|(k & rs & q & Hp & Hle & -> & Hk)]; [by exists q|].
  destruct (allocated_inv c _ k rs H Hs Hle Hn Hp) as [Hfresh _].
  split; [done|]. split; [eexists; split; [apply lookup_insert_eq|done]|].
  split; [|done]. intros j Hj. by apply lookup_insert_ne.
Qed.

(** [free] of a live sequence removes exactly that sequence and makes its
    bytes part of one free region; [free] of an unknown id is the not-found error
    and leaves memory alone. *)
Theorem free_outcome seq_id c :
  inv c ->
  let (r, c') := free seq_id c in
  match allocations c !! seq_id with
  | Some a => r = Ok tt /\ allocations c' = delete seq_id (allocations c)
      /\ exists o s, (o, s) ∈ free_regions c' /\ o <= k_offset a
           /\ v_offset a + v_size a <= o + s
  | None => r = Err (Worker ("Sequence ID " +:+ pretty seq_id +:+ " not found in KV cache"))
      /\ allocations c' = allocations c /\ free_regions c' = free_regions c
      /\ used_bytes c' = used_bytes c
  end.
Proof.
  intros H. unfold free. simpl. destruct (allocations c !! seq_id) as [a|] eqn:Ha; [|done].
  rewrite (freed_bytes_exact c seq_id a H Ha).
  pose proof (inv_allocs c H _ _ Ha) as (_ & ? & ? & ? & ? & ?).
  destruct (inv_tiling c H) as (top & Htop & Ht & _). pose proof (inv_capacity c H).
  unfold blocks in Ht.
  rewrite (alloc_blocks_delete _ _ _ Ha), <- app_comm_cons, Permutation_cons_append, <- app_assoc in Ht.
  assert (exists o s, (o, s) ∈ coalesce_free_regions (free_regions c ++ [block a])%list
            /\ o <= k_offset a /\ v_offset a + v_size a <= o + s) as Hcov.
  { unfold coalesce_free_regions.
    pose proof (stable_sort_perm (fun r1 r2 => r1.1 <=? r2.1) (free_regions c ++ [block a])%list) as Hp.
    rewrite <- Hp in Ht.
    assert (block a ∈ stable_sort (fun r1 r2 => r1.1 <=? r2.1) (free_regions c ++ [block a])%list)
      as Hin by (rewrite Hp; set_solver).
    destruct (stable_sort _ _) as [|cur rest]; [by apply not_elem_of_nil in Hin|].
    destruct (coalesce_loop_cover top _ cur rest _ ltac:(solve_range) Ht Hin) as ([o s] & ? & ? & ?).
    exists o, s. simpl in *. split; [done|lia]. }
  by destruct (quota_manager c).
Qed.

(** The guards of the current generation: unless [set_generation] is called,
    no reachable cache has an active guard of another generation than its own, and
    [ensure_cache_coherence] brings both to the generation it is given, dropping
    every allocation when that differs. *)
Theorem guards_never_stale capacity qm c generation :
  rtc (step false) (new_with_quota capacity qm) c ->
  has_active_sequences_with_generation c (stack_generation c) = false
  /\ let c' := (ensure_cache_coherence c generation).2 in
     stack_generation c' = generation
     /\ has_active_sequences_with_generation c' generation = false
     /\ (generation <> stack_generation c -> allocations c' = ∅ /\ used_bytes c' = 0).
Proof.
  intros Hrun.
  assert (guards_current c) as Hg.
  { refine (rtc_invariant (step false) guards_current (new_with_quota capacity qm) c
              step_guards _ Hrun). apply map_Forall_empty. }
  assert (forall c0, guards_current c0 ->
    has_active_sequences_with_generation c0 (stack_generation c0) = false) as Hno.
  { intros c0 Hc0. unfold has_active_sequences_with_generation.
    apply not_true_iff_false. intros (g & Hin & Hne)%existsb_exists.
    apply in_map_iff in Hin as ([i g'] & <- & Hin).
    apply list_elem_of_In, elem_of_map_to_list in Hin. apply Hc0 in Hin. simpl in Hne.
    rewrite Hin, Z.eqb_refl in Hne. done. }
  split; [by apply Hno|]. destruct (coherence_guards c generation Hg) as [Hg' Hgen].
  split; [done|]. split; [rewrite <- Hgen at 2; by apply Hno|].
  intros Hne. unfold ensure_cache_coherence. rewrite (proj2 (Z.eqb_neq _ _) Hne). by simpl.
Qed.

(** [used_bytes] is a high-water mark that [free] never lowers, and [allocate]
    tests it before it looks at the free list: once it has reached the capacity,
    every allocation fails, whatever sequences are freed. *)
Theorem full_cache_never_recovers c ids now nanos len :
  inv c -> 0 < bytes_per_token c -> 0 <= len -> used_bytes c = capacity_bytes c ->
  let c' := foldl (fun c i => (free i c).2) c ids in
  used_bytes c' = capacity_bytes c' /\ is_ok (allocate now nanos len c').1 = false.
Proof.
  intros H Hb Hlen Hfull c'.
  assert (inv c' /\ 0 < bytes_per_token c' /\ used_bytes c' = capacity_bytes c') as (H' & Hb' & Hf').
  { unfold c'. clear c'. revert c H Hb Hfull. induction ids as [|i ids IH]; intros c H Hb Hfull; simpl; [done|].
    apply IH; [by apply free_inv| |]; unfold free; simpl;
      destruct (allocations c !! i); simpl; try done; by destruct (quota_manager c). }
  split; [done|]. clearbody c'. clear c H Hb Hfull.
  pose proof (inv_capacity c' H') as Hc. pose proof (inv_used c' H') as Hu.
  pose proof (size_range c' len H' Hlen) as Hs. pose proof (rounded_len_range len Hlen) as Hr.
  unfold allocate, u64_checked_mul.
  rewrite (proj2 (Z.leb_le _ _)) by solve_range.
  set (size := rounded_len len * bytes_per_token c') in *.
  assert (0 < size) by (unfold size; nia).
  assert (u64_wrapping_mul size 2 = size + size) as ->.
  { unfold u64_wrapping_mul. rewrite Z.mod_small; solve_range. }
  unfold reserve_quota. destruct (quota_manager c') as [qm|].
  - destruct (qm_reserve _ _ _ _) as [[r|e] qm']; simpl.
    + rewrite u64_wrapping_add_small, (proj2 (Z.ltb_lt _ _)) by solve_range. done.
    + destruct e; try done. by destruct (str_contains _ _).
  - rewrite u64_wrapping_add_small, (proj2 (Z.ltb_lt _ _)) by solve_range. done.
Qed.

End WithLaws.
End Cache.
Arguments KvCache Q : clear implicits.

(** ** Instances: the tenant's quota manager *)

Definition MiB : Z := 1048576.
Definition demo_quota : KvQuota.TenantKvQuotaManager := KvQuota.new "t" (Some (8 * MiB)).
Definition demo : KvCache KvQuota.TenantKvQuotaManager := new_with_quota (4 * MiB) (Some demo_quota).

Lemma demo_quota_wf : KvQuota.wf demo_quota.
Proof. apply KvQuota.new_wf. intros n [= <-]. unfold MiB. solve_range. Qed.

Lemma demo_inv : inv demo /\ quota_ok demo.
Proof.
  split; [apply new_inv; unfold MiB; lia|].
  apply fresh_quota_ok. intros q [= <-]. split; [apply demo_quota_wf|done].
Qed.

Lemma demo_clock now nanos : clock_ok now nanos demo.
Proof. intros q [= <-]. intros Hin. simpl in Hin. inversion Hin. Qed.

Lemma demo_step : step false demo (allocate 0 1 100 demo).2.
Proof. apply step_allocate; [lia|vm_compute; reflexivity|apply demo_clock]. Qed.

Lemma live_sequences_disjoint_witness :
  let c := (allocate 0 1 100 demo).2 in
  match allocations c !! 1 with
  | Some x =>
      0 <= k_offset x /\ v_offset x = k_offset x + k_size x
      /\ v_offset x + v_size x <= used_bytes c <= capacity_bytes c
      /\ (forall j y, 1 <> j -> allocations c !! j = Some y -> disjoint (block x) (block y))
      /\ (forall r, r ∈ free_regions c -> disjoint (block x) r)
  | None => False
  end.
Proof.
  intros c. destruct (allocations c !! 1) as [x|] eqn:E; [|vm_compute in E; discriminate].
  apply (live_sequences_disjoint false (4 * MiB) (Some demo_quota) c).
  - unfold MiB; lia.
  - intros q [= <-]. split; [apply demo_quota_wf|done].
  - apply rtc_once, demo_step.
  - exact E.
Defined.

Lemma allocated_within_quota_witness :
  let c := (allocate 0 1 100 demo).2 in
  match quota_manager c with
  | Some q => qm_used q = alloc_total (allocations c) /\ alloc_total (allocations c) <= 8 * MiB
  | None => False
  end.
Proof.
  intros c. destruct (quota_manager c) as [q|] eqn:E; [|vm_compute in E; discriminate].
  apply (allocated_within_quota false (4 * MiB) demo_quota c q (8 * MiB)).
  - unfold MiB; lia.
  - apply demo_quota_wf.
  - reflexivity.
  - reflexivity.
  - apply rtc_once, demo_step.
  - exact E.
Defined.

Lemma allocate_frame_witness :
  let (r, c') := allocate 0 1 100 demo in
  match r with
  | Err _ => exists q, c' = set_quota demo q
  | Ok seq_id => allocations demo !! seq_id = None
      /\ (exists a, allocations c' !! seq_id = Some a /\ k_size a = v_size a
           /\ k_size a = rounded_len 100 * bytes_per_token demo)
      /\ (forall j, j <> seq_id -> allocations c' !! j = allocations demo !! j)
      /\ stack_generation c' = stack_generation demo /\ active_guards c' = active_guards demo
  end.
Proof.
  apply (allocate_frame 0 1 100 demo); [apply demo_inv|apply demo_inv|lia|reflexivity|apply demo_clock].
Defined.

Lemma free_outcome_witness :
  let c := (allocate 0 1 100 demo).2 in
  is_Some (allocations c !! 1) /\
  let (r, c') := free 1 c in
  match allocations c !! 1 with
  | Some a => r = Ok tt /\ allocations c' = delete 1 (allocations c)
      /\ exists o s, (o, s) ∈ free_regions c' /\ o <= k_offset a
           /\ v_offset a + v_size a <= o + s
  | None => r = Err (Worker ("Sequence ID " +:+ pretty 1 +:+ " not found in KV cache"))
      /\ allocations c' = allocations c /\ free_regions c' = free_regions c
      /\ used_bytes c' = used_bytes c
  end.
Proof.
  split; [by eexists|]. apply (free_outcome 1 (allocate 0 1 100 demo).2).
  apply allocate_keeps; [apply demo_inv|apply demo_inv|lia|reflexivity|apply demo_clock].
Defined.

Lemma guards_never_stale_witness :
  let c := (allocate 0 1 100 demo).2 in
  has_active_sequences_with_generation c (stack_generation c) = false
  /\ let c' := (ensure_cache_coherence c 7).2 in
     stack_generation c' = 7
     /\ has_active_sequences_with_generation c' 7 = false
     /\ (7 <> stack_generation c -> allocations c' = ∅ /\ used_bytes c' = 0).
Proof.
  apply (guards_never_stale (4 * MiB) (Some demo_quota)). apply rtc_once, demo_step.
Defined.

(** Two 128-token sequences fill the 4 MiB cache; both are freed and the cache is
    empty, with one free region of 4 MiB. *)
Definition demo_full : KvCache KvQuota.TenantKvQuotaManager :=
  (allocate 0 2 100 (allocate 0 1 100 demo).2).2.

Lemma demo_full_inv : inv demo_full.
Proof.
  assert (keeps demo (allocate 0 1 100 demo).2) as (H1 & H2 & _).
  { apply allocate_keeps; [apply demo_inv|apply demo_inv|lia|reflexivity|apply demo_clock]. }
  unfold demo_full. apply allocate_keeps; [done|done|lia|reflexivity|].
  intros q [= <-]. intros Hin. simpl in Hin. inversion Hin.
Qed.

Lemma full_cache_never_recovers_witness :
  let c' := foldl (fun c i => (free i c).2) demo_full [1; 2] in
  (allocations c' = ∅ /\ free_regions c' = [(0, 4 * MiB)])
  /\ used_bytes c' = capacity_bytes c' /\ is_ok (allocate 0 3 100 c').1 = false.
Proof.
  split; [split; vm_compute; reflexivity|].
  apply (full_cache_never_recovers demo_full [1; 2] 0 3 100); [apply demo_full_inv|reflexivity|lia|reflexivity].
Defined.

(** [reset_all] restarts the sequence ids: a guard taken before a generation
    change carries the id the first sequence of the new generation gets, and
    freeing the old guard's sequence frees the new one. *)
Theorem stale_guard_frees_new_sequence :
  match allocate_with_guard 0 1 100 1 demo with
  | (Ok g1, c1) =>
      match allocate_with_guard 0 2 100 2 c1 with
      | (Ok g2, c2) =>
          (guard_generation g1, guard_generation g2) = (1, 2)
          /\ guard_sequence_id g1 = guard_sequence_id g2
          /\ is_allocated c2 (guard_sequence_id g2) = true
          /\ (free (guard_sequence_id g1) c2).1 = Ok tt
          /\ is_allocated (free (guard_sequence_id g1) c2).2 (guard_sequence_id g2) = false
      | _ => False
      end
  | _ => False
  end.
Proof. vm_compute. repeat split. Qed.

End KvCache.
