(* ===== verification/CircuitBreaker.v ===== *)
(** * Circuit breaker (adapteros-core/src/circuit_breaker.rs)

    [StandardCircuitBreaker] as a record of its mutex-protected state and its
    atomic counters. [call] is admission, the wrapped operation, and completion.
    Concurrent callers interleave around the operation: an admission and a
    completion are one atomic step each (interleavings of the single atomic
    operations inside one handler are not modelled). A step takes one reading of
    the monotonic clock (nanoseconds) and of the wall clock (seconds). Log and
    telemetry statements have no effect on the state. *)

From S2P Require Import Prelude.
#[local] Open Scope Z_scope.

#[local] Arguments Z.ltb : simpl never.
#[local] Arguments Z.leb : simpl never.

Module CircuitBreaker.

Inductive CircuitState := Closed | Open (until : Z) | HalfOpen.

#[export] Instance CircuitState_eq_dec : EqDecision CircuitState.
Proof. solve_decision. Defined.

(** [Display]. *)
Definition fmt (s : CircuitState) : string :=
  match s with Closed => "closed" | Open _ => "open" | HalfOpen => "half_open" end.

Record CircuitBreakerConfig := mkConfig {
  failure_threshold : Z;
  success_threshold : Z;
  timeout_ms : Z;
  half_open_max_requests : Z
}.

Definition default_config : CircuitBreakerConfig :=
  {| failure_threshold := 5; success_threshold := 3; timeout_ms := 60000;
     half_open_max_requests := 10 |}.

(** One reading of the clocks. *)
Record clock := mkClock { now : Z; unix_secs : Z }.

Record breaker := mkBreaker {
  name : string;
  config : CircuitBreakerConfig;
  state : CircuitState;
  cached_state : Z;
  consecutive_failures : Z;
  consecutive_successes : Z;
  half_open_requests : Z;
  requests_total : Z;
  successes_total : Z;
  failures_total : Z;
  opens_total : Z;
  closes_total : Z;
  half_opens_total : Z;
  last_state_change : Z
}.

Definition new (clk : clock) (nm : string) (cfg : CircuitBreakerConfig) : breaker :=
  {| name := nm; config := cfg; state := Closed; cached_state := 0;
     consecutive_failures := 0; consecutive_successes := 0; half_open_requests := 0;
     requests_total := 0; successes_total := 0; failures_total := 0; opens_total := 0;
     closes_total := 0; half_opens_total := 0; last_state_change := unix_secs clk |}.

(** *** Field stores *)

Definition store_state (b : breaker) (s : CircuitState) (cached last : Z) : breaker :=
  {| name := name b; config := config b; state := s; cached_state := cached;
     consecutive_failures := consecutive_failures b;
     consecutive_successes := consecutive_successes b;
     half_open_requests := half_open_requests b; requests_total := requests_total b;
     successes_total := successes_total b; failures_total := failures_total b;
     opens_total := opens_total b; closes_total := closes_total b;
     half_opens_total := half_opens_total b; last_state_change := last |}.

Definition store_window (b : breaker) (cf cs hor : Z) : breaker :=
  {| name := name b; config := config b; state := state b; cached_state := cached_state b;
     consecutive_failures := cf; consecutive_successes := cs; half_open_requests := hor;
     requests_total := requests_total b; successes_total := successes_total b;
     failures_total := failures_total b; opens_total := opens_total b;
     closes_total := closes_total b; half_opens_total := half_opens_total b;
     last_state_change := last_state_change b |}.

Definition store_totals (b : breaker) (rt st ft : Z) : breaker :=
  {| name := name b; config := config b; state := state b; cached_state := cached_state b;
     consecutive_failures := consecutive_failures b;
     consecutive_successes := consecutive_successes b;
     half_open_requests := half_open_requests b; requests_total := rt; successes_total := st;
     failures_total := ft; opens_total := opens_total b; closes_total := closes_total b;
     half_opens_total := half_opens_total b; last_state_change := last_state_change b |}.

Definition store_transitions (b : breaker) (ot ct ht : Z) : breaker :=
  {| name := name b; config := config b; state := state b; cached_state := cached_state b;
     consecutive_failures := consecutive_failures b;
     consecutive_successes := consecutive_successes b;
     half_open_requests := half_open_requests b; requests_total := requests_total b;
     successes_total := successes_total b; failures_total := failures_total b;
     opens_total := ot; closes_total := ct; half_opens_total := ht;
     last_state_change := last_state_change b |}.

(** [Clone]: the state is copied under [try_lock]; a contended lock clones as
    closed, with every counter copied. *)
Definition clone (contended : bool) (b : breaker) : breaker :=
  store_state b (if contended then Closed else state b) (cached_state b) (last_state_change b).

(** *** The cached state word *)

Definition ns_per_sec : Z := 1000000000.

(** [until.checked_duration_since(now).map(as_secs).unwrap_or(0)]. *)
Definition remaining_secs (clk : clock) (until : Z) : Z :=
  if now clk <=? until then (until - now clk) / ns_per_sec else 0.

Definition encode_state_for_cache (clk : clock) (s : CircuitState) : Z :=
  match s with
  | Closed => 0
  | Open until => Z.lor 1 (Z.shiftl (remaining_secs clk until) 2 mod u64_mod)
  | HalfOpen => 2
  end.

Definition decode_cached_state (clk : clock) (cached : Z) : CircuitState :=
  let state_bits := Z.land cached 3 in
  if state_bits =? 0 then Closed
  else if state_bits =? 1 then
    let deadline_secs := Z.shiftr cached 2 in
    if deadline_secs =? 0 then HalfOpen else Open (now clk + deadline_secs * ns_per_sec)
  else HalfOpen.

(** *** Transitions *)

Definition inc (z : Z) : Z := u64_wrapping_add z 1.

Definition transition_to (clk : clock) (new_state : CircuitState) (b0 : breaker) : breaker :=
  let b := store_state b0 new_state (encode_state_for_cache clk new_state) (unix_secs clk) in
  match new_state with
  | Open _ =>
      store_window (store_transitions b (inc (opens_total b)) (closes_total b) (half_opens_total b))
        0 0 (half_open_requests b)
  | Closed =>
      store_window (store_transitions b (opens_total b) (inc (closes_total b)) (half_opens_total b))
        0 0 0
  | HalfOpen =>
      store_window (store_transitions b (opens_total b) (closes_total b) (inc (half_opens_total b)))
        (consecutive_failures b) (consecutive_successes b) 0
  end.

(** [state_async]: an expired [Open] becomes [HalfOpen]; the half-open request
    counter is left as it is. *)
Definition state_async (clk : clock) (b : breaker) : CircuitState * breaker :=
  match state b with
  | Open until =>
      if until <=? now clk
      then let b1 := store_state b HalfOpen (encode_state_for_cache clk HalfOpen) (unix_secs clk) in
           (HalfOpen, store_transitions b1 (opens_total b1) (closes_total b1)
                        (inc (half_opens_total b1)))
      else (Open until, b)
  | s => (s, b)
  end.

(** [fetch_update(|c| if c > 0 { c - 1 } else { 0 })]. *)
Definition dec_half_open (b : breaker) : breaker :=
  store_window b (consecutive_failures b) (consecutive_successes b)
    (if 0 <? half_open_requests b then half_open_requests b - 1 else 0).

Definition on_success (clk : clock) (b0 : breaker) : breaker :=
  let (current, b1) := state_async clk b0 in
  let b := store_totals b1 (inc (requests_total b1)) (inc (successes_total b1)) (failures_total b1) in
  match current with
  | Closed => store_window b 0 (consecutive_successes b) (half_open_requests b)
  | HalfOpen =>
      let successes := inc (consecutive_successes b) in
      let b' := dec_half_open
                  (store_window b (consecutive_failures b) successes (half_open_requests b)) in
      if success_threshold (config b') <=? successes then transition_to clk Closed b' else b'
  | Open _ => store_window b 0 (consecutive_successes b) (half_open_requests b)
  end.

Definition calculate_timeout (clk : clock) (b : breaker) : Z :=
  now clk + timeout_ms (config b) * 1000000.

Definition on_failure (clk : clock) (b0 : breaker) : breaker :=
  let (current, b1) := state_async clk b0 in
  let b := store_totals b1 (inc (requests_total b1)) (successes_total b1) (inc (failures_total b1)) in
  match current with
  | Closed =>
      let failures := inc (consecutive_failures b) in
      let b' := store_window b failures (consecutive_successes b) (half_open_requests b) in
      if failure_threshold (config b') <=? failures
      then transition_to clk (Open (calculate_timeout clk b')) b' else b'
  | HalfOpen =>
      let b' := dec_half_open b in transition_to clk (Open (calculate_timeout clk b')) b'
  | Open _ => b
  end.

(** The part of [call] before the operation runs. The compare-exchange loop takes
    effect as one conditional increment. *)
Definition enter (clk : clock) (b0 : breaker) : result unit AosError * breaker :=
  let (current, b) := state_async clk b0 in
  match current with
  | Open _ => (Err (CircuitBreakerOpen (name b)), b)
  | HalfOpen =>
      if half_open_max_requests (config b) <=? half_open_requests b
      then (Err (CircuitBreakerHalfOpen (name b)), b)
      else (Ok tt, store_window b (consecutive_failures b) (consecutive_successes b)
                     (inc (half_open_requests b)))
  | Closed => (Ok tt, b)
  end.

(** The part of [call] after the operation. *)
Definition complete {T} (clk : clock) (r : result T AosError) (b : breaker) : breaker :=
  match r with Ok _ => on_success clk b | Err _ => on_failure clk b end.

(** [call] with no other caller in between: admission at [clk], completion at [clk']. *)
Definition call {T} (clk clk' : clock) (op : result T AosError) (b : breaker)
  : result T AosError * breaker :=
  match enter clk b with
  | (Err e, b1) => (Err e, b1)
  | (Ok _, b1) => (op, complete clk' op b1)
  end.

(** [state()], with the mutex free or contended. *)
Definition state_sync (clk : clock) (contended : bool) (b : breaker) : CircuitState :=
  if contended then decode_cached_state clk (cached_state b)
  else match state b with
       | Open until => if until <=? now clk then HalfOpen else Open until
       | s => s
       end.

Record CircuitBreakerMetrics := mkMetrics {
  m_state : CircuitState; m_requests : Z; m_successes : Z; m_failures : Z;
  m_opens : Z; m_closes : Z; m_half_opens : Z; m_last_change : Z
}.

Definition metrics (clk : clock) (contended : bool) (b : breaker) : CircuitBreakerMetrics :=
  {| m_state := state_sync clk contended b; m_requests := requests_total b;
     m_successes := successes_total b; m_failures := failures_total b;
     m_opens := opens_total b; m_closes := closes_total b;
     m_half_opens := half_opens_total b; m_last_change := last_state_change b |}.

(** ** Concurrent callers

    The breaker with the number of admitted calls whose operation is running. A
    caller enters, finishes with either outcome, or its future is dropped while
    the operation is pending ([cancel]). *)
Record system := mkSystem { brk : breaker; in_flight : nat }.

Inductive step : system -> system -> Prop :=
| step_enter clk b n b' :
    enter clk b = (Ok tt, b') -> step (mkSystem b n) (mkSystem b' (S n))
| step_reject clk b n e b' :
    enter clk b = (Err e, b') -> step (mkSystem b n) (mkSystem b' n)
| step_success clk b n : step (mkSystem b (S n)) (mkSystem (on_success clk b) n)
| step_failure clk b n : step (mkSystem b (S n)) (mkSystem (on_failure clk b) n)
| step_cancel b n : step (mkSystem b (S n)) (mkSystem b n).

Definition valid_config (cfg : CircuitBreakerConfig) : Prop :=
  1 <= failure_threshold cfg < u64_mod /\ 1 <= success_threshold cfg < u64_mod
  /\ 0 <= timeout_ms cfg /\ 1 <= half_open_max_requests cfg < u64_mod.

(** The counters stay in their windows and account for every finished call. *)
Record inv (b : breaker) : Prop := {
  inv_config : valid_config (config b);
  inv_failures : 0 <= consecutive_failures b < failure_threshold (config b);
  inv_successes : 0 <= consecutive_successes b < success_threshold (config b);
  inv_half_open : 0 <= half_open_requests b <= half_open_max_requests (config b);
  inv_totals : requests_total b = (successes_total b + failures_total b) mod u64_mod
}.

(** ** Lemmas *)

Lemma inc_small z : 0 <= z -> z + 1 < u64_mod -> inc z = z + 1.
Proof. intros. apply u64_wrapping_add_small. lia. Qed.

Lemma inc_mod a b c : a = (b + c) mod u64_mod -> inc a = (inc b + c) mod u64_mod.
Proof.
  intros ->. unfold inc, u64_wrapping_add.
  rewrite Zplus_mod_idemp_l, Zplus_mod_idemp_l. f_equal. lia.
Qed.

Lemma inc_mod_r a b c : a = (b + c) mod u64_mod -> inc a = (b + inc c) mod u64_mod.
Proof. rewrite Z.add_comm. intros H. rewrite Z.add_comm. by apply inc_mod. Qed.

#[local] Hint Resolve inc_mod inc_mod_r : aos.

(** What [state_async] leaves alone. *)
Lemma state_async_window clk b :
  let b' := (state_async clk b).2 in
  config b' = config b /\ name b' = name b /\ state b' = (state_async clk b).1
  /\ consecutive_failures b' = consecutive_failures b
  /\ consecutive_successes b' = consecutive_successes b
  /\ half_open_requests b' = half_open_requests b
  /\ requests_total b' = requests_total b /\ successes_total b' = successes_total b
  /\ failures_total b' = failures_total b.
Proof.
  unfold state_async. destruct (state b) eqn:E; simpl; try (by rewrite E).
  destruct (_ <=? _); simpl; by rewrite ?E.
Qed.

Lemma state_async_inv clk b : inv b -> inv (state_async clk b).2.
Proof.
  intros [H1 H2 H3 H4 H5].
  destruct (state_async_window clk b) as (Ec & _ & _ & E1 & E2 & E3 & E4 & E5 & E6).
  split; by rewrite ?Ec, ?E1, ?E2, ?E3, ?E4, ?E5, ?E6.
Qed.

Lemma on_success_inv clk b : inv b -> inv (on_success clk b).
Proof.
  intros H0. apply (state_async_inv clk) in H0. unfold on_success.
  destruct (state_async clk b) as [cur b1]. simpl in H0. destruct H0 as [H1 H2 H3 H4 H5].
  pose proof H1 as (? & ? & ? & ?).
  destruct cur; simpl; [split; simpl; auto with aos; lia|split; simpl; auto with aos; lia|].
  rewrite (inc_small (consecutive_successes b1)) by lia.
  destruct (_ <=? _) eqn:E; breflect; split; simpl; auto with aos; try lia;
    destruct (0 <? _) eqn:E'; breflect; lia.
Qed.

Lemma on_failure_inv clk b : inv b -> inv (on_failure clk b).
Proof.
  intros H0. apply (state_async_inv clk) in H0. unfold on_failure.
  destruct (state_async clk b) as [cur b1]. simpl in H0. destruct H0 as [H1 H2 H3 H4 H5].
  pose proof H1 as (? & ? & ? & ?).
  destruct cur; simpl.
  - rewrite (inc_small (consecutive_failures b1)) by lia.
    destruct (_ <=? _) eqn:E; breflect; split; simpl; auto with aos; lia.
  - split; simpl; auto with aos; lia.
  - split; simpl; auto with aos; try lia. destruct (0 <? _) eqn:E'; breflect; lia.
Qed.

Lemma enter_inv clk b : inv b -> inv (enter clk b).2.
Proof.
  intros H0. apply (state_async_inv clk) in H0. unfold enter.
  destruct (state_async clk b) as [cur b1]. simpl in H0.
  destruct cur; simpl; try done. destruct (_ <=? _) eqn:E; breflect; simpl; [done|].
  destruct H0 as [H1 H2 H3 H4 H5]. pose proof H1 as (? & ? & ? & ?).
  split; simpl; auto. rewrite inc_small; lia.
Qed.

Lemma step_inv s s' : inv (brk s) -> step s s' -> inv (brk s').
Proof.
  intros H Hs. destruct Hs as [clk b n b' Ha|clk b n e b' Ha| | |]; simpl in *;
    [| |by apply on_success_inv|by apply on_failure_inv|done].
  all: apply (enter_inv clk) in H; by rewrite Ha in H.
Qed.

Lemma fresh_breaker_inv clk nm cfg : valid_config cfg -> inv (new clk nm cfg).
Proof. intros H. pose proof H as (? & ? & ? & ?). split; simpl; try done; lia. Qed.

(** *** Sequential calls *)

(** A list of calls that all end with [op], each at its own admission and
    completion times. *)
Definition calls {T} (op : result T AosError) (clks : list (clock * clock)) (b : breaker) : breaker :=
  foldl (fun b c => (call c.1 c.2 op b).2) b clks.

Lemma calls_snoc {T} (op : result T AosError) clks c b :
  calls op (clks ++ [c]) b = (call c.1 c.2 op (calls op clks b)).2.
Proof. unfold calls. by rewrite foldl_app. Qed.

Lemma closed_failure {T} clk clk' (e : AosError) b :
  state b = Closed -> 0 <= consecutive_failures b -> consecutive_failures b + 1 < u64_mod ->
  let b' := (call clk clk' (@Err T AosError e) b).2 in
  config b' = config b /\ half_open_requests b' = half_open_requests b /\
  if failure_threshold (config b) <=? consecutive_failures b + 1
  then state b' = Open (now clk' + timeout_ms (config b) * 1000000)
  else state b' = Closed /\ consecutive_failures b' = consecutive_failures b + 1.
Proof.
  intros Hs Hc Hlt. unfold call, enter, complete, on_failure, state_async.
  rewrite Hs. simpl. rewrite Hs. simpl. rewrite inc_small by lia.
  destruct (_ <=? _); simpl; by rewrite ?Hs.
Qed.

Lemma half_open_success {T} clk clk' (v : T) b :
  (state (state_async clk b).2 = HalfOpen) -> 0 <= half_open_requests b ->
  half_open_requests b < half_open_max_requests (config b) -> half_open_max_requests (config b) < u64_mod ->
  0 <= consecutive_successes b -> consecutive_successes b + 1 < u64_mod ->
  let b' := (call clk clk' (Ok v) b).2 in
  config b' = config b /\ (call clk clk' (Ok v) b).1 = Ok v /\
  if success_threshold (config b) <=? consecutive_successes b + 1
  then state b' = Closed /\ consecutive_failures b' = 0
  else state b' = HalfOpen /\ consecutive_successes b' = consecutive_successes b + 1
       /\ half_open_requests b' = half_open_requests b.
Proof.
  intros Hs H0 Hlt Hmax Hc Hc'. unfold call, enter.
  destruct (state_async_window clk b) as (Ec & _ & Es & _ & E2 & E3 & _).
  destruct (state_async clk b) as [cur b1] eqn:Ea. simpl in *. rewrite Hs in Es. subst cur.
  rewrite Ec, E3. rewrite (proj2 (Z.leb_gt _ _)) by lia. simpl. unfold on_success, state_async.
  simpl. rewrite Hs. simpl. rewrite ?E2, ?E3, ?Ec, (inc_small (half_open_requests b)) by lia.
  rewrite (inc_small (consecutive_successes b)) by lia.
  destruct (success_threshold (config b) <=? _) eqn:E; simpl; rewrite ?Hs; repeat split; try done.
  rewrite (proj2 (Z.ltb_lt 0 _)) by lia. lia.
Qed.

Lemma half_open_failure {T} clk clk' (e : AosError) b :
  state (state_async clk b).2 = HalfOpen ->
  half_open_requests b < half_open_max_requests (config b) ->
  state (call clk clk' (@Err T AosError e) b).2 = Open (now clk' + timeout_ms (config b) * 1000000).
Proof.
  intros Hs Hlt. unfold call, enter.
  destruct (state_async_window clk b) as (Ec & _ & Es & _ & _ & E3 & _).
  destruct (state_async clk b) as [cur b1]. simpl in *. rewrite Hs in Es. subst cur.
  rewrite Ec, E3. rewrite (proj2 (Z.leb_gt _ _)) by lia. simpl. unfold on_failure, state_async.
  simpl. rewrite Hs. simpl. unfold calculate_timeout. simpl. by rewrite Ec.
Qed.

(** *** The cached word *)

Lemma open_word_bits r : 0 <= r ->
  Z.land (Z.lor 1 (Z.shiftl r 2)) 3 = 1 /\ Z.shiftr (Z.lor 1 (Z.shiftl r 2)) 2 = r.
Proof.
  intros Hr. split.
  - apply Z.bits_inj'. intros n Hn. rewrite Z.land_spec, Z.lor_spec, Z.shiftl_spec by done.
    destruct (decide (n = 0)) as [->|H0]; [by rewrite (Z.testbit_neg_r r) by lia|].
    destruct (decide (n = 1)) as [->|H1]; [by rewrite (Z.testbit_neg_r r) by lia|].
    assert (Z.testbit 3 n = false) as ->.
    { change 3 with (Z.ones 2). rewrite Z.ones_spec_high by lia. done. }
    rewrite andb_false_r. symmetry. change 1 with (Z.ones 1). rewrite Z.ones_spec_high by lia. done.
  - apply Z.bits_inj'. intros n Hn.
    rewrite Z.shiftr_spec, Z.lor_spec, Z.shiftl_spec, Z.add_simpl_r by lia.
    change 1 with (Z.ones 1). by rewrite Z.ones_spec_high by lia.
Qed.

(** *** Runs *)

Lemma call_steps {T} clk clk' (op : result T AosError) b n :
  rtc step (mkSystem b n) (mkSystem (call clk clk' op b).2 n).
Proof.
  unfold call. destruct (enter clk b) as [[[]|e] b1] eqn:E.
  - eapply rtc_l; [by eapply step_enter|]. apply rtc_once.
    destruct op; [apply step_success|apply step_failure].
  - apply rtc_once. by eapply step_reject.
Qed.

Lemma calls_steps {T} (op : result T AosError) clks b n :
  rtc step (mkSystem b n) (mkSystem (calls op clks b) n).
Proof.
  revert b. induction clks as [|c clks IH]; intros b; [constructor|].
  etrans; [apply (call_steps c.1 c.2 op)|apply IH].
Qed.

Lemma failures_below_threshold {T} clk nm cfg (e : AosError) clks :
  valid_config cfg -> Z.of_nat (length clks) < failure_threshold cfg ->
  let b := calls (@Err T AosError e) clks (new clk nm cfg) in
  config b = cfg /\ half_open_requests b = 0 /\ state b = Closed
  /\ consecutive_failures b = Z.of_nat (length clks).
Proof.
  intros (Hf & _) Hlen. induction clks as [|c clks IH] using rev_ind; [done|].
  rewrite length_app in *. simpl in *. rewrite calls_snoc.
  destruct IH as (Ec & Eh & Es & Ef); [lia|].
  destruct (@closed_failure T c.1 c.2 e _ Es ltac:(lia) ltac:(lia)) as (Ec' & Eh' & Hif).
  rewrite Ec in *. rewrite (proj2 (Z.leb_gt _ _)) in Hif by lia. destruct Hif as [-> ->].
  repeat split; [done|congruence|lia].
Qed.

Lemma failures_at_threshold {T} clk nm cfg (e : AosError) clks c :
  valid_config cfg -> Z.of_nat (length clks) + 1 = failure_threshold cfg ->
  let b := calls (@Err T AosError e) (clks ++ [c]) (new clk nm cfg) in
  config b = cfg /\ half_open_requests b = 0
  /\ state b = Open (now c.2 + timeout_ms cfg * 1000000).
Proof.
  intros Hv Hlen. pose proof Hv as (Hf & _). rewrite calls_snoc.
  destruct (@failures_below_threshold T clk nm cfg e clks Hv ltac:(lia)) as (Ec & Eh & Es & Ef).
  destruct (@closed_failure T c.1 c.2 e _ Es ltac:(lia) ltac:(lia)) as (Ec' & Eh' & Hif).
  rewrite Ec in *. rewrite (proj2 (Z.leb_le _ _)) in Hif by lia.
  repeat split; [done|congruence|done].
Qed.

(** [k] callers enter a half-open breaker with [k] free slots. *)
Lemma probes_enter clk b n k :
  state (state_async clk b).2 = HalfOpen -> 0 <= half_open_requests b ->
  half_open_max_requests (config b) < u64_mod -> (0 < k)%nat ->
  half_open_requests b + Z.of_nat k <= half_open_max_requests (config b) ->
  exists b', rtc step (mkSystem b n) (mkSystem b' (k + n)) /\ state b' = HalfOpen
    /\ config b' = config b /\ half_open_requests b' = half_open_requests b + Z.of_nat k.
Proof.
  intros Hs H0 Hm Hk. revert b n Hs H0 Hm. induction k as [|k IH]; intros b n Hs H0 Hm Hle; [lia|].
  destruct (state_async_window clk b) as (Ec & _ & Es & _ & _ & E3 & _).
  destruct (state_async clk b) as [cur b1] eqn:Ea. simpl in *. rewrite Hs in Es. subst cur.
  assert (enter clk b = (Ok tt, store_window b1 (consecutive_failures b1)
            (consecutive_successes b1) (half_open_requests b + 1))) as Hadm.
  { unfold enter. rewrite Ea, Ec, E3, (proj2 (Z.leb_gt _ _)), inc_small by lia. done. }
  destruct k as [|k].
  - eexists. split; [apply rtc_once; by eapply step_enter|]. simpl. repeat split; try done; lia.
  - edestruct (IH ltac:(lia) (store_window b1 (consecutive_failures b1)
      (consecutive_successes b1) (half_open_requests b + 1)) (S n)) as (b' & Hrun & Hs' & Hc' & Hh').
    + unfold state_async. simpl. by rewrite Hs.
    + simpl. lia.
    + simpl. by rewrite Ec.
    + simpl. rewrite Ec. lia.
    + exists b'. simpl in *. split; [|split; [done|split; [congruence|lia]]].
      eapply rtc_l; [by eapply step_enter|].
      replace (S (S (k + n))) with (S (k + S n)) by lia. done.
Qed.

Lemma cancel_all b n : rtc step (mkSystem b n) (mkSystem b 0).
Proof. induction n as [|n IH]; [constructor|]. eapply rtc_l; [apply step_cancel|done]. Qed.

(** A half-open breaker with all slots taken and nobody to return one is stuck. *)
Lemma exhausted_stuck b s :
  state b = HalfOpen -> half_open_max_requests (config b) <= half_open_requests b ->
  rtc step (mkSystem b 0) s -> s = mkSystem b 0.
Proof.
  intros Hs Hle Hrun. remember (mkSystem b 0) as s0 eqn:E0. revert E0.
  assert (forall clk, enter clk b = (Err (CircuitBreakerHalfOpen (name b)), b)) as Hadm.
  { intros clk. unfold enter, state_async. rewrite Hs, (proj2 (Z.leb_le _ _) Hle). done. }
  induction Hrun as [x|x y z Hxy Hyz IH]; intros ->; [done|].
  assert (y = mkSystem b 0) as -> by (inversion Hxy; subst; rewrite Hadm in *; by simplify_eq).
  by apply IH.
Qed.

Lemma calls_inv {T} (op : result T AosError) clks b : inv b -> inv (calls op clks b).
Proof.
  intros H. change (inv (brk (mkSystem (calls op clks b) 0))).
  eapply (rtc_invariant step (fun s => inv (brk s)) (mkSystem b 0));
    [apply step_inv|done|apply calls_steps].
Qed.

(** ** Theorems *)

(** [C39] However admissions, completions and cancellations follow each other, the failure and
    success windows stay below their thresholds, the half-open request counter
    stays within [half_open_max_requests], and every finished call is counted once
    as a success or a failure. *)
Theorem breaker_counters_bounded clk nm cfg s :
  valid_config cfg -> rtc step (mkSystem (new clk nm cfg) 0) s -> inv (brk s).
Proof.
  intros Hv. apply (rtc_invariant step (fun s => inv (brk s))); [apply step_inv|by apply fresh_breaker_inv].
Qed.

Lemma breaker_counters_bounded_witness :
  inv (brk (mkSystem (call (mkClock 0 0) (mkClock 1 0) (Ok tt)
                        (new (mkClock 0 0) "db" default_config)).2 0)).
Proof.
  apply (breaker_counters_bounded (mkClock 0 0) "db" default_config).
  - unfold valid_config; simpl; solve_range.
  - apply call_steps.
Defined.

(** From a fresh breaker, fewer than [failure_threshold] failing calls leave it
    closed with the failures counted, and the [failure_threshold]-th opens it for
    [timeout_ms] from that failure. *)
Theorem opens_at_failure_threshold clk nm cfg e clks c :
  valid_config cfg -> Z.of_nat (length clks) + 1 = failure_threshold cfg ->
  let b0 := new clk nm cfg in
  let op : result unit AosError := Err e in
  (state (calls op clks b0) = Closed /\ consecutive_failures (calls op clks b0) = failure_threshold cfg - 1)
  /\ state (calls op (clks ++ [c]) b0) = Open (now c.2 + timeout_ms cfg * 1000000).
Proof.
  intros Hv Hlen. cbv zeta.
  destruct (@failures_below_threshold unit clk nm cfg e clks Hv ltac:(lia)) as (_ & _ & -> & ->).
  destruct (@failures_at_threshold unit clk nm cfg e clks c Hv Hlen) as (_ & _ & ->).
  repeat split; lia.
Qed.

Lemma opens_at_failure_threshold_witness :
  let b0 := new (mkClock 0 0) "db" default_config in
  let op : result unit AosError := Err (Internal "x") in
  let k := (mkClock 0 0, mkClock 1 0) in
  (state (calls op [k; k; k; k] b0) = Closed
   /\ consecutive_failures (calls op [k; k; k; k] b0) = failure_threshold default_config - 1)
  /\ state (calls op ([k; k; k; k] ++ [k]) b0) = Open (now k.2 + timeout_ms default_config * 1000000).
Proof.
  apply (opens_at_failure_threshold (mkClock 0 0) "db" default_config).
  - unfold valid_config; simpl; solve_range.
  - reflexivity.
Defined.

(** While an open breaker's timeout runs, [call] answers [CircuitBreakerOpen],
    does not run the operation and leaves the breaker unchanged. *)
Theorem open_rejects {T} clk clk' (op : result T AosError) b until :
  state b = Open until -> now clk < until ->
  call clk clk' op b = (Err (CircuitBreakerOpen (name b)), b).
Proof.
  intros Hs Hlt. unfold call, enter, state_async.
  rewrite Hs, (proj2 (Z.leb_gt _ _) Hlt). done.
Qed.

(** Once the timeout has run out, calls go through one by one; a failing call
    reopens the breaker for another timeout, fewer than [success_threshold]
    successes leave it half-open and the [success_threshold]-th closes it. *)
Theorem half_open_recovery {T} clks (v : T) b until :
  inv b -> state b = Open until -> consecutive_successes b = 0 ->
  half_open_requests b < half_open_max_requests (config b) ->
  Forall (fun c => until <= now c.1) clks -> clks <> [] ->
  Z.of_nat (length clks) <= success_threshold (config b) ->
  (if decide (Z.of_nat (length clks) = success_threshold (config b))
   then state (calls (Ok v) clks b) = Closed
   else state (calls (Ok v) clks b) = HalfOpen
        /\ consecutive_successes (calls (Ok v) clks b) = Z.of_nat (length clks))
  /\ (forall c e, until <= now c.1 ->
        state (call c.1 c.2 (@Err T AosError e) b).2 = Open (now c.2 + timeout_ms (config b) * 1000000)).
Proof.
  intros Hinv Hs Hcs Hh Hclks Hne Hlen. pose proof (inv_config b Hinv) as (? & ? & ? & ?).
  pose proof (inv_half_open b Hinv).
  assert (forall c, until <= now c -> state (state_async c b).2 = HalfOpen) as Hexp.
  { intros c Hc. unfold state_async. by rewrite Hs, (proj2 (Z.leb_le _ _) Hc). }
  split; [|intros c e Hc; apply half_open_failure; [by apply Hexp|done]].
  assert (let b' := calls (Ok v) clks b in
    config b' = config b /\
    if decide (Z.of_nat (length clks) = success_threshold (config b)) then state b' = Closed
    else state b' = HalfOpen /\ consecutive_successes b' = Z.of_nat (length clks)
         /\ half_open_requests b' = half_open_requests b) as [_ Hfin];
    [|case_decide; [done|by destruct Hfin as (? & ? & ?)]].
  revert Hne Hlen. induction clks as [|c clks IH] using rev_ind; [done|]. intros _.
  rewrite length_app. simpl. intros Hlen. apply Forall_app in Hclks as [Hclks Hc].
  rewrite Forall_singleton in Hc. rewrite calls_snoc.
  destruct clks as [|c0 clks'].
  - clear IH. simpl. destruct (half_open_success c.1 c.2 v b) as (Ec & _ & Hif); try lia; [by apply Hexp, Hc|].
    split; [done|]. rewrite Hcs in Hif.
    destruct (_ <=? _) eqn:E; breflect; case_decide; simpl in *; try lia; intuition.
  - destruct IH as (Ec & Hstate); [done|done|simpl in *; lia|].
    set (b' := calls (Ok v) (c0 :: clks') b) in *.
    rewrite decide_False in Hstate by (simpl in *; lia). destruct Hstate as (Es & Ecs & Eh).
    destruct (half_open_success c.1 c.2 v b') as (Ec' & _ & Hif); rewrite ?Ec, ?Ecs, ?Eh; try lia.
    { unfold state_async. by rewrite Es. }
    rewrite Ec, Ecs, Eh in Hif. split; [congruence|].
    destruct (_ <=? _) eqn:E; breflect; case_decide; simpl in *; try lia; [intuition|].
    destruct Hif as (? & ? & ?). repeat split; [done|lia|done].
Qed.

Lemma half_open_recovery_witness :
  let k := (mkClock 0 0, mkClock 1 0) in
  let b := calls (@Err unit AosError (Internal "x")) [k; k; k; k; k]
             (new (mkClock 0 0) "db" default_config) in
  let late := (mkClock 60000000001 60, mkClock 60000000002 60) in
  (if decide (Z.of_nat (length [late; late; late]) = success_threshold (config b))
   then state (calls (Ok tt) [late; late; late] b) = Closed
   else state (calls (Ok tt) [late; late; late] b) = HalfOpen
        /\ consecutive_successes (calls (Ok tt) [late; late; late] b)
           = Z.of_nat (length [late; late; late]))
  /\ (forall c e, 60000000001 <= now c.1 ->
        state (call c.1 c.2 (@Err unit AosError e) b).2
        = Open (now c.2 + timeout_ms (config b) * 1000000)).
Proof.
  intros k b late. refine (half_open_recovery [late; late; late] tt b 60000000001 _ _ _ _ _ _ _).
  - apply calls_inv, fresh_breaker_inv. unfold valid_config; simpl; solve_range.
  - vm_compute. reflexivity.
  - vm_compute. reflexivity.
  - vm_compute. reflexivity.
  - repeat constructor; simpl; lia.
  - discriminate.
  - vm_compute. discriminate.
Defined.

(** A slot of a half-open probe is returned only by its completion handlers,
    and the move from open to half-open does not clear the slot counter: for every
    configuration there is a run in which all probes are cancelled and the breaker
    ends half-open with no free slot and no caller, where it rejects every call for
    ever. *)
Theorem cancelled_probes_wedge_breaker clk nm cfg :
  valid_config cfg ->
  exists b, rtc step (mkSystem (new clk nm cfg) 0) (mkSystem b 0)
    /\ state b = HalfOpen
    /\ (forall T clk clk' (op : result T AosError),
          call clk clk' op b = (Err (CircuitBreakerHalfOpen (name b)), b))
    /\ (forall s, rtc step (mkSystem b 0) s -> s = mkSystem b 0).
Proof.
  intros Hv. pose proof Hv as (Hf & _ & Ht & Hm).
  set (clks := replicate (Z.to_nat (failure_threshold cfg - 1)) (clk, clk)).
  destruct (@failures_at_threshold unit clk nm cfg (Internal "down") clks (clk, clk) Hv)
    as (Ec & Eh & Es).
  { unfold clks. rewrite length_replicate. lia. }
  set (b1 := calls (@Err unit AosError (Internal "down")) (clks ++ [(clk, clk)]) (new clk nm cfg)) in *.
  destruct (probes_enter (mkClock (now clk + timeout_ms cfg * 1000000) 0) b1 0
    (Z.to_nat (half_open_max_requests cfg))) as (b & Hrun & Hs & Hc & Hh); rewrite ?Ec, ?Eh; try lia.
  { unfold state_async. rewrite Es. simpl. rewrite (proj2 (Z.leb_le _ _)) by lia. done. }
  exists b. rewrite Eh in Hh. split.
  - etrans; [apply (calls_steps (@Err unit AosError (Internal "down")) (clks ++ [(clk, clk)]))|].
    etrans; [exact Hrun|apply cancel_all].
  - assert (half_open_max_requests (config b) <= half_open_requests b) as Hle
      by (rewrite Hc, Ec; lia).
    split; [done|]. split; [|intros s; by apply exhausted_stuck].
    intros T c c' op. unfold call, enter, state_async.
    by rewrite Hs, (proj2 (Z.leb_le _ _) Hle).
Qed.

Lemma cancelled_probes_wedge_breaker_witness :
  exists b, rtc step (mkSystem (new (mkClock 0 0) "db" default_config) 0) (mkSystem b 0)
    /\ state b = HalfOpen
    /\ (forall T clk clk' (op : result T AosError),
          call clk clk' op b = (Err (CircuitBreakerHalfOpen (name b)), b))
    /\ (forall s, rtc step (mkSystem b 0) s -> s = mkSystem b 0).
Proof.
  apply (cancelled_probes_wedge_breaker (mkClock 0 0) "db" default_config).
  unfold valid_config; simpl; solve_range.
Defined.

(** The state word read under lock contention: closed and half-open states are
    read exactly, but the word of an open breaker holds the seconds that remained
    when it was written, so a contended read at any later time answers open for
    that many more seconds and never half-open. *)
Theorem contended_read_of_cache clk clk' b s :
  let b' := transition_to clk s b in
  match s with
  | Open until =>
      1 <= remaining_secs clk until < 2 ^ 62 ->
      state_sync clk' true b' = Open (now clk' + remaining_secs clk until * ns_per_sec)
  | _ => state_sync clk' true b' = s
  end.
Proof.
  destruct s as [|until|]; simpl; try done. intros Hr.
  unfold state_sync. simpl. unfold decode_cached_state.
  rewrite Z.mod_small by (rewrite Z.shiftl_mul_pow2 by lia; solve_range).
  destruct (open_word_bits (remaining_secs clk until)) as [-> ->]; [lia|]. simpl.
  rewrite (proj2 (Z.eqb_neq _ _)) by lia. done.
Qed.

Lemma contended_read_of_cache_witness :
  state_sync (mkClock 900000000000 900) true
    (transition_to (mkClock 0 0) (Open 60000000000) (new (mkClock 0 0) "db" default_config))
  = Open (900000000000 + 60 * ns_per_sec).
Proof.
  apply (contended_read_of_cache (mkClock 0 0) (mkClock 900000000000 900)
           (new (mkClock 0 0) "db" default_config) (Open 60000000000)).
  vm_compute. split; [discriminate|reflexivity].
Defined.

End CircuitBreaker.
