(* ===== verification/Hashing.v ===== *)
(** * BLAKE3 digests (adapteros-infra-common/src/hash.rs)

    [B3Hash] is a vector of 32 bytes. The compression function and the [hex]
    crate are third-party code: the class [Blake3] is the hash function itself (no
    law is assumed of it here), the class [Hex] the two conversions with the laws
    the crate documents. [hex_lower] implements [Hex]; [toy_blake3] is a
    computable stand-in for the hash, used only to evaluate examples. *)

From stdpp Require Export vector.
From stdpp Require Import sorting.
From Stdlib Require Export Strings.Byte.
From S2P Require Import Prelude.

#[export] Instance byte_eq_dec : EqDecision byte := Byte.byte_eq_dec.

Definition B3Hash : Type := vec byte 32.

#[export] Instance B3Hash_eq_dec : EqDecision B3Hash.
Proof. unfold B3Hash. apply _. Defined.

(** Digests as keys of maps. *)
#[export] Instance byte_countable : Countable byte.
Proof.
  apply (inj_countable Byte.to_N Byte.of_N). apply Byte.of_to_N.
Defined.

Fixpoint vec_of_list (n : nat) (l : list byte) : vec byte n :=
  match n with
  | O => [#]
  | S n => match l with [] => x00 ::: vec_of_list n [] | b :: l => b ::: vec_of_list n l end
  end.

Lemma vec_of_list_to_list n (v : vec byte n) : vec_of_list n (vec_to_list v) = v.
Proof. induction v as [|b n v IH]; simpl; [done|]. by rewrite IH. Qed.

#[export] Instance B3Hash_countable : Countable B3Hash.
Proof.
  apply (inj_countable vec_to_list (fun l => Some (vec_of_list 32 l))).
  intros h. f_equal. apply vec_of_list_to_list.
Defined.

(** [blake3::Hasher] over the concatenation of all [update]s. *)
Class Blake3 : Type := blake3 : list byte -> B3Hash.

(** The [hex] crate: [encode] never fails, [decode] reports what is wrong. *)
Class Hex : Type := {
  hex_encode : list byte -> string;
  hex_decode : string -> result (list byte) string;
}.

Class HexLaws (H : Hex) : Prop := {
  hex_decode_encode l : hex_decode (hex_encode l) = Ok l;
  hex_length l : String.length (hex_encode l) = 2 * length l;
}.

(** [str::as_bytes]. *)
Notation as_bytes_of := String.list_byte_of_string.

Section B3Hash.
Context `{Blake3} `{Hex}.

Definition as_bytes (h : B3Hash) : list byte := vec_to_list h.

Definition hash (m : list byte) : B3Hash := blake3 m.

Definition hash_multi (slices : list (list byte)) : B3Hash := blake3 (concat slices).

Definition to_hex (h : B3Hash) : string := hex_encode (as_bytes h).

Definition to_short_hex (h : B3Hash) : string := hex_encode (take 8 (as_bytes h)).

Definition is_zero (h : B3Hash) : bool := forallb (fun b => bool_decide (b = x00)) (as_bytes h).

Definition zero : B3Hash := vreplicate 32 x00.

Definition from_hex (s : string) : result B3Hash AosError :=
  match hex_decode s with
  | Err e => Err (InvalidHash ("Invalid hex: " +:+ e))
  | Ok bytes =>
      match decide (length bytes = 32) with
      | left E => Ok (eq_rect (length bytes) (vec byte) (list_to_vec bytes) 32 E)
      | right _ => Err (InvalidHash ("Expected 32 bytes, got " +:+ pretty (length bytes)))
      end
  end.
End B3Hash.

(** ** Digest lemmas *)

Lemma as_bytes_length (h : B3Hash) : length (as_bytes h) = 32.
Proof. apply length_vec_to_list. Qed.

Lemma as_bytes_inj (h h' : B3Hash) : as_bytes h = as_bytes h' -> h = h'.
Proof. apply vec_to_list_inj2. Qed.

Lemma as_bytes_app_inj (a b a' b' : B3Hash) :
  as_bytes a ++ as_bytes b = as_bytes a' ++ as_bytes b' -> a = a' /\ b = b'.
Proof.
  intros E. apply app_inj_1 in E as [E1 E2]; [|by rewrite !as_bytes_length].
  split; by apply as_bytes_inj.
Qed.

Lemma to_hex_inj `{!Hex} `{!HexLaws _} (h h' : B3Hash) : to_hex h = to_hex h' -> h = h'.
Proof.
  unfold to_hex. intros E. apply as_bytes_inj.
  pose proof (hex_decode_encode (as_bytes h)) as H1.
  rewrite E, hex_decode_encode in H1. congruence.
Qed.

Lemma to_hex_length `{!Hex} `{!HexLaws _} (h : B3Hash) : String.length (to_hex h) = 64.
Proof. unfold to_hex. by rewrite hex_length, as_bytes_length. Qed.

Lemma vec_to_list_cast {A} {n m} (E : n = m) (v : vec A n) :
  vec_to_list (eq_rect n (vec A) v m E) = vec_to_list v.
Proof. by destruct E. Qed.

(** [from_hex] inverts [to_hex]; whatever it accepts is the text of 32 bytes. *)
Lemma from_hex_to_hex `{!Hex} `{!HexLaws _} (h : B3Hash) : from_hex (to_hex h) = Ok h.
Proof.
  unfold from_hex, to_hex. rewrite hex_decode_encode.
  destruct (decide _) as [E|NE]; [|by destruct NE; apply as_bytes_length].
  f_equal. apply as_bytes_inj. unfold as_bytes. by rewrite vec_to_list_cast, vec_to_list_to_vec.
Qed.

Lemma from_hex_ok `{!Hex} s h : from_hex s = Ok h -> hex_decode s = Ok (as_bytes h).
Proof.
  unfold from_hex. destruct (hex_decode s) as [bytes|]; [|done].
  destruct (decide _) as [E|]; [|done]. intros [= <-].
  unfold as_bytes. by rewrite vec_to_list_cast, vec_to_list_to_vec.
Qed.

(** ** Collision freedom on a list of messages

    The digests a computation compares are those of finitely many messages; this
    says the hash tells those messages apart. It is decidable on an example. *)
Definition collision_free `{Blake3} (msgs : list (list byte)) : Prop :=
  Forall (fun m => Forall (fun m' => hash m = hash m' -> m = m') msgs) msgs.

Fixpoint bytes_eqb (l k : list byte) : bool :=
  match l, k with
  | [], [] => true
  | a :: l, b :: k => Byte.eqb a b && bytes_eqb l k
  | _, _ => false
  end.

Lemma bytes_eqb_eq l k : bytes_eqb l k = true <-> l = k.
Proof.
  revert k. induction l as [|a l IH]; intros [|b k]; simpl; try done.
  rewrite andb_true_iff, IH. split.
  - intros [H ->]. by apply Byte.byte_dec_bl in H as ->.
  - intros [= -> ->]. split; [by apply Byte.byte_dec_lb|done].
Qed.

(** The executable test of [collision_free]. *)
Definition collision_freeb `{Blake3} (msgs : list (list byte)) : bool :=
  let hs := map (fun m => (m, as_bytes (hash m))) msgs in
  forallb (fun p => forallb (fun q => implb (bytes_eqb p.2 q.2) (bytes_eqb p.1 q.1)) hs) hs.

Lemma collision_freeb_sound `{Blake3} msgs :
  collision_freeb msgs = true -> collision_free msgs.
Proof.
  unfold collision_freeb, collision_free. cbv zeta. rewrite forallb_forall. intros Hb.
  apply List.Forall_forall. intros m Hm. apply List.Forall_forall. intros m' Hm' E.
  specialize (Hb _ (in_map (fun m => (m, as_bytes (hash m))) _ _ Hm)).
  rewrite forallb_forall in Hb.
  specialize (Hb _ (in_map (fun m => (m, as_bytes (hash m))) _ _ Hm')).
  simpl in Hb. rewrite E in Hb. rewrite (proj2 (bytes_eqb_eq _ _)) in Hb by done.
  by apply bytes_eqb_eq.
Qed.

Lemma collision_free_inj `{Blake3} msgs m m' :
  collision_free msgs -> m ∈ msgs -> m' ∈ msgs -> hash m = hash m' -> m = m'.
Proof.
  unfold collision_free. rewrite Forall_forall. intros Hc Hm Hm'.
  specialize (Hc m Hm). rewrite Forall_forall in Hc. by apply Hc.
Qed.

Lemma collision_free_subseteq `{Blake3} msgs msgs' :
  msgs' ⊆ msgs -> collision_free msgs -> collision_free msgs'.
Proof.
  intros Hs Hc. apply Forall_forall. intros m Hm. apply Forall_forall. intros m' Hm'.
  eapply collision_free_inj; eauto.
Qed.

Lemma as_bytes_of_inj s t : as_bytes_of s = as_bytes_of t -> s = t.
Proof.
  intros E. apply (f_equal String.string_of_list_byte) in E.
  by rewrite !String.string_of_list_byte_of_string in E.
Qed.

(** ** Little-endian encodings *)

Definition byte_of_Z (z : Z) : byte :=
  match Byte.of_N (Z.to_N (z mod 256)) with Some b => b | None => x00 end.

Definition Z_of_byte (b : byte) : Z := Z.of_N (Byte.to_N b).

(** [to_le_bytes] of an [n]-byte integer. *)
Fixpoint le_bytes (n : nat) (z : Z) : list byte :=
  match n with O => [] | S n => byte_of_Z z :: le_bytes n (z / 256) end.

Lemma Z_of_byte_of_Z z : Z_of_byte (byte_of_Z z) = (z mod 256)%Z.
Proof.
  unfold byte_of_Z, Z_of_byte. pose proof (Z.mod_pos_bound z 256 ltac:(lia)) as Hz.
  pose proof (Byte.to_of_N_option_map (Z.to_N (z mod 256))) as E.
  rewrite (proj2 (N.leb_le _ _)) in E by lia.
  destruct (Byte.of_N _) as [b|]; simpl in E; [|done]. injection E as E. rewrite E. lia.
Qed.

Lemma le_bytes_length n z : length (le_bytes n z) = n.
Proof. revert z. induction n; intros; simpl; auto. Qed.

Lemma le_bytes_inj n z z' :
  (0 <= z < 256 ^ Z.of_nat n)%Z -> (0 <= z' < 256 ^ Z.of_nat n)%Z ->
  le_bytes n z = le_bytes n z' -> z = z'.
Proof.
  revert z z'. induction n as [|n IH]; intros z z' Hz Hz' E.
  { simpl in *. lia. }
  rewrite Nat2Z.inj_succ, Z.pow_succ_r in * by lia. simpl in E. injection E as E1 E2.
  apply (f_equal Z_of_byte) in E1. rewrite !Z_of_byte_of_Z in E1.
  pose proof (Z.div_mod z 256 ltac:(lia)). pose proof (Z.div_mod z' 256 ltac:(lia)).
  apply IH in E2; [lia|split; [apply Z.div_pos; lia|apply Z.div_lt_upper_bound; lia]..].
Qed.

(** [to_le_bytes] of a signed integer is that of its two's complement. *)
Lemma le_bytes_mod n z : le_bytes n (z mod 256 ^ Z.of_nat n) = le_bytes n z.
Proof.
  revert z. induction n as [|n IH]; intros z; [done|].
  rewrite Nat2Z.inj_succ, Z.pow_succ_r by lia. cbn [le_bytes].
  assert (0 < 256 ^ Z.of_nat n)%Z by (apply Z.pow_pos_nonneg; lia).
  rewrite Z.rem_mul_r by lia. f_equal.
  - unfold byte_of_Z. do 3 f_equal. by rewrite Z.mul_comm, Z.mod_add, Z.mod_mod by lia.
  - rewrite (Z.mul_comm 256), Z.div_add by lia.
    rewrite (Z.div_small (z mod 256)) by (apply Z.mod_pos_bound; lia). apply IH.
Qed.

(** [to_be_bytes]. *)
Definition be_bytes (n : nat) (z : Z) : list byte := rev (le_bytes n z).

Lemma be_bytes_length n z : length (be_bytes n z) = n.
Proof. unfold be_bytes. by rewrite length_rev, le_bytes_length. Qed.

Lemma be_bytes_rev n z z' : be_bytes n z = be_bytes n z' -> le_bytes n z = le_bytes n z'.
Proof. unfold be_bytes. intros E. apply (f_equal (@rev byte)) in E. by rewrite !rev_involutive in E. Qed.

(** A present marker with the digest, or an absent marker. *)
Definition marked (o : option B3Hash) : list byte :=
  match o with Some h => x01 :: as_bytes h | None => [x00] end.

(** ** Self-delimiting encodings

    A text hashed slice by slice can be read back when each slice tells where it ends.
    [delimits ok slices view]: on values that satisfy [ok], the slices at the front of
    two equal texts determine [view] and leave equal rests. *)

(** [&(bytes.len() as u32).to_le_bytes()]. *)
Definition len_le (bs : list byte) : list byte :=
  le_bytes 4 (Z.of_nat (length bs) mod u32_mod).

(** Optional bytes: 1, their length and the bytes, or 0. *)
Definition optional_slices (o : option (list byte)) : list (list byte) :=
  match o with Some s => [[x01]; len_le s; s] | None => [[x00]] end.

Definition delimits {A B} (ok : A -> Prop) (slices : A -> list (list byte)) (view : A -> B) : Prop :=
  forall a b r r', ok a -> ok b ->
    concat (slices a) ++ r = concat (slices b) ++ r' -> view a = view b /\ r = r'.

Section Delimits.
Context {A : Type} (ok : A -> Prop).

Lemma delimits_nil : delimits ok (fun _ => []) (fun _ => tt).
Proof. intros a b r r' _ _ E. done. Qed.

Lemma delimits_app {B C} f g (v : A -> B) (w : A -> C) :
  delimits ok f v -> delimits ok g w ->
  delimits ok (fun a => f a ++ g a) (fun a => (v a, w a)).
Proof.
  intros Hf Hg a b r r' Ha Hb E. rewrite !concat_app, <- !(assoc_L (++)) in E.
  apply Hf in E as [Ev E]; [|done..]. apply Hg in E as [Ew E]; [|done..].
  by rewrite Ev, Ew.
Qed.

Lemma delimits_view {B C} f (v : A -> B) (w : A -> C) :
  (forall a b, ok a -> ok b -> v a = v b -> w a = w b) -> delimits ok f v -> delimits ok f w.
Proof. intros Hw Hf a b r r' Ha Hb E. apply Hf in E as [E ->]; auto. Qed.

(** A slice of fixed length. *)
Lemma delimits_fixed {C} n (s : A -> list byte) g (w : A -> C) :
  (forall a, ok a -> length (s a) = n) -> delimits ok g w ->
  delimits ok (fun a => s a :: g a) (fun a => (s a, w a)).
Proof.
  intros Hs Hg a b r r' Ha Hb E. cbn [concat] in E. rewrite <- !(assoc_L (++)) in E.
  apply app_inj_1 in E as [E1 E]; [|by rewrite !Hs].
  apply Hg in E as [Ew ->]; [|done..]. by rewrite E1, Ew.
Qed.

(** A slice preceded by its length. *)
Lemma delimits_prefixed {C} (s : A -> list byte) g (w : A -> C) :
  (forall a, ok a -> (Z.of_nat (length (s a)) < u32_mod)%Z) -> delimits ok g w ->
  delimits ok (fun a => len_le (s a) :: s a :: g a) (fun a => (s a, w a)).
Proof.
  intros Hs Hg a b r r' Ha Hb E. cbn [concat] in E. rewrite <- !(assoc_L (++)) in E.
  pose proof (Hs a Ha). pose proof (Hs b Hb).
  apply app_inj_1 in E as [E1 E]; [|unfold len_le; by rewrite !le_bytes_length].
  unfold len_le in E1. rewrite !Z.mod_small in E1 by lia.
  apply le_bytes_inj in E1; [|unfold u32_mod in *; simpl; lia..].
  apply app_inj_1 in E as [E2 E]; [|lia].
  apply Hg in E as [Ew ->]; [|done..]. by rewrite E2, Ew.
Qed.

(** Integers, digests and flags. *)
Lemma delimits_unsigned {C} n (p : A -> Z) g (w : A -> C) :
  (forall a, ok a -> (0 <= p a < 256 ^ Z.of_nat n)%Z) -> delimits ok g w ->
  delimits ok (fun a => le_bytes n (p a) :: g a) (fun a => (p a, w a)).
Proof.
  intros Hp Hg. eapply delimits_view; [|apply (delimits_fixed n (fun a => le_bytes n (p a)) g w);
    [intros; apply le_bytes_length|done]].
  intros a b Ha Hb [= E ->]. f_equal. eapply le_bytes_inj; eauto.
Qed.

Lemma delimits_signed {C} n (p : A -> Z) g (w : A -> C) :
  (forall a, ok a -> (- (256 ^ Z.of_nat n) <= 2 * p a < 256 ^ Z.of_nat n)%Z) -> delimits ok g w ->
  delimits ok (fun a => le_bytes n (p a) :: g a) (fun a => (p a, w a)).
Proof.
  intros Hp Hg. eapply delimits_view; [|apply (delimits_fixed n (fun a => le_bytes n (p a)) g w);
    [intros; apply le_bytes_length|done]].
  intros a b Ha Hb [= E ->]. f_equal. rewrite <- (le_bytes_mod n (p a)), <- (le_bytes_mod n (p b)) in E.
  specialize (Hp a Ha) as Pa. specialize (Hp b Hb) as Pb. set (m := (256 ^ Z.of_nat n)%Z) in *.
  assert (0 < m)%Z by lia.
  apply le_bytes_inj in E; [|apply Z.mod_pos_bound; lia..].
  pose proof (Z.div_mod (p a) m). pose proof (Z.div_mod (p b) m).
  assert (p a / m = p b / m \/ p a / m < p b / m \/ p a / m > p b / m)%Z by lia. nia.
Qed.

Lemma delimits_digest {C} (p : A -> B3Hash) g (w : A -> C) :
  delimits ok g w -> delimits ok (fun a => as_bytes (p a) :: g a) (fun a => (p a, w a)).
Proof.
  intros Hg. eapply delimits_view; [|apply (delimits_fixed 32 (fun a => as_bytes (p a)) g w);
    [intros; apply as_bytes_length|done]].
  intros a b _ _ [= E ->]. f_equal. by apply as_bytes_inj.
Qed.

Lemma delimits_flag {C} (p : A -> bool) g (w : A -> C) :
  delimits ok g w ->
  delimits ok (fun a => [if p a then x01 else x00] :: g a) (fun a => (p a, w a)).
Proof.
  intros Hg. eapply delimits_view; [|apply (delimits_fixed 1 (fun a => [if p a then x01 else x00]) g w);
    [done|done]].
  intros a b _ _ [= E ->]. f_equal. by destruct (p a), (p b).
Qed.

Lemma delimits_string {C} (p : A -> string) g (w : A -> C) :
  (forall a, ok a -> (Z.of_nat (length (as_bytes_of (p a))) < u32_mod)%Z) -> delimits ok g w ->
  delimits ok (fun a => len_le (as_bytes_of (p a)) :: as_bytes_of (p a) :: g a) (fun a => (p a, w a)).
Proof.
  intros Hp Hg. eapply delimits_view; [|apply (delimits_prefixed (fun a => as_bytes_of (p a)) g w); done].
  intros a b _ _ [= E ->]. f_equal. by apply as_bytes_of_inj.
Qed.

(** [to_be_bytes] of unsigned and signed integers. *)
Lemma delimits_be {C} n (p : A -> Z) g (w : A -> C) :
  (forall a b, ok a -> ok b -> le_bytes n (p a) = le_bytes n (p b) -> p a = p b) -> delimits ok g w ->
  delimits ok (fun a => be_bytes n (p a) :: g a) (fun a => (p a, w a)).
Proof.
  intros Hp Hg. eapply delimits_view; [|apply (delimits_fixed n (fun a => be_bytes n (p a)) g w);
    [intros; apply be_bytes_length|done]].
  intros a b Ha Hb [= E ->]. f_equal. apply Hp; [done..|]. by apply be_bytes_rev.
Qed.

(** A digest behind a byte that says whether it is there. *)
Lemma delimits_marked {C} (p : A -> option B3Hash) g (w : A -> C) :
  delimits ok g w -> delimits ok (fun a => marked (p a) :: g a) (fun a => (p a, w a)).
Proof.
  intros Hg a b r r' Ha Hb E. cbn [concat] in E. rewrite <- !(assoc_L (++)) in E.
  destruct (p a) as [h|] eqn:Ea, (p b) as [h'|] eqn:Eb; cbn [marked app] in E; try discriminate E.
  - injection E as E. apply app_inj_1 in E as [E1 E]; [|by rewrite !as_bytes_length].
    apply as_bytes_inj in E1 as ->. apply Hg in E as [Ew ->]; [|done..]. by rewrite Ew.
  - injection E as E. apply Hg in E as [Ew ->]; [|done..]. by rewrite Ew.
Qed.

(** Bytes with their length behind a byte that says whether they are there. *)
Lemma delimits_optional {C} (p : A -> option (list byte)) g (w : A -> C) :
  (forall a, ok a -> (Z.of_nat (length (default [] (p a))) < u32_mod)%Z) -> delimits ok g w ->
  delimits ok (fun a => optional_slices (p a) ++ g a) (fun a => (p a, w a)).
Proof.
  intros Hp. apply delimits_app. intros a b r r' Ha Hb E. pose proof (Hp a Ha) as La.
  pose proof (Hp b Hb) as Lb. destruct (p a) as [s|], (p b) as [s'|];
    cbn [optional_slices concat app] in E; try discriminate E; apply (f_equal tail) in E; [|done].
  cbn [tail] in E. rewrite <- !(assoc_L (++)) in E. simpl in La, Lb.
  apply app_inj_1 in E as [E1 E]; [|unfold len_le; by rewrite !le_bytes_length].
  unfold len_le in E1. rewrite !Z.mod_small in E1 by lia.
  apply le_bytes_inj in E1; [|unfold u32_mod in *; simpl; lia..].
  cbn [app] in E. apply app_inj_1 in E as [-> E]; [done|lia].
Qed.

(** Two equal texts of one layout. *)
Lemma delimits_text {B} f (v : A -> B) a b :
  delimits ok f v -> ok a -> ok b -> concat (f a) = concat (f b) -> v a = v b.
Proof.
  intros Hf Ha Hb E. destruct (Hf a b [] [] Ha Hb) as [Ev _]; [by rewrite !app_nil_r|done].
Qed.
End Delimits.

(** *** Counted lists

    [count (u32 LE)] followed by the encodings of the elements. *)

Definition counted {B} (enc : B -> list byte) (l : list B) : list byte :=
  le_bytes 4 (Z.of_nat (length l) mod u32_mod) ++ concat (map enc l).

Section Counted.
Context {B : Type} (ok : B -> Prop) (enc : B -> list byte).
Hypothesis enc_delimits : delimits ok (fun x => [enc x]) id.

Lemma elements_inj l k r r' :
  length l = length k -> Forall ok l -> Forall ok k ->
  concat (map enc l) ++ r = concat (map enc k) ++ r' -> l = k /\ r = r'.
Proof.
  revert k. induction l as [|x l IH]; intros [|y k] Hlen Hl Hk E; try done.
  apply Forall_cons in Hl as [Hx Hl]. apply Forall_cons in Hk as [Hy Hk].
  cbn [map concat] in E. rewrite <- !(assoc_L (++)) in E.
  destruct (enc_delimits x y (concat (map enc l) ++ r) (concat (map enc k) ++ r') Hx Hy) as [Exy Er].
  { cbn [concat]. by rewrite !app_nil_r. }
  unfold id in Exy. subst y. simpl in Hlen. apply IH in Er as [-> ->]; [done|lia|done..].
Qed.

Lemma counted_split l k r r' :
  (Z.of_nat (length l) < u32_mod)%Z -> (Z.of_nat (length k) < u32_mod)%Z -> Forall ok l -> Forall ok k ->
  counted enc l ++ r = counted enc k ++ r' -> l = k /\ r = r'.
Proof.
  intros Hl Hk Al Ak E. unfold counted in E. rewrite <- !(assoc_L (++)) in E.
  rewrite !Z.mod_small in E by lia. apply app_inj_1 in E as [E1 E]; [|by rewrite !le_bytes_length].
  apply le_bytes_inj in E1; [|unfold u32_mod in *; simpl; lia..]. apply elements_inj in E; [done|lia|done..].
Qed.

Lemma counted_inj l k :
  (Z.of_nat (length l) < u32_mod)%Z -> (Z.of_nat (length k) < u32_mod)%Z -> Forall ok l -> Forall ok k ->
  counted enc l = counted enc k -> l = k.
Proof. intros Hl Hk Al Ak E. apply (counted_split l k [] []); try done. by rewrite !app_nil_r. Qed.
End Counted.

Lemma u32_delimits : delimits is_u32 (fun x => [le_bytes 4 x]) id.
Proof.
  eapply delimits_view; [|apply (delimits_unsigned is_u32 4 id (fun _ => []) (fun _ => tt));
    [done|apply delimits_nil]].
  by intros a b _ _ [= ->].
Qed.

(** ** The order of digest texts

    Rust compares [String]s byte by byte. *)
Lemma ascii_compare_lt_trans a b c :
  Ascii.compare a b = Lt -> Ascii.compare b c = Lt -> Ascii.compare a c = Lt.
Proof. unfold Ascii.compare. rewrite !N.compare_lt_iff. lia. Qed.

Lemma string_leb_trans s t u :
  (s <=? t)%string = true -> (t <=? u)%string = true -> (s <=? u)%string = true.
Proof.
  unfold String.leb. revert t u.
  induction s as [|a s IH]; intros [|b t] [|c u]; simpl; try done.
  destruct (Ascii.compare a b) eqn:E1; try done; destruct (Ascii.compare b c) eqn:E2; try done;
    repeat match goal with
    | H : Ascii.compare _ _ = Eq |- _ => apply Ascii.compare_eq_iff in H; subst
    end.
  - replace (Ascii.compare c c) with Eq by (symmetry; by apply N.compare_refl). apply IH.
  - by rewrite E2.
  - by rewrite E1.
  - by rewrite (ascii_compare_lt_trans _ _ _ E1 E2).
Qed.

Lemma string_leb_total s t : (s <=? t)%string = false -> (t <=? s)%string = true.
Proof. intros H. destruct (String.leb_total s t); congruence. Qed.

(** Sorting by a string key that tells the elements apart has one result per multiset. *)
Lemma key_sort_canonical {A} (key : A -> string) (l l' : list A) :
  (forall x y, x ∈ l -> y ∈ l -> key x = key y -> x = y) -> l ≡ₚ l' ->
  stable_sort (fun a b => (key a <=? key b)%string) l
  = stable_sort (fun a b => (key a <=? key b)%string) l'.
Proof.
  intros Hk Hp. eapply (StronglySorted_unique_strong (fun a b => (key a <=? key b)%string = true)).
  - intros x y Hx Hy H1 H2. rewrite stable_sort_perm in Hx, Hy. rewrite <- Hp in Hy.
    apply Hk; [done..|]. by apply String.leb_antisym.
  - apply stable_sort_sorted; intros *; [apply string_leb_total|apply string_leb_trans].
  - apply stable_sort_sorted; intros *; [apply string_leb_total|apply string_leb_trans].
  - by rewrite !stable_sort_perm.
Qed.

Lemma nodup_key {A B} (key : A -> B) l x y :
  NoDup (map key l) -> x ∈ l -> y ∈ l -> key x = key y -> x = y.
Proof.
  intros Hn Hx Hy E. apply list_elem_of_lookup in Hx as [i Hi]. apply list_elem_of_lookup in Hy as [j Hj].
  assert (i = j) as <-; [|congruence].
  eapply (NoDup_lookup (key <$> l) i j (key x) Hn); rewrite list_lookup_fmap; [by rewrite Hi|by rewrite Hj, E].
Qed.

(** The sorted list of a multiset of ids. *)
Lemma ids_sort_canonical (l l' : list string) :
  l ≡ₚ l' -> stable_sort String.leb l = stable_sort String.leb l'.
Proof. by apply (key_sort_canonical id). Qed.

(** ** A hexadecimal codec *)

Module HexLower.
Definition digit (n : N) : Ascii.ascii :=
  Ascii.ascii_of_N (if (n <? 10)%N then 48 + n else 87 + n).

Definition digit_value (c : Ascii.ascii) : option N :=
  let n := Ascii.N_of_ascii c in
  if ((48 <=? n) && (n <=? 57))%N then Some (n - 48)%N
  else if ((97 <=? n) && (n <=? 102))%N then Some (n - 87)%N
  else if ((65 <=? n) && (n <=? 70))%N then Some (n - 55)%N
  else None.

Fixpoint encode (l : list byte) : string :=
  match l with
  | [] => EmptyString
  | b :: l => String (digit (Byte.to_N b / 16)) (String (digit (Byte.to_N b mod 16)) (encode l))
  end.

Fixpoint decode (s : string) : result (list byte) string :=
  match s with
  | EmptyString => Ok []
  | String c (String c' s) =>
      match digit_value c, digit_value c' with
      | Some h, Some l =>
          match Byte.of_N (16 * h + l), decode s with
          | Some b, Ok bs => Ok (b :: bs)
          | None, _ => Err "Invalid character"
          | _, Err e => Err e
          end
      | _, _ => Err "Invalid character"
      end
  | String _ EmptyString => Err "Odd number of digits"
  end.

Lemma decode_encode l : decode (encode l) = Ok l.
Proof.
  induction l as [|b l IH]; [done|]. cbn [encode decode].
  assert (digit_value (digit (Byte.to_N b / 16)) = Some (Byte.to_N b / 16)%N
    /\ digit_value (digit (Byte.to_N b mod 16)) = Some (Byte.to_N b mod 16)%N
    /\ Byte.of_N (16 * (Byte.to_N b / 16) + Byte.to_N b mod 16) = Some b) as (-> & -> & ->)
    by (destruct b; vm_compute; done).
  by rewrite IH.
Qed.

Lemma encode_length l : String.length (encode l) = 2 * length l.
Proof. induction l as [|b l IH]; simpl in *; lia. Qed.
End HexLower.

Definition hex_lower : Hex :=
  {| hex_encode := HexLower.encode; hex_decode := HexLower.decode |}.

Lemma hex_lower_laws : HexLaws hex_lower.
Proof. split; [apply HexLower.decode_encode|apply HexLower.encode_length]. Qed.

(** ** A computable hash for examples *)

Fixpoint vec_of_Z (n : nat) (z : Z) : vec byte n :=
  match n with O => [#] | S n => byte_of_Z z ::: vec_of_Z n (z / 256) end.

Definition toy_blake3 : Blake3 := fun m =>
  vec_of_Z 32 (fold_left (fun acc b => ((acc * 65599 + Z_of_byte b + 1) mod (2 ^ 31 - 1))%Z) m 7%Z).
