(* ===== verification/Ordering.v ===== *)
(** * Total orders as Rust derives them

    [#[derive(Ord)]] compares the fields of a struct in order and the variants of an enum
    by position; [Option] puts [None] first, slices and strings are compared
    lexicographically. [Cmp] is [Ord::cmp] of a type, [CmpLaws] what makes it a total
    order, and each way of building an order keeps the laws. [cmp_leb] is the boolean
    order for [sort_by]. *)

From S2P Require Import Prelude Hashing.

Class Cmp (A : Type) : Type := cmp : A -> A -> comparison.

Class CmpLaws {A} (C : Cmp A) : Prop := {
  cmp_eq : forall x y : A, cmp x y = Eq -> x = y;
  cmp_refl : forall x : A, cmp x x = Eq;
  cmp_sym : forall x y : A, cmp y x = CompOpp (cmp x y);
  cmp_trans : forall x y z : A, cmp x y = Lt -> cmp y z = Lt -> cmp x z = Lt;
}.

Definition cmp_leb {A} `{Cmp A} (x y : A) : bool :=
  match cmp x y with Gt => false | _ => true end.

Definition then_with (c d : comparison) : comparison :=
  match c with Eq => d | _ => c end.

Section Derived.
Context {A : Type} {C : Cmp A} {L : CmpLaws C}.

Lemma cmp_leb_trans (x y z : A) : cmp_leb x y = true -> cmp_leb y z = true -> cmp_leb x z = true.
Proof.
  unfold cmp_leb. intros Hx Hy.
  destruct (cmp x y) eqn:E1; [apply cmp_eq in E1 as ->; done| |done].
  destruct (cmp y z) eqn:E2; [apply cmp_eq in E2 as <-; by rewrite E1| |done].
  by rewrite (cmp_trans x y z E1 E2).
Qed.

Lemma cmp_leb_total (x y : A) : cmp_leb x y = false -> cmp_leb y x = true.
Proof. unfold cmp_leb. rewrite (cmp_sym x y). by destruct (cmp x y). Qed.

Lemma cmp_leb_antisym (x y : A) : cmp_leb x y = true -> cmp_leb y x = true -> x = y.
Proof.
  unfold cmp_leb. rewrite (cmp_sym x y). destruct (cmp x y) eqn:E; try done. intros _ _. by apply cmp_eq.
Qed.

Lemma cmp_leb_refl (x : A) : cmp_leb x x = true.
Proof. unfold cmp_leb. by rewrite cmp_refl. Qed.
End Derived.

(** ** Building orders *)

(** An order carried over along an injective view. *)
Definition view_cmp {A B} `{Cmp B} (f : A -> B) : Cmp A := fun x y => cmp (f x) (f y).

Lemma view_cmp_laws {A B} `{CB : Cmp B} `{!CmpLaws CB} (f : A -> B) `{!Inj (=) (=) f} :
  CmpLaws (view_cmp f).
Proof.
  split; unfold cmp, view_cmp; intros *.
  - intros E%cmp_eq. by apply (inj f).
  - apply cmp_refl.
  - apply cmp_sym.
  - apply cmp_trans.
Qed.

#[export] Instance Z_cmp : Cmp Z := Z.compare.
#[export] Instance Z_cmp_laws : CmpLaws Z_cmp.
Proof.
  split; unfold cmp, Z_cmp; intros *.
  - apply Z.compare_eq.
  - apply Z.compare_refl.
  - apply Z.compare_antisym.
  - rewrite !Z.compare_lt_iff. lia.
Qed.

#[export] Instance bool_cmp : Cmp bool :=
  fun x y => match x, y with false, true => Lt | true, false => Gt | _, _ => Eq end.
#[export] Instance bool_cmp_laws : CmpLaws bool_cmp.
Proof. split; [by intros [] []|by intros []|by intros [] []|by intros [] [] []]. Qed.

#[export] Instance prod_cmp {A B} `{Cmp A, Cmp B} : Cmp (A * B) :=
  fun x y => then_with (cmp x.1 y.1) (cmp x.2 y.2).
Lemma prod_cmp_pair {A B} `{Cmp A, Cmp B} (a a' : A) (b b' : B) :
  cmp (a, b) (a', b') = then_with (cmp a a') (cmp b b').
Proof. done. Qed.

Lemma then_with_trans {A} `{CA : Cmp A, !CmpLaws CA} (a a' a'' : A) c c' c'' :
  (c = Lt -> c' = Lt -> c'' = Lt) ->
  then_with (cmp a a') c = Lt -> then_with (cmp a' a'') c' = Lt -> then_with (cmp a a'') c'' = Lt.
Proof.
  intros Hc. destruct (cmp a a') eqn:E1; try done.
  - apply cmp_eq in E1 as ->. destruct (cmp a' a''); simpl; auto.
  - intros _. destruct (cmp a' a'') eqn:E2; try done.
    + apply cmp_eq in E2 as <-. by rewrite E1.
    + by rewrite (cmp_trans a a' a'' E1 E2).
Qed.

Lemma then_with_opp c d : CompOpp (then_with c d) = then_with (CompOpp c) (CompOpp d).
Proof. by destruct c. Qed.

#[export] Instance prod_cmp_laws {A B} `{CA : Cmp A, !CmpLaws CA, CB : Cmp B, !CmpLaws CB} :
  CmpLaws (prod_cmp (A:=A) (B:=B)).
Proof.
  split.
  - intros [a b] [a' b']. rewrite prod_cmp_pair. destruct (cmp a a') eqn:E; try done. simpl.
    apply cmp_eq in E as ->. by intros ->%cmp_eq.
  - intros [a b]. by rewrite prod_cmp_pair, !cmp_refl.
  - intros [a b] [a' b']. by rewrite !prod_cmp_pair, then_with_opp, <- !cmp_sym.
  - intros [a b] [a' b'] [a'' b'']. rewrite !prod_cmp_pair. apply then_with_trans, cmp_trans.
Qed.

#[export] Instance option_cmp {A} `{Cmp A} : Cmp (option A) :=
  fun x y => match x, y with
             | None, None => Eq | None, Some _ => Lt | Some _, None => Gt
             | Some a, Some b => cmp a b
             end.
#[export] Instance option_cmp_laws {A} `{CA : Cmp A, !CmpLaws CA} : CmpLaws (option_cmp (A:=A)).
Proof.
  split.
  - intros [a|] [b|]; try done. intros E. f_equal. by apply (cmp_eq a b).
  - intros [a|]; [exact (cmp_refl a)|done].
  - intros [a|] [b|]; try done. exact (cmp_sym a b).
  - intros [a|] [b|] [c|]; try done. exact (cmp_trans a b c).
Qed.

Fixpoint list_compare {A} `{Cmp A} (l k : list A) : comparison :=
  match l, k with
  | [], [] => Eq
  | [], _ :: _ => Lt
  | _ :: _, [] => Gt
  | x :: l, y :: k => then_with (cmp x y) (list_compare l k)
  end.
#[export] Instance list_cmp {A} `{Cmp A} : Cmp (list A) := list_compare.
#[export] Instance list_cmp_laws {A} `{CA : Cmp A, !CmpLaws CA} : CmpLaws (list_cmp (A:=A)).
Proof.
  split; unfold cmp, list_cmp.
  - intros l. induction l as [|x l IH]; intros [|y k]; simpl; try done.
    destruct (cmp x y) eqn:Ex; simpl; try done. apply cmp_eq in Ex as ->. intros ->%IH. done.
  - intros l. induction l as [|x l IH]; simpl; [done|]. by rewrite cmp_refl.
  - intros l. induction l as [|x l IH]; intros [|y k]; simpl; try done.
    by rewrite then_with_opp, <- cmp_sym, <- IH.
  - intros l. induction l as [|x l IH]; intros [|y k] [|z m]; simpl; try done.
    apply then_with_trans, IH.
Qed.

(** Bytes as numbers; strings and digests as their bytes. *)
Definition byte_Z (b : byte) : Z := Z.of_N (Byte.to_N b).
#[export] Instance byte_Z_inj : Inj (=) (=) byte_Z.
Proof.
  intros a b E. apply N2Z.inj in E. apply (f_equal Byte.of_N) in E. rewrite !Byte.of_to_N in E. congruence.
Qed.

#[export] Instance byte_cmp : Cmp byte := view_cmp byte_Z.
#[export] Instance byte_cmp_laws : CmpLaws byte_cmp.
Proof. apply view_cmp_laws, _. Qed.

#[export] Instance as_bytes_of_Inj : Inj (=) (=) as_bytes_of.
Proof. intros a b. apply as_bytes_of_inj. Qed.
#[export] Instance string_cmp : Cmp string := view_cmp as_bytes_of.
#[export] Instance string_cmp_laws : CmpLaws string_cmp.
Proof. apply view_cmp_laws, _. Qed.

#[export] Instance as_bytes_Inj : Inj (=) (=) as_bytes.
Proof. intros a b. apply as_bytes_inj. Qed.
#[export] Instance B3Hash_cmp : Cmp B3Hash := view_cmp as_bytes.
#[export] Instance B3Hash_cmp_laws : CmpLaws B3Hash_cmp.
Proof. apply view_cmp_laws, _. Qed.
