(* ===== verification/ReceiptMerkle.v ===== *)
(** * Receipt Merkle trees (adapteros-core/src/receipt_merkle.rs)

    Batches of receipt digests, their Merkle root, inclusion proofs and their
    verification. The level loop [while level.len() > 1] runs on fuel; the fuel
    given, the number of leaves, is enough ([merkle_root_unfold]). A slice index
    out of bounds is a panic, the value [None]. Batch ids and timestamps come from
    outside the crate's code and are arguments. *)

From stdpp Require Import sorting.
From S2P Require Import Prelude Hashing.

Module ReceiptMerkle.

Section WithHash.
Context {BL : Blake3} {HX : Hex}.

(** ** Data *)

Record ReceiptBatch := mkBatch {
  batch_id : string;
  tenant_id : string;
  receipt_digests : list B3Hash;
  merkle_root : B3Hash;
  created_at : string;
  receipt_count : nat
}.

Record ReceiptInclusionProof := mkProof {
  index : nat;
  siblings : list B3Hash;
  proof_root : B3Hash;
  trace_id : string;
  proof_batch_id : string
}.

(** ** The tree *)

(** [combined]: left bytes, then right bytes. *)
Definition node_message (l r : B3Hash) : list byte := as_bytes l ++ as_bytes r.

Definition node (l r : B3Hash) : B3Hash := hash (node_message l r).

(** One pass of the level loop: pairs are hashed, an odd last node with itself. *)
Fixpoint next_level (level : list B3Hash) : list B3Hash :=
  match level with
  | [] => []
  | [l] => [node l l]
  | l :: r :: level' => node l r :: next_level level'
  end.

Fixpoint level_loop (fuel : nat) (level : list B3Hash) : option B3Hash :=
  match fuel with
  | O => None
  | S fuel =>
      if (1 <? length level)%nat then level_loop fuel (next_level level) else head level
  end.

Definition empty_receipt_batch : list byte := as_bytes_of "empty_receipt_batch".

(** [None] would be a panic or a loop that does not end. *)
Definition compute_receipt_merkle_root (digests : list B3Hash) : option B3Hash :=
  match digests with
  | [] => Some (hash empty_receipt_batch)
  | [d] => Some d
  | _ => level_loop (length digests) digests
  end.

(** [sort_by_key(to_hex)]. *)
Definition hex_leb (a b : B3Hash) : bool := (to_hex a <=? to_hex b)%string.

Definition batch_receipts (new_id now tenant : string) (digests : list B3Hash)
  : option (result ReceiptBatch AosError) :=
  match digests with
  | [] => Some (Err (Config "Cannot create batch from empty receipt list"))
  | _ =>
      let sorted_digests := stable_sort hex_leb digests in
      root ← compute_receipt_merkle_root sorted_digests;
      Some (Ok {| batch_id := new_id; tenant_id := tenant; receipt_digests := sorted_digests;
                  merkle_root := root; created_at := now; receipt_count := length digests |})
  end.

(** ** Inclusion proofs *)

Definition sibling_index (level : list B3Hash) (index : nat) : nat :=
  if Nat.even index
  then (if (index + 1 <? length level)%nat then index + 1 else index)%nat
  else (index - 1)%nat.

Fixpoint sibling_loop (fuel : nat) (level : list B3Hash) (index : nat) : option (list B3Hash) :=
  match fuel with
  | O => None
  | S fuel =>
      if (1 <? length level)%nat then
        s ← level !! sibling_index level index;
        rest ← sibling_loop fuel (next_level level) (index / 2);
        Some (s :: rest)
      else Some []
  end.

Definition collect_siblings (digests : list B3Hash) (target_index : nat) : option (list B3Hash) :=
  sibling_loop (S (length digests)) digests target_index.

Definition generate_inclusion_proof_with_trace_id (batch : ReceiptBatch) (index : nat)
    (trace : string) : option (result ReceiptInclusionProof AosError) :=
  if (length (receipt_digests batch) <=? index)%nat then
    Some (Err (Config ("Receipt index " +:+ pretty index +:+ " out of bounds (batch has "
                       +:+ pretty (length (receipt_digests batch)) +:+ " receipts)")))
  else
    siblings ← collect_siblings (receipt_digests batch) index;
    Some (Ok {| index := index; siblings := siblings; proof_root := merkle_root batch;
                trace_id := trace; proof_batch_id := batch_id batch |}).

Definition generate_inclusion_proof (batch : ReceiptBatch) (index : nat)
  : option (result ReceiptInclusionProof AosError) :=
  generate_inclusion_proof_with_trace_id batch index ("receipt-" +:+ pretty index).

(** ** Verification *)

(** The loop of [verify_inclusion]: fold the siblings along the bits of the index. *)
Fixpoint path_root (current : B3Hash) (index : nat) (siblings : list B3Hash) : B3Hash :=
  match siblings with
  | [] => current
  | s :: siblings' =>
      path_root (if Nat.even index then node current s else node s current) (index / 2) siblings'
  end.

Definition verify_inclusion (proof : ReceiptInclusionProof) (receipt_digest : B3Hash) : bool :=
  bool_decide (path_root receipt_digest (index proof) (siblings proof) = proof_root proof).

Definition verify_batch_root (batch : ReceiptBatch) : bool :=
  bool_decide (compute_receipt_merkle_root (receipt_digests batch) = Some (merkle_root batch)).

(** ** The messages that are hashed *)

Fixpoint level_messages (level : list B3Hash) : list (list byte) :=
  match level with
  | [] => []
  | [l] => [node_message l l]
  | l :: r :: level' => node_message l r :: level_messages level'
  end.

Fixpoint tree_messages (fuel : nat) (level : list B3Hash) : list (list byte) :=
  match fuel with
  | O => []
  | S fuel =>
      if (1 <? length level)%nat
      then level_messages level ++ tree_messages fuel (next_level level) else []
  end.

Fixpoint path_messages (current : B3Hash) (index : nat) (siblings : list B3Hash)
  : list (list byte) :=
  match siblings with
  | [] => []
  | s :: siblings' =>
      let m := if Nat.even index then node_message current s else node_message s current in
      m :: path_messages (hash m) (index / 2) siblings'
  end.

(** Everything building the tree of [digests] and checking [proof] feeds to BLAKE3. *)
Definition hashed_messages (digests : list B3Hash) (proof : ReceiptInclusionProof) (d : B3Hash)
  : list (list byte) :=
  tree_messages (S (length digests)) digests ++ path_messages d (index proof) (siblings proof).

(** ** Levels *)

Lemma pair_ind (P : list B3Hash -> Prop) :
  P [] -> (forall x, P [x]) -> (forall x y l, P l -> P (x :: y :: l)) -> forall l, P l.
Proof.
  intros H0 H1 H2 l. cut (P l /\ forall x, P (x :: l)); [tauto|].
  induction l as [|y l [IH1 IH2]]; auto.
Qed.

Lemma div2_SS n : (S (S n) / 2 = S (n / 2))%nat.
Proof. replace (S (S n)) with (1 * 2 + n)%nat by lia. by rewrite Nat.div_add_l by lia. Qed.

Lemma next_level_length level : length (next_level level) = ((length level + 1) / 2)%nat.
Proof.
  induction level as [|x|x y level IH] using pair_ind; [done..|].
  cbn [next_level length]. rewrite IH. cbn [Nat.add]. by rewrite div2_SS.
Qed.

Lemma next_level_shrinks level :
  (1 < length level)%nat -> (1 <= length (next_level level) < length level)%nat.
Proof.
  intros H. rewrite next_level_length. split; [apply Nat.div_le_lower_bound; lia|].
  apply Nat.div_lt_upper_bound; lia.
Qed.

(** The node above position [i] is the hash of the node at [i] and its sibling, in
    the order the verifier uses. *)
Lemma next_level_lookup level i x :
  level !! i = Some x ->
  exists s, level !! sibling_index level i = Some s
    /\ (next_level level) !! (i / 2)%nat = Some (if Nat.even i then node x s else node s x)
    /\ (if Nat.even i then node_message x s else node_message s x) ∈ level_messages level.
Proof.
  revert i. induction level as [|a|a b level IH] using pair_ind; intros i Hi; [done| |].
  - destruct i as [|[|i]]; [|done..]. injection Hi as <-. exists a. set_solver.
  - destruct i as [|[|i]]; simpl in Hi.
    + injection Hi as <-. exists b. set_solver.
    + injection Hi as <-. exists a. set_solver.
    + destruct (IH i Hi) as (s & Hs & Hn & Hm). exists s.
      assert (sibling_index (a :: b :: level) (S (S i)) = S (S (sibling_index level i))) as ->.
      { unfold sibling_index. change (Nat.even (S (S i))) with (Nat.even i).
        destruct (Nat.even i) eqn:E.
        - replace (S (S i) + 1 <? length (a :: b :: level))%nat with (i + 1 <? length level)%nat;
            [by destruct (_ <? _)%nat|]. simpl.
          destruct (Nat.ltb_spec (i + 1) (length level)), (Nat.ltb_spec (S (S (i + 1))) (S (S (length level))));
            lia || done.
        - destruct i; [done|]. simpl. lia. }
      rewrite div2_SS.
      change (Nat.even (S (S i))) with (Nat.even i).
      repeat split; [done|done|]. set_solver.
Qed.

Lemma div2_bound i n : (i < n)%nat -> (i / 2 < (n + 1) / 2)%nat.
Proof.
  intros H. apply Nat.div_lt_upper_bound; [lia|].
  pose proof (Nat.div_mod_eq (n + 1) 2). pose proof (Nat.mod_upper_bound (n + 1) 2). lia.
Qed.

Lemma level_loop_fuel fuel fuel' level :
  (0 < length level <= fuel)%nat -> (length level <= fuel')%nat ->
  level_loop fuel level = level_loop fuel' level /\ is_Some (level_loop fuel level).
Proof.
  revert fuel' level. induction fuel as [|fuel IH]; intros [|fuel'] level Hf Hf'; [lia..|].
  simpl. destruct (Nat.ltb_spec 1 (length level)) as [H1|H1].
  - pose proof (next_level_shrinks level H1). apply IH; lia.
  - split; [done|]. destruct level as [|x [|y l]]; simpl in *; [lia|by eexists|lia].
Qed.

(** The level loop ends within the fuel and steps level by level. *)
Lemma merkle_root_unfold level :
  (1 < length level)%nat ->
  compute_receipt_merkle_root level = compute_receipt_merkle_root (next_level level).
Proof.
  intros H. pose proof (next_level_shrinks level H) as Hn.
  assert (forall l, (0 < length l)%nat ->
    compute_receipt_merkle_root l = level_loop (length l) l) as Heq.
  { intros [|x [|y l]]; simpl; lia || done. }
  rewrite !Heq by lia.
  rewrite (proj1 (level_loop_fuel (length level) (S (length level)) level ltac:(lia) ltac:(lia))).
  change (level_loop (S (length level)) level) with
    (if (1 <? length level)%nat then level_loop (length level) (next_level level) else head level).
  rewrite (proj2 (Nat.ltb_lt _ _) H). apply level_loop_fuel; lia.
Qed.

Lemma merkle_root_total digests : is_Some (compute_receipt_merkle_root digests).
Proof.
  destruct digests as [|x [|y l]]; [by eexists..|].
  apply (level_loop_fuel (length (x :: y :: l)) (length (x :: y :: l))); simpl; lia.
Qed.

(** ** Paths *)

Lemma log2_up_level n : (1 < n)%nat -> Nat.log2_up n = S (Nat.log2_up ((n + 1) / 2)).
Proof.
  intros Hn. set (m := ((n + 1) / 2)%nat).
  assert (2 * m - 1 <= n <= 2 * m)%nat as Hm.
  { unfold m. pose proof (Nat.div_mod_eq (n + 1) 2).
    pose proof (Nat.mod_upper_bound (n + 1) 2). lia. }
  destruct (decide (m = 1)) as [E|E].
  { rewrite E. assert (n = 2) as -> by lia. done. }
  pose proof (Nat.log2_up_spec m ltac:(lia)) as [H1 H2].
  apply Nat.log2_up_unique; [lia|]. rewrite Nat.pred_succ, Nat.pow_succ_r'.
  assert (0 < Nat.log2_up m)%nat by (apply Nat.log2_up_pos; lia).
  destruct (Nat.log2_up m) as [|k]; [lia|]. rewrite Nat.pred_succ, ?Nat.pow_succ_r' in *. lia.
Qed.

(** Two equal paths through the same positions. *)
Lemma node_step (b : bool) x s :
  (if b then node x s else node s x) = hash (if b then node_message x s else node_message s x).
Proof. by destruct b. Qed.

(** The siblings collected for position [i] lead from its digest to the root, one
    per level of the tree. *)
Lemma sibling_loop_correct fuel level i x :
  (length level <= fuel)%nat -> level !! i = Some x ->
  exists sibs, sibling_loop (S fuel) level i = Some sibs
    /\ length sibs = Nat.log2_up (length level)
    /\ compute_receipt_merkle_root level = Some (path_root x i sibs).
Proof.
  revert level i x. induction fuel as [|fuel IH]; intros level i x Hf Hi.
  { apply lookup_lt_Some in Hi. lia. }
  pose proof (lookup_lt_Some _ _ _ Hi) as Hlt.
  change (sibling_loop (S (S fuel)) level i) with
    (if (1 <? length level)%nat then
       s ← level !! sibling_index level i;
       rest ← sibling_loop (S fuel) (next_level level) (i / 2); Some (s :: rest)
     else Some []).
  destruct (Nat.ltb_spec 1 (length level)) as [H1|H1].
  - pose proof (next_level_shrinks level H1).
    destruct (next_level_lookup level i x Hi) as (s & Hs & Hn & _).
    destruct (IH (next_level level) _ _ ltac:(lia) Hn) as (sibs & E1 & E2 & E3).
    exists (s :: sibs). rewrite Hs. cbn [mbind option_bind]. rewrite E1. cbn [mbind option_bind length].
    rewrite E2, next_level_length, <- log2_up_level by done.
    repeat split. by rewrite merkle_root_unfold.
  - destruct level as [|y [|z l]]; simpl in Hlt, H1; [lia| |lia].
    destruct i; [|lia]. injection Hi as ->. by exists [].
Qed.

(** A node of the next level stands over one position of this level, or two. *)
Lemma next_level_children level j :
  (1 < length level)%nat -> (j < length (next_level level))%nat ->
  exists a b, level !! (2 * j)%nat = Some a
    /\ (level !! (2 * j + 1)%nat = Some b \/ (length level <= 2 * j + 1)%nat /\ b = a)
    /\ next_level level !! j = Some (hash (node_message a b))
    /\ node_message a b ∈ level_messages level.
Proof.
  intros H1 Hj. rewrite next_level_length in Hj by done.
  assert (2 * j < length level)%nat as Hlt.
  { pose proof (Nat.div_mod_eq (length level + 1) 2).
    pose proof (Nat.mod_upper_bound (length level + 1) 2). lia. }
  destruct (lookup_lt_is_Some_2 level _ Hlt) as [a Ha].
  assert (Nat.even (2 * j) = true) as He by (by rewrite Nat.even_mul).
  destruct (next_level_lookup level _ a Ha) as (b & Hb & Hn & Hm).
  rewrite He in Hn, Hm. rewrite Nat.mul_comm, Nat.div_mul in Hn by lia.
  exists a, b. split; [done|]. split; [|done].
  unfold sibling_index in Hb. rewrite He in Hb.
  destruct (Nat.ltb_spec (2 * j + 1) (length level)); [by left|right].
  rewrite Ha in Hb. by injection Hb as ->.
Qed.

(** A path of the tree's depth that reaches the root starts at a digest of the level, at
    that of its position if there is one, if the hash tells the messages of tree and path
    apart. *)
Lemma path_sound fuel level i d sibs :
  (length level <= fuel)%nat -> (0 < length level)%nat ->
  length sibs = Nat.log2_up (length level) ->
  collision_free (tree_messages (S fuel) level ++ path_messages d i sibs) ->
  compute_receipt_merkle_root level = Some (path_root d i sibs) ->
  exists j, level !! j = Some d /\ ((i < length level)%nat -> j = i).
Proof.
  revert level i d sibs. induction fuel as [|fuel IH]; intros level i d sibs Hf Hne Hlen Hc Hr; [lia|].
  destruct (decide (1 < length level)%nat) as [H1|H1].
  2: { destruct level as [|y [|z l]]; simpl in Hne, H1; [lia| |lia].
       destruct sibs; [|done]. simpl in Hr. injection Hr as ->. exists 0%nat. simpl. split; [done|lia]. }
  pose proof (next_level_shrinks level H1).
  destruct sibs as [|s sibs]; [rewrite log2_up_level in Hlen by done; done|].
  change (tree_messages (S (S fuel)) level) with
    (if (1 <? length level)%nat
     then level_messages level ++ tree_messages (S fuel) (next_level level) else []) in Hc.
  rewrite (proj2 (Nat.ltb_lt _ _) H1) in Hc.
  set (m := if Nat.even i then node_message d s else node_message s d).
  destruct (IH (next_level level) (i / 2)%nat (hash m) sibs) as (j & Hj & Hji); [lia| | | | |].
  { rewrite next_level_length. apply Nat.div_str_pos. lia. }
  { rewrite next_level_length. rewrite log2_up_level in Hlen by done. by injection Hlen. }
  { eapply collision_free_subseteq; [|exact Hc]. simpl. fold m. set_solver. }
  { rewrite <- merkle_root_unfold by done. rewrite Hr. simpl. by rewrite node_step. }
  destruct (next_level_children level j H1 (lookup_lt_Some _ _ _ Hj)) as (a & b & Ha & Hb & Hn & Hm).
  rewrite Hj in Hn. injection Hn as E.
  apply (collision_free_inj _ m _ Hc) in E; [|simpl; fold m; set_solver..].
  assert ((i < length level)%nat -> j = (i / 2)%nat) as Hpos.
  { intros Hi. apply Hji. rewrite next_level_length. by apply div2_bound. }
  unfold m, node_message in E. pose proof (Nat.div_mod_eq i 2) as Hdiv.
  pose proof (Nat.mod_upper_bound i 2 ltac:(lia)) as Hmod.
  destruct (Nat.even i) eqn:Ei; apply as_bytes_app_inj in E as [E1 E2].
  - subst. exists (2 * j)%nat. split; [done|]. intros Hi.
    apply Nat.even_spec in Ei as [q Hq]. specialize (Hpos Hi). lia.
  - subst. assert (exists q, i = 2 * q + 1)%nat as [q Hq].
    { apply Nat.odd_spec. unfold Nat.odd. by rewrite Ei. }
    destruct Hb as [Hb|[Hlast ->]]; [exists (2 * j + 1)%nat|exists (2 * j)%nat]; (split; [done|]);
      intros Hi; specialize (Hpos Hi); lia.
Qed.

(** ** Batches *)

Lemma hex_leb_total a b : hex_leb a b = false -> hex_leb b a = true.
Proof. apply string_leb_total. Qed.

Lemma hex_leb_trans a b c : hex_leb a b = true -> hex_leb b c = true -> hex_leb a c = true.
Proof. apply string_leb_trans. Qed.

Lemma hex_sort_canonical `{!HexLaws HX} l l' :
  l ≡ₚ l' -> stable_sort hex_leb l = stable_sort hex_leb l'.
Proof.
  intros Hp. eapply (StronglySorted_unique_strong (fun a b => hex_leb a b = true)).
  - intros a b _ _ H1 H2. apply to_hex_inj, String.leb_antisym; done.
  - apply stable_sort_sorted; [apply hex_leb_total|apply hex_leb_trans].
  - apply stable_sort_sorted; [apply hex_leb_total|apply hex_leb_trans].
  - by rewrite !stable_sort_perm.
Qed.

Lemma batch_root_spec batch :
  verify_batch_root batch = true <->
  compute_receipt_merkle_root (receipt_digests batch) = Some (merkle_root batch).
Proof. apply bool_decide_eq_true. Qed.

(** ** Theorems *)

(** [C32] Completeness: a non-empty list of digests always makes a batch holding those
    digests with the right root; every index of the batch gets a proof, one sibling
    per level, that [verify_inclusion] accepts for the digest there, and every other
    index a [Config] error. *)
Theorem receipt_proofs_verify new_id now tenant digests :
  digests <> [] ->
  exists batch, batch_receipts new_id now tenant digests = Some (Ok batch)
    /\ receipt_digests batch ≡ₚ digests /\ receipt_count batch = length digests
    /\ verify_batch_root batch = true
    /\ forall i,
         match receipt_digests batch !! i with
         | Some d => exists proof, generate_inclusion_proof batch i = Some (Ok proof)
             /\ length (siblings proof) = Nat.log2_up (length digests)
             /\ verify_inclusion proof d = true
         | None => exists msg, generate_inclusion_proof batch i = Some (Err (Config msg))
         end.
Proof.
  intros Hne. destruct digests as [|d0 ds]; [done|]. set (digests := d0 :: ds) in *.
  destruct (merkle_root_total (stable_sort hex_leb digests)) as [root Hroot].
  eexists. split; [unfold batch_receipts, digests; fold digests; by rewrite Hroot|].
  cbn [receipt_digests receipt_count merkle_root].
  split; [apply stable_sort_perm|]. split; [done|]. split; [by apply batch_root_spec|].
  intros i. unfold generate_inclusion_proof, generate_inclusion_proof_with_trace_id, collect_siblings.
  cbn [receipt_digests merkle_root].
  destruct (_ !! i) as [d|] eqn:Hi.
  - rewrite (proj2 (Nat.leb_gt _ _)) by (by eapply lookup_lt_Some).
    destruct (sibling_loop_correct _ _ _ _ (Nat.le_refl _) Hi) as (sibs & -> & Hl & Hr).
    eexists. split; [done|]. cbn [siblings].
    rewrite Hl, (Permutation_length (stable_sort_perm hex_leb digests)). split; [done|].
    apply bool_decide_eq_true. cbn. congruence.
  - rewrite (proj2 (Nat.leb_le _ _)) by (by apply lookup_ge_None). by eexists.
Qed.

(** [C8] Soundness: a proof with one sibling per level of the tree of a non-empty batch that
    [verify_inclusion] accepts against the batch's root is a proof that the digest is one
    of the batch, and the one at its index if the batch has a digest there, provided
    BLAKE3 does not collide on the messages hashed to build the tree and to check the
    proof. *)
Theorem receipt_proof_sound batch proof d :
  verify_batch_root batch = true -> proof_root proof = merkle_root batch ->
  length (siblings proof) = Nat.log2_up (length (receipt_digests batch)) ->
  receipt_digests batch <> [] ->
  collision_free (hashed_messages (receipt_digests batch) proof d) ->
  verify_inclusion proof d = true ->
  d ∈ receipt_digests batch
  /\ ((index proof < length (receipt_digests batch))%nat ->
      receipt_digests batch !! index proof = Some d).
Proof.
  intros Hb Hr Hl Hne Hc Hv. apply batch_root_spec in Hb. apply bool_decide_eq_true in Hv.
  destruct (path_sound _ (receipt_digests batch) (index proof) d (siblings proof) (Nat.le_refl _))
    as (j & Hj & Hi); [by destruct (receipt_digests batch); simpl; [|lia]|done|exact Hc|congruence|].
  split; [apply list_elem_of_lookup; by exists j|]. intros Hlt. by rewrite <- (Hi Hlt).
Qed.

(** [verify_inclusion] reads only the lowest bits of the index, one per level: over three
    receipts it accepts the last one at an index that none of them has. *)
Theorem index_beyond_batch_accepted a b c proof :
  index proof = 3%nat -> siblings proof = [c; node a b] ->
  compute_receipt_merkle_root [a; b; c] = Some (proof_root proof) ->
  verify_inclusion proof c = true.
Proof.
  intros Hi Hs Hr. apply bool_decide_eq_true. rewrite Hi, Hs. cbn in Hr |- *. congruence.
Qed.

(** The batch depends only on the set of receipts: digests given in another
    order make the same batch, with the same root and positions. *)
Theorem batch_order_independent `{!HexLaws HX} new_id now tenant digests digests' :
  digests ≡ₚ digests' ->
  batch_receipts new_id now tenant digests = batch_receipts new_id now tenant digests'.
Proof.
  intros Hp. pose proof (Permutation_length Hp) as Hl.
  destruct digests as [|d ds], digests' as [|d' ds']; [done..|].
  unfold batch_receipts. by rewrite (hex_sort_canonical _ _ Hp), Hl.
Qed.

(** Leaves and inner nodes are hashed alike, so [verify_inclusion] also accepts
    digests that are no receipts of the batch: for every batch of two or more, the
    inner node over the first two, with the upper part of their proof. *)
Theorem inner_node_accepted batch a b rest :
  verify_batch_root batch = true -> receipt_digests batch = a :: b :: rest ->
  node a b ∉ receipt_digests batch ->
  exists proof d, proof_root proof = merkle_root batch
    /\ d ∉ receipt_digests batch /\ verify_inclusion proof d = true.
Proof.
  intros Hb Hd Hn. apply batch_root_spec in Hb. rewrite Hd in Hb.
  rewrite merkle_root_unfold in Hb by (simpl; lia).
  destruct (sibling_loop_correct _ (next_level (a :: b :: rest)) 0 (node a b) (Nat.le_refl _) eq_refl)
    as (sibs & _ & _ & Hr).
  exists {| index := 0; siblings := sibs; proof_root := merkle_root batch;
            trace_id := "t"; proof_batch_id := batch_id batch |}, (node a b).
  split; [done|]. split; [done|]. apply bool_decide_eq_true. cbn. congruence.
Qed.
End WithHash.

(** ** Examples *)

Definition example_digest (z : Z) : B3Hash := vec_of_Z 32 z.

Definition example_batch : ReceiptBatch :=
  {| batch_id := "run-1"; tenant_id := "t"; created_at := "2026"; receipt_count := 3;
     receipt_digests := [example_digest 1; example_digest 2; example_digest 3];
     merkle_root := default zero (compute_receipt_merkle_root (BL := toy_blake3)
                       [example_digest 1; example_digest 2; example_digest 3]) |}.

Definition example_proof : ReceiptInclusionProof :=
  {| index := 2;
     siblings := default [] (collect_siblings (BL := toy_blake3) (receipt_digests example_batch) 2);
     proof_root := merkle_root example_batch; trace_id := "t"; proof_batch_id := "run-1" |}.

Lemma receipt_proofs_verify_witness :
  match batch_receipts (BL := toy_blake3) (HX := hex_lower) "run-1" "2026" "t"
          [example_digest 3; example_digest 1] with
  | Some (Ok batch) => verify_batch_root (BL := toy_blake3) batch = true
  | _ => False
  end.
Proof.
  destruct (receipt_proofs_verify (BL := toy_blake3) (HX := hex_lower) "run-1" "2026" "t"
    [example_digest 3; example_digest 1]) as (batch & E & _ & _ & H & _); [discriminate|].
  rewrite E. exact H.
Defined.

Lemma receipt_proof_sound_witness :
  receipt_digests example_batch !! 2 = Some (example_digest 3).
Proof.
  eapply (proj2 (receipt_proof_sound (BL := toy_blake3) example_batch example_proof (example_digest 3)
    _ _ _ _ _ _)).
  simpl; lia.
  Unshelve.
  - vm_compute; reflexivity.
  - reflexivity.
  - vm_compute; reflexivity.
  - discriminate.
  - apply collision_freeb_sound. vm_compute; reflexivity.
  - vm_compute; reflexivity.
Defined.

Lemma index_beyond_batch_accepted_witness :
  verify_inclusion (BL := toy_blake3)
    {| index := 3;
       siblings := [example_digest 3; node (BL := toy_blake3) (example_digest 1) (example_digest 2)];
       proof_root := merkle_root example_batch; trace_id := "t"; proof_batch_id := "run-1" |}
    (example_digest 3) = true.
Proof.
  apply (index_beyond_batch_accepted (BL := toy_blake3) (example_digest 1) (example_digest 2));
    [reflexivity..|vm_compute; reflexivity].
Defined.

Lemma batch_order_independent_witness :
  batch_receipts (BL := toy_blake3) (HX := hex_lower) "run-1" "2026" "t"
    [example_digest 3; example_digest 1]
  = batch_receipts (BL := toy_blake3) (HX := hex_lower) "run-1" "2026" "t"
    [example_digest 1; example_digest 3].
Proof.
  apply (@batch_order_independent toy_blake3 hex_lower hex_lower_laws). by apply Permutation_swap.
Defined.

Lemma inner_node_accepted_witness :
  exists proof d, proof_root proof = merkle_root example_batch
    /\ d ∉ receipt_digests example_batch
    /\ verify_inclusion (BL := toy_blake3) proof d = true.
Proof.
  apply (inner_node_accepted (BL := toy_blake3) example_batch (example_digest 1) (example_digest 2)
           [example_digest 3]).
  - vm_compute; reflexivity.
  - reflexivity.
  - apply (bool_decide_unpack _). vm_compute. exact I.
Defined.
End ReceiptMerkle.
