(* ===== verification/TelemetryMerkle.v ===== *)
(** * Telemetry Merkle trees (adapteros-telemetry/src/merkle.rs)

    The bundle root built level by level, the recursive tree the proofs are taken
    from, and the verifier. The pairing of one level is the same code as in
    receipt_merkle.rs and reuses its [next_level], [node], [level_loop] and
    [path_root]. Canonical JSON ([serde_jcs]) is a parameter of the section. *)

From S2P Require Import Prelude Hashing ReceiptMerkle.

Module TelemetryMerkle.
Import ReceiptMerkle.

Inductive MerkleNode : Type :=
| mkNode (node_hash : B3Hash) (left right : option MerkleNode).

Definition node_hash (n : MerkleNode) : B3Hash := let (h, _, _) := n in h.

Record MerkleProof := mkMerkleProof {
  leaf_index : nat;
  proof_siblings : list B3Hash;
  root : B3Hash
}.

Section WithHash.
Context {BL : Blake3}.

Definition empty_merkle_tree : list byte := as_bytes_of "empty_merkle_tree".

Definition compute_merkle_root_from_hashes (hashes : list B3Hash) : option B3Hash :=
  match hashes with
  | [] => Some (hash empty_merkle_tree)
  | _ => level_loop (length hashes) hashes
  end.

(** The halves of the slice at [mid = len.div_ceil(2)]; [None] is a recursion that
    does not end (an empty slice). *)
Fixpoint build_tree_recursive (fuel : nat) (hashes : list B3Hash) : option MerkleNode :=
  match fuel with
  | O => None
  | S fuel =>
      match hashes with
      | [h] => Some (mkNode h None None)
      | _ =>
          let mid := ((length hashes + 1) / 2)%nat in
          left_tree ← build_tree_recursive fuel (take mid hashes);
          right_tree ← (if (mid <? length hashes)%nat
                        then build_tree_recursive fuel (drop mid hashes)
                        else build_tree_recursive fuel (drop (mid - 1) (take mid hashes)));
          Some (mkNode (node (node_hash left_tree) (node_hash right_tree))
                  (Some left_tree) (Some right_tree))
      end
  end.

(** Pushes the siblings from the top down. *)
Fixpoint collect_siblings (n : MerkleNode) (target_index total_leaves : nat) : list B3Hash :=
  match n with
  | mkNode _ (Some l) (Some r) =>
      let mid := ((total_leaves + 1) / 2)%nat in
      if (target_index <? mid)%nat
      then node_hash r :: collect_siblings l target_index mid
      else node_hash l :: collect_siblings r (target_index - mid) (total_leaves - mid)
  | mkNode _ _ _ => []
  end.

Definition verify_proof (leaf_hash : B3Hash) (proof : MerkleProof) : bool :=
  bool_decide (path_root leaf_hash (leaf_index proof) (proof_siblings proof) = root proof).

Section WithEvents.
Context {T : Type} (jcs : T -> result (list byte) string).

(** The leaf digests; the first event that cannot be canonicalized ends the collect. *)
Fixpoint leaf_hashes (events : list T) : result (list B3Hash) AosError :=
  match events with
  | [] => Ok []
  | event :: events' =>
      match jcs event with
      | Err e => Err (Telemetry ("Failed to canonicalize event: " +:+ e))
      | Ok bytes => result_bind (leaf_hashes events') (fun hs => Ok (hash bytes :: hs))
      end
  end.

Definition compute_merkle_root (events : list T) : option (result B3Hash AosError) :=
  match events with
  | [] => Some (Ok (hash empty_merkle_tree))
  | _ =>
      match leaf_hashes events with
      | Err e => Some (Err e)
      | Ok leaves => h ← level_loop (length leaves) leaves; Some (Ok h)
      end
  end.

Definition build_merkle_tree (events : list T) : option (result (option MerkleNode) AosError) :=
  match events with
  | [] => Some (Ok None)
  | _ =>
      match leaf_hashes events with
      | Err e => Some (Err e)
      | Ok leaves => n ← build_tree_recursive (length leaves) leaves; Some (Ok (Some n))
      end
  end.

Definition generate_proof (events : list T) (index : nat) : option (result MerkleProof AosError) :=
  if (length events <=? index)%nat then
    Some (Err (Telemetry ("Event index " +:+ pretty index +:+ " out of bounds ("
                          +:+ pretty (length events) +:+ ")")))
  else
    built ← build_merkle_tree events;
    match built with
    | Err e => Some (Err e)
    | Ok None => Some (Err (Telemetry "Cannot generate proof for empty tree"))
    | Ok (Some tree) =>
        Some (Ok {| leaf_index := index;
                    proof_siblings := reverse (collect_siblings tree index (length events));
                    root := node_hash tree |})
    end.
End WithEvents.

(** ** Trees of [2^k] leaves *)

Lemma next_level_app l1 l2 :
  Nat.even (length l1) = true -> next_level (l1 ++ l2) = next_level l1 ++ next_level l2.
Proof.
  induction l1 as [|x|x y l1 IH] using pair_ind; [done..|]. intros E. simpl in *. by rewrite IH.
Qed.

Lemma pow2_S k : (2 ^ S k = 2 ^ k + 2 ^ k)%nat.
Proof. rewrite Nat.pow_succ_r'. lia. Qed.

Lemma pow2_half k : ((2 ^ S k + 1) / 2 = 2 ^ k)%nat.
Proof.
  rewrite Nat.pow_succ_r', (Nat.mul_comm 2), Nat.div_add_l by lia. change (1 / 2)%nat with 0. lia.
Qed.

Lemma next_level_pow2 k l : length l = (2 ^ S k)%nat -> length (next_level l) = (2 ^ k)%nat.
Proof. intros E. by rewrite next_level_length, E, pow2_half. Qed.

Lemma pow2_pos k : (0 < 2 ^ k)%nat.
Proof. apply Nat.neq_0_lt_0, Nat.pow_nonzero. lia. Qed.

(** The root of a tree of [2^(k+1)] leaves joins the roots of its halves. *)
Lemma root_halves k l1 l2 h1 h2 :
  length l1 = (2 ^ k)%nat -> length l2 = (2 ^ k)%nat ->
  compute_receipt_merkle_root l1 = Some h1 -> compute_receipt_merkle_root l2 = Some h2 ->
  compute_receipt_merkle_root (l1 ++ l2) = Some (node h1 h2).
Proof.
  revert l1 l2. induction k as [|k IH]; intros l1 l2 E1 E2 R1 R2.
  - destruct l1 as [|x [|]], l2 as [|y [|]]; try done. simpl in *. by simplify_eq.
  - pose proof (pow2_pos k). rewrite pow2_S in *.
    rewrite merkle_root_unfold in R1, R2 |- * by (rewrite ?length_app; lia).
    rewrite next_level_app by (rewrite E1; by rewrite Nat.even_add, eqb_reflx).
    apply IH; [apply next_level_pow2..|done|done]; by rewrite pow2_S.
Qed.

Lemma path_root_snoc x i sibs s k :
  length sibs = k ->
  path_root x i (sibs ++ [s])
  = let h := path_root x i sibs in
    if Nat.even (i / 2 ^ k) then node h s else node s h.
Proof.
  revert x i k. induction sibs as [|s' sibs IH]; intros x i k Hk; subst k.
  - cbn [app path_root length]. rewrite Nat.pow_0_r, Nat.div_1_r. done.
  - cbn [app path_root length]. rewrite (IH _ _ (length sibs) eq_refl).
    by rewrite Nat.pow_succ_r', Nat.Div0.div_div.
Qed.

Lemma path_root_index x i j sibs :
  (i mod 2 ^ length sibs = j mod 2 ^ length sibs)%nat -> path_root x i sibs = path_root x j sibs.
Proof.
  revert x i j. induction sibs as [|s sibs IH]; intros x i j E; [done|].
  cbn [length] in E. rewrite Nat.pow_succ_r', !Nat.Div0.mod_mul_r in E.
  pose proof (Nat.mod_upper_bound i 2). pose proof (Nat.mod_upper_bound j 2).
  assert (i mod 2 = j mod 2 /\ (i / 2) mod 2 ^ length sibs = (j / 2) mod 2 ^ length sibs)%nat
    as [E1 E2] by lia.
  cbn [path_root].
  assert (Nat.even i = Nat.even j) as ->.
  { rewrite <- !Nat.negb_odd, <- !Nat.bit0_odd, !Nat.bit0_eqb. by rewrite E1. }
  by apply IH.
Qed.

Lemma build_halves k fuel l t1 t2 :
  length l = (2 ^ S k)%nat ->
  build_tree_recursive fuel (take (2 ^ k) l) = Some t1 ->
  build_tree_recursive fuel (drop (2 ^ k) l) = Some t2 ->
  build_tree_recursive (S fuel) l
  = Some (mkNode (node (node_hash t1) (node_hash t2)) (Some t1) (Some t2)).
Proof.
  intros El B1 B2. pose proof (pow2_pos k).
  assert (exists x y l', l = x :: y :: l') as (x & y & l' & Hl).
  { rewrite pow2_S in El. destruct l as [|x [|y l']]; simpl in El; [lia..|eauto]. }
  cbn [build_tree_recursive]. rewrite El, pow2_half, B1, B2.
  rewrite (proj2 (Nat.ltb_lt _ _)) by (rewrite pow2_S; lia). by rewrite Hl.
Qed.

(** The recursive tree over [2^k] leaves has the level-by-level root, and its
    top-down siblings, reversed, are a path to it. *)
Lemma tree_pow2 k fuel l :
  length l = (2 ^ k)%nat -> (k < fuel)%nat ->
  exists tree, build_tree_recursive fuel l = Some tree
    /\ compute_receipt_merkle_root l = Some (node_hash tree)
    /\ forall i x, l !! i = Some x ->
         length (collect_siblings tree i (2 ^ k)) = k
         /\ path_root x i (reverse (collect_siblings tree i (2 ^ k))) = node_hash tree.
Proof.
  revert fuel l. induction k as [|k IH]; intros [|fuel] l El Hf; try lia.
  { destruct l as [|x [|]]; try done. eexists; split; [done|]. split; [done|].
    intros [|i] y Hy; [|done]. by injection Hy as ->. }
  pose proof (pow2_pos k).
  set (l1 := take (2 ^ k) l). set (l2 := drop (2 ^ k) l).
  assert (length l1 = (2 ^ k)%nat) as E1 by (unfold l1; rewrite length_take, El, pow2_S; lia).
  assert (length l2 = (2 ^ k)%nat) as E2 by (unfold l2; rewrite length_drop, El, pow2_S; lia).
  destruct (IH fuel l1 E1 ltac:(lia)) as (t1 & B1 & R1 & S1).
  destruct (IH fuel l2 E2 ltac:(lia)) as (t2 & B2 & R2 & S2).
  exists (mkNode (node (node_hash t1) (node_hash t2)) (Some t1) (Some t2)). split.
  { by apply (build_halves k). }
  split.
  { rewrite <- (take_drop (2 ^ k) l). by apply (root_halves k). }
  intros i x Hi. cbn [collect_siblings node_hash]. rewrite pow2_half.
  pose proof (lookup_lt_Some _ _ _ Hi) as Hlt. rewrite El, pow2_S in Hlt.
  destruct (Nat.ltb_spec i (2 ^ k)) as [Hik|Hik].
  - destruct (S1 i x) as [L1 P1]; [unfold l1; by rewrite lookup_take_lt|].
    cbn [length]. split; [by rewrite L1|].
    rewrite reverse_cons, (path_root_snoc _ _ _ _ k) by (by rewrite length_reverse).
    rewrite P1, Nat.div_small by done. done.
  - replace (2 ^ S k - 2 ^ k)%nat with (2 ^ k)%nat by (rewrite pow2_S; lia).
    destruct (S2 (i - 2 ^ k)%nat x) as [L2 P2];
      [unfold l2; rewrite lookup_drop; by replace (2 ^ k + (i - 2 ^ k))%nat with i by lia|].
    cbn [length]. split; [by rewrite L2|].
    rewrite reverse_cons, (path_root_snoc _ _ _ _ k) by (by rewrite length_reverse).
    rewrite (path_root_index _ i (i - 2 ^ k)%nat), P2.
    + replace (i / 2 ^ k)%nat with 1; [done|]. apply (Nat.div_unique _ _ _ (i - 2 ^ k)); lia.
    + rewrite length_reverse, L2.
      replace i with ((i - 2 ^ k) + 1 * 2 ^ k)%nat at 1 by lia. by rewrite Nat.Div0.mod_add.
Qed.

Lemma leaf_hashes_length {T} (jcs : T -> result (list byte) string) events leaves :
  leaf_hashes jcs events = Ok leaves -> length leaves = length events.
Proof.
  revert leaves. induction events as [|e events IH]; intros leaves E; simpl in E.
  { by injection E as <-. }
  destruct (jcs e); [|done]. destruct (leaf_hashes jcs events) as [hs|]; [|done].
  simpl in E. injection E as <-. simpl. by rewrite (IH hs).
Qed.

Lemma merkle_root_loop l :
  l <> [] -> level_loop (length l) l = compute_receipt_merkle_root l.
Proof. by destruct l as [|x [|y l]]. Qed.

(** ** Theorems *)

(** For a bundle of [2^k] events that all canonicalize, [generate_proof] gives
    for every index a proof whose root is [compute_merkle_root] of the bundle and
    which [verify_proof] accepts for the event's leaf hash. *)
Theorem telemetry_proofs_verify_pow2 {T} (jcs : T -> result (list byte) string) events leaves k :
  leaf_hashes jcs events = Ok leaves -> length events = (2 ^ k)%nat ->
  exists rt, compute_merkle_root jcs events = Some (Ok rt)
    /\ compute_merkle_root_from_hashes leaves = Some rt
    /\ forall i leaf, leaves !! i = Some leaf ->
         exists proof, generate_proof jcs events i = Some (Ok proof)
           /\ root proof = rt /\ verify_proof leaf proof = true.
Proof.
  intros Hl Hk. pose proof (leaf_hashes_length _ _ _ Hl) as Hlen. pose proof (pow2_pos k).
  destruct (tree_pow2 k (length leaves) leaves) as (tree & Hb & Hr & Hs); [congruence| |].
  { rewrite Hlen, Hk. apply Nat.pow_gt_lin_r. lia. }
  assert (leaves <> []) as Hne by (intros ->; simpl in *; lia).
  destruct events as [|e events0] eqn:He; [simpl in Hk; lia|]. rewrite <- He in *.
  exists (node_hash tree). split; [|split].
  - unfold compute_merkle_root. rewrite Hl, merkle_root_loop, Hr by done. by rewrite He.
  - unfold compute_merkle_root_from_hashes. rewrite merkle_root_loop, Hr by done.
    by destruct leaves.
  - intros i leaf Hi. unfold generate_proof.
    rewrite (proj2 (Nat.leb_gt _ _)) by (rewrite <- Hlen; by eapply lookup_lt_Some).
    assert (build_merkle_tree jcs events = Some (Ok (Some tree))) as ->
      by (unfold build_merkle_tree; rewrite Hl, Hb; by rewrite He).
    eexists. split; [done|]. split; [done|]. apply bool_decide_eq_true. simpl.
    rewrite Hk. by apply Hs.
Qed.

(** The recursive tree splits three leaves two and one, the level-by-level root
    pads the third with itself, and the verifier takes directions from the bits of
    the index: for any three-event bundle the proof generated for the last event is
    rejected by [verify_proof], and its root is not the bundle's root (unless one of
    the digests involved is a hash of itself or of its neighbours, or BLAKE3
    collides on these messages). *)
Theorem telemetry_proof_of_three_rejected {T} (jcs : T -> result (list byte) string) e1 e2 e3 a b c :
  leaf_hashes jcs [e1; e2; e3] = Ok [a; b; c] ->
  c <> node a b -> c <> node c c ->
  collision_free [node_message (node a b) c; node_message c (node a b);
                  node_message (node a b) (node c c)] ->
  exists proof, generate_proof jcs [e1; e2; e3] 2 = Some (Ok proof)
    /\ verify_proof c proof = false
    /\ compute_merkle_root jcs [e1; e2; e3] <> Some (Ok (root proof)).
Proof.
  intros Hl Hab Hcc Hc.
  exists {| leaf_index := 2; proof_siblings := [node a b]; root := node (node a b) c |}.
  unfold generate_proof, build_merkle_tree, compute_merkle_root. rewrite Hl.
  split; [done|]. split.
  - apply bool_decide_eq_false. cbn. intros E. unfold node at 1 3 in E.
    apply (collision_free_inj _ _ _ Hc) in E; [|set_solver..].
    apply as_bytes_app_inj in E as [E _]. done.
  - cbn. intros [= E]. unfold node at 1 4 in E.
    apply (collision_free_inj _ _ _ Hc) in E; [|set_solver..].
    apply as_bytes_app_inj in E as [_ E]. done.
Qed.
End WithHash.

(** ** Examples: events are numbers, written by their decimal text *)

Definition example_jcs (n : nat) : result (list byte) string :=
  Ok (as_bytes_of (pretty n)).

Definition example_leaf (n : nat) : B3Hash :=
  @hash toy_blake3 (as_bytes_of (pretty n)).

Lemma telemetry_proofs_verify_pow2_witness :
  match compute_merkle_root (BL := toy_blake3) example_jcs [1; 2; 3; 4],
        generate_proof (BL := toy_blake3) example_jcs [1; 2; 3; 4] 2 with
  | Some (Ok rt), Some (Ok proof) =>
      root proof = rt /\ verify_proof (BL := toy_blake3) (example_leaf 3) proof = true
  | _, _ => False
  end.
Proof.
  destruct (telemetry_proofs_verify_pow2 (BL := toy_blake3) example_jcs [1; 2; 3; 4]
              [example_leaf 1; example_leaf 2; example_leaf 3; example_leaf 4] 2 eq_refl eq_refl)
    as (rt & E & _ & H).
  destruct (H 2 (example_leaf 3) eq_refl) as (proof & E' & H').
  rewrite E, E'. exact H'.
Defined.

Lemma telemetry_proof_of_three_rejected_witness :
  exists proof, generate_proof (BL := toy_blake3) example_jcs [1; 2; 3] 2 = Some (Ok proof)
    /\ verify_proof (BL := toy_blake3) (example_leaf 3) proof = false
    /\ compute_merkle_root (BL := toy_blake3) example_jcs [1; 2; 3] <> Some (Ok (root proof)).
Proof.
  apply (telemetry_proof_of_three_rejected (BL := toy_blake3) example_jcs 1 2 3
           (example_leaf 1) (example_leaf 2) (example_leaf 3)).
  - reflexivity.
  - apply (bool_decide_unpack _). vm_compute. exact I.
  - apply (bool_decide_unpack _). vm_compute. exact I.
  - apply collision_freeb_sound. vm_compute; reflexivity.
Defined.
End TelemetryMerkle.
