(* ===== verification/AuditChain.v ===== *)
(** * Audit chain verification (adapteros-core/src/audit_chain.rs)

    The per-tenant hash chain of policy decisions: [compute_entry_hash],
    [verify_audit_chain] with its first-failure report, and the per-tenant
    verification. [chain_sequence] is an [i64]; [prev_seq + 1] starts from 0 and
    grows by one per entry, so it cannot overflow on a slice. *)

From stdpp Require Import sorting.
From S2P Require Import Prelude Hashing.

#[local] Open Scope Z_scope.

Module AuditChain.

Record AuditEntry := mkEntry {
  id : string;
  tenant_id : string;
  policy_pack_id : string;
  hook : string;
  decision : string;
  reason : option string;
  request_id : option string;
  user_id : option string;
  resource_type : option string;
  resource_id : option string;
  metadata_json : option string;
  timestamp : string;
  entry_hash : string;
  previous_hash : option string;
  chain_sequence : Z
}.

Record AuditChainResult := mkResult {
  is_valid : bool;
  entries_checked : nat;
  first_invalid_index : option nat;
  first_invalid_sequence : option Z;
  divergence_detected : bool;
  error_message : option string;
  result_tenant_id : option string
}.

Definition success (entries_checked : nat) (tenant_id : option string) : AuditChainResult :=
  {| is_valid := true; entries_checked := entries_checked; first_invalid_index := None;
     first_invalid_sequence := None; divergence_detected := false; error_message := None;
     result_tenant_id := tenant_id |}.

Definition failure (entries_checked first_invalid_index : nat) (first_invalid_sequence : Z)
    (error_message : string) (tenant_id : option string) : AuditChainResult :=
  {| is_valid := false; entries_checked := entries_checked;
     first_invalid_index := Some first_invalid_index;
     first_invalid_sequence := Some first_invalid_sequence; divergence_detected := true;
     error_message := Some error_message; result_tenant_id := tenant_id |}.

(** [as_deref().unwrap_or] of the empty text. *)
Definition or_empty (o : option string) : string :=
  match o with Some s => s | None => EmptyString end.

(** The thirteen fields, joined by [|]. *)
Definition entry_data (e : AuditEntry) : string :=
  id e +:+ "|" +:+ timestamp e +:+ "|" +:+ tenant_id e +:+ "|" +:+ policy_pack_id e +:+ "|"
  +:+ hook e +:+ "|" +:+ decision e +:+ "|" +:+ or_empty (reason e) +:+ "|"
  +:+ or_empty (request_id e) +:+ "|" +:+ or_empty (user_id e) +:+ "|"
  +:+ or_empty (resource_type e) +:+ "|" +:+ or_empty (resource_id e) +:+ "|"
  +:+ or_empty (metadata_json e) +:+ "|" +:+ or_empty (previous_hash e).

Section WithHash.
Context {BL : Blake3} {HX : Hex}.

Definition compute_entry_hash (e : AuditEntry) : B3Hash := hash (as_bytes_of (entry_data e)).

(** The three checks on one entry, in order; [None] lets the loop go on. *)
Definition check_entry (prev_hash : option string) (prev_seq : Z) (e : AuditEntry)
  : option string :=
  let expected_seq := prev_seq + 1 in
  if negb (chain_sequence e =? expected_seq) then
    Some ("Sequence gap: expected " +:+ pretty expected_seq +:+ ", got "
          +:+ pretty (chain_sequence e))
  else
    match
      match prev_hash, previous_hash e with
      | Some expected, Some actual =>
          if bool_decide (expected <> actual)
          then Some ("Previous hash mismatch: expected " +:+ expected +:+ ", got " +:+ actual)
          else None
      | Some expected, None => Some ("Previous hash missing: expected " +:+ expected)
      | None, Some _ => Some "First entry has non-null previous_hash"
      | None, None => None
      end
    with
    | Some msg => Some msg
    | None =>
        let computed_hex := to_hex (compute_entry_hash e) in
        if bool_decide (computed_hex <> entry_hash e)
        then Some ("Entry hash mismatch (tampering detected): computed " +:+ computed_hex
                   +:+ ", stored " +:+ entry_hash e)
        else None
    end.

Fixpoint verify_loop (total : nat) (tenant : option string) (idx : nat)
    (prev_hash : option string) (prev_seq : Z) (entries : list AuditEntry) : AuditChainResult :=
  match entries with
  | [] => success total tenant
  | e :: entries' =>
      match check_entry prev_hash prev_seq e with
      | Some msg => failure (idx + 1) idx (chain_sequence e) msg tenant
      | None => verify_loop total tenant (idx + 1) (Some (entry_hash e)) (chain_sequence e) entries'
      end
  end.

Definition verify_audit_chain (entries : list AuditEntry) : AuditChainResult :=
  match entries with
  | [] => success 0 None
  | e :: _ => verify_loop (length entries) (Some (tenant_id e)) 0 None 0 entries
  end.

(** [sort_by_key(|e| e.chain_sequence)]. *)
Definition sequence_leb (a b : AuditEntry) : bool := chain_sequence a <=? chain_sequence b.

(** The entries of one tenant, in input order. *)
Definition per_tenant (entries : list AuditEntry) : gmap string (list AuditEntry) :=
  fold_left (fun m e => <[tenant_id e := default [] (m !! tenant_id e) ++ [e]]> m) entries ∅.

Definition verify_audit_chains_by_tenant (entries : list AuditEntry)
  : gmap string AuditChainResult :=
  match entries with
  | [] => ∅
  | _ => (fun chain => verify_audit_chain (stable_sort sequence_leb chain)) <$> per_tenant entries
  end.

(** ** What a valid chain is *)

Definition prev_of (entries : list AuditEntry) (i : nat) : option string :=
  match i with O => None | S j => entry_hash <$> entries !! j end.

(** Entry [i] has sequence [i + 1], links to its predecessor and carries its own hash. *)
Definition entry_ok (entries : list AuditEntry) (i : nat) (e : AuditEntry) : Prop :=
  chain_sequence e = Z.of_nat i + 1 /\ previous_hash e = prev_of entries i
  /\ entry_hash e = to_hex (compute_entry_hash e).

Definition valid_chain (entries : list AuditEntry) : Prop :=
  forall i e, entries !! i = Some e -> entry_ok entries i e.

(** ** Lemmas *)

Lemma check_entry_ok ph ps e :
  check_entry ph ps e = None <->
  chain_sequence e = ps + 1 /\ previous_hash e = ph
  /\ entry_hash e = to_hex (compute_entry_hash e).
Proof.
  unfold check_entry. destruct (Z.eqb_spec (chain_sequence e) (ps + 1)); simpl; [|naive_solver].
  destruct ph as [x|], (previous_hash e) as [y|]; try naive_solver;
    repeat case_bool_decide; naive_solver.
Qed.

Lemma check_entry_at pre e rest :
  check_entry (prev_of (pre ++ e :: rest) (length pre)) (Z.of_nat (length pre)) e = None
  <-> entry_ok (pre ++ e :: rest) (length pre) e.
Proof. rewrite check_entry_ok. done. Qed.

(** The loop from a valid prefix: it goes through, or stops at the first bad entry. *)
Lemma verify_loop_spec total t pre rest :
  let entries := pre ++ rest in
  let r := verify_loop total t (length pre) (prev_of entries (length pre))
             (Z.of_nat (length pre)) rest in
  (r = success total t
   /\ forall i e, (length pre <= i)%nat -> entries !! i = Some e -> entry_ok entries i e)
  \/ (exists i e msg, r = failure (i + 1) i (chain_sequence e) msg t
        /\ entries !! i = Some e /\ ~ entry_ok entries i e
        /\ forall j e', (length pre <= j < i)%nat -> entries !! j = Some e' -> entry_ok entries j e').
Proof.
  revert pre. induction rest as [|e rest IH]; intros pre entries r; subst r.
  - left. split; [done|]. intros i e Hi He. apply lookup_lt_Some in He.
    unfold entries in He. rewrite app_nil_r in He. lia.
  - assert (entries !! length pre = Some e) as He by (by apply list_lookup_middle).
    cbn [verify_loop]. destruct (check_entry _ _ e) as [msg|] eqn:Hc.
    + right. exists (length pre), e, msg. split; [done|]. split; [done|].
      split; [|intros; lia]. intros Hok. apply check_entry_at in Hok. unfold entries in Hc. congruence.
    + assert (entry_ok entries (length pre) e) as Hok by (by apply check_entry_at).
      pose proof (IH (pre ++ [e])) as IH'. cbv zeta in IH'.
      rewrite <- app_assoc, length_app in IH'. cbn [app length] in IH'. fold entries in IH'.
      assert (prev_of entries (length pre + 1) = Some (entry_hash e)) as Hp
        by (rewrite Nat.add_1_r; simpl; by rewrite He).
      assert (Z.of_nat (length pre + 1) = chain_sequence e) as Hs
        by (destruct Hok as [-> _]; lia).
      rewrite Hp, Hs in IH'.
      assert (forall j e', j = length pre -> entries !! j = Some e' -> entry_ok entries j e') as Hhere.
      { intros j e' -> Hj. congruence. }
      destruct IH' as [[E Hall]|(i & e' & msg & E & Hi & Hbad & Hall)]; [left|right].
      * split; [done|]. intros i e' Hi He'.
        destruct (decide (i = length pre)); [by apply Hhere|apply Hall; [lia|done]].
      * exists i, e', msg. split; [done|]. split; [done|]. split; [done|]. intros j e'' Hj Hj'.
        destruct (decide (j = length pre)); [by apply Hhere|apply Hall; [lia|done]].
Qed.

Lemma verify_loop_divergence total t idx ph ps entries :
  let r := verify_loop total t idx ph ps entries in divergence_detected r = negb (is_valid r).
Proof.
  revert idx ph ps. induction entries as [|e entries IH]; intros; [done|].
  subst r. simpl. destruct (check_entry ph ps e); [done|apply IH].
Qed.

(** The verdict on a chain. *)
Lemma verify_spec entries :
  let r := verify_audit_chain entries in
  (is_valid r = true /\ entries_checked r = length entries /\ first_invalid_index r = None
   /\ valid_chain entries)
  \/ (exists i e, is_valid r = false /\ divergence_detected r = true
        /\ first_invalid_index r = Some i /\ entries !! i = Some e
        /\ first_invalid_sequence r = Some (chain_sequence e)
        /\ ~ entry_ok entries i e
        /\ forall j e', (j < i)%nat -> entries !! j = Some e' -> entry_ok entries j e').
Proof.
  destruct entries as [|e0 es]; [left; by repeat split|].
  destruct (verify_loop_spec (length (e0 :: es)) (Some (tenant_id e0)) [] (e0 :: es))
    as [[E Hall]|(i & e & msg & E & Hi & Hbad & Hall)]; [left|right];
    cbv zeta; unfold verify_audit_chain;
    cbn [length app prev_of] in *; change (Z.of_nat 0) with 0 in E; rewrite E.
  - do 3 (split; [done|]). intros i e. apply Hall. lia.
  - exists i, e. do 6 (split; [done|]). intros j e' Hj. apply Hall. lia.
Qed.

Lemma valid_iff entries :
  is_valid (verify_audit_chain entries) = true <-> valid_chain entries.
Proof.
  destruct (verify_spec entries) as [(Hv & _ & _ & Hok)|(i & e & Hv & _ & _ & Hi & _ & Hbad & _)].
  - done.
  - rewrite Hv. split; [done|]. intros Hc. by destruct Hbad; apply Hc.
Qed.

Lemma string_app_length a b : String.length (a +:+ b) = (String.length a + String.length b)%nat.
Proof. induction a as [|c a IH]; simpl; auto. Qed.

Lemma string_app_suffix_inj a b x y :
  String.length x = String.length y -> a +:+ x = b +:+ y -> x = y.
Proof.
  intros Hl. revert b. induction a as [|c a IH]; intros [|d b] E; simpl in E.
  - done.
  - apply (f_equal String.length) in E. rewrite ?string_app_length in E. simpl in E.
    rewrite ?string_app_length in E. exfalso. lia.
  - apply (f_equal String.length) in E. rewrite ?string_app_length in E. simpl in E.
    rewrite ?string_app_length in E. exfalso. lia.
  - injection E as _ E. by apply (IH b).
Qed.

Lemma string_app_assoc a b c : (a +:+ b) +:+ c = a +:+ (b +:+ c).
Proof. induction a as [|x a IH]; [done|]. by apply (f_equal (String x)). Qed.

(** The hashed text ends in the predecessor's hash. *)
Lemma entry_data_previous e :
  exists pre, entry_data e = pre +:+ or_empty (previous_hash e).
Proof. eexists. unfold entry_data. rewrite <- !string_app_assoc. done. Qed.

Lemma entry_data_inj_previous e e' :
  String.length (or_empty (previous_hash e)) = String.length (or_empty (previous_hash e')) ->
  entry_data e = entry_data e' -> or_empty (previous_hash e) = or_empty (previous_hash e').
Proof.
  intros Hl. destruct (entry_data_previous e) as [p ->], (entry_data_previous e') as [p' ->].
  by apply string_app_suffix_inj.
Qed.

Definition chain_messages (entries : list AuditEntry) : list (list byte) :=
  (fun e => as_bytes_of (entry_data e)) <$> entries.

(** Equal hashes at a position give equal texts there and equal hashes before it. *)
Lemma chains_agree_step `{!HexLaws HX} c c' i e e' :
  valid_chain c -> valid_chain c' -> collision_free (chain_messages c ++ chain_messages c') ->
  c !! i = Some e -> c' !! i = Some e' -> entry_hash e = entry_hash e' ->
  entry_data e = entry_data e' /\ prev_of c i = prev_of c' i.
Proof.
  intros Hc Hc' Hcf He He' Eh.
  destruct (Hc _ _ He) as (_ & Hp & Hh), (Hc' _ _ He') as (_ & Hp' & Hh').
  assert (entry_data e = entry_data e') as Ed.
  { apply as_bytes_of_inj. eapply (collision_free_inj _ _ _ Hcf).
    - apply elem_of_app. left. apply list_elem_of_fmap. eauto using list_elem_of_lookup_2.
    - apply elem_of_app. right. apply list_elem_of_fmap. eauto using list_elem_of_lookup_2.
    - change (compute_entry_hash e = compute_entry_hash e'). apply to_hex_inj. congruence. }
  split; [done|]. destruct i as [|j]; [done|].
  destruct (lookup_lt_is_Some_2 c j) as [d Hd]; [apply lookup_lt_Some in He; lia|].
  destruct (lookup_lt_is_Some_2 c' j) as [d' Hd']; [apply lookup_lt_Some in He'; lia|].
  simpl in *. rewrite Hd, Hd' in *. simpl in *.
  destruct (Hc _ _ Hd) as (_ & _ & Hx), (Hc' _ _ Hd') as (_ & _ & Hx').
  apply entry_data_inj_previous in Ed; rewrite Hp, Hp' in *; simpl in *; [congruence|].
  by rewrite Hx, Hx', !to_hex_length.
Qed.

Lemma chains_agree `{!HexLaws HX} c c' k :
  valid_chain c -> valid_chain c' -> collision_free (chain_messages c ++ chain_messages c') ->
  length c = length c' ->
  forall e e', c !! k = Some e -> c' !! k = Some e' -> entry_hash e = entry_hash e' ->
  forall i d d', (i <= k)%nat -> c !! i = Some d -> c' !! i = Some d' ->
  entry_data d = entry_data d' /\ entry_hash d = entry_hash d'.
Proof.
  intros Hc Hc' Hcf Hl. induction k as [|k IH]; intros e e' He He' Eh i d d' Hi Hd Hd'.
  - assert (i = 0)%nat as -> by lia. simplify_eq. split; [|done].
    by apply (chains_agree_step c c' 0).
  - destruct (chains_agree_step c c' (S k) e e') as [Ed Ep]; try done.
    destruct (decide (i = S k)) as [->|]; [by simplify_eq|].
    destruct (lookup_lt_is_Some_2 c k) as [f Hf]; [apply lookup_lt_Some in He; lia|].
    destruct (lookup_lt_is_Some_2 c' k) as [f' Hf']; [apply lookup_lt_Some in He'; lia|].
    simpl in Ep. rewrite Hf, Hf' in Ep. injection Ep as Ep.
    apply (IH f f' Hf Hf' Ep i); [lia|done..].
Qed.

(** ** Per tenant *)

Definition of_tenant (t : string) (e : AuditEntry) : bool := bool_decide (tenant_id e = t).

Lemma per_tenant_lookup entries t :
  per_tenant entries !! t
  = match List.filter (of_tenant t) entries with [] => None | l => Some l end.
Proof.
  unfold per_tenant. induction entries as [|e entries IH] using rev_ind; [done|].
  rewrite fold_left_app, List.filter_app. simpl. unfold of_tenant at 2. case_bool_decide as E.
  - subst t. rewrite lookup_insert_eq, IH. f_equal.
    by destruct (List.filter _ entries).
  - rewrite lookup_insert_ne, IH, app_nil_r by done. done.
Qed.

Lemma valid_chain_sorted c :
  valid_chain c -> StronglySorted (fun a b => sequence_leb a b = true) c.
Proof.
  intros Hc. cut (forall k, StronglySorted (fun a b => sequence_leb a b = true) (drop k c)).
  { intros H. by apply (H 0%nat). }
  intros k. remember (length c - k)%nat as n eqn:En. revert k En.
  induction n as [|n IH]; intros k En.
  { rewrite drop_ge by lia. constructor. }
  destruct (lookup_lt_is_Some_2 c k ltac:(lia)) as [e He].
  rewrite (drop_S c e k He). constructor; [apply IH; lia|].
  apply Forall_lookup. intros j e' Hj. rewrite lookup_drop in Hj.
  apply Z.leb_le. destruct (Hc _ _ He) as [-> _], (Hc _ _ Hj) as [-> _]. lia.
Qed.

Lemma valid_chain_sort c l :
  valid_chain c -> l ≡ₚ c -> stable_sort sequence_leb l = c.
Proof.
  intros Hc Hp. eapply (StronglySorted_unique_strong (fun a b => sequence_leb a b = true)).
  - intros a b Ha Hb. rewrite stable_sort_perm, Hp in Ha.
    apply list_elem_of_lookup in Ha as [i Ha], Hb as [j Hb].
    unfold sequence_leb. rewrite !Z.leb_le. intros H1 H2.
    destruct (Hc _ _ Ha) as [E1 _], (Hc _ _ Hb) as [E2 _].
    assert (i = j) as -> by lia. congruence.
  - apply stable_sort_sorted; unfold sequence_leb; intros; breflect; lia.
  - by apply valid_chain_sorted.
  - by rewrite stable_sort_perm.
Qed.

(** ** Rewriting an entry under its hash *)

(** The same text with the field boundaries moved: the old decision becomes part of
    the hook, the start of the reason becomes the decision. *)
Definition shift_fields (e : AuditEntry) (new_decision new_reason : string) : AuditEntry :=
  {| id := id e; tenant_id := tenant_id e; policy_pack_id := policy_pack_id e;
     hook := hook e +:+ "|" +:+ decision e; decision := new_decision;
     reason := Some new_reason; request_id := request_id e; user_id := user_id e;
     resource_type := resource_type e; resource_id := resource_id e;
     metadata_json := metadata_json e; timestamp := timestamp e; entry_hash := entry_hash e;
     previous_hash := previous_hash e; chain_sequence := chain_sequence e |}.

Lemma shift_fields_data e d r :
  reason e = Some (d +:+ "|" +:+ r) -> entry_data (shift_fields e d r) = entry_data e.
Proof.
  intros Hr. unfold entry_data. rewrite Hr. simpl. by rewrite !string_app_assoc.
Qed.

Lemma prev_of_insert c i e e' j :
  c !! i = Some e -> entry_hash e' = entry_hash e -> prev_of (<[i:=e']> c) j = prev_of c j.
Proof.
  intros Hi Hh. destruct j as [|j]; [done|]. simpl.
  destruct (decide (i = j)) as [->|]; [|by rewrite list_lookup_insert_ne].
  rewrite list_lookup_insert_eq by (by eapply lookup_lt_Some). rewrite Hi. simpl. by rewrite Hh.
Qed.

(** ** Theorems *)

(** The verdict is exact: a chain verifies iff every entry [i] has sequence
    [i + 1], links to the hash of its predecessor (the first to none) and carries the
    hash of its own fields; otherwise the report names the first entry that fails. *)
Theorem audit_chain_verdict entries :
  let r := verify_audit_chain entries in
  (is_valid r = true <-> valid_chain entries)
  /\ divergence_detected r = negb (is_valid r)
  /\ match first_invalid_index r with
     | None => is_valid r = true /\ entries_checked r = length entries
     | Some i => exists e, is_valid r = false /\ entries !! i = Some e
         /\ first_invalid_sequence r = Some (chain_sequence e) /\ ~ entry_ok entries i e
         /\ forall j e', (j < i)%nat -> entries !! j = Some e' -> entry_ok entries j e'
     end.
Proof.
  cbv zeta. split; [apply valid_iff|]. split.
  - destruct entries as [|e es]; [done|]. apply verify_loop_divergence.
  - destruct (verify_spec entries) as [(-> & -> & -> & _)|(i & e & -> & _ & -> & He & Hs & Hb & Hj)].
    + done.
    + eauto 10.
Qed.

(** Tamper evidence: two chains that verify, of the same length and with the
    same last entry hash, agree on the hashed fields and the hash of every entry,
    provided BLAKE3 does not collide on the texts of the two chains. *)
Theorem last_hash_commits_history `{!HexLaws HX} c c' e e' :
  is_valid (verify_audit_chain c) = true -> is_valid (verify_audit_chain c') = true ->
  length c = length c' -> last c = Some e -> last c' = Some e' -> entry_hash e = entry_hash e' ->
  collision_free (chain_messages c ++ chain_messages c') ->
  map entry_data c = map entry_data c' /\ map entry_hash c = map entry_hash c'
  /\ map chain_sequence c = map chain_sequence c'.
Proof.
  rewrite !valid_iff. intros Hc Hc' Hl He He' Eh Hcf.
  rewrite last_lookup in He, He'. rewrite <- Hl in He'.
  assert (forall i d d', c !! i = Some d -> c' !! i = Some d' ->
            entry_data d = entry_data d' /\ entry_hash d = entry_hash d') as Hag.
  { intros i d d' Hd Hd'. pose proof (lookup_lt_Some _ _ _ Hd).
    apply (chains_agree c c' (pred (length c)) Hc Hc' Hcf Hl e e' He He' Eh i); [lia|done..]. }
  assert (forall {B} (f : AuditEntry -> B), (forall i d d', c !! i = Some d -> c' !! i = Some d' ->
            f d = f d') -> map f c = map f c') as Hmap.
  { intros B f Hf. apply list_eq_same_length with (n := length c); rewrite ?length_map; [done..|].
    intros i x y Hi. rewrite !list_lookup_fmap.
    destruct (c !! i) eqn:E, (c' !! i) eqn:E'; simpl; try done. intros [= <-] [= <-]. eauto. }
  split; [|split]; apply Hmap; intros i d d' Hd Hd'; [by eapply Hag..|].
  destruct (Hc _ _ Hd) as [-> _], (Hc' _ _ Hd') as [-> _]. done.
Qed.

(** Grouping by tenant: whatever the order of the entries and however the
    tenants are interleaved, a tenant whose entries form a valid chain is reported
    valid with that many entries, and a tenant without entries is not reported. *)
Theorem tenant_chain_found entries t chain :
  List.filter (of_tenant t) entries ≡ₚ chain -> valid_chain chain ->
  verify_audit_chains_by_tenant entries !! t
  = match chain with [] => None | _ => Some (success (length chain) (Some t)) end.
Proof.
  intros Hp Hv. unfold verify_audit_chains_by_tenant.
  destruct entries as [|e0 es].
  { simpl in Hp. apply Permutation_nil_l in Hp as <-. done. }
  rewrite lookup_fmap, per_tenant_lookup.
  destruct (List.filter _ _) as [|x l] eqn:Hf.
  { apply Permutation_nil_l in Hp as <-. done. }
  cbn [fmap option_fmap option_map]. rewrite (valid_chain_sort chain (x :: l)) by done.
  destruct chain as [|c0 cs]; [by apply Permutation_nil_r in Hp|]. f_equal.
  pose proof (verify_loop_spec (length (c0 :: cs)) (Some (tenant_id c0)) [] (c0 :: cs)) as Hs.
  cbv zeta in Hs. cbn [length app prev_of] in Hs. change (Z.of_nat 0) with 0 in Hs.
  assert (tenant_id c0 = t) as Ht.
  { assert (c0 ∈ x :: l) as Hin by (rewrite Hp; set_solver). rewrite <- Hf in Hin.
    apply list_elem_of_In, List.filter_In in Hin as [_ Hin]. by apply bool_decide_eq_true in Hin. }
  destruct Hs as [[E _]|(i & e & msg & _ & Hi & Hbad & _)].
  - cbn [verify_audit_chain length]. by rewrite E, Ht.
  - destruct Hbad. by apply Hv.
Qed.

(** The join with [|] does not separate the fields: in any chain that verifies,
    an entry whose reason starts with [d|] can be replaced by one with decision [d]
    (an [allow] for a [deny]), another hook and another reason, and the chain still
    verifies, whatever the hash function. *)
Theorem shifted_fields_still_verify c i e d r :
  is_valid (verify_audit_chain c) = true -> c !! i = Some e ->
  reason e = Some (d +:+ "|" +:+ r) ->
  let c' := <[i := shift_fields e d r]> c in
  is_valid (verify_audit_chain c') = true
  /\ (decision <$> c' !! i) = Some d /\ entry_hash <$> last c' = entry_hash <$> last c.
Proof.
  rewrite valid_iff. intros Hc Hi Hr c'. rewrite valid_iff. split; [|split].
  - intros j x Hj. unfold entry_ok. unfold c'. rewrite (prev_of_insert c i e) by done.
    unfold c' in Hj. destruct (decide (i = j)) as [->|].
    + rewrite list_lookup_insert_eq in Hj by (by eapply lookup_lt_Some). injection Hj as <-.
      unfold compute_entry_hash. rewrite shift_fields_data by done. apply (Hc _ _ Hi).
    + rewrite list_lookup_insert_ne in Hj by done. by apply Hc.
  - unfold c'. by rewrite list_lookup_insert_eq by (by eapply lookup_lt_Some).
  - unfold c'. rewrite !last_lookup, length_insert.
    destruct (decide (i = pred (length c))) as [<-|].
    + rewrite list_lookup_insert_eq by (by eapply lookup_lt_Some). by rewrite Hi.
    + by rewrite list_lookup_insert_ne.
Qed.
End WithHash.

(** ** Examples *)

Definition signed (prev : option string) (seq : Z) (tenant decision reason : string) : AuditEntry :=
  let e h := {| id := pretty seq; tenant_id := tenant; policy_pack_id := "egress";
     hook := "adapter.register"; decision := decision; reason := Some reason;
     request_id := None; user_id := None; resource_type := None; resource_id := None;
     metadata_json := None; timestamp := "2026-01-01"; entry_hash := h;
     previous_hash := prev; chain_sequence := seq |} in
  e (@to_hex hex_lower (@compute_entry_hash toy_blake3 (e EmptyString))).

Definition example1 : AuditEntry := signed None 1 "t" "deny" "allow|quota".
Definition example2 : AuditEntry := signed (Some (entry_hash example1)) 2 "t" "allow" "ok".
Definition other1 : AuditEntry := signed None 1 "u" "allow" "ok".

Lemma example_valid : is_valid (@verify_audit_chain toy_blake3 hex_lower [example1; example2]) = true.
Proof. vm_compute. reflexivity. Qed.

Lemma last_hash_commits_history_witness :
  map entry_data [example1; example2] = map entry_data [shift_fields example1 "allow" "quota"; example2]
  /\ map entry_hash [example1; example2]
     = map entry_hash [shift_fields example1 "allow" "quota"; example2]
  /\ map chain_sequence [example1; example2]
     = map chain_sequence [shift_fields example1 "allow" "quota"; example2].
Proof.
  apply (@last_hash_commits_history toy_blake3 hex_lower hex_lower_laws
           [example1; example2] [shift_fields example1 "allow" "quota"; example2] example2 example2).
  - apply example_valid.
  - vm_compute; reflexivity.
  - reflexivity.
  - reflexivity.
  - reflexivity.
  - reflexivity.
  - apply collision_freeb_sound. vm_compute; reflexivity.
Defined.

Lemma tenant_chain_found_witness :
  @verify_audit_chains_by_tenant toy_blake3 hex_lower [example2; other1; example1] !! "t"
  = Some (success 2 (Some "t")).
Proof.
  apply (@tenant_chain_found toy_blake3 hex_lower [example2; other1; example1] "t"
           [example1; example2]).
  - apply Permutation_swap.
  - apply valid_iff. apply example_valid.
Defined.

Lemma shifted_fields_still_verify_witness :
  let c' := [shift_fields example1 "allow" "quota"; example2] in
  is_valid (@verify_audit_chain toy_blake3 hex_lower c') = true
  /\ (decision <$> c' !! 0%nat) = Some "allow"
  /\ entry_hash <$> last c' = entry_hash <$> last [example1; example2].
Proof.
  apply (@shifted_fields_still_verify toy_blake3 hex_lower [example1; example2] 0 example1
           "allow" "quota").
  - apply example_valid.
  - reflexivity.
  - reflexivity.
Defined.
End AuditChain.
