(* ===== verification/Lifecycle.v ===== *)
(** * Adapter lifecycle states (adapteros-core/src/lifecycle.rs, first half)

    The state machine of adapters and stacks, its tier-specific transitions, the
    textual forms, and semantic versions. [str::to_lowercase] is modelled on ASCII
    letters: no other character lowercases to a letter of a state name. An
    arithmetic overflow of a version bump is [None]. *)

From Stdlib Require Import Ascii.
From S2P Require Import Prelude.

Module Lifecycle.

Inductive LifecycleState := Draft | Training | Ready | Active | Deprecated | Retired | Failed.

#[export] Instance LifecycleState_eq_dec : EqDecision LifecycleState.
Proof. solve_decision. Defined.

Inductive LifecycleError := LDeterminismViolation (from to : LifecycleState).

Definition is_loadable (s : LifecycleState) : bool :=
  match s with Ready | Active | Deprecated => true | _ => false end.

Definition is_mutable (s : LifecycleState) : bool :=
  match s with Draft | Training => true | _ => false end.

Definition is_terminal (s : LifecycleState) : bool :=
  match s with Retired | Failed => true | _ => false end.

Definition allows_alias_swap (s : LifecycleState) (allow_training : bool) : bool :=
  (match s with Ready | Active => true | _ => false end)
  || (allow_training && bool_decide (s = Training)).

Definition is_determinism_compatible (s : LifecycleState) : bool :=
  match s with Ready | Active => true | _ => false end.

Definition next (s : LifecycleState) : option LifecycleState :=
  match s with
  | Draft => Some Training
  | Training => Some Ready
  | Ready => Some Active
  | Active => Some Deprecated
  | Deprecated => Some Retired
  | Retired => None
  | Failed => None
  end.

Definition valid_predecessors (s : LifecycleState) : list LifecycleState :=
  match s with
  | Draft => []
  | Training => [Draft]
  | Ready => [Training; Active]
  | Active => [Ready]
  | Deprecated => [Active]
  | Retired => [Deprecated; Active]
  | Failed => [Draft; Training; Ready; Active; Deprecated]
  end.

Definition is_valid_for_tier (s : LifecycleState) (tier : string) : bool :=
  match s with
  | Deprecated => negb (bool_decide (tier = "ephemeral"))
  | _ => true
  end.

Record LifecycleTransition := mkTransition { from : LifecycleState; to : LifecycleState }.

Definition is_valid (t : LifecycleTransition) : bool :=
  if bool_decide (from t = to t) then true
  else if is_terminal (from t) then false
  else bool_decide (from t ∈ valid_predecessors (to t)).

Definition can_transition_to (s new_state : LifecycleState) : bool :=
  is_valid (mkTransition s new_state).

Definition can_transition_to_for_tier (s new_state : LifecycleState) (tier : string) : bool :=
  if negb (is_valid_for_tier new_state tier) then false
  else if bool_decide (tier = "ephemeral") then
    match s, new_state with
    | Active, Retired => true
    | _, Deprecated => false
    | _, _ => can_transition_to s new_state
    end
  else
    match s, new_state with
    | Active, Retired => false
    | _, _ => can_transition_to s new_state
    end.

(** *** Text *)

Definition as_str (s : LifecycleState) : string :=
  match s with
  | Draft => "draft"
  | Training => "training"
  | Ready => "ready"
  | Active => "active"
  | Deprecated => "deprecated"
  | Retired => "retired"
  | Failed => "failed"
  end.

Definition ascii_lower (c : Ascii.ascii) : Ascii.ascii :=
  let n := Ascii.nat_of_ascii c in
  if ((65 <=? n) && (n <=? 90))%nat then Ascii.ascii_of_nat (n + 32) else c.

Fixpoint to_lowercase (s : string) : string :=
  match s with
  | EmptyString => EmptyString
  | String c s => String (ascii_lower c) (to_lowercase s)
  end.

Definition all_states : list LifecycleState :=
  [Draft; Training; Ready; Active; Deprecated; Retired; Failed].

(** The seven literals are tried in turn. *)
Definition from_str (s : string) : result LifecycleState AosError :=
  let l := to_lowercase s in
  if bool_decide (l = "draft") then Ok Draft
  else if bool_decide (l = "training") then Ok Training
  else if bool_decide (l = "ready") then Ok Ready
  else if bool_decide (l = "active") then Ok Active
  else if bool_decide (l = "deprecated") then Ok Deprecated
  else if bool_decide (l = "retired") then Ok Retired
  else if bool_decide (l = "failed") then Ok Failed
  else Err (Validation ("Invalid lifecycle state: " +:+ s
    +:+ ". Must be one of: draft, training, ready, active, deprecated, retired, failed")).

(** *** Transitions as values *)

Definition validate_deterministic_transition (from to : LifecycleState)
    (requires_determinism : bool) : result unit LifecycleError :=
  if requires_determinism && negb (is_determinism_compatible to)
  then Err (LDeterminismViolation from to) else Ok tt.

Definition validate (t : LifecycleTransition) : result unit AosError :=
  if is_valid t then Ok tt
  else Err (PolicyViolation ("Invalid lifecycle transition: " +:+ as_str (from t) +:+ " → "
    +:+ as_str (to t) +:+ ". Valid transitions: draft→training→ready→active→deprecated→retired, active→retired (ephemeral), active→ready, any non-terminal→failed")).

Definition validation_error (t : LifecycleTransition) : option string :=
  if is_valid t then None
  else Some ("Cannot transition from " +:+ as_str (from t) +:+ " to " +:+ as_str (to t)
    +:+ ". Valid next state: "
    +:+ match from t with
        | Active => "deprecated (or retired for ephemeral tier)"
        | s => match next s with Some n => as_str n | None => "none (terminal state)" end
        end).

Definition validate_for_tier (t : LifecycleTransition) (tier : string) : result unit AosError :=
  if negb (can_transition_to_for_tier (from t) (to t) tier)
  then Err (PolicyViolation ("Transition from '" +:+ as_str (from t) +:+ "' to '"
              +:+ as_str (to t) +:+ "' is not allowed for tier '" +:+ tier +:+ "'"))
  else Ok tt.

(** ** Semantic versions *)

Record SemanticVersion := mkVersion { major : Z; minor : Z; patch : Z }.

Definition u32_inc (z : Z) : option Z := if (z <? u32_max)%Z then Some (z + 1)%Z else None.

Definition bump_major (v : SemanticVersion) : option SemanticVersion :=
  m ← u32_inc (major v); Some (mkVersion m 0 0).

Definition bump_minor (v : SemanticVersion) : option SemanticVersion :=
  m ← u32_inc (minor v); Some (mkVersion (major v) m 0).

Definition bump_patch (v : SemanticVersion) : option SemanticVersion :=
  p ← u32_inc (patch v); Some (mkVersion (major v) (minor v) p).

(** [str::split('.')]: always at least one piece. *)
Fixpoint split_dot (s : string) : list string :=
  match s with
  | EmptyString => [EmptyString]
  | String c s' =>
      if bool_decide (c = "."%char) then EmptyString :: split_dot s'
      else match split_dot s' with
           | p :: ps => String c p :: ps
           | [] => [String c EmptyString]
           end
  end.

Definition digit_of (c : Ascii.ascii) : option Z :=
  let n := Z.of_N (Ascii.N_of_ascii c) in
  if ((48 <=? n) && (n <=? 57))%Z then Some (n - 48)%Z else None.

(** The digits after [acc]; [None] on another character or on overflow. *)
Fixpoint parse_digits (acc : Z) (s : string) : option Z :=
  match s with
  | EmptyString => Some acc
  | String c s' =>
      d ← digit_of c;
      let acc' := (acc * 10 + d)%Z in
      if (acc' <=? u32_max)%Z then parse_digits acc' s' else None
  end.

(** [str::parse::<u32>]: one or more digits, an optional plus sign before them. *)
Definition parse_u32 (s : string) : option Z :=
  match s with
  | EmptyString => None
  | String c s' =>
      if bool_decide (c = "+"%char)
      then (match s' with EmptyString => None | _ => parse_digits 0 s' end)
      else parse_digits 0 s
  end.

Definition parse (s : string) : result SemanticVersion AosError :=
  match split_dot s with
  | [a; b; c] =>
      match parse_u32 a with
      | None => Err (Validation ("Invalid major version number: " +:+ a))
      | Some major =>
          match parse_u32 b with
          | None => Err (Validation ("Invalid minor version number: " +:+ b))
          | Some minor =>
              match parse_u32 c with
              | None => Err (Validation ("Invalid patch version number: " +:+ c))
              | Some patch => Ok (mkVersion major minor patch)
              end
          end
      end
  | _ => Err (Validation ("Invalid semantic version: " +:+ s
                          +:+ ". Expected format: major.minor.patch"))
  end.

Definition fmt_version (v : SemanticVersion) : string :=
  pretty (major v) +:+ "." +:+ pretty (minor v) +:+ "." +:+ pretty (patch v).

(** The derived order: fields from left to right. *)
Definition version_lt (v w : SemanticVersion) : Prop :=
  (major v < major w \/ major v = major w /\
    (minor v < minor w \/ minor v = minor w /\ patch v < patch w))%Z.

Definition wf_version (v : SemanticVersion) : Prop :=
  is_u32 (major v) /\ is_u32 (minor v) /\ is_u32 (patch v).

(** ** Paths through the machine *)

(** The states a lifecycle of one tier goes through after [s]. *)
Inductive path (tier : string) : LifecycleState -> list LifecycleState -> Prop :=
| path_nil s : path tier s []
| path_cons s s' l :
    can_transition_to_for_tier s s' tier = true -> path tier s' l -> path tier s (s' :: l).

(** ** Lemmas *)

Lemma tier_step_base s s' tier :
  can_transition_to_for_tier s s' tier = true -> can_transition_to s s' = true.
Proof.
  unfold can_transition_to_for_tier. destruct (negb _); [done|].
  case_bool_decide; destruct s, s'; vm_compute; done.
Qed.

Lemma step_terminal s s' : is_terminal s = true -> can_transition_to s s' = true -> s' = s.
Proof. destruct s, s'; vm_compute; done. Qed.

Lemma no_deprecated_for_ephemeral s : can_transition_to_for_tier s Deprecated "ephemeral" = false.
Proof. by destruct s. Qed.

Lemma to_retired s tier :
  tier <> "ephemeral" -> can_transition_to_for_tier s Retired tier = true ->
  s = Deprecated \/ s = Retired.
Proof.
  intros Ht. unfold can_transition_to_for_tier. simpl. rewrite bool_decide_false by done.
  destruct s; vm_compute; intros; auto; done.
Qed.

Lemma state_names_inj s s' : as_str s = as_str s' -> s = s'.
Proof. destruct s, s'; simpl; intros; congruence. Qed.

Lemma from_str_ok s l : from_str l = Ok s <-> to_lowercase l = as_str s.
Proof.
  unfold from_str. split.
  - repeat case_bool_decide; intros [= <-]; done.
  - intros ->. by destruct s.
Qed.

(** *** Decimal texts *)

Lemma digit_of_pretty n : (n < 10)%N -> digit_of (pretty_N_char n) = Some (Z.of_N n).
Proof.
  intros H.
  assert (Forall (fun k => digit_of (pretty_N_char (N.of_nat k)) = Some (Z.of_nat k)) (seq 0 10))
    as Hall by (repeat constructor).
  rewrite Forall_forall in Hall. specialize (Hall (N.to_nat n)).
  rewrite N2Nat.id in Hall. rewrite Hall; [f_equal; lia|]. apply elem_of_seq. lia.
Qed.

Lemma parse_digits_go n s :
  (Z.of_N n <= u32_max)%Z -> parse_digits 0 (pretty_N_go n s) = parse_digits (Z.of_N n) s.
Proof.
  revert s. induction (N.lt_wf_0 n) as [n _ IH]. intros s Hn.
  destruct (decide (n = 0)%N) as [->|Hn0]; [by rewrite pretty_N_go_0|].
  rewrite pretty_N_go_step by lia.
  assert (Z.of_N (n / 10) * 10 + Z.of_N (n mod 10) = Z.of_N n)%Z as E.
  { rewrite N2Z.inj_div, N2Z.inj_mod. pose proof (Z.div_mod (Z.of_N n) 10 ltac:(lia)).
    change (Z.of_N 10) with 10%Z. lia. }
  assert (Z.of_N (n / 10) <= u32_max)%Z as Hd.
  { pose proof (N2Z.is_nonneg (n / 10)). pose proof (N2Z.is_nonneg (n mod 10)).
    revert E Hn. generalize dependent (Z.of_N (n / 10)). generalize dependent (Z.of_N (n mod 10)).
    intros. lia. }
  rewrite (IH _ (N.div_lt n 10 ltac:(lia) ltac:(lia)) _ Hd). cbn [parse_digits].
  rewrite digit_of_pretty by (apply N.mod_lt; lia). cbn [mbind option_bind].
  rewrite E, (proj2 (Z.leb_le _ _)) by done. done.
Qed.

Lemma pretty_Z_N z : (0 <= z)%Z -> pretty z = pretty (Z.to_N z).
Proof. by destruct z. Qed.

Definition no_dot (s : string) : Prop := forall a b, s <> a +:+ String "." b.

Lemma split_dot_no_dot s : no_dot s -> split_dot s = [s].
Proof.
  induction s as [|c s IH]; intros Hs; [done|]. cbn [split_dot].
  rewrite bool_decide_false by (intros ->; by apply (Hs EmptyString s)).
  rewrite IH; [done|]. intros a b ->. by apply (Hs (String c a) b).
Qed.

Lemma split_dot_app a s : no_dot a -> split_dot (a +:+ String "." s) = a :: split_dot s.
Proof.
  induction a as [|c a IH]; intros Ha; [done|].
  change (String c a +:+ String "." s) with (String c (a +:+ String "." s)). cbn [split_dot].
  rewrite bool_decide_false by (intros ->; by apply (Ha EmptyString a)).
  rewrite IH; [done|]. intros x y ->. by apply (Ha (String c x) y).
Qed.

(** Parsable numbers hold no dot. *)
Lemma parse_digits_no_dot s acc : parse_digits acc s <> None -> no_dot s.
Proof.
  revert acc. induction s as [|c s IH]; intros acc Hs a b E; [by destruct a|].
  cbn [parse_digits] in Hs. destruct a as [|x a].
  - injection E as -> ->. by destruct Hs.
  - injection E as -> ->. destruct (digit_of x); [|done]. simpl in Hs.
    destruct (_ <=? _)%Z; [|done]. by apply (IH _ Hs a b).
Qed.

Lemma parse_digits_pretty z : is_u32 z -> parse_digits 0 (pretty z) = Some z.
Proof.
  intros Hz. rewrite pretty_Z_N by (destruct Hz; lia). unfold pretty, pretty_N.
  destruct (decide _) as [E|E].
  - assert (z = 0)%Z as -> by (destruct Hz; lia). done.
  - rewrite parse_digits_go by solve_range. simpl. f_equal. destruct Hz; lia.
Qed.

Lemma pretty_no_dot z : is_u32 z -> no_dot (pretty z).
Proof. intros Hz. apply (parse_digits_no_dot _ 0). by rewrite parse_digits_pretty. Qed.

Lemma parse_u32_pretty z : is_u32 z -> parse_u32 (pretty z) = Some z.
Proof.
  intros Hz. pose proof (parse_digits_pretty z Hz) as Hp.
  destruct (pretty z) as [|c s] eqn:E.
  - injection Hp as <-. done.
  - unfold parse_u32. rewrite bool_decide_false; [done|]. intros ->. done.
Qed.

Lemma path_terminal tier s l : path tier s l -> is_terminal s = true -> Forall (fun x => x = s) l.
Proof.
  induction 1 as [|s s' l Hs Hp IH]; intros Ht; [constructor|].
  apply tier_step_base, step_terminal in Hs as ->; [|done]. constructor; auto.
Qed.

Lemma path_retired tier s l :
  tier <> "ephemeral" -> path tier s l -> s <> Retired -> Retired ∈ l -> Deprecated ∈ s :: l.
Proof.
  intros Ht. induction 1 as [|s s' l Hs Hp IH]; intros Hne Hin; [set_solver|].
  destruct (decide (s' = Retired)) as [->|Hs'].
  - apply to_retired in Hs as [-> | ->]; [set_solver|done|done].
  - apply list_elem_of_further, IH; [done|set_solver].
Qed.

Lemma path_ephemeral s l : path "ephemeral" s l -> Deprecated ∉ l.
Proof.
  induction 1 as [|s s' l Hs Hp IH]; [set_solver|]. apply not_elem_of_cons. split; [|done].
  intros <-. by rewrite no_deprecated_for_ephemeral in Hs.
Qed.

(** ** Theorems *)

(** Every lifecycle of a tier, however long: once retired or failed it stays so;
    outside the ephemeral tier it is never retired without having been deprecated;
    an ephemeral adapter never becomes deprecated; and from each non-terminal state
    it can still fail, and from [Draft] reach [Active] and then [Retired]. *)
Theorem lifecycle_paths tier s l :
  path tier s l ->
  (is_terminal s = true -> Forall (fun x => x = s) l)
  /\ (tier <> "ephemeral" -> s <> Retired -> Retired ∈ l -> Deprecated ∈ s :: l)
  /\ (tier = "ephemeral" -> Deprecated ∉ l)
  /\ (is_terminal s = false -> path tier s [Failed])
  /\ (path tier Draft [Training; Ready; Active; Retired] \/
      path tier Draft [Training; Ready; Active; Deprecated; Retired]).
Proof.
  intros Hp. split; [by apply (path_terminal tier)|].
  split; [intros; by apply (path_retired tier)|].
  split; [intros ->; by apply (path_ephemeral s)|]. split.
  - intros Ht. apply path_cons; [|constructor].
    unfold can_transition_to_for_tier. simpl. case_bool_decide; by destruct s.
  - destruct (decide (tier = "ephemeral")) as [->|Ht]; [left|right].
    + repeat (apply path_cons; [reflexivity|]). constructor.
    + repeat (apply path_cons;
        [unfold can_transition_to_for_tier; simpl; by rewrite ?bool_decide_false|]). constructor.
Qed.

Lemma lifecycle_paths_witness :
  Deprecated ∈ [Active; Ready; Active; Deprecated; Retired].
Proof.
  apply (lifecycle_paths "warm" Active [Ready; Active; Deprecated; Retired]).
  - repeat (apply path_cons; [reflexivity|]). constructor.
  - discriminate.
  - discriminate.
  - repeat constructor.
Defined.

(** Lifecycle states and their names are one to one: parsing a printed state
    gives it back, parsing accepts exactly the names in any letter case, and
    everything else is a [Validation] error. *)
Theorem state_text_roundtrip :
  (forall s, from_str (as_str s) = Ok s)
  /\ (forall s l, from_str l = Ok s <-> to_lowercase l = as_str s)
  /\ (forall l, (forall s, to_lowercase l <> as_str s) -> exists msg, from_str l = Err (Validation msg)).
Proof.
  split; [by intros []|]. split; [apply from_str_ok|].
  intros l Hl. destruct (from_str l) as [s|e] eqn:E.
  - apply from_str_ok in E. by destruct (Hl s).
  - revert E. unfold from_str. repeat case_bool_decide; intros [= <-]. eauto.
Qed.

(** Semantic versions: parsing the printed form of a version gives it back, and
    each bump that does not overflow its [u32] moves to a larger well-formed
    version in the derived order. *)
Theorem version_roundtrip v :
  wf_version v ->
  parse (fmt_version v) = Ok v
  /\ (forall w, w ∈ [bump_major v; bump_minor v; bump_patch v] ->
        match w with Some w => wf_version w /\ version_lt v w | None => True end).
Proof.
  intros (Hm & Hn & Hp). split.
  - unfold parse, fmt_version.
    change (pretty (major v) +:+ "." +:+ pretty (minor v) +:+ "." +:+ pretty (patch v)) with
      (pretty (major v) +:+ String "." (pretty (minor v) +:+ String "." (pretty (patch v)))).
    rewrite !split_dot_app, split_dot_no_dot by (by apply pretty_no_dot).
    rewrite !parse_u32_pretty by done. by destruct v.
  - assert (forall z z', is_u32 z -> u32_inc z = Some z' -> is_u32 z' /\ (z < z')%Z) as Hinc.
    { unfold u32_inc. intros z z' Hz. destruct (Z.ltb_spec z u32_max); [|done].
      intros [= <-]. solve_range. }
    assert (is_u32 0) by solve_range.
    intros w Hw. unfold bump_major, bump_minor, bump_patch in Hw.
    repeat rewrite elem_of_cons in Hw. destruct Hw as [-> | [-> | [-> | Hw]]]; [..|by apply elem_of_nil in Hw];
      destruct (u32_inc _) eqn:E; simpl; try done;
      (apply Hinc in E as [? ?]; [|done]); unfold wf_version, version_lt; simpl;
      refine (conj (conj _ (conj _ _)) _); try done; lia.
Qed.

Lemma version_roundtrip_witness :
  parse (fmt_version (mkVersion 1 20 4294967295)) = Ok (mkVersion 1 20 4294967295).
Proof. apply (version_roundtrip (mkVersion 1 20 4294967295)). unfold wf_version; simpl. solve_range. Defined.

End Lifecycle.
