(* ===== verification/LifecycleRules.v ===== *)
(** * Lifecycle rules (adapteros-core/src/lifecycle.rs, second half)

    Constraints on transitions, the validator that applies them to a JSON context,
    and the entry points for contexts, activation and alias swaps. [Value] is
    [serde_json::Value] (its map without insertion order); debug logging of missing
    fields has no effect. *)

From S2P Require Import Prelude Lifecycle.

Module LifecycleRules.
Import Lifecycle.

(** ** JSON values *)

(** [serde_json::Number]: a float is kept as its bits, no rule looks inside. *)
Inductive Number := PosInt (n : Z) | NegInt (n : Z) | Float (bits : Z).

Inductive Value :=
| Null
| VBool (b : bool)
| VNumber (n : Number)
| VString (s : string)
| VArray (l : list Value)
| VObject (m : gmap string Value).

Definition get (v : Value) (key : string) : option Value :=
  match v with VObject m => m !! key | _ => None end.

Definition as_str_value (v : Value) : option string :=
  match v with VString s => Some s | _ => None end.

Definition as_bool (v : Value) : option bool :=
  match v with VBool b => Some b | _ => None end.

Definition as_u64 (v : Value) : option Z :=
  match v with VNumber (PosInt n) => Some n | _ => None end.

Definition as_array (v : Value) : option (list Value) :=
  match v with VArray l => Some l | _ => None end.

(** ** Validation contexts *)

Inductive PreflightStatus := PPending | PPassed | PFailed | PSkipped.

#[export] Instance PreflightStatus_eq_dec : EqDecision PreflightStatus.
Proof. solve_decision. Defined.

Definition preflight_text (s : PreflightStatus) : string :=
  match s with
  | PPending => "pending" | PPassed => "passed" | PFailed => "failed" | PSkipped => "skipped"
  end.

Record ValidationContext := mkContext {
  tier : option string;
  preflight_status : PreflightStatus;
  bypass_preflight : bool;
  has_artifact : bool;
  has_training_evidence : bool;
  active_references : Z;
  conflicting_adapters : list string;
  initiated_by : option string;
  reason : option string;
  is_hotfix : bool
}.

Definition context_new : ValidationContext :=
  mkContext None PPending false false false 0 [] None None false.

Definition with_tier (t : string) (c : ValidationContext) : ValidationContext :=
  let (_, p, b, a, e, r, l, i, s, h) := c in mkContext (Some t) p b a e r l i s h.
Definition with_preflight_status (p : PreflightStatus) (c : ValidationContext) :=
  let (t, _, b, a, e, r, l, i, s, h) := c in mkContext t p b a e r l i s h.
Definition with_bypass_preflight (b : bool) (c : ValidationContext) : ValidationContext :=
  let (t, p, _, a, e, r, l, i, s, h) := c in mkContext t p b a e r l i s h.
Definition with_artifact (a : bool) (c : ValidationContext) : ValidationContext :=
  let (t, p, b, _, e, r, l, i, s, h) := c in mkContext t p b a e r l i s h.
Definition with_training_evidence (e : bool) (c : ValidationContext) : ValidationContext :=
  let (t, p, b, a, _, r, l, i, s, h) := c in mkContext t p b a e r l i s h.
Definition with_active_references (r : Z) (c : ValidationContext) : ValidationContext :=
  let (t, p, b, a, e, _, l, i, s, h) := c in mkContext t p b a e r l i s h.
Definition with_conflicting_adapters (l : list string) (c : ValidationContext) :=
  let (t, p, b, a, e, r, _, i, s, h) := c in mkContext t p b a e r l i s h.
Definition with_initiated_by (i : string) (c : ValidationContext) : ValidationContext :=
  let (t, p, b, a, e, r, l, _, s, h) := c in mkContext t p b a e r l (Some i) s h.
Definition with_reason (s : string) (c : ValidationContext) : ValidationContext :=
  let (t, p, b, a, e, r, l, i, _, h) := c in mkContext t p b a e r l i (Some s) h.
Definition with_hotfix (h : bool) (c : ValidationContext) : ValidationContext :=
  let (t, p, b, a, e, r, l, i, s, _) := c in mkContext t p b a e r l i s h.

Definition preflight_satisfied (c : ValidationContext) : bool :=
  if bypass_preflight c || is_hotfix c then true
  else bool_decide (preflight_status c = PPassed).

(** ** Constraints *)

Inductive ConstraintType :=
| ArtifactRequired
| TrainingEvidenceRequired
| NoActiveReferences
| SingleActivePerRepo
| TierSpecific
| PreflightRequired
| Custom (rule_name : string).

Definition constraint_type_str (t : ConstraintType) : string :=
  match t with
  | ArtifactRequired => "artifact_required"
  | TrainingEvidenceRequired => "training_evidence_required"
  | NoActiveReferences => "no_active_references"
  | SingleActivePerRepo => "single_active_per_repo"
  | TierSpecific => "tier_specific"
  | PreflightRequired => "preflight_required"
  | Custom name => name
  end.

Record LifecycleConstraint := mkConstraint {
  id : string;
  name : string;
  description : option string;
  constraint_type : ConstraintType;
  priority : Z;
  enabled : bool
}.

Definition artifact_required : LifecycleConstraint :=
  mkConstraint "builtin:artifact_required" "Artifact Required"
    (Some "Requires .aos artifact (path, hash, content hash) before entering ready/active/deprecated/retired")
    ArtifactRequired 100 true.

Definition training_evidence_required : LifecycleConstraint :=
  mkConstraint "builtin:training_evidence_required" "Training Evidence Required"
    (Some "Requires training snapshot/metrics evidence before entering active state")
    TrainingEvidenceRequired 90 true.

Definition single_active_per_repo : LifecycleConstraint :=
  mkConstraint "builtin:single_active_per_repo" "Single Active Per Repository"
    (Some "Only one adapter can be active per repository/branch combination")
    SingleActivePerRepo 80 true.

Definition tier_specific : LifecycleConstraint :=
  mkConstraint "builtin:tier_specific" "Tier-Specific Rules"
    (Some "Enforces tier-specific transition rules (e.g., ephemeral cannot be deprecated)")
    TierSpecific 110 true.

Definition preflight_required : LifecycleConstraint :=
  mkConstraint "builtin:preflight_required" "Preflight Checks Required"
    (Some "Requires preflight checks to pass before activation") PreflightRequired 95 true.

Definition no_active_references : LifecycleConstraint :=
  mkConstraint "builtin:no_active_references" "No Active References"
    (Some "Warns when deprecating/retiring adapters that have active stack references")
    NoActiveReferences 70 true.

Definition custom (i n rule_name : string) : LifecycleConstraint :=
  mkConstraint i n None (Custom rule_name) 0 true.

Definition with_priority (p : Z) (c : LifecycleConstraint) : LifecycleConstraint :=
  mkConstraint (id c) (name c) (description c) (constraint_type c) p (enabled c).
Definition with_description (d : string) (c : LifecycleConstraint) : LifecycleConstraint :=
  mkConstraint (id c) (name c) (Some d) (constraint_type c) (priority c) (enabled c).
Definition with_enabled (e : bool) (c : LifecycleConstraint) : LifecycleConstraint :=
  mkConstraint (id c) (name c) (description c) (constraint_type c) (priority c) e.

Definition applies_to_transition (c : LifecycleConstraint) (from to : LifecycleState) : bool :=
  if negb (enabled c) then false
  else
    match constraint_type c with
    | ArtifactRequired =>
        match to with Ready | Active | Deprecated | Retired => true | _ => false end
    | TrainingEvidenceRequired => match to with Active => true | _ => false end
    | SingleActivePerRepo => match to with Active => true | _ => false end
    | NoActiveReferences => match to with Deprecated | Retired => true | _ => false end
    | TierSpecific => true
    | PreflightRequired => match from, to with Ready, Active => true | _, _ => false end
    | Custom _ => true
    end.

(** ** Violations and results *)

Inductive ViolationSeverity := SError | SWarning | SInfo.

Record ConstraintViolation := mkViolation {
  constraint_id : string;
  constraint_name : string;
  message : string;
  severity : ViolationSeverity;
  context : option Value
}.

Definition error (i n m : string) : ConstraintViolation := mkViolation i n m SError None.
Definition warning (i n m : string) : ConstraintViolation := mkViolation i n m SWarning None.
Definition with_context (v : Value) (c : ConstraintViolation) : ConstraintViolation :=
  mkViolation (constraint_id c) (constraint_name c) (message c) (severity c) (Some v).

Definition is_blocking (v : ConstraintViolation) : bool :=
  match severity v with SError => true | _ => false end.

Record ConstraintValidationResult := mkValidation {
  valid : bool;
  violations : list ConstraintViolation;
  evaluated_constraints : list string
}.

Definition result_valid : ConstraintValidationResult := mkValidation true [] [].
Definition result_invalid (v : ConstraintViolation) : ConstraintValidationResult :=
  mkValidation false [v] [].
Definition with_evaluated (ids : list string) (r : ConstraintValidationResult) :=
  mkValidation (valid r) (violations r) ids.

Definition merge (r other : ConstraintValidationResult) : ConstraintValidationResult :=
  let vs := violations r ++ violations other in
  mkValidation (valid r && negb (existsb is_blocking vs)) vs
    (evaluated_constraints r ++ evaluated_constraints other).

Definition errors (r : ConstraintValidationResult) : list ConstraintViolation :=
  List.filter is_blocking (violations r).

Definition warnings (r : ConstraintValidationResult) : list ConstraintViolation :=
  List.filter (fun v => match severity v with SWarning => true | _ => false end) (violations r).

Definition to_error (r : ConstraintValidationResult) : option AosError :=
  if valid r then None
  else Some (PolicyViolation (String.concat "; " (map message (errors r)))).

(** ** The validator *)

Definition LifecycleValidator : Type := list LifecycleConstraint.

(** [sort_by(|a, b| b.priority.cmp(&a.priority))]. *)
Definition priority_geb (a b : LifecycleConstraint) : bool := (priority b <=? priority a)%Z.

Definition with_constraint (c : LifecycleConstraint) (v : LifecycleValidator) : LifecycleValidator :=
  stable_sort priority_geb (v ++ [c]).

Definition with_constraints (cs : list LifecycleConstraint) (v : LifecycleValidator)
  : LifecycleValidator := stable_sort priority_geb (v ++ cs).

Definition with_defaults : LifecycleValidator :=
  with_constraint no_active_references
    (with_constraint preflight_required
      (with_constraint single_active_per_repo
        (with_constraint training_evidence_required
          (with_constraint artifact_required
            (with_constraint tier_specific []))))).

Definition get_str (v : Value) (key : string) : option string := get v key ≫= as_str_value.
Definition get_bool (v : Value) (key : string) : bool := default false (get v key ≫= as_bool).

Definition evaluate_tier_constraint (c : LifecycleConstraint) (from to : LifecycleState)
    (ctx : Value) : option ConstraintViolation :=
  let tier := default "persistent" (get_str ctx "tier") in
  if negb (can_transition_to_for_tier from to tier)
  then Some (error (id c) (name c)
    ("Transition from '" +:+ as_str from +:+ "' to '" +:+ as_str to
     +:+ "' is not allowed for tier '" +:+ tier +:+ "'"))
  else None.

Definition evaluate_artifact_constraint (c : LifecycleConstraint) (ctx : Value)
  : option ConstraintViolation :=
  if negb (get_bool ctx "has_artifact")
  then Some (error (id c) (name c)
    "Immutable .aos artifact (path, hash, content hash) required before entering ready/active/deprecated/retired")
  else None.

Definition evaluate_training_evidence_constraint (c : LifecycleConstraint) (ctx : Value)
  : option ConstraintViolation :=
  if negb (get_bool ctx "has_training_evidence")
  then Some (error (id c) (name c) "Active state requires a training snapshot/metrics evidence")
  else None.

Definition evaluate_single_active_constraint (c : LifecycleConstraint) (ctx : Value)
  : option ConstraintViolation :=
  let conflicting := default [] (get ctx "conflicting_adapters" ≫= as_array) in
  if (0 <? length conflicting)%nat then
    let adapters := omap as_str_value conflicting in
    Some (with_context (VObject {[ "conflicting_adapters" := VArray (map VString adapters) ]})
      (error (id c) (name c)
        ("Active state requires uniqueness per repo/branch; adapter(s) "
         +:+ String.concat ", " adapters +:+ " already active")))
  else None.

Definition evaluate_no_references_constraint (c : LifecycleConstraint) (ctx : Value)
  : option ConstraintViolation :=
  let active_refs := default 0%Z (get ctx "active_references" ≫= as_u64) in
  if (0 <? active_refs)%Z then
    Some (with_context (VObject {[ "active_references" := VNumber (PosInt active_refs) ]})
      (warning (id c) (name c)
        (pretty active_refs +:+ " active stack(s) reference this adapter. Consider updating them before deprecating.")))
  else None.

Definition evaluate_preflight_constraint (c : LifecycleConstraint) (ctx : Value)
  : option ConstraintViolation :=
  if get_bool ctx "bypass_preflight" || get_bool ctx "is_hotfix" then None
  else
    let status := default "pending" (get_str ctx "preflight_status") in
    if negb (bool_decide (status = "passed"))
    then Some (error (id c) (name c)
      ("Preflight checks must pass before activation. Current status: " +:+ status))
    else None.

Definition evaluate_constraint (c : LifecycleConstraint) (from to : LifecycleState) (ctx : Value)
  : option ConstraintViolation :=
  match constraint_type c with
  | TierSpecific => evaluate_tier_constraint c from to ctx
  | ArtifactRequired => evaluate_artifact_constraint c ctx
  | TrainingEvidenceRequired => evaluate_training_evidence_constraint c ctx
  | SingleActivePerRepo => evaluate_single_active_constraint c ctx
  | NoActiveReferences => evaluate_no_references_constraint c ctx
  | PreflightRequired => evaluate_preflight_constraint c ctx
  | Custom _ => None
  end.

(** One pass of the constraint loop over the partial result. *)
Definition apply_constraint (from to : LifecycleState) (ctx : Value)
    (r : ConstraintValidationResult) (c : LifecycleConstraint) : ConstraintValidationResult :=
  if negb (applies_to_transition c from to) then r
  else
    let evaluated := evaluated_constraints r ++ [id c] in
    match evaluate_constraint c from to ctx with
    | None => mkValidation (valid r) (violations r) evaluated
    | Some v =>
        let vs := violations r ++ [v] in
        mkValidation (if existsb is_blocking vs then false else valid r) vs evaluated
    end.

Definition transition_valid (from to : LifecycleState) (ctx : Value) : bool :=
  match get_str ctx "tier" with
  | Some tier => can_transition_to_for_tier from to tier
  | None => is_valid (mkTransition from to)
  end.

Definition validate_transition (v : LifecycleValidator) (from to : LifecycleState) (ctx : Value)
  : ConstraintValidationResult :=
  if negb (transition_valid from to ctx) then
    let detail :=
      match get_str ctx "tier" with
      | Some tier => "Invalid transition: " +:+ as_str from +:+ " -> " +:+ as_str to
                     +:+ " for tier '" +:+ tier +:+ "'"
      | None => "Invalid transition: " +:+ as_str from +:+ " -> " +:+ as_str to +:+ ". "
                +:+ default EmptyString (validation_error (mkTransition from to))
      end in
    result_invalid (error "builtin:state_machine" "State Machine" detail)
  else fold_left (apply_constraint from to ctx) v result_valid.

Definition validate_transition_for_tier (v : LifecycleValidator) (from to : LifecycleState)
    (tier : string) (ctx : Value) : ConstraintValidationResult :=
  validate_transition v from to
    (match ctx with VObject m => VObject (<["tier" := VString tier]> m) | _ => ctx end).

Definition validate_with_constraints (t : LifecycleTransition) (cs : list LifecycleConstraint)
    (ctx : Value) : ConstraintValidationResult :=
  validate_transition (with_constraints cs []) (from t) (to t) ctx.

Definition apply_lifecycle_constraints (from to : LifecycleState) (ctx : Value)
    (cs : list LifecycleConstraint) : ConstraintValidationResult :=
  validate_transition (with_constraints cs []) from to ctx.

Definition apply_default_constraints (from to : LifecycleState) (ctx : Value)
  : ConstraintValidationResult := validate_transition with_defaults from to ctx.

(** ** Entry points *)

Record RuleViolation := mkRule { rule : string; rule_message : string; bypassable : bool }.

(** The JSON object built from a context. *)
Definition context_json (c : ValidationContext) : Value :=
  VObject (<["conflicting_adapters" := VArray (map VString (conflicting_adapters c))]>
   (<["active_references" := VNumber (PosInt (active_references c))]>
   (<["has_training_evidence" := VBool (has_training_evidence c)]>
   (<["has_artifact" := VBool (has_artifact c)]>
   (<["is_hotfix" := VBool (is_hotfix c)]>
   (<["bypass_preflight" := VBool (bypass_preflight c)]>
   (<["preflight_status" := VString (preflight_text (preflight_status c))]>
   (<["tier" := VString (default "warm" (tier c))]> ∅)))))))).

Definition rule_of (constraint_id : string) : string :=
  if bool_decide (constraint_id = "builtin:state_machine")
     || bool_decide (constraint_id = "builtin:tier_specific") then "state_transition"
  else if bool_decide (constraint_id = "builtin:artifact_required") then "artifact_required"
  else if bool_decide (constraint_id = "builtin:training_evidence_required")
  then "training_evidence_required"
  else if bool_decide (constraint_id = "builtin:single_active_per_repo")
  then "single_active_per_repo"
  else if bool_decide (constraint_id = "builtin:preflight_required") then "preflight_required"
  else if bool_decide (constraint_id = "builtin:no_active_references")
  then "no_active_references"
  else constraint_id.

Definition validate_transition_with_context (from to : LifecycleState) (c : ValidationContext)
  : result unit (list RuleViolation) :=
  let r := validate_transition with_defaults from to (context_json c) in
  if valid r then Ok tt
  else Err (map (fun v => mkRule (rule_of (constraint_id v)) (message v)
                    (bool_decide (constraint_id v = "builtin:preflight_required"))) (errors r)).

Definition can_activate (current : LifecycleState) (c : ValidationContext)
  : result unit (list RuleViolation) := validate_transition_with_context current Active c.

Definition validate_alias_swap (current : LifecycleState) (allow_training : bool)
    (c : ValidationContext) : result unit (list RuleViolation) :=
  let target := if allow_training && bool_decide (current = Training) then Ready else Active in
  validate_transition_with_context current target c.

(** ** Lemmas *)

(** What a constraint reports on a transition. *)
Definition raised (from to : LifecycleState) (ctx : Value) (c : LifecycleConstraint)
  : option ConstraintViolation :=
  if applies_to_transition c from to then evaluate_constraint c from to ctx else None.

(** A result is consistent when its flag says whether a violation blocks. *)
Definition consistent (r : ConstraintValidationResult) : Prop :=
  valid r = negb (existsb is_blocking (violations r)).

Lemma apply_constraint_spec from to ctx r c :
  consistent r ->
  let r' := apply_constraint from to ctx r c in
  consistent r' /\ violations r' = violations r ++ option_list (raised from to ctx c)
  /\ evaluated_constraints r'
     = evaluated_constraints r ++ (if applies_to_transition c from to then [id c] else []).
Proof.
  unfold consistent, apply_constraint, raised. intros Hr.
  destruct (applies_to_transition c from to); simpl; [|by rewrite !app_nil_r].
  destruct (evaluate_constraint c from to ctx) as [v|]; simpl; [|by rewrite app_nil_r].
  split; [|done]. rewrite existsb_app in *. simpl in *. rewrite Hr.
  by destruct (existsb _ (violations r)), (is_blocking v).
Qed.

Lemma fold_constraints_spec from to ctx cs r :
  consistent r ->
  let r' := fold_left (apply_constraint from to ctx) cs r in
  consistent r' /\ violations r' = violations r ++ omap (raised from to ctx) cs
  /\ evaluated_constraints r' = evaluated_constraints r
       ++ map id (List.filter (fun c => applies_to_transition c from to) cs).
Proof.
  revert r. induction cs as [|c cs IH]; intros r Hr; simpl; [by rewrite !app_nil_r|].
  destruct (apply_constraint_spec from to ctx r c Hr) as (Hc & Hv & He).
  destruct (IH _ Hc) as (Hc' & -> & ->). split; [done|]. rewrite Hv, He, <- !app_assoc.
  split; f_equal.
  - by destruct (raised from to ctx c).
  - by destruct (applies_to_transition c from to).
Qed.

Lemma validator_spec v from to ctx :
  transition_valid from to ctx = true ->
  let r := validate_transition v from to ctx in
  consistent r /\ violations r = omap (raised from to ctx) v
  /\ evaluated_constraints r
     = map id (List.filter (fun c => applies_to_transition c from to) v).
Proof.
  intros Ht. unfold validate_transition. rewrite Ht. simpl.
  by apply (fold_constraints_spec from to ctx v result_valid).
Qed.

Lemma validator_consistent v from to ctx : consistent (validate_transition v from to ctx).
Proof.
  destruct (transition_valid from to ctx) eqn:Ht.
  - by apply validator_spec.
  - unfold validate_transition. rewrite Ht. done.
Qed.

Lemma no_blocking_iff {A} (f : A -> option ConstraintViolation) l :
  existsb is_blocking (omap f l) = false
  <-> Forall (fun c => match f c with Some v => is_blocking v = false | None => True end) l.
Proof.
  induction l as [|c l IH]; simpl; [by split|]. rewrite Forall_cons, <- IH.
  destruct (f c); simpl; [rewrite orb_false_iff|]; tauto.
Qed.

Lemma validator_valid_iff v from to ctx :
  valid (validate_transition v from to ctx) = true
  <-> transition_valid from to ctx = true
      /\ Forall (fun c => match raised from to ctx c with
                          | Some v => is_blocking v = false | None => True end) v.
Proof.
  destruct (transition_valid from to ctx) eqn:Ht.
  - destruct (validator_spec v from to ctx Ht) as (-> & -> & _).
    rewrite negb_true_iff, no_blocking_iff. tauto.
  - unfold validate_transition. rewrite Ht. simpl. split; [done|by intros [? _]].
Qed.

Lemma errors_nil_iff r : consistent r -> valid r = true <-> errors r = [].
Proof.
  unfold consistent, errors. intros ->. rewrite negb_true_iff.
  induction (violations r) as [|v vs IH]; simpl; [by split|].
  destruct (is_blocking v); simpl; [by split|done].
Qed.

Lemma default_constraints :
  with_defaults = [tier_specific; artifact_required; preflight_required;
                   training_evidence_required; single_active_per_repo; no_active_references].
Proof. reflexivity. Qed.

Lemma context_tier c : get_str (context_json c) "tier" = Some (default "warm" (tier c)).
Proof. reflexivity. Qed.
Lemma context_bool c :
  get_bool (context_json c) "has_artifact" = has_artifact c
  /\ get_bool (context_json c) "has_training_evidence" = has_training_evidence c
  /\ get_bool (context_json c) "bypass_preflight" = bypass_preflight c
  /\ get_bool (context_json c) "is_hotfix" = is_hotfix c.
Proof. repeat split. Qed.
Lemma context_status c :
  get_str (context_json c) "preflight_status" = Some (preflight_text (preflight_status c)).
Proof. reflexivity. Qed.
Lemma context_conflicts c :
  get (context_json c) "conflicting_adapters" = Some (VArray (map VString (conflicting_adapters c))).
Proof. reflexivity. Qed.

(** The constraint reports nothing that blocks. *)
Definition passes (from to : LifecycleState) (ctx : Value) (c : LifecycleConstraint) : Prop :=
  match raised from to ctx c with Some v => is_blocking v = false | None => True end.

Lemma preflight_text_passed s : preflight_text s = "passed" <-> s = PPassed.
Proof. by destruct s. Qed.

Lemma passes_tier from to c :
  passes from to (context_json c) tier_specific
  <-> can_transition_to_for_tier from to (default "warm" (tier c)) = true.
Proof.
  pose proof (context_tier c) as Ht. revert Ht. generalize (context_json c). intros ctx Ht.
  unfold passes, raised, evaluate_constraint, evaluate_tier_constraint.
  cbn [applies_to_transition enabled tier_specific constraint_type negb]. rewrite Ht.
  cbn [default from_option]. by destruct (can_transition_to_for_tier _ _ _).
Qed.

Lemma passes_artifact from to c :
  passes from to (context_json c) artifact_required
  <-> (is_loadable to = true \/ to = Retired -> has_artifact c = true).
Proof.
  destruct (context_bool c) as (Ha & _). revert Ha. generalize (context_json c). intros ctx Ha.
  unfold passes, raised, applies_to_transition, evaluate_constraint, evaluate_artifact_constraint.
  rewrite Ha. generalize (has_artifact c). clear. intros b.
  destruct to, b; cbn; intuition congruence.
Qed.

Lemma passes_training from to c :
  passes from to (context_json c) training_evidence_required
  <-> (to = Active -> has_training_evidence c = true).
Proof.
  destruct (context_bool c) as (_ & Ht & _). revert Ht. generalize (context_json c). intros ctx Ht.
  unfold passes, raised, applies_to_transition, evaluate_constraint,
    evaluate_training_evidence_constraint.
  rewrite Ht. generalize (has_training_evidence c). clear. intros b.
  destruct to, b; cbn; intuition congruence.
Qed.

Lemma passes_single from to c :
  passes from to (context_json c) single_active_per_repo
  <-> (to = Active -> conflicting_adapters c = []).
Proof.
  pose proof (context_conflicts c) as Hc. revert Hc. generalize (context_json c). intros ctx Hc.
  unfold passes, raised, applies_to_transition, evaluate_constraint, evaluate_single_active_constraint.
  rewrite Hc. generalize (conflicting_adapters c). clear. intros l.
  destruct to, l; cbn; intuition congruence.
Qed.

Lemma passes_preflight from to c :
  passes from to (context_json c) preflight_required
  <-> (from = Ready /\ to = Active -> preflight_satisfied c = true).
Proof.
  destruct (context_bool c) as (_ & _ & Hb & Hh). pose proof (context_status c) as Hs.
  revert Hb Hh Hs. generalize (context_json c). intros ctx Hb Hh Hs.
  unfold passes, raised, applies_to_transition, evaluate_constraint,
    evaluate_preflight_constraint, preflight_satisfied.
  rewrite Hb, Hh, Hs. generalize (preflight_status c) (bypass_preflight c || is_hotfix c).
  clear. intros st b. destruct from, to, b, st; vm_compute; intuition congruence.
Qed.

Lemma passes_no_references from to c : passes from to (context_json c) no_active_references.
Proof.
  generalize (context_json c). intros ctx.
  unfold passes, raised. destruct (applies_to_transition _ _ _); [|done].
  unfold evaluate_constraint, evaluate_no_references_constraint.
  cbn [constraint_type no_active_references]. by destruct (0 <? _)%Z.
Qed.

(** The rules as one condition on states and context. *)
Definition transition_allowed (from to : LifecycleState) (c : ValidationContext) : Prop :=
  can_transition_to_for_tier from to (default "warm" (tier c)) = true
  /\ (is_loadable to = true \/ to = Retired -> has_artifact c = true)
  /\ (to = Active -> has_training_evidence c = true /\ conflicting_adapters c = [])
  /\ (from = Ready /\ to = Active -> preflight_satisfied c = true).

Lemma context_rules from to c :
  validate_transition_with_context from to c = Ok tt <-> transition_allowed from to c.
Proof.
  unfold validate_transition_with_context. cbv zeta.
  assert (valid (validate_transition with_defaults from to (context_json c)) = true
          <-> transition_allowed from to c) as Hv.
  { rewrite validator_valid_iff, default_constraints. unfold transition_valid. rewrite context_tier.
    fold (passes from to (context_json c)). rewrite !Forall_cons.
    rewrite passes_tier, passes_artifact, passes_training, passes_single, passes_preflight.
    pose proof (passes_no_references from to c). pose proof (Forall_nil_2 (passes from to (context_json c))).
    unfold transition_allowed. tauto. }
  destruct (valid _) eqn:E; rewrite <- Hv; [tauto|]. split; intros; done.
Qed.

Lemma context_rejected from to c :
  ~ transition_allowed from to c ->
  exists vs, validate_transition_with_context from to c = Err vs /\ vs <> [].
Proof.
  intros Hn. rewrite <- context_rules in Hn.
  unfold validate_transition_with_context in *. cbv zeta in *.
  destruct (valid _) eqn:E; [done|]. eexists. split; [done|].
  intros Hm. apply map_eq_nil in Hm.
  apply errors_nil_iff in Hm; [congruence|apply validator_consistent].
Qed.

(** ** Theorems *)

(** The default rules as one condition: a transition is accepted exactly when
    the state machine allows it for the adapter's tier, the artifact is present on
    entry to ready, active, deprecated or retired, activation has training evidence
    and no conflicting adapter, and ready-to-active has its preflight passed,
    bypassed or a hotfix. A rejection always carries a violation, and active stack
    references never block. *)
Theorem default_rules_verdict from to c :
  (validate_transition_with_context from to c = Ok tt <-> transition_allowed from to c)
  /\ (validate_transition_with_context from to c <> Ok tt ->
      exists vs, validate_transition_with_context from to c = Err vs /\ vs <> [])
  /\ (forall n, validate_transition_with_context from to (with_active_references n c) = Ok tt
        <-> validate_transition_with_context from to c = Ok tt).
Proof.
  split; [apply context_rules|]. split.
  - intros H. apply context_rejected. by rewrite <- context_rules.
  - intros n. rewrite !context_rules. by destruct c.
Qed.

(** An alias swap is accepted only for a state that allows swaps, and then only
    under the rules of its target: activation without re-checking preflight for an
    adapter that is already active, becoming ready for a training one. *)
Theorem alias_swap_verdict current allow_training c :
  validate_alias_swap current allow_training c = Ok tt
  <-> allows_alias_swap current allow_training = true /\ has_artifact c = true
      /\ (current = Training \/ has_training_evidence c = true /\ conflicting_adapters c = [])
      /\ (current = Ready -> preflight_satisfied c = true).
Proof.
  unfold validate_alias_swap. cbv zeta. rewrite context_rules. unfold transition_allowed.
  assert (forall to t, to <> Deprecated -> to <> Retired ->
    can_transition_to_for_tier current to t = can_transition_to current to) as Ht.
  { intros to t H1 H2. unfold can_transition_to_for_tier.
    case_bool_decide; destruct current, to; done. }
  destruct (allow_training && bool_decide (current = Training)) eqn:E; rewrite Ht by done.
  - apply andb_true_iff in E as [-> E%bool_decide_eq_true]. subst. simpl. naive_solver.
  - destruct current; simpl; try naive_solver.
    destruct allow_training; [done|]. naive_solver.
Qed.

(** Configured constraints: the order in which they are given does not change
    the verdict or the set of violations and evaluated constraints, the verdict is
    valid exactly when the base transition is allowed and no enabled applicable
    constraint reports an error, and merging results keeps verdict and violations
    in agreement. *)
Theorem constraint_order_irrelevant from to ctx cs cs' r :
  cs ≡ₚ cs' -> consistent r ->
  let a := apply_lifecycle_constraints from to ctx cs in
  let b := apply_lifecycle_constraints from to ctx cs' in
  valid a = valid b /\ violations a ≡ₚ violations b
  /\ evaluated_constraints a ≡ₚ evaluated_constraints b
  /\ (valid a = true <-> transition_valid from to ctx = true
        /\ Forall (passes from to ctx) cs)
  /\ consistent (merge r a) /\ (valid (merge r a) = true <-> errors r = [] /\ errors a = []).
Proof.
  intros Hp Hr a b.
  assert (forall l, stable_sort priority_geb ([] ++ l) ≡ₚ l) as Hs by (intros; apply stable_sort_perm).
  assert (with_constraints cs [] ≡ₚ with_constraints cs' []) as Hw
    by (unfold with_constraints; by rewrite !Hs).
  assert (valid a = true <-> transition_valid from to ctx = true /\ Forall (passes from to ctx) cs) as Ha.
  { unfold a, apply_lifecycle_constraints. rewrite validator_valid_iff.
    unfold with_constraints at 1. by rewrite (Hs cs). }
  assert (valid b = true <-> transition_valid from to ctx = true /\ Forall (passes from to ctx) cs) as Hb.
  { unfold b, apply_lifecycle_constraints. rewrite validator_valid_iff.
    unfold with_constraints at 1. by rewrite (Hs cs'), <- Hp. }
  assert (consistent a) as Hca by apply validator_consistent.
  assert (consistent (merge r a)) as Hm.
  { unfold consistent in *. simpl. rewrite existsb_app, Hr. by destruct (existsb _ (violations r)). }
  split; [by apply eq_bool_prop_intro; rewrite !Is_true_true, Ha, Hb|].
  split; [|split].
  - unfold a, b, apply_lifecycle_constraints. destruct (transition_valid from to ctx) eqn:Ht.
    + rewrite !(proj1 (proj2 (validator_spec _ _ _ _ Ht))). by rewrite Hw.
    + unfold validate_transition. by rewrite Ht.
  - unfold a, b, apply_lifecycle_constraints. destruct (transition_valid from to ctx) eqn:Ht.
    + rewrite !(proj2 (proj2 (validator_spec _ _ _ _ Ht))).
      apply Permutation_map. by rewrite Hw.
    + unfold validate_transition. by rewrite Ht.
  - split; [done|]. split; [done|]. rewrite (errors_nil_iff (merge r a) Hm).
    unfold errors. simpl. rewrite List.filter_app. apply app_nil.
Qed.

Lemma constraint_order_irrelevant_witness :
  let ctx := context_json (with_artifact true context_new) in
  valid (apply_lifecycle_constraints Ready Active ctx [artifact_required; preflight_required])
  = valid (apply_lifecycle_constraints Ready Active ctx [preflight_required; artifact_required]).
Proof.
  intros ctx.
  apply (constraint_order_irrelevant Ready Active ctx [artifact_required; preflight_required]
           [preflight_required; artifact_required] result_valid).
  - apply Permutation_swap.
  - reflexivity.
Defined.

(** Sanity of the verdicts on concrete contexts. *)
Example activation_accepted :
  can_activate Ready (with_preflight_status PPassed (with_training_evidence true
    (with_artifact true context_new))) = Ok tt.
Proof. reflexivity. Qed.

Example activation_needs_preflight :
  can_activate Ready (with_training_evidence true (with_artifact true context_new))
  = Err [mkRule "preflight_required"
           "Preflight checks must pass before activation. Current status: pending" true].
Proof. reflexivity. Qed.

End LifecycleRules.
