(* ===== verification/PrefixKvCache.v ===== *)
(** * Prefix KV cache (adapteros-lora-worker/src/prefix_kv_cache.rs)

    The cache of prefilled prefixes: exact lookup, longest-prefix match, insertion
    with LRU eviction under a byte budget, and single-flight building as seen by
    the one caller that builds. Entries are shared ([Arc]) and mutated through
    their atomics, so the cache keeps an arena of entries and a map from keys to
    positions in it; a handle is a position. Tensors are lists of 32-bit words (the
    bits of the floats). The [BTreeMap] is a finite map whose iteration sorts the
    keys byte by byte. *)

From stdpp Require Import sorting.
From S2P Require Import Prelude Hashing.

#[local] Open Scope Z_scope.

Module PrefixKvCache.

(** ** Entries *)

Record PrefixKvEntry := mkPrefixEntry {
  keys : list (list Z);
  values : list (list Z);
  tenant_id : string;
  prefix_cached_token_count : Z;
  kv_bytes : Z;
  created_tick : Z;
  last_access_tick : Z;
  active_refcount : Z;
  prefix_tokens : list Z;
  context_digest : B3Hash;
  tokenizer_hash : B3Hash;
  model_identity_hash : B3Hash;
  payload_integrity_hash : B3Hash
}.

(** Stores through the atomics of an entry. *)
Definition store_access (tick : Z) (e : PrefixKvEntry) : PrefixKvEntry :=
  mkPrefixEntry (keys e) (values e) (tenant_id e) (prefix_cached_token_count e) (kv_bytes e)
    (created_tick e) tick (active_refcount e) (prefix_tokens e) (context_digest e)
    (tokenizer_hash e) (model_identity_hash e) (payload_integrity_hash e).

Definition store_refcount (n : Z) (e : PrefixKvEntry) : PrefixKvEntry :=
  mkPrefixEntry (keys e) (values e) (tenant_id e) (prefix_cached_token_count e) (kv_bytes e)
    (created_tick e) (last_access_tick e) n (prefix_tokens e) (context_digest e)
    (tokenizer_hash e) (model_identity_hash e) (payload_integrity_hash e).

(** A memory fault in the tensors: the one change the code does not make itself. *)
Definition corrupt_payload (ks vs : list (list Z)) (e : PrefixKvEntry) : PrefixKvEntry :=
  mkPrefixEntry ks vs (tenant_id e) (prefix_cached_token_count e) (kv_bytes e)
    (created_tick e) (last_access_tick e) (active_refcount e) (prefix_tokens e)
    (context_digest e) (tokenizer_hash e) (model_identity_hash e) (payload_integrity_hash e).

(** The bytes of the tensors; a vector of [f32] takes four times its length of the
    address space, so the sums do not overflow. *)
Definition tensor_bytes (t : list (list Z)) : Z :=
  sumZ (map (fun l => Z.of_nat (length l) * 4) t).
Definition compute_kv_bytes (ks vs : list (list Z)) : Z := tensor_bytes ks + tensor_bytes vs.

Section WithHash.
Context {BL : Blake3}.

Definition tensor_message (t : list (list Z)) : list byte :=
  concat (map (le_bytes 4) (concat t)).
Definition compute_payload_hash (ks vs : list (list Z)) : B3Hash :=
  hash (tensor_message ks ++ tensor_message vs).

Definition new_with_tick (ks vs : list (list Z)) (tenant : string) (count tick : Z)
  : PrefixKvEntry :=
  mkPrefixEntry ks vs tenant count (compute_kv_bytes ks vs) tick tick 0 [] zero zero zero
    (compute_payload_hash ks vs).

Definition new_entry (ks vs : list (list Z)) (tenant : string) (count : Z) : PrefixKvEntry :=
  new_with_tick ks vs tenant count 0.

Definition new_with_tokens_and_tick (ks vs : list (list Z)) (tenant : string) (tokens : list Z)
    (ctx tok model : B3Hash) (tick : Z) : PrefixKvEntry :=
  mkPrefixEntry ks vs tenant (Z.of_nat (length tokens) mod u32_mod) (compute_kv_bytes ks vs)
    tick tick 0 tokens ctx tok model (compute_payload_hash ks vs).

Definition new_with_tokens (ks vs : list (list Z)) (tenant : string) (tokens : list Z)
    (ctx tok model : B3Hash) : PrefixKvEntry :=
  new_with_tokens_and_tick ks vs tenant tokens ctx tok model 0.

Definition supports_prefix_matching (e : PrefixKvEntry) : bool :=
  match prefix_tokens e with [] => false | _ => true end.

(** [zip(..).take_while(|(a, b)| a == b).count()]. *)
Fixpoint common_prefix (a b : list Z) : nat :=
  match a, b with
  | x :: a, y :: b => if x =? y then S (common_prefix a b) else 0%nat
  | _, _ => 0%nat
  end.

Definition compute_prefix_match_length (e : PrefixKvEntry) (input_tokens : list Z)
    (ctx tok model : B3Hash) : Z :=
  if negb (supports_prefix_matching e) then 0
  else if bool_decide (context_digest e <> ctx) || bool_decide (tokenizer_hash e <> tok)
          || bool_decide (model_identity_hash e <> model) then 0
  else Z.of_nat (common_prefix (prefix_tokens e) input_tokens) mod u32_mod.

Definition verify_integrity (e : PrefixKvEntry) : bool :=
  bool_decide (compute_payload_hash (keys e) (values e) = payload_integrity_hash e).

Definition is_in_use (e : PrefixKvEntry) : bool := 0 <? active_refcount e.

(** ** The cache *)

(** The counters kept under the lock; [max_bytes] and [in_flight_builds] of the
    reported statistics are copies of other components' fields. *)
Record PrefixKvCacheStats := mkPrefixStats {
  hits : Z; misses : Z; evictions : Z; entry_count : Z; stats_used_bytes : Z;
  integrity_failures : Z
}.

Record PrefixKvCache := mkPrefixCache {
  entries : gmap B3Hash nat;
  arena : list PrefixKvEntry;
  max_bytes : Z;
  used_bytes : Z;
  current_tick : Z;
  stats : PrefixKvCacheStats
}.

Definition new (max : Z) : PrefixKvCache :=
  mkPrefixCache ∅ [] max 0 0 (mkPrefixStats 0 0 0 0 0 0).

Definition set_stats (s : PrefixKvCacheStats) (c : PrefixKvCache) : PrefixKvCache :=
  mkPrefixCache (entries c) (arena c) (max_bytes c) (used_bytes c) (current_tick c) s.

Definition inc64 (z : Z) : Z := u64_wrapping_add z 1.

Definition count_hit (c : PrefixKvCache) : PrefixKvCache :=
  let s := stats c in
  set_stats (mkPrefixStats (inc64 (hits s)) (misses s) (evictions s) (entry_count s)
               (stats_used_bytes s) (integrity_failures s)) c.
Definition count_miss (failures : Z) (miss : bool) (c : PrefixKvCache) : PrefixKvCache :=
  let s := stats c in
  set_stats (mkPrefixStats (hits s) (if miss then inc64 (misses s) else misses s) (evictions s)
               (entry_count s) (stats_used_bytes s)
               (u64_wrapping_add (integrity_failures s) failures)) c.

(** The entry behind a handle. *)
Definition entry_at (c : PrefixKvCache) (l : nat) : option PrefixKvEntry := arena c !! l.

Definition update_entry (f : PrefixKvEntry -> PrefixKvEntry) (l : nat) (c : PrefixKvCache)
  : PrefixKvCache :=
  mkPrefixCache (entries c) (alter f l (arena c)) (max_bytes c) (used_bytes c) (current_tick c)
    (stats c).

Definition advance_tick (c : PrefixKvCache) : Z * PrefixKvCache :=
  let t := inc64 (current_tick c) in
  (t, mkPrefixCache (entries c) (arena c) (max_bytes c) (used_bytes c) t (stats c)).

Definition set_tick (t : Z) (c : PrefixKvCache) : PrefixKvCache :=
  mkPrefixCache (entries c) (arena c) (max_bytes c) (used_bytes c) t (stats c).

(** [advance_tick], [record_access], one hit. *)
Definition touch (l : nat) (c : PrefixKvCache) : PrefixKvCache :=
  let (tick, c1) := advance_tick c in count_hit (update_entry (store_access tick) l c1).

Definition acquire (l : nat) (c : PrefixKvCache) : PrefixKvCache :=
  update_entry (fun e => store_refcount ((active_refcount e + 1) mod u32_mod) e) l c.
Definition release (l : nat) (c : PrefixKvCache) : PrefixKvCache :=
  update_entry (fun e => store_refcount ((active_refcount e - 1) mod u32_mod) e) l c.

Definition get (key : B3Hash) (c : PrefixKvCache) : option nat * PrefixKvCache :=
  match l ← entries c !! key; e ← entry_at c l; Some (l, e) with
  | Some (l, e) =>
      if negb (verify_integrity e) then (None, count_miss 1 true c) else (Some l, touch l c)
  | None => (None, count_miss 0 true c)
  end.

(** *** Iteration in key order *)

Definition key_leb (a b : B3Hash) : bool :=
  (String.string_of_list_byte (as_bytes a) <=? String.string_of_list_byte (as_bytes b))%string.
Definition key_ltb (a b : B3Hash) : bool := key_leb a b && negb (bool_decide (a = b)).

(** [entries.iter()]: key, handle and entry. *)
Definition iter (c : PrefixKvCache) : list (B3Hash * nat * PrefixKvEntry) :=
  omap (fun p => e ← entry_at c p.2; Some (p.1, p.2, e))
    (stable_sort (fun a b => key_leb a.1 b.1) (map_to_list (entries c))).

(** *** Longest-prefix match *)

Record PrefixMatch := mkPrefixMatch {
  match_entry : nat;
  cache_key : B3Hash;
  matched_token_count : Z;
  remaining_tokens : Z
}.

Definition is_better (key : B3Hash) (len : Z) (best : option (B3Hash * nat * Z)) : bool :=
  match best with
  | None => true
  | Some (best_key, _, best_len) =>
      (best_len <? len) || ((len =? best_len) && key_ltb key best_key)
  end.

Definition consider (tokens : list Z) (ctx tok model : B3Hash) (min_match : Z)
    (acc : option (B3Hash * nat * Z) * Z) (x : B3Hash * nat * PrefixKvEntry)
  : option (B3Hash * nat * Z) * Z :=
  let '(best, corrupted) := acc in
  let '(key, l, e) := x in
  if negb (supports_prefix_matching e) then acc
  else if negb (verify_integrity e) then (best, corrupted + 1)
  else
    let len := compute_prefix_match_length e tokens ctx tok model in
    if (min_match <=? len) && is_better key len best
    then (Some (key, l, len), corrupted) else (best, corrupted).

Definition find_longest_prefix_match (tokens : list Z) (ctx tok model : B3Hash) (min_match : Z)
    (c : PrefixKvCache) : option PrefixMatch * PrefixKvCache :=
  match tokens with
  | [] => (None, c)
  | _ =>
      let (best, corrupted) := fold_left (consider tokens ctx tok model min_match) (iter c) (None, 0) in
      let c1 := if 0 <? corrupted then count_miss corrupted false c else c in
      match best with
      | Some (key, l, matched) =>
          (Some {| match_entry := l; cache_key := key; matched_token_count := matched;
                   remaining_tokens := (Z.of_nat (length tokens) mod u32_mod - matched) mod u32_mod |},
           touch l c1)
      | None => (None, count_miss 0 true c1)
      end
  end.

Inductive PrefixMatchResult := ExactMatch (l : nat) | PartialMatch (m : PrefixMatch).

Definition get_or_find_prefix (exact_key : B3Hash) (tokens : list Z) (ctx tok model : B3Hash)
    (c : PrefixKvCache) : option PrefixMatchResult * PrefixKvCache :=
  match get exact_key c with
  | (Some l, c1) => (Some (ExactMatch l), c1)
  | (None, c1) =>
      match find_longest_prefix_match tokens ctx tok model 1 c1 with
      | (Some m, c2) => (Some (PartialMatch m), c2)
      | (None, c2) => (None, c2)
      end
  end.

Definition attributed_tokens (m : PrefixMatch) (total_input_tokens : Z) : Z :=
  saturating_sub total_input_tokens (matched_token_count m).

Definition is_full_match (m : PrefixMatch) : bool := remaining_tokens m =? 0.

(** *** Eviction and insertion *)

(** Key, last access tick and bytes of the entries nobody holds, oldest first. *)
Definition candidate_leb (a b : B3Hash * Z * Z) : bool :=
  (a.1.2 <? b.1.2) || ((a.1.2 =? b.1.2) && key_leb a.1.1 b.1.1).

Definition candidates (c : PrefixKvCache) : list (B3Hash * Z * Z) :=
  stable_sort candidate_leb
    (map (fun x : B3Hash * nat * PrefixKvEntry => (x.1.1, last_access_tick x.2, kv_bytes x.2))
       (List.filter (fun x => negb (is_in_use x.2)) (iter c))).

(** The candidates taken until [to_free] bytes are collected. *)
Fixpoint pick (to_free freed : Z) (cands : list (B3Hash * Z * Z)) : list B3Hash * Z :=
  match cands with
  | [] => ([], freed)
  | (key, _, bytes) :: cands' =>
      let freed' := freed + bytes in
      if to_free <=? freed' then ([key], freed')
      else let (ks, f) := pick to_free freed' cands' in (key :: ks, f)
  end.

Definition evict_one (c : PrefixKvCache) (key : B3Hash) : PrefixKvCache :=
  match l ← entries c !! key; entry_at c l with
  | Some e =>
      let s := stats c in
      mkPrefixCache (delete key (entries c)) (arena c) (max_bytes c)
        (u64_wrapping_sub (used_bytes c) (kv_bytes e)) (current_tick c)
        (mkPrefixStats (hits s) (misses s) (inc64 (evictions s))
           (saturating_sub (entry_count s) 1) (stats_used_bytes s) (integrity_failures s))
  | None => c
  end.

(** [stats.used_bytes = self.used_bytes.load()]. *)
Definition sync_used (c : PrefixKvCache) : PrefixKvCache :=
  let s := stats c in
  set_stats (mkPrefixStats (hits s) (misses s) (evictions s) (entry_count s) (used_bytes c)
               (integrity_failures s)) c.

Definition evict_until_fits (needed : Z) (c : PrefixKvCache) : result unit AosError * PrefixKvCache :=
  let available := saturating_sub (max_bytes c) (used_bytes c) in
  if needed <=? available then (Ok tt, c)
  else
    let to_free := needed - available in
    let (evicted_keys, freed) := pick to_free 0 (candidates c) in
    if freed <? to_free then
      (Err (MemoryPressure ("Cannot evict enough prefix KV entries: need " +:+ pretty to_free
              +:+ " bytes, can free " +:+ pretty freed +:+ " bytes")), c)
    else (Ok tt, sync_used (fold_left evict_one evicted_keys c)).

Definition insert (key : B3Hash) (e : PrefixKvEntry) (c : PrefixKvCache)
  : result nat AosError * PrefixKvCache :=
  let entry_bytes := kv_bytes e in
  if max_bytes c <? entry_bytes then
    (Err (Validation ("Prefix KV entry (" +:+ pretty entry_bytes +:+ " bytes) exceeds max budget ("
            +:+ pretty (max_bytes c) +:+ " bytes)")), c)
  else
    match evict_until_fits entry_bytes c with
    | (Err err, c1) => (Err err, c1)
    | (Ok _, c1) =>
        let l := length (arena c1) in
        let s := stats c1 in
        let used := u64_wrapping_add (used_bytes c1) entry_bytes in
        (Ok l, mkPrefixCache (<[key := l]> (entries c1)) (arena c1 ++ [e]) (max_bytes c1) used
                 (current_tick c1)
                 (mkPrefixStats (hits s) (misses s) (evictions s) (inc64 (entry_count s)) used
                    (integrity_failures s)))
    end.

Definition remove (key : B3Hash) (c : PrefixKvCache) : option nat * PrefixKvCache :=
  match l ← entries c !! key; e ← entry_at c l; Some (l, e) with
  | Some (l, e) =>
      let s := stats c in
      let used := u64_wrapping_sub (used_bytes c) (kv_bytes e) in
      (Some l, mkPrefixCache (delete key (entries c)) (arena c) (max_bytes c) used (current_tick c)
                 (mkPrefixStats (hits s) (misses s) (evictions s)
                    (saturating_sub (entry_count s) 1) used (integrity_failures s)))
  | None => (None, c)
  end.

Definition clear (c : PrefixKvCache) : PrefixKvCache :=
  let s := stats c in
  mkPrefixCache ∅ (arena c) (max_bytes c) 0 0
    (mkPrefixStats (hits s) (misses s) (evictions s) 0 0 (integrity_failures s)).

(** [builder] is what the closure returns when it is run. *)
Definition build_and_cache_entry (key : B3Hash) (builder : result PrefixKvEntry AosError)
    (c : PrefixKvCache) : result nat string * PrefixKvCache :=
  match entries c !! key with
  | Some l => (Ok l, touch l c)
  | None =>
      match builder with
      | Err e => (Err (error_text e), c)
      | Ok e =>
          match insert key e c with
          | (Ok l, c1) => (Ok l, c1)
          | (Err err, c1) => (Err (error_text err), c1)
          end
      end
  end.

(** The caller is the single-flight leader: no other build of the key is running. *)
Definition get_or_build (key : B3Hash) (builder : result PrefixKvEntry AosError)
    (c : PrefixKvCache) : result nat AosError * PrefixKvCache :=
  match get key c with
  | (Some l, c1) => (Ok l, c1)
  | (None, c1) =>
      match build_and_cache_entry key builder c1 with
      | (Ok l, c2) => (Ok l, c2)
      | (Err msg, c2) => (Err (Lifecycle msg), c2)
      end
  end.

Definition len (c : PrefixKvCache) : nat := size (entries c).

(** ** Steps

    What callers and the environment do to a cache. [overwrite] says whether
    [insert] may be called with a key that is already cached. *)

Definition entry_wf (e : PrefixKvEntry) : Prop := 0 <= kv_bytes e.

Inductive step (overwrite : bool) : PrefixKvCache -> PrefixKvCache -> Prop :=
| step_get key c : step overwrite c (get key c).2
| step_find tokens ctx tok model m c :
    step overwrite c (find_longest_prefix_match tokens ctx tok model m c).2
| step_get_or_find key tokens ctx tok model c :
    step overwrite c (get_or_find_prefix key tokens ctx tok model c).2
| step_insert key e c :
    entry_wf e -> (overwrite = true \/ entries c !! key = None) ->
    step overwrite c (insert key e c).2
| step_get_or_build key builder c :
    match builder with Ok e => entry_wf e | Err _ => True end ->
    step overwrite c (get_or_build key builder c).2
| step_remove key c : step overwrite c (remove key c).2
| step_clear c : step overwrite c (clear c)
| step_acquire l c : step overwrite c (acquire l c)
| step_release l c : step overwrite c (release l c)
| step_set_tick t c : step overwrite c (set_tick t c)
| step_corrupt l ks vs c : step overwrite c (update_entry (corrupt_payload ks vs) l c).

(** ** Byte accounting *)

Definition bytes_at (ar : list PrefixKvEntry) (l : nat) : Z :=
  match ar !! l with Some e => kv_bytes e | None => 0 end.

Definition total_of (ar : list PrefixKvEntry) (m : gmap B3Hash nat) : Z :=
  sumZ (map (fun p => bytes_at ar p.2) (map_to_list m)).

(** The bytes of the cached entries. *)
Definition total (c : PrefixKvCache) : Z := total_of (arena c) (entries c).

Record inv (c : PrefixKvCache) : Prop := {
  inv_max : is_u64 (max_bytes c);
  inv_used : 0 <= used_bytes c <= max_bytes c;
  inv_total : total c <= used_bytes c;
  inv_locs : forall k l, entries c !! k = Some l -> (l < length (arena c))%nat;
  inv_bytes : Forall entry_wf (arena c)
}.

Lemma bytes_at_nonneg ar l : Forall entry_wf ar -> 0 <= bytes_at ar l.
Proof.
  intros H. unfold bytes_at. destruct (ar !! l) eqn:E; [|done].
  by apply (Forall_lookup_1 _ _ _ _ H E).
Qed.

Lemma total_of_insert ar m k l :
  m !! k = None -> total_of ar (<[k := l]> m) = bytes_at ar l + total_of ar m.
Proof. intros Hk. unfold total_of. by rewrite map_to_list_insert. Qed.

Lemma total_of_delete ar m k l :
  m !! k = Some l -> total_of ar m = bytes_at ar l + total_of ar (delete k m).
Proof.
  intros Hk. rewrite <- (insert_delete_id m k l Hk) at 1.
  rewrite total_of_insert; [done|apply lookup_delete_eq].
Qed.

Lemma total_of_nonneg ar m : Forall entry_wf ar -> 0 <= total_of ar m.
Proof. intros H. apply sumZ_map_nonneg. intros p _. by apply bytes_at_nonneg. Qed.

Lemma total_of_ext ar ar' m :
  (forall k l, m !! k = Some l -> bytes_at ar l = bytes_at ar' l) -> total_of ar m = total_of ar' m.
Proof.
  intros H. unfold total_of. f_equal. apply map_ext_in. intros [k l] Hin.
  apply list_elem_of_In, elem_of_map_to_list in Hin. simpl. eauto.
Qed.

(** A cache that differs in ticks, counters, references or payloads only. *)
Definition similar (c c' : PrefixKvCache) : Prop :=
  entries c' = entries c /\ used_bytes c' = used_bytes c /\ max_bytes c' = max_bytes c
  /\ map kv_bytes (arena c') = map kv_bytes (arena c).

#[local] Instance similar_preorder : PreOrder similar.
Proof.
  split; [done|]. intros a b c (?&?&?&?) (?&?&?&?). repeat split; congruence.
Qed.

Lemma similar_bytes c c' l : similar c c' -> bytes_at (arena c') l = bytes_at (arena c) l.
Proof.
  intros (_ & _ & _ & E). unfold bytes_at. apply (f_equal (.!! l)) in E.
  rewrite !list_lookup_fmap in E. by destruct (arena c !! l), (arena c' !! l); simplify_eq/=.
Qed.

Lemma similar_total c c' : similar c c' -> total c' = total c.
Proof.
  intros H. pose proof H as (E & _). unfold total. rewrite E.
  apply total_of_ext. intros k l _. by apply similar_bytes.
Qed.

Lemma similar_inv c c' : similar c c' -> inv c -> inv c'.
Proof.
  intros H [Hm Hu Ht Hl Hb]. pose proof (similar_total _ _ H). destruct H as (E1 & E2 & E3 & E4).
  split; rewrite ?E1, ?E2, ?E3; try done; [lia| |].
  - apply (f_equal length) in E4. rewrite !length_map in E4. by rewrite E4.
  - apply Forall_lookup. intros l e He. apply (f_equal (.!! l)) in E4.
    rewrite !list_lookup_fmap, He in E4. destruct (arena c !! l) as [e'|] eqn:He'; [|done].
    unfold entry_wf. injection E4 as ->. by apply (Forall_lookup_1 _ _ _ _ Hb He').
Qed.

Lemma update_entry_similar f l c :
  (forall e, kv_bytes (f e) = kv_bytes e) -> similar c (update_entry f l c).
Proof.
  intros Hf. repeat split. simpl. apply list_eq. intros i. rewrite !list_lookup_fmap.
  destruct (decide (i = l)) as [->|]; [|by rewrite list_lookup_alter_ne].
  rewrite list_lookup_alter_eq. destruct (arena c !! l); simpl; [by rewrite Hf|done].
Qed.

Lemma touch_similar l c : similar c (touch l c).
Proof.
  unfold touch. simpl. unfold count_hit. etrans; [|by repeat split].
  apply (update_entry_similar _ l (set_tick (inc64 (current_tick c)) c)). done.
Qed.

Lemma get_similar key c : similar c (get key c).2.
Proof.
  unfold get. destruct (_ ≫= _) as [[l e]|]; [|by repeat split].
  destruct (negb _); [by repeat split|apply touch_similar].
Qed.

Lemma find_similar tokens ctx tok model m c :
  similar c (find_longest_prefix_match tokens ctx tok model m c).2.
Proof.
  unfold find_longest_prefix_match. destruct tokens as [|t ts]; [done|].
  destruct (fold_left _ _ _) as [[[[k l] n]|] corrupted]; simpl;
    (etrans; [|first [apply touch_similar|by repeat split]]); by destruct (0 <? corrupted).
Qed.

Lemma get_or_find_similar key tokens ctx tok model c :
  similar c (get_or_find_prefix key tokens ctx tok model c).2.
Proof.
  unfold get_or_find_prefix. pose proof (get_similar key c) as Hg.
  destruct (get key c) as [[l|] c1]; simpl in *; [done|].
  pose proof (find_similar tokens ctx tok model 1 c1) as Hf.
  destruct (find_longest_prefix_match _ _ _ _ _ c1) as [[m|] c2]; simpl in *; by etrans.
Qed.

(** ** Iteration and eviction *)

Lemma iter_spec c k l e :
  In (k, l, e) (iter c) <-> entries c !! k = Some l /\ entry_at c l = Some e.
Proof.
  unfold iter. rewrite <- list_elem_of_In, list_elem_of_omap.
  setoid_rewrite stable_sort_perm. split.
  - intros ([k' l'] & Hin & Hf). apply elem_of_map_to_list in Hin. simpl in Hf.
    destruct (entry_at c l') eqn:E; [|done]. simpl in Hf. by simplify_eq.
  - intros [Hk He]. exists (k, l). split; [by apply elem_of_map_to_list|]. simpl. by rewrite He.
Qed.

Lemma omap_keys_NoDup {A B} (f : B3Hash * A -> option (B3Hash * A * B)) l :
  (forall p q, f p = Some q -> q.1.1 = p.1) -> NoDup (map fst l) ->
  NoDup (map (fun x => x.1.1) (omap f l)).
Proof.
  intros Hf. induction l as [|p l IH]; simpl; [constructor|].
  rewrite NoDup_cons. intros [Hp Hl]. destruct (f p) as [q|] eqn:E; [|auto].
  simpl. constructor; [|auto]. rewrite (Hf _ _ E). intros Hin. destruct Hp.
  apply list_elem_of_fmap in Hin as (q' & Hq & Hin). apply list_elem_of_omap in Hin as (p' & Hin & E').
  apply list_elem_of_fmap. exists p'. split; [|done]. rewrite Hq. by apply Hf.
Qed.

Lemma iter_keys_NoDup c : NoDup (map (fun x => x.1.1) (iter c)).
Proof.
  apply omap_keys_NoDup.
  - intros [k l] q E. simpl in E. destruct (entry_at c l); [|done]. simpl in E. by simplify_eq.
  - setoid_rewrite stable_sort_perm. apply NoDup_fst_map_to_list.
Qed.

Lemma candidates_spec c k t b :
  In (k, t, b) (candidates c) <->
  exists l e, entries c !! k = Some l /\ entry_at c l = Some e /\ is_in_use e = false
    /\ t = last_access_tick e /\ b = kv_bytes e.
Proof.
  unfold candidates. rewrite <- list_elem_of_In. setoid_rewrite stable_sort_perm.
  rewrite list_elem_of_In, in_map_iff. split.
  - intros ([[k' l] e] & E & Hin). simpl in E. simplify_eq.
    apply filter_In in Hin as [Hin Hu]. apply iter_spec in Hin as [? ?].
    apply negb_true_iff in Hu. eauto 10.
  - intros (l & e & Hk & He & Hu & -> & ->). exists (k, l, e). split; [done|].
    apply filter_In. split; [by apply iter_spec|]. simpl. by rewrite Hu.
Qed.

Lemma candidates_keys_NoDup c : NoDup (map (fun x => x.1.1) (candidates c)).
Proof.
  unfold candidates. setoid_rewrite stable_sort_perm. rewrite map_map. simpl.
  assert (forall l : list (B3Hash * nat * PrefixKvEntry), NoDup (map (fun x => x.1.1) l) ->
    NoDup (map (fun x => x.1.1) (List.filter (fun x => negb (is_in_use x.2)) l))) as Hf.
  { intros l. induction l as [|x l IH]; simpl; [done|]. rewrite NoDup_cons. intros [Hx Hl].
    destruct (negb _); simpl; [constructor; [|auto]|auto]. intros Hin. destruct Hx.
    rewrite list_elem_of_In in *. apply in_map_iff in Hin as (y & Hy & Hin).
    apply filter_In in Hin as [Hin _]. apply in_map_iff. eauto. }
  apply Hf, iter_keys_NoDup.
Qed.

Lemma candidate_leb_total a b : candidate_leb a b = false -> candidate_leb b a = true.
Proof.
  unfold candidate_leb. destruct a as [[ka ta] ba], b as [[kb tb] bb]. simpl.
  destruct (Z.ltb_spec ta tb), (Z.eqb_spec ta tb), (Z.ltb_spec tb ta), (Z.eqb_spec tb ta);
    simpl; intros; try done; try lia. by apply string_leb_total.
Qed.

Lemma candidate_leb_trans a b c :
  candidate_leb a b = true -> candidate_leb b c = true -> candidate_leb a c = true.
Proof.
  unfold candidate_leb. destruct a as [[ka ta] ba], b as [[kb tb] bb], c as [[kc tc] bc]. simpl.
  rewrite !orb_true_iff, !andb_true_iff, !Z.ltb_lt, !Z.eqb_eq.
  intros [?|[? H1]] [?|[? H2]]; [left; lia..|right]. split; [lia|].
  by eapply string_leb_trans.
Qed.

Lemma candidates_sorted c : StronglySorted (fun a b => candidate_leb a b = true) (candidates c).
Proof. apply stable_sort_sorted; [apply candidate_leb_total|apply candidate_leb_trans]. Qed.

Definition cand_bytes (l : list (B3Hash * Z * Z)) : Z := sumZ (map snd l).

(** [pick] takes the shortest prefix that frees enough, or everything. *)
Lemma pick_spec to_free freed cands :
  freed < to_free ->
  exists taken rest, cands = taken ++ rest
    /\ pick to_free freed cands = (map (fun x => x.1.1) taken, freed + cand_bytes taken)
    /\ (freed + cand_bytes taken < to_free -> rest = [])
    /\ (forall x, last taken = Some x -> freed + cand_bytes taken - x.2 < to_free).
Proof.
  unfold cand_bytes. revert freed. induction cands as [|[[k t] b] cands IH]; intros freed Hf.
  - exists [], []. simpl. repeat split; [by rewrite Z.add_0_r|done].
  - simpl. destruct (Z.leb_spec to_free (freed + b)).
    + exists [(k, t, b)], cands. simpl. repeat split; [by rewrite Z.add_0_r|lia|].
      intros x [= <-]. simpl. lia.
    + destruct (IH (freed + b)) as (taken & rest & -> & -> & Hr & Hl); [lia|].
      exists ((k, t, b) :: taken), rest. simpl. rewrite Z.add_assoc.
      repeat split; [done|]. intros x. destruct taken as [|y taken]; [|apply Hl].
      intros [= <-]. simpl. lia.
Qed.

Lemma evict_one_spec c k l e :
  inv c -> entries c !! k = Some l -> entry_at c l = Some e ->
  let c' := evict_one c k in
  inv c' /\ entries c' = delete k (entries c) /\ arena c' = arena c /\ max_bytes c' = max_bytes c
  /\ used_bytes c' = used_bytes c - kv_bytes e /\ total c' = total c - kv_bytes e.
Proof.
  intros [Hm Hu Ht Hl Hb] Hk He c'. unfold c', evict_one. rewrite Hk. cbn [mbind option_bind].
  rewrite He. unfold entry_at in He.
  assert (bytes_at (arena c) l = kv_bytes e) as Hbe by (unfold bytes_at; by rewrite He).
  pose proof (total_of_delete (arena c) _ _ _ Hk) as Htd. fold (total c) in Htd.
  pose proof (total_of_nonneg (arena c) (delete k (entries c)) Hb).
  pose proof (bytes_at_nonneg (arena c) l Hb).
  assert (u64_wrapping_sub (used_bytes c) (kv_bytes e) = used_bytes c - kv_bytes e) as Hw.
  { apply u64_wrapping_sub_small. split; [lia|]. solve_range. }
  match goal with |- context [inv ?x] => set (c1 := x) end.
  assert (used_bytes c1 = used_bytes c - kv_bytes e) as Eu by done.
  assert (total c1 = total c - kv_bytes e) as Et by (unfold total at 1; simpl; lia).
  assert (inv c1) as Hi1.
  { split; [done|rewrite Eu; simpl; lia|lia| |done].
    intros k' l' Hk'. cbn in Hk'. apply lookup_delete_Some in Hk' as [_ Hk']. by eapply Hl. }
  done.
Qed.

(** The bytes of the entries under a list of keys. *)
Definition key_bytes (c : PrefixKvCache) (k : B3Hash) : Z :=
  match entries c !! k with Some l => bytes_at (arena c) l | None => 0 end.

Lemma evict_all_spec c ks :
  inv c -> NoDup ks -> Forall (fun k => is_Some (entries c !! k)) ks ->
  let c' := fold_left evict_one ks c in
  inv c' /\ arena c' = arena c /\ max_bytes c' = max_bytes c
  /\ used_bytes c' = used_bytes c - sumZ (map (key_bytes c) ks)
  /\ total c' = total c - sumZ (map (key_bytes c) ks)
  /\ (forall k, entries c' !! k = if decide (k ∈ ks) then None else entries c !! k).
Proof.
  revert c. induction ks as [|k ks IH]; intros c Hi Hn Hks; cbn [fold_left map sumZ].
  { do 3 (split; [done|]). split; [lia|]. split; [lia|]. done. }
  apply NoDup_cons in Hn as [Hk Hn]. apply Forall_cons in Hks as [[l Hkl] Hks].
  destruct (lookup_lt_is_Some_2 (arena c) l) as [e He]; [by eapply inv_locs|].
  destruct (evict_one_spec c k l e Hi Hkl He) as (Hi1 & E1 & E2 & E3 & E4 & E5).
  destruct (IH (evict_one c k) Hi1 Hn) as (Hi2 & F2 & F3 & F4 & F5 & F6).
  { apply Forall_forall. intros k' Hin. rewrite E1, lookup_delete_ne by (intros ->; done).
    by apply (proj1 (Forall_forall _ _) Hks). }
  assert (key_bytes c k = kv_bytes e) as Hbk
    by (unfold key_bytes, bytes_at; rewrite Hkl; unfold entry_at in He; by rewrite He).
  assert (map (key_bytes (evict_one c k)) ks = map (key_bytes c) ks) as Hmap.
  { apply map_ext_in. intros k' Hin. unfold key_bytes. rewrite E1, E2, lookup_delete_ne; [done|].
    intros ->. by apply list_elem_of_In in Hin. }
  rewrite Hmap in F4, F5. split; [done|]. split; [congruence|]. split; [congruence|].
  split; [lia|]. split; [lia|]. intros k'. rewrite F6, E1.
  destruct (decide (k' ∈ ks)), (decide (k' ∈ k :: ks)) as [Hin|Hin]; try done; [set_solver| |].
  - apply elem_of_cons in Hin as [->|]; [by rewrite lookup_delete_eq|done].
  - apply lookup_delete_ne. set_solver.
Qed.

Lemma cand_bytes_nonneg c l : inv c -> l ⊆ candidates c -> 0 <= cand_bytes l.
Proof.
  intros Hi Hsub. apply sumZ_map_nonneg. intros [[k t] b] Hin. simpl.
  apply list_elem_of_In, Hsub, list_elem_of_In, candidates_spec in Hin as (lc & e & _ & He & _ & _ & ->).
  by apply (Forall_lookup_1 _ _ _ _ (inv_bytes c Hi) He).
Qed.

Lemma taken_bytes c taken rest :
  candidates c = taken ++ rest ->
  NoDup (map (fun x => x.1.1) taken)
  /\ Forall (fun k => is_Some (entries c !! k)) (map (fun x => x.1.1) taken)
  /\ sumZ (map (key_bytes c) (map (fun x => x.1.1) taken)) = cand_bytes taken.
Proof.
  intros Hc. assert (forall x, In x taken -> exists l e, entries c !! x.1.1 = Some l
    /\ entry_at c l = Some e /\ x.2 = kv_bytes e) as Hx.
  { intros [[k t] b] Hin. assert (In (k, t, b) (candidates c)) as Hin' by (rewrite Hc; by apply in_or_app; left).
    apply candidates_spec in Hin' as (l & e & ? & ? & _ & _ & ?). simpl. eauto. }
  split; [|split].
  - pose proof (candidates_keys_NoDup c) as Hn. rewrite Hc, map_app in Hn. by apply NoDup_app in Hn as [? _].
  - apply List.Forall_forall. intros k Hin. apply in_map_iff in Hin as (x & <- & Hin).
    destruct (Hx x Hin) as (l & e & -> & _). by eexists.
  - rewrite map_map. unfold cand_bytes. f_equal. apply map_ext_in. intros x Hin.
    destruct (Hx x Hin) as (l & e & Hk & He & ->). unfold key_bytes, bytes_at, entry_at in *. by rewrite Hk, He.
Qed.

Lemma sync_used_similar c : similar c (sync_used c).
Proof. by repeat split. Qed.

(** What [evict_until_fits] does, on both outcomes. *)
Lemma evict_spec needed c :
  inv c -> 0 <= needed ->
  match evict_until_fits needed c with
  | (Ok _, c') =>
      inv c' /\ needed <= max_bytes c' - used_bytes c' /\ arena c' = arena c
      /\ max_bytes c' = max_bytes c /\ used_bytes c - used_bytes c' = total c - total c'
      /\ exists taken rest, candidates c = taken ++ rest
          /\ (forall k, entries c' !! k
                = if decide (k ∈ map (fun x => x.1.1) taken) then None else entries c !! k)
          /\ (needed <= max_bytes c - used_bytes c -> c' = c)
          /\ used_bytes c - used_bytes c' = cand_bytes taken
          /\ (max_bytes c - used_bytes c < needed -> exists x, last taken = Some x
                /\ cand_bytes taken - x.2 < needed - (max_bytes c - used_bytes c))
  | (Err e, c') =>
      c' = c /\ (exists msg, e = MemoryPressure msg)
      /\ max_bytes c - used_bytes c + cand_bytes (candidates c) < needed
  end.
Proof.
  intros Hi Hn. pose proof (inv_used c Hi). unfold evict_until_fits.
  assert (saturating_sub (max_bytes c) (used_bytes c) = max_bytes c - used_bytes c) as ->
    by (unfold saturating_sub; lia).
  destruct (Z.leb_spec needed (max_bytes c - used_bytes c)) as [Hle|Hgt].
  { split; [done|]. split; [done|]. split; [done|]. split; [done|]. split; [lia|].
    exists [], (candidates c). split; [done|]. split; [done|]. split; [done|].
    unfold cand_bytes. simpl. split; [lia|]. lia. }
  set (to_free := needed - (max_bytes c - used_bytes c)).
  destruct (pick_spec to_free 0 (candidates c)) as (taken & rest & Hc & -> & Hrest & Hlast); [lia|].
  rewrite Z.add_0_l in *.
  destruct (Z.ltb_spec (cand_bytes taken) to_free) as [Hlt|Hge].
  { split; [done|]. split; [eauto|]. specialize (Hrest Hlt). subst rest.
    rewrite app_nil_r in Hc. rewrite Hc. lia. }
  destruct (taken_bytes c taken rest Hc) as (T1 & T2 & T3).
  destruct (evict_all_spec c _ Hi T1 T2) as (Hi' & E1 & E2 & E3 & E4 & E5). rewrite T3 in *.
  set (c1 := fold_left evict_one (map (fun x => x.1.1) taken) c) in *.
  pose proof (similar_total _ _ (sync_used_similar c1)).
  split; [by apply (similar_inv c1)|]. simpl. split; [rewrite E2; lia|]. split; [done|]. split; [done|].
  split; [lia|]. exists taken, rest. split; [done|]. split; [done|]. split; [lia|]. split; [lia|].
  intros _. destruct (last taken) as [x|] eqn:El.
  - exists x. split; [done|]. by apply Hlast.
  - apply last_None in El. subst taken. unfold cand_bytes in Hge. simpl in Hge. lia.
Qed.

Lemma insert_spec key e c :
  inv c -> entry_wf e ->
  match insert key e c with
  | (Ok l, c') =>
      inv c' /\ entries c' !! key = Some l /\ entry_at c' l = Some e
      /\ (entries c !! key = None -> used_bytes c = total c -> used_bytes c' = total c')
  | (Err _, c') => c' = c
  end.
Proof.
  intros Hi He. unfold insert. destruct (Z.ltb_spec (max_bytes c) (kv_bytes e)) as [|Hfit]; [done|].
  pose proof (evict_spec (kv_bytes e) c Hi He) as Hev.
  destruct (evict_until_fits (kv_bytes e) c) as [[[]|err] c1]; [|by destruct Hev].
  destruct Hev as (Hi1 & Hroom & Ha & Hm & Hd & taken & rest & _ & Hents & _).
  pose proof Hi1 as [Hmax Hu Ht Hl Hb].
  assert (u64_wrapping_add (used_bytes c1) (kv_bytes e) = used_bytes c1 + kv_bytes e) as Hw.
  { apply u64_wrapping_add_small. unfold entry_wf in He. solve_range. }
  rewrite Hw. set (c' := mkPrefixCache _ _ _ _ _ _).
  assert (forall m, (forall k l, m !! k = Some l -> (l < length (arena c1))%nat) ->
    total_of (arena c1 ++ [e]) m = total_of (arena c1) m) as Hext.
  { intros m Hm'. apply total_of_ext. intros k l Hk. unfold bytes_at. rewrite lookup_app_l; eauto. }
  assert (bytes_at (arena c1 ++ [e]) (length (arena c1)) = kv_bytes e) as Hbe
    by (unfold bytes_at; by rewrite list_lookup_middle).
  assert (total c' = kv_bytes e + total_of (arena c1) (delete key (entries c1))) as Htot.
  { unfold total, c'. cbn [arena entries]. rewrite <- insert_delete_eq.
    rewrite total_of_insert, Hbe, Hext; [done| |apply lookup_delete_eq].
    intros k l Hk. apply lookup_delete_Some in Hk as [_ Hk]. eauto. }
  assert (total_of (arena c1) (delete key (entries c1)) <= total c1) as Hle.
  { unfold total. destruct (entries c1 !! key) as [l|] eqn:Hk.
    - rewrite (total_of_delete _ _ _ _ Hk). pose proof (bytes_at_nonneg (arena c1) l Hb). lia.
    - by rewrite delete_id. }
  unfold entry_wf in He. split; [split; simpl; try done|].
  - lia.
  - lia.
  - intros k l. rewrite length_app. simpl. intros [[_ <-]|[_ Hk]]%lookup_insert_Some; [lia|].
    apply Hl in Hk. lia.
  - by apply Forall_app_2; [|constructor].
  - split; [apply lookup_insert_eq|]. split; [apply list_lookup_middle; done|].
    intros Hk Heq. rewrite Htot. cbn [used_bytes c'].
    assert (entries c1 !! key = None) as Hk1 by (rewrite Hents; by destruct (decide _)).
    rewrite delete_id by done. fold (total c1). simpl. lia.
Qed.

(** A change that keeps the invariant and, unless it overwrites, the exact count. *)
Definition accounted (fresh : Prop) (c c' : PrefixKvCache) : Prop :=
  inv c' /\ (fresh -> used_bytes c = total c -> used_bytes c' = total c').

Lemma accounted_refl fresh c : inv c -> accounted fresh c c.
Proof. by split. Qed.

Lemma similar_accounted fresh c c' : inv c -> similar c c' -> accounted fresh c c'.
Proof.
  intros Hi Hs. split; [by eapply similar_inv|]. intros _ E.
  rewrite (similar_total _ _ Hs). destruct Hs as (_ & -> & _). done.
Qed.

Lemma insert_accounted key e c :
  inv c -> entry_wf e -> accounted (entries c !! key = None) c (insert key e c).2.
Proof.
  intros Hi He. pose proof (insert_spec key e c Hi He) as Hs.
  destruct (insert key e c) as [[l|err] c']; simpl; [by destruct Hs as (? & _ & _ & ?)|].
  subst c'. by apply accounted_refl.
Qed.

Lemma remove_accounted key c : inv c -> accounted True c (remove key c).2.
Proof.
  intros Hi. unfold remove. destruct (entries c !! key) as [l|] eqn:Hk; simpl; [|by apply accounted_refl].
  destruct (entry_at c l) as [e|] eqn:He; simpl; [|by apply accounted_refl].
  destruct (evict_one_spec c key l e Hi Hk He) as (Hi' & E1 & E2 & E3 & E4 & E5).
  assert (accounted True c (evict_one c key)) as [Ha Hb] by (split; [done|intros _ ?; lia]).
  assert (similar (evict_one c key) (mkPrefixCache (delete key (entries c)) (arena c) (max_bytes c)
    (u64_wrapping_sub (used_bytes c) (kv_bytes e)) (current_tick c)
    (mkPrefixStats (hits (stats c)) (misses (stats c)) (evictions (stats c))
       (saturating_sub (entry_count (stats c)) 1) (u64_wrapping_sub (used_bytes c) (kv_bytes e))
       (integrity_failures (stats c))))) as Hs.
  { unfold evict_one. rewrite Hk. cbn [mbind option_bind]. rewrite He. by repeat split. }
  destruct (similar_accounted True _ _ Ha Hs) as [Hc Hd]. split; [done|]. intros _ E.
  apply Hd; [done|]. by apply Hb.
Qed.

Lemma clear_accounted c : inv c -> accounted True c (clear c).
Proof.
  intros [Hm Hu Ht Hl Hb]. assert (total (clear c) = 0) as E by (unfold total, total_of; simpl; by rewrite map_to_list_empty).
  split; [|by rewrite E]. split; rewrite ?E; simpl; try done; lia.
Qed.

Lemma get_or_build_accounted key builder c :
  inv c -> match builder with Ok e => entry_wf e | Err _ => True end ->
  accounted True c (get_or_build key builder c).2.
Proof.
  intros Hi Hb. unfold get_or_build.
  pose proof (get_similar key c) as Hg. destruct (get key c) as [[l|] c1]; simpl in *.
  { by apply similar_accounted. }
  pose proof (similar_accounted True _ _ Hi Hg) as [Hi1 He1].
  assert (accounted True c1 (build_and_cache_entry key builder c1).2) as [Hi2 He2].
  { unfold build_and_cache_entry. destruct (entries c1 !! key) as [l|] eqn:Hk.
    - simpl. apply similar_accounted; [done|apply touch_similar].
    - destruct builder as [e|err]; [|by apply accounted_refl]. pose proof (insert_accounted key e c1 Hi1 Hb) as [Ha Hx].
      destruct (insert key e c1) as [[l|err] c2]; simpl in *; (split; [done|]; intros _; by apply Hx). }
  destruct (build_and_cache_entry key builder c1) as [[l|msg] c2]; simpl in *;
    (split; [done|]; intros _ E; apply He2; [done|by apply He1]).
Qed.

Lemma step_accounted ow c c' : inv c -> step ow c c' -> accounted (ow = false) c c'.
Proof.
  intros Hi Hs. assert (accounted True c c' -> accounted (ow = false) c c') as Hw
    by (intros [? Hx]; split; [done|]; intros _; by apply Hx).
  destruct Hs as [key c|tokens ctx tok model m c|key tokens ctx tok model c|key e c He Hk
    |key builder c Hb|key c|c|l c|l c|t c|l ks vs c].
  - by apply similar_accounted, get_similar.
  - by apply similar_accounted, find_similar.
  - by apply similar_accounted, get_or_find_similar.
  - destruct (insert_accounted key e c Hi He) as [? Hx]. split; [done|]. intros Ho.
    apply Hx. destruct Hk; congruence.
  - by apply Hw, get_or_build_accounted.
  - by apply Hw, remove_accounted.
  - by apply Hw, clear_accounted.
  - by apply similar_accounted, update_entry_similar.
  - by apply similar_accounted, update_entry_similar.
  - by apply similar_accounted.
  - by apply similar_accounted, update_entry_similar.
Qed.

Lemma new_cache_inv m : is_u64 m -> inv (new m) /\ used_bytes (new m) = total (new m).
Proof.
  intros Hm. assert (total (new m) = 0) as E by (unfold total, total_of; simpl; by rewrite map_to_list_empty).
  split; [|done]. split; rewrite ?E; simpl; try done; destruct Hm; lia.
Qed.

(** ** The longest match *)

Lemma common_prefix_take a b :
  take (common_prefix a b) a = take (common_prefix a b) b /\ (common_prefix a b <= length b)%nat.
Proof.
  revert b. induction a as [|x a IH]; intros [|y b]; simpl; try (split; [done|lia]).
  destruct (Z.eqb_spec x y) as [->|]; simpl; [|split; [done|lia]].
  destruct (IH b) as [-> ?]. split; [done|lia].
Qed.

Definition match_len (tokens : list Z) (ctx tok model : B3Hash) (e : PrefixKvEntry) : Z :=
  compute_prefix_match_length e tokens ctx tok model.

Lemma match_len_spec tokens ctx tok model e :
  Z.of_nat (length tokens) < u32_mod -> 1 <= match_len tokens ctx tok model e ->
  let n := common_prefix (prefix_tokens e) tokens in
  context_digest e = ctx /\ tokenizer_hash e = tok /\ model_identity_hash e = model
  /\ match_len tokens ctx tok model e = Z.of_nat n /\ (n <= length tokens)%nat
  /\ take n (prefix_tokens e) = take n tokens.
Proof.
  intros Hlen. destruct (common_prefix_take (prefix_tokens e) tokens) as [Htake Hle].
  unfold match_len, compute_prefix_match_length.
  destruct (supports_prefix_matching e); simpl; [|lia].
  repeat case_bool_decide; simpl; try lia. rewrite Z.mod_small by lia. intros Hge.
  do 4 (split; [done|]). by split.
Qed.

(** An entry the search takes into account. *)
Definition qualifies (tokens : list Z) (ctx tok model : B3Hash) (min : Z) (e : PrefixKvEntry) : bool :=
  supports_prefix_matching e && verify_integrity e && (min <=? match_len tokens ctx tok model e).

(** [(k, n)] is at least as good as [(k', n')]: longer, or as long with a key that is not larger. *)
Definition at_least (k : B3Hash) (n : Z) (k' : B3Hash) (n' : Z) : Prop :=
  n' < n \/ n' = n /\ key_leb k k' = true.

Lemma key_leb_refl k : key_leb k k = true.
Proof. unfold key_leb. by destruct (String.leb_total (String.string_of_list_byte (as_bytes k)) (String.string_of_list_byte (as_bytes k))). Qed.

Lemma at_least_trans k n k1 n1 k2 n2 :
  at_least k n k1 n1 -> at_least k1 n1 k2 n2 -> at_least k n k2 n2.
Proof.
  unfold at_least. intros [?|[-> H1]] [?|[-> H2]]; [left; lia|left; lia|left; lia|right].
  split; [done|]. by eapply string_leb_trans.
Qed.

Lemma is_better_spec k n best :
  match best with
  | None => is_better k n best = true
  | Some (k', _, n') => if is_better k n best then at_least k n k' n' else at_least k' n' k n
  end.
Proof.
  destruct best as [[[k' l'] n']|]; [|done]. simpl. unfold at_least, key_ltb.
  destruct (Z.ltb_spec n' n); simpl; [left; lia|].
  destruct (Z.eqb_spec n n') as [->|]; simpl; [|left; lia].
  destruct (key_leb k k') eqn:E; simpl; [|right; split; [done|by apply string_leb_total]].
  case_bool_decide as Ek; simpl; [|by right; split]. subst. right. split; [done|apply key_leb_refl].
Qed.

(** The fold finds the best qualifying element. *)
Lemma consider_spec tokens ctx tok model min xs :
  match (fold_left (consider tokens ctx tok model min) xs (None, 0)).1 with
  | None => forall k l e, In (k, l, e) xs -> qualifies tokens ctx tok model min e = false
  | Some (k, l, n) =>
      exists e, In (k, l, e) xs /\ qualifies tokens ctx tok model min e = true
        /\ n = match_len tokens ctx tok model e
        /\ forall k' l' e', In (k', l', e') xs -> qualifies tokens ctx tok model min e' = true ->
             at_least k n k' (match_len tokens ctx tok model e')
  end.
Proof.
  induction xs as [|[[k0 l0] e0] xs IH] using rev_ind; [by intros k l e []|].
  rewrite fold_left_app. cbn [fold_left].
  destruct (fold_left _ xs _) as [best corrupted]. cbn [fst] in IH.
  assert (forall b : bool, b = qualifies tokens ctx tok model min e0 ->
    (consider tokens ctx tok model min (best, corrupted) (k0, l0, e0)).1
    = if b && is_better k0 (match_len tokens ctx tok model e0) best
      then Some (k0, l0, match_len tokens ctx tok model e0) else best) as Hstep.
  { intros b ->. unfold qualifies, consider, match_len.
    destruct (supports_prefix_matching e0), (verify_integrity e0); simpl; try done.
    by destruct (_ && _). }
  rewrite (Hstep _ eq_refl). clear Hstep.
  assert (forall x, In x (xs ++ [(k0, l0, e0)]) <-> In x xs \/ (k0, l0, e0) = x) as Hx
    by (intros x; rewrite in_app_iff; simpl; tauto).
  pose proof (is_better_spec k0 (match_len tokens ctx tok model e0) best) as Hb.
  assert (forall k n, at_least k n k n) as Hrefl by (intros; right; split; [done|apply key_leb_refl]).
  destruct (qualifies tokens ctx tok model min e0) eqn:Hq; cbn [andb].
  - destruct best as [[[k l] n]|].
    + destruct IH as (e & Hin & He & Hn & Hall). destruct (is_better _ _ _).
      * exists e0. split; [apply Hx; by right|]. split; [done|]. split; [done|].
        intros k' l' e' [Hin'|Hin']%Hx Hq'; [eapply at_least_trans; eauto|].
        simplify_eq. apply Hrefl.
      * exists e. split; [apply Hx; by left|]. split; [done|]. split; [done|].
        intros k' l' e' [Hin'|Hin']%Hx Hq'; [eauto|]. injection Hin' as <- <- <-. exact Hb.
    + rewrite Hb. exists e0. split; [apply Hx; by right|]. split; [done|]. split; [done|].
      intros k' l' e' [Hin'|Hin']%Hx Hq'; [by rewrite (IH _ _ _ Hin') in Hq'|].
      simplify_eq. apply Hrefl.
  - destruct best as [[[k l] n]|].
    + destruct IH as (e & Hin & He & Hn & Hall). exists e. split; [apply Hx; by left|].
      split; [done|]. split; [done|].
      intros k' l' e' [Hin'|Hin']%Hx Hq'; [eauto|]. injection Hin' as <- <- <-. congruence.
    + intros k' l' e' [Hin'|Hin']%Hx; [eauto|by simplify_eq].
Qed.

(** ** Theorems *)

(** [C5] The byte budget: over any sequence of lookups, insertions (also over cached
    keys), builds, removals, reference changes and memory faults, the cached entries
    take at most [used_bytes], which never exceeds [max_bytes]; as long as no
    insertion overwrites a cached key, [used_bytes] is exactly their size. *)
Theorem prefix_cache_within_budget overwrite m c :
  is_u64 m -> rtc (step overwrite) (new m) c ->
  total c <= used_bytes c <= max_bytes c /\ max_bytes c < u64_mod
  /\ (overwrite = false -> used_bytes c = total c).
Proof.
  intros Hm Hrun. destruct (new_cache_inv m Hm) as [H0 E0].
  assert (inv c /\ (overwrite = false -> used_bytes c = total c)) as [[[_ Hmax] Hu Ht _ _] He].
  { apply (rtc_invariant (step overwrite)
      (fun c => inv c /\ (overwrite = false -> used_bytes c = total c)) (new m)); [|done|done].
    intros a b [Ha Hea] Hs. destruct (step_accounted _ _ _ Ha Hs) as [Hb Heb].
    split; [done|]. auto. }
  split; [lia|]. split; [exact Hmax|done].
Qed.

(** Eviction is LRU: making room succeeds with enough room, removes nothing if
    there already was enough, removes only entries nobody holds and each no younger
    than every idle entry it keeps (ties by key), and stops at the first entry that
    frees enough; it fails, changing nothing, only if evicting every idle entry
    would not do. *)
Theorem eviction_is_lru needed c :
  inv c -> 0 <= needed ->
  match evict_until_fits needed c with
  | (Ok _, c') =>
      inv c' /\ needed <= max_bytes c' - used_bytes c'
      /\ (needed <= max_bytes c - used_bytes c -> c' = c)
      /\ entries c' ⊆ entries c
      /\ (forall k l e k' l' e',
            entries c !! k = Some l -> entries c' !! k = None -> entry_at c l = Some e ->
            is_in_use e = false
            /\ (entries c' !! k' = Some l' -> entry_at c l' = Some e' -> is_in_use e' = false ->
                candidate_leb (k, last_access_tick e, kv_bytes e)
                              (k', last_access_tick e', kv_bytes e') = true))
      /\ (max_bytes c - used_bytes c < needed ->
          exists k, is_Some (entries c !! k) /\ entries c' !! k = None
            /\ max_bytes c - used_bytes c' - key_bytes c k < needed)
  | (Err e, c') =>
      c' = c /\ (exists msg, e = MemoryPressure msg)
      /\ max_bytes c - used_bytes c + cand_bytes (candidates c) < needed
  end.
Proof.
  intros Hi Hn. pose proof (evict_spec needed c Hi Hn) as Hs.
  destruct (evict_until_fits needed c) as [[u|e] c']; [|done].
  destruct Hs as (Hi' & Hroom & _ & Hmax & _ & taken & rest & Hc & Hents & Hsame & Hb & Hmin).
  destruct (taken_bytes c taken rest Hc) as (_ & Hks & _).
  split; [done|]. split; [done|]. split; [done|]. split; [|split].
  - apply map_subseteq_spec. intros k l. rewrite Hents. by destruct (decide _).
  - intros k l e k' l' e' Hk Hk' He. rewrite Hents in Hk'.
    destruct (decide _) as [Hin|]; [|congruence].
    apply list_elem_of_In, in_map_iff in Hin as ([[k1 t1] b1] & Ek & Hin). simpl in Ek. subst k1.
    assert (In (k, t1, b1) (candidates c)) as Hcand by (rewrite Hc; apply in_or_app; by left).
    apply candidates_spec in Hcand as (l1 & e1 & Hk1 & He1 & Hu & -> & ->). simplify_eq.
    split; [done|]. intros Hl' He' Hu'. rewrite Hents in Hl'. destruct (decide _) as [|Hout]; [done|].
    assert (In (k', last_access_tick e', kv_bytes e') (candidates c)) as Hcand'
      by (apply candidates_spec; eauto 10).
    rewrite Hc in Hcand'. apply in_app_or in Hcand' as [Hcand'|Hcand'].
    { destruct Hout. apply list_elem_of_In, in_map_iff. by exists (k', last_access_tick e', kv_bytes e'). }
    pose proof (candidates_sorted c) as Hsort. rewrite Hc in Hsort.
    apply (StronglySorted_app_1_elem_of _ taken rest _ _ Hsort); by apply list_elem_of_In.
  - intros Hgt. destruct (Hmin Hgt) as ([[k t] b] & Hl & Hlast).
    assert (In (k, t, b) taken) as Hin by (apply list_elem_of_In; by apply last_Some_elem_of).
    assert (In (k, t, b) (candidates c)) as Hcand by (rewrite Hc; apply in_or_app; by left).
    apply candidates_spec in Hcand as (l1 & e1 & Hk1 & He1 & _ & _ & Hbe).
    exists k. rewrite Hents, Hk1. split; [by eexists|]. split.
    + rewrite decide_True; [done|]. apply list_elem_of_In, in_map_iff. by exists (k, t, b).
    + assert (key_bytes c k = b) as -> by (unfold key_bytes, bytes_at, entry_at in *; by rewrite Hk1, He1).
      simpl in Hlast. lia.
Qed.

(** The longest-prefix search is exact: with at least one token asked for, it
    returns an intact entry of the same context, tokenizer and model whose cached
    tokens agree with the input on the reported count, counts the rest as remaining,
    and no other such entry matches longer (ties go to the smallest key); it answers
    no match only when no intact entry matches enough tokens. *)
Theorem longest_prefix_is_best tokens ctx tok model min c :
  tokens <> [] -> Z.of_nat (length tokens) < u32_mod -> 1 <= min ->
  match (find_longest_prefix_match tokens ctx tok model min c).1 with
  | Some m =>
      exists e, entries c !! cache_key m = Some (match_entry m) /\ entry_at c (match_entry m) = Some e
        /\ verify_integrity e = true /\ context_digest e = ctx /\ tokenizer_hash e = tok
        /\ model_identity_hash e = model
        /\ min <= matched_token_count m <= Z.of_nat (length tokens)
        /\ take (Z.to_nat (matched_token_count m)) (prefix_tokens e)
           = take (Z.to_nat (matched_token_count m)) tokens
        /\ matched_token_count m + remaining_tokens m = Z.of_nat (length tokens)
        /\ forall k l e', entries c !! k = Some l -> entry_at c l = Some e' ->
             qualifies tokens ctx tok model min e' = true ->
             at_least (cache_key m) (matched_token_count m) k (match_len tokens ctx tok model e')
  | None =>
      forall k l e, entries c !! k = Some l -> entry_at c l = Some e ->
        qualifies tokens ctx tok model min e = false
  end.
Proof.
  intros Hne Hlen Hmin. pose proof (consider_spec tokens ctx tok model min (iter c)) as Hs.
  unfold find_longest_prefix_match. destruct tokens as [|t0 ts] eqn:Et; [done|]. rewrite <- Et in *.
  destruct (fold_left _ _ _) as [[[[k l] n]|] corrupted]; simpl in *.
  - destruct Hs as (e & Hin & Hq & -> & Hbest). apply iter_spec in Hin as [Hk He].
    exists e. split; [done|]. split; [done|].
    unfold qualifies in Hq. rewrite !andb_true_iff, Z.leb_le in Hq. destruct Hq as [[Hsup Hint] Hge].
    destruct (match_len_spec tokens ctx tok model e Hlen ltac:(lia)) as (Hc1 & Hc2 & Hc3 & Hn & Hle & Htake).
    rewrite (Z.mod_small (Z.of_nat (length tokens))) by lia.
    rewrite (Z.mod_small (_ - _)) by lia.
    do 4 (split; [done|]). split; [lia|]. split; [by rewrite Hn, Nat2Z.id|]. split; [lia|].
    intros k' l' e' Hk' He' Hq'. apply (Hbest k' l' e'); [by apply iter_spec|done].
  - intros k l e Hk He. apply (Hs k l e). by apply iter_spec.
Qed.

(** A replaced entry is never uncounted: inserting twice under one key and
    removing it leaves an empty cache that still counts the first entry, and from
    then on any entry larger than the rest of the budget is refused although nothing
    is cached. *)
Theorem overwrite_leaks_budget m key e big :
  is_u64 m -> 0 < kv_bytes e -> 2 * kv_bytes e <= m -> m - kv_bytes e < kv_bytes big <= m ->
  let c := (remove key (insert key e (insert key e (new m)).2).2).2 in
  entries c = ∅ /\ used_bytes c = kv_bytes e
  /\ exists msg, insert key big c = (Err (MemoryPressure msg), c).
Proof.
  intros Hm Hpos H2 Hbig c. assert (is_u64 (kv_bytes e)) as He by solve_range.
  assert (insert key e (new m) = (Ok 0%nat, mkPrefixCache {[ key := 0%nat ]} [e] m (kv_bytes e) 0
            (mkPrefixStats 0 0 0 1 (kv_bytes e) 0))) as E1.
  { unfold insert, evict_until_fits. simpl. rewrite (proj2 (Z.ltb_ge _ _)) by lia.
    unfold saturating_sub. rewrite (proj2 (Z.leb_le _ _)) by lia. simpl.
    by rewrite u64_wrapping_add_small by (rewrite Z.add_0_l; apply He). }
  assert (insert key e (mkPrefixCache {[ key := 0%nat ]} [e] m (kv_bytes e) 0
            (mkPrefixStats 0 0 0 1 (kv_bytes e) 0))
          = (Ok 1%nat, mkPrefixCache {[ key := 1%nat ]} [e; e] m (kv_bytes e + kv_bytes e) 0
               (mkPrefixStats 0 0 0 2 (kv_bytes e + kv_bytes e) 0))) as E2.
  { unfold insert, evict_until_fits. cbn [max_bytes used_bytes]. rewrite (proj2 (Z.ltb_ge _ _)) by lia.
    unfold saturating_sub. rewrite (proj2 (Z.leb_le _ _)) by lia. simpl.
    rewrite u64_wrapping_add_small by solve_range. by rewrite insert_singleton_eq. }
  assert (c = mkPrefixCache ∅ [e; e] m (kv_bytes e) 0 (mkPrefixStats 0 0 0 1 (kv_bytes e) 0)) as ->.
  { unfold c. rewrite E1. simpl snd. rewrite E2. simpl snd. unfold remove.
    cbn [entries]. rewrite lookup_singleton_eq. cbn [mbind option_bind entry_at arena lookup].
    simpl. rewrite delete_singleton_eq, u64_wrapping_sub_small by solve_range.
    by replace (kv_bytes e + kv_bytes e - kv_bytes e) with (kv_bytes e) by lia. }
  split; [done|]. split; [done|].
  unfold insert, evict_until_fits. cbn [max_bytes used_bytes].
  rewrite (proj2 (Z.ltb_ge _ _)) by lia. unfold saturating_sub.
  rewrite (proj2 (Z.leb_gt _ _)) by lia. cbn [candidates iter entries].
  unfold candidates, iter. cbn [entries]. rewrite map_to_list_empty. cbn.
  rewrite (proj2 (Z.ltb_lt _ _)) by lia. eauto.
Qed.

(** A corrupted entry is a miss for [get], but the re-check of the build path
    does not verify it: [get_or_build] hands the corrupted entry out without running
    the builder. *)
Theorem corrupted_entry_is_served key l e c builder :
  entries c !! key = Some l -> entry_at c l = Some e -> verify_integrity e = false ->
  (get key c).1 = None /\ (get_or_build key builder c).1 = Ok l
  /\ exists e', entry_at (get_or_build key builder c).2 l = Some e' /\ verify_integrity e' = false.
Proof.
  intros Hk He Hv.
  assert (get key c = (None, count_miss 1 true c)) as Hg.
  { unfold get. rewrite Hk. cbn [mbind option_bind]. rewrite He. cbn [mbind option_bind]. by rewrite Hv. }
  assert (get_or_build key builder c = (Ok l, touch l (count_miss 1 true c))) as ->.
  { unfold get_or_build. rewrite Hg. unfold build_and_cache_entry.
    change (entries (count_miss 1 true c)) with (entries c). by rewrite Hk. }
  rewrite Hg. split; [done|]. split; [done|].
  exists (store_access (inc64 (current_tick c)) e). split; [|exact Hv].
  unfold entry_at in *. simpl. by rewrite list_lookup_alter_eq, He.
Qed.

End WithHash.

(** ** Examples *)

Definition example_key (z : Z) : B3Hash := vec_of_Z 32 z.

Definition example_entry (tokens : list Z) : PrefixKvEntry :=
  @new_with_tokens toy_blake3 [[1; 2]] [[3; 4]] "t" tokens zero zero zero.

(** Two prefixes of a budget of 40 bytes. *)
Definition example_cache : PrefixKvCache :=
  (insert (example_key 2) (example_entry [5; 6; 7])
    (insert (example_key 1) (example_entry [5; 6]) (new 40)).2).2.

Lemma example_entry_wf tokens : entry_wf (example_entry tokens).
Proof. change (0 <= 16). lia. Qed.

Lemma example_run : rtc (@step toy_blake3 false) (new 40) example_cache.
Proof.
  eapply rtc_l; [eapply (step_insert _ (example_key 1) (example_entry [5; 6]));
    [apply example_entry_wf|by right]|].
  eapply rtc_l; [eapply (step_insert _ (example_key 2) (example_entry [5; 6; 7]));
    [apply example_entry_wf|right; vm_compute; reflexivity]|].
  constructor.
Qed.

Lemma prefix_cache_within_budget_witness :
  total example_cache <= used_bytes example_cache <= max_bytes example_cache
  /\ max_bytes example_cache < u64_mod
  /\ (false = false -> used_bytes example_cache = total example_cache).
Proof.
  apply (@prefix_cache_within_budget toy_blake3 false 40 example_cache).
  - unfold is_u64, u64_mod. lia.
  - apply example_run.
Defined.

Lemma example_inv : inv example_cache.
Proof.
  destruct (new_cache_inv 40) as [H0 _]; [unfold is_u64, u64_mod; lia|].
  apply (rtc_invariant (@step toy_blake3 false) inv (new 40)); [|done|apply example_run].
  intros a b Ha Hs. by apply (step_accounted false a b Ha Hs).
Qed.

Lemma eviction_is_lru_witness :
  match evict_until_fits 10 example_cache with
  | (Ok _, c') => inv c' /\ 10 <= max_bytes c' - used_bytes c'
  | (Err _, _) => False
  end.
Proof.
  pose proof (eviction_is_lru 10 example_cache example_inv ltac:(lia)) as H.
  destruct (evict_until_fits 10 example_cache) as [[u|e] c'] eqn:E.
  - destruct H as (H1 & H2 & _). exact (conj H1 H2).
  - exfalso. vm_compute in E. discriminate E.
Defined.

Lemma longest_prefix_is_best_witness :
  match (@find_longest_prefix_match toy_blake3 [5; 6; 7; 8] zero zero zero 1 example_cache).1 with
  | Some m => matched_token_count m + remaining_tokens m = 4
  | None => False
  end.
Proof.
  pose proof (@longest_prefix_is_best toy_blake3 [5; 6; 7; 8] zero zero zero 1 example_cache
    ltac:(discriminate) ltac:(reflexivity) ltac:(lia)) as H.
  destruct (find_longest_prefix_match _ _ _ _ _ _).1 as [m|] eqn:E.
  - destruct H as (e & _ & _ & _ & _ & _ & _ & _ & _ & H & _). exact H.
  - vm_compute in E. discriminate E.
Defined.

Lemma overwrite_leaks_budget_witness :
  let c := (remove (example_key 1) (insert (example_key 1) (example_entry [5])
              (insert (example_key 1) (example_entry [5]) (new 40)).2).2).2 in
  entries c = ∅ /\ used_bytes c = 16
  /\ exists msg, insert (example_key 1)
       (@new_entry toy_blake3 [[1; 2; 3; 4]] [[5; 6; 7; 8]] "t" 4) c = (Err (MemoryPressure msg), c).
Proof.
  apply (overwrite_leaks_budget 40 (example_key 1) (example_entry [5])
           (@new_entry toy_blake3 [[1; 2; 3; 4]] [[5; 6; 7; 8]] "t" 4)).
  - unfold is_u64, u64_mod. lia.
  - reflexivity.
  - vm_compute. discriminate.
  - vm_compute. split; [reflexivity|discriminate].
Defined.

Lemma corrupted_entry_is_served_witness :
  let c := update_entry (corrupt_payload [[9; 2]] [[3; 4]]) 0 example_cache in
  (@get toy_blake3 (example_key 1) c).1 = None
  /\ (@get_or_build toy_blake3 (example_key 1) (Err (Internal "not run")) c).1 = Ok 0%nat
  /\ exists e', entry_at (@get_or_build toy_blake3 (example_key 1) (Err (Internal "not run")) c).2 0
                = Some e' /\ @verify_integrity toy_blake3 e' = false.
Proof.
  apply (@corrupted_entry_is_served toy_blake3 (example_key 1) 0
           (corrupt_payload [[9; 2]] [[3; 4]] (example_entry [5; 6]))).
  - vm_compute; reflexivity.
  - vm_compute; reflexivity.
  - vm_compute; reflexivity.
Defined.

End PrefixKvCache.
