(* ===== verification/SingleFlight.v ===== *)
(** * Single-flight deduplication (adapteros-core/src/singleflight/sync_impl.rs)

    [SingleFlightSync] as an interleaving of threads. The state holds the in-flight
    map, the entries (result, waiter count, panic flag, holder of the result mutex)
    and the position of every thread inside [get_or_load]; an action is one step of
    one thread between two synchronisation points. The map's mutex protects a single
    step and is implicit. [Condvar::wait] releases the mutex and parks in one step,
    and (as parking_lot documents) wakes only by a notification. Metrics, logging
    and timing have no effect. *)

From S2P Require Import Prelude.

Module SingleFlight.

Section SingleFlight.
Context {K : Type} `{!EqDecision K} `{!Countable K}.
(** What [load_fn] returns: [Result<V, E>]. *)
Context {R : Type}.

Record InFlightEntrySync := mkInFlight {
  entry_result : option R;
  waiter_count : nat;
  leader_panicked : bool;
  lock_holder : option nat
}.

(** Where a thread stands in [get_or_load]. *)
Inductive pc :=
| Leading (key : K) (l : nat)          (* running load_fn *)
| Stored (key : K) (l : nat) (r : R)   (* set_result done, entry still in the map *)
| PanicMarked (key : K) (l : nat)      (* cleanup guard: flag stored *)
| PanicNotified (key : K) (l : nat)    (* cleanup guard: condvar notified *)
| LeaderUnwound                        (* the panic left get_or_load *)
| Waiting (l : nat)                    (* about to lock the result *)
| Locked (l : nat)                     (* holds the lock, result was None *)
| NotPanicked (l : nat)                (* holds the lock, flag was false *)
| Parked (l : nat)                     (* in condvar.wait *)
| WaiterPanicked (l : nat)             (* the panic of wait() *)
| Returned (l : nat) (r : R).

Record state := mkState {
  in_flight : gmap K nat;
  entries : list InFlightEntrySync;
  threads : gmap nat pc
}.

Definition init : state := mkState ∅ [] ∅.

Inductive action :=
| Enter (t : nat) (key : K)
| Finish (t : nat) (r : R)
| Cleanup (t : nat)
| MarkPanicked (t : nat)
| NotifyPanicked (t : nat)
| RemovePanicked (t : nat)
| Lock (t : nat)
| CheckPanicked (t : nat)
| Wait (t : nat).

(** *** Entry operations *)

Definition new_entry : InFlightEntrySync := mkInFlight None 0 false None.

Definition add_waiter (e : InFlightEntrySync) : InFlightEntrySync :=
  mkInFlight (entry_result e) (waiter_count e + 1) (leader_panicked e) (lock_holder e).

Definition store_result (r : R) (e : InFlightEntrySync) : InFlightEntrySync :=
  mkInFlight (Some r) (waiter_count e) (leader_panicked e) (lock_holder e).

Definition store_panicked (e : InFlightEntrySync) : InFlightEntrySync :=
  mkInFlight (entry_result e) (waiter_count e) true (lock_holder e).

Definition store_holder (h : option nat) (e : InFlightEntrySync) : InFlightEntrySync :=
  mkInFlight (entry_result e) (waiter_count e) (leader_panicked e) h.

(** [notify_all]: every thread parked on the entry goes for the lock again. *)
Definition notify (l : nat) (p : pc) : pc :=
  match p with Parked l' => if decide (l' = l) then Waiting l' else p | _ => p end.

Definition set_thread (t : nat) (p : pc) (s : state) : state :=
  mkState (in_flight s) (entries s) (<[t := p]> (threads s)).

Definition update_entry (l : nat) (f : InFlightEntrySync -> InFlightEntrySync) (s : state) : state :=
  mkState (in_flight s) (alter f l (entries s)) (threads s).

Definition notify_all (l : nat) (s : state) : state :=
  mkState (in_flight s) (entries s) (notify l <$> threads s).

Definition remove_key (key : K) (s : state) : state :=
  mkState (delete key (in_flight s)) (entries s) (threads s).

(** *** Steps of [get_or_load] *)

(** The lookup or registration under the map's lock; the first waiter leads. *)
Definition enter (t : nat) (key : K) (s : state) : option state :=
  match threads s !! t with
  | Some _ => None
  | None =>
      match in_flight s !! key with
      | Some l =>
          e ← entries s !! l;
          let waiter_num := waiter_count (add_waiter e) in
          Some (set_thread t (if (waiter_num =? 1)%nat then Leading key l else Waiting l)
                  (update_entry l add_waiter s))
      | None =>
          let l := length (entries s) in
          Some (set_thread t (Leading key l)
                  (mkState (<[key := l]> (in_flight s)) (entries s ++ [add_waiter new_entry])
                     (threads s)))
      end
  end.

(** [load_fn] returned: [set_result] under the result lock. *)
Definition set_result (t : nat) (r : R) (s : state) : option state :=
  match threads s !! t with
  | Some (Leading key l) =>
      e ← entries s !! l;
      match lock_holder e with
      | Some _ => None
      | None => Some (set_thread t (Stored key l r) (notify_all l (update_entry l (store_result r) s)))
      end
  | _ => None
  end.

Definition cleanup (t : nat) (s : state) : option state :=
  match threads s !! t with
  | Some (Stored key l r) => Some (set_thread t (Returned l r) (remove_key key s))
  | _ => None
  end.

(** [load_fn] panicked: the drop of [SyncCleanupGuard], which does not take the
    result lock. *)
Definition mark_panicked (t : nat) (s : state) : option state :=
  match threads s !! t with
  | Some (Leading key l) => Some (set_thread t (PanicMarked key l) (update_entry l store_panicked s))
  | _ => None
  end.

Definition notify_panicked (t : nat) (s : state) : option state :=
  match threads s !! t with
  | Some (PanicMarked key l) => Some (set_thread t (PanicNotified key l) (notify_all l s))
  | _ => None
  end.

Definition remove_panicked (t : nat) (s : state) : option state :=
  match threads s !! t with
  | Some (PanicNotified key l) => Some (set_thread t LeaderUnwound (remove_key key s))
  | _ => None
  end.

(** [wait]: take the lock and look at the result. *)
Definition wait_lock (t : nat) (s : state) : option state :=
  match threads s !! t with
  | Some (Waiting l) =>
      e ← entries s !! l;
      match lock_holder e, entry_result e with
      | Some _, _ => None
      | None, Some r => Some (set_thread t (Returned l r) s)
      | None, None => Some (set_thread t (Locked l) (update_entry l (store_holder (Some t)) s))
      end
  | _ => None
  end.

(** [wait]: the panic flag, read with the lock held. *)
Definition wait_check (t : nat) (s : state) : option state :=
  match threads s !! t with
  | Some (Locked l) =>
      e ← entries s !! l;
      if leader_panicked e
      then Some (set_thread t (WaiterPanicked l) (update_entry l (store_holder None) s))
      else Some (set_thread t (NotPanicked l) s)
  | _ => None
  end.

(** [condvar.wait]: release the lock and park. *)
Definition wait_park (t : nat) (s : state) : option state :=
  match threads s !! t with
  | Some (NotPanicked l) => Some (set_thread t (Parked l) (update_entry l (store_holder None) s))
  | _ => None
  end.

Definition act (a : action) (s : state) : option state :=
  match a with
  | Enter t key => enter t key s
  | Finish t r => set_result t r s
  | Cleanup t => cleanup t s
  | MarkPanicked t => mark_panicked t s
  | NotifyPanicked t => notify_panicked t s
  | RemovePanicked t => remove_panicked t s
  | Lock t => wait_lock t s
  | CheckPanicked t => wait_check t s
  | Wait t => wait_park t s
  end.

Definition step (s s' : state) : Prop := exists a, act a s = Some s'.

Fixpoint acts (l : list action) (s : state) : option state :=
  match l with [] => Some s | a :: l => s' ← act a s; acts l s' end.

(** *** Queries *)

Definition is_loading (key : K) (s : state) : bool := bool_decide (is_Some (in_flight s !! key)).

Definition waiters_of (key : K) (s : state) : nat :=
  match l ← in_flight s !! key; entries s !! l with Some e => waiter_count e | None => 0 end.

(** ** Invariant *)

(** The key and entry a thread is the leader of. *)
Definition leads (p : pc) : option (K * nat) :=
  match p with
  | Leading k l | Stored k l _ | PanicMarked k l | PanicNotified k l => Some (k, l)
  | _ => None
  end.

(** The thread is inside the critical section of the entry's result lock. *)
Definition holds (p : pc) : option nat :=
  match p with Locked l | NotPanicked l => Some l | _ => None end.

(** The facts a thread's position needs from the entries. *)
Definition pc_ok (es : list InFlightEntrySync) (p : pc) : Prop :=
  match p with
  | Leading _ l => forall e, es !! l = Some e -> entry_result e = None
  | Stored _ l r | Returned l r => exists e, es !! l = Some e /\ entry_result e = Some r
  | Waiting l => is_Some (es !! l)
  | Parked l => exists e, es !! l = Some e /\ entry_result e = None
  | _ => True
  end.

Record inv (s : state) : Prop := {
  inv_leader : forall t p k l, threads s !! t = Some p -> leads p = Some (k, l) ->
    in_flight s !! k = Some l;
  inv_unique : forall t t' p p' k k' l, threads s !! t = Some p -> threads s !! t' = Some p' ->
    leads p = Some (k, l) -> leads p' = Some (k', l) -> t = t';
  inv_map : forall k l, in_flight s !! k = Some l ->
    exists e, entries s !! l = Some e /\ (1 <= waiter_count e)%nat;
  inv_inj : forall k k' l, in_flight s !! k = Some l -> in_flight s !! k' = Some l -> k = k';
  inv_pc : forall t p, threads s !! t = Some p -> pc_ok (entries s) p;
  inv_holds : forall t p l, threads s !! t = Some p -> holds p = Some l ->
    exists e, entries s !! l = Some e /\ lock_holder e = Some t /\ entry_result e = None;
  inv_holder : forall l e t, entries s !! l = Some e -> lock_holder e = Some t ->
    exists p, threads s !! t = Some p /\ holds p = Some l
}.

(** ** Lemmas *)

Lemma alter_lookup (f : InFlightEntrySync -> InFlightEntrySync) (l : nat)
    (es : list InFlightEntrySync) (j : nat) e :
  es !! j = Some e -> alter f l es !! j = Some (if decide (j = l) then f e else e).
Proof.
  intros He. destruct (decide (j = l)) as [->|]; [by rewrite list_lookup_alter_eq, He|].
  by rewrite list_lookup_alter_ne.
Qed.

Lemma alter_lookup_inv (f : InFlightEntrySync -> InFlightEntrySync) (l : nat)
    (es : list InFlightEntrySync) (j : nat) e' :
  alter f l es !! j = Some e' ->
  exists e, es !! j = Some e /\ e' = if decide (j = l) then f e else e.
Proof.
  intros He. destruct (es !! j) as [e|] eqn:E.
  - exists e. split; [done|]. rewrite (alter_lookup f l es j e E) in He. congruence.
  - destruct (decide (j = l)) as [->|];
      [rewrite list_lookup_alter_eq, E in He|rewrite list_lookup_alter_ne, E in He by done]; done.
Qed.

(** The entry a position speaks about. *)
Definition pc_entry (p : pc) : option nat :=
  match p with
  | Leading _ l | Stored _ l _ | Returned l _ | Waiting l | Parked l => Some l
  | _ => None
  end.

(** [pc_ok] only looks at the results of existing entries. *)
Lemma pc_ok_ext es es' p :
  (forall l e, pc_entry p = Some l -> es !! l = Some e ->
     exists e', es' !! l = Some e' /\ entry_result e' = entry_result e) ->
  (forall l e', pc_entry p = Some l -> es' !! l = Some e' ->
     exists e, es !! l = Some e /\ entry_result e = entry_result e') ->
  pc_ok es p -> pc_ok es' p.
Proof.
  intros Hf Hb. destruct p; simpl in *; try done.
  - intros Hp e' He'. destruct (Hb _ _ eq_refl He') as (e & He & <-). by apply Hp.
  - intros (e & He & Hr). destruct (Hf _ _ eq_refl He) as (e' & ? & ?). exists e'. split; [done|congruence].
  - intros [e He]. destruct (Hf _ _ eq_refl He) as (e' & ? & _). by exists e'.
  - intros (e & He & Hr). destruct (Hf _ _ eq_refl He) as (e' & ? & ?). exists e'. split; [done|congruence].
  - intros (e & He & Hr). destruct (Hf _ _ eq_refl He) as (e' & ? & ?). exists e'. split; [done|congruence].
Qed.

Lemma pc_ok_alter es l f p :
  (pc_entry p = Some l -> forall e, entry_result (f e) = entry_result e) ->
  pc_ok es p -> pc_ok (alter f l es) p.
Proof.
  intros Hf. apply pc_ok_ext.
  - intros j e Hj He. eexists. split; [by apply alter_lookup|].
    destruct (decide (j = l)) as [->|]; [by apply Hf|done].
  - intros j e' Hj He'. apply alter_lookup_inv in He' as (e & He & ->). exists e. split; [done|].
    destruct (decide (j = l)) as [->|]; [symmetry; by apply Hf|done].
Qed.

(** Counting waiters up keeps the in-flight map backed by live entries. *)
Lemma inv_map_alter s l f :
  (forall e, (waiter_count e <= waiter_count (f e))%nat) -> inv s ->
  forall k j, in_flight s !! k = Some j ->
  exists e, alter f l (entries s) !! j = Some e /\ (1 <= waiter_count e)%nat.
Proof.
  intros Hf Hi k j Hk. destruct (inv_map s Hi _ _ Hk) as (e & He & Hw).
  eexists. split; [by apply alter_lookup|]. destruct (decide _); [|done]. pose proof (Hf e). lia.
Qed.

(** A change of an entry that keeps its result and lock holder keeps the invariant. *)
Lemma update_entry_inv s l f :
  (forall e, entry_result (f e) = entry_result e /\ lock_holder (f e) = lock_holder e
     /\ (waiter_count e <= waiter_count (f e))%nat) ->
  inv s -> inv (update_entry l f s).
Proof.
  intros Hf Hi. pose proof Hi as [H1 H2 H3 H4 H5 H6 H7].
  split; cbn [in_flight threads entries update_entry]; try done.
  - apply inv_map_alter; [apply Hf|done].
  - intros t p Ht. apply pc_ok_alter; [intros; apply Hf|eauto].
  - intros t p j Ht Hp. destruct (H6 _ _ _ Ht Hp) as (e & He & Hh & Hr). eexists.
    split; [by apply alter_lookup|]. destruct (decide _); [|done].
    destruct (Hf e) as (? & ? & _). split; congruence.
  - intros j e' t He' Hh. apply alter_lookup_inv in He' as (e & He & ->).
    apply (H7 j e); [done|]. destruct (decide _); [|done]. destruct (Hf e) as (_ & ? & _). congruence.
Qed.

Lemma notify_leads l p : leads (notify l p) = leads p /\ holds (notify l p) = holds p.
Proof. destruct p; simpl; try done. by destruct (decide _). Qed.

Lemma notify_pc_ok es l p : pc_ok es p -> pc_ok es (notify l p).
Proof.
  destruct p; simpl; try done. intros (e & He & Hr). destruct (decide _); [by exists e|by exists e].
Qed.

Lemma notify_all_inv s l : inv s -> inv (notify_all l s).
Proof.
  intros [H1 H2 H3 H4 H5 H6 H7].
  assert (forall t q, threads (notify_all l s) !! t = Some q ->
    exists p, threads s !! t = Some p /\ q = notify l p) as Hb.
  { intros t q Hq. simpl in Hq. rewrite lookup_fmap in Hq.
    destruct (threads s !! t) as [p|]; [|done]. injection Hq as <-. eauto. }
  split; cbn [in_flight entries notify_all]; [| |done|done| | |].
  - intros t q k j Hq Hl. destruct (Hb _ _ Hq) as (p & Hp & ->).
    rewrite (proj1 (notify_leads l p)) in Hl. eauto.
  - intros t t' q q' k k' j Hq Hq' Hl Hl'.
    destruct (Hb _ _ Hq) as (p & Hp & ->), (Hb _ _ Hq') as (p' & Hp' & ->).
    rewrite (proj1 (notify_leads l p)) in Hl. rewrite (proj1 (notify_leads l p')) in Hl'. eauto.
  - intros t q Hq. destruct (Hb _ _ Hq) as (p & Hp & ->). apply notify_pc_ok. eauto.
  - intros t q j Hq Hh. destruct (Hb _ _ Hq) as (p & Hp & ->).
    rewrite (proj2 (notify_leads l p)) in Hh. eauto.
  - intros j e t He Hh. destruct (H7 _ _ _ He Hh) as (p & Hp & Hl). exists (notify l p).
    cbn [threads notify_all]. rewrite lookup_fmap, Hp, (proj2 (notify_leads l p)). done.
Qed.

Lemma insert_thread_inv (m : gmap nat pc) t p t' q :
  <[t := p]> m !! t' = Some q -> t' = t /\ q = p \/ t' <> t /\ m !! t' = Some q.
Proof. intros [[<- <-]|[? ?]]%lookup_insert_Some; auto. Qed.

(** A thread that moves on: it leads what it led or stops leading, and stays on its
    side of the lock. *)
Lemma set_thread_inv s t p :
  inv s -> pc_ok (entries s) p ->
  (forall k l, leads p = Some (k, l) -> exists q, threads s !! t = Some q /\ leads q = Some (k, l)) ->
  holds p = threads s !! t ≫= holds ->
  inv (set_thread t p s).
Proof.
  intros [H1 H2 H3 H4 H5 H6 H7] Hok Hleads Hholds.
  assert (forall t' q k l, threads (set_thread t p s) !! t' = Some q -> leads q = Some (k, l) ->
    exists q', threads s !! t' = Some q' /\ leads q' = Some (k, l)) as Hl.
  { intros t' q k l [[-> ->]|[_ Hq]]%insert_thread_inv Hk; eauto. }
  split; cbn [in_flight entries set_thread]; [| |done|done| | |].
  - intros t' q k l Hq Hk. destruct (Hl _ _ _ _ Hq Hk) as (q' & ? & ?). eauto.
  - intros t1 t2 q1 q2 k1 k2 l Hq1 Hq2 Hk1 Hk2.
    destruct (Hl _ _ _ _ Hq1 Hk1) as (? & ? & ?), (Hl _ _ _ _ Hq2 Hk2) as (? & ? & ?). eauto.
  - intros t' q [[-> ->]|[_ Hq]]%insert_thread_inv; eauto.
  - intros t' q l [[-> ->]|[_ Hq]]%insert_thread_inv Hh; [|eauto].
    rewrite Hholds in Hh. destruct (threads s !! t) as [q|] eqn:E; [|done]. eauto.
  - intros l e t' He Hh. destruct (H7 _ _ _ He Hh) as (q & Hq & Hl'). cbn [threads set_thread].
    destruct (decide (t' = t)) as [->|Hne].
    + exists p. rewrite lookup_insert_eq. split; [done|]. by rewrite Hholds, Hq.
    + exists q. by rewrite lookup_insert_ne.
Qed.

Lemma remove_key_inv s k :
  (forall t p l, threads s !! t = Some p -> leads p <> Some (k, l)) -> inv s -> inv (remove_key k s).
Proof.
  intros Hk [H1 H2 H3 H4 H5 H6 H7].
  split; cbn [in_flight entries threads remove_key]; try done.
  - intros t p k' l Ht Hp. rewrite lookup_delete_ne; [eauto|]. intros ->. by apply (Hk t p l).
  - intros k' l [_ Hl]%lookup_delete_Some. eauto.
  - intros k1 k2 l [_ Hl1]%lookup_delete_Some [_ Hl2]%lookup_delete_Some. eauto.
Qed.

(** The threads inside the lock of an entry are its holder. *)
Lemma holder_alone s t p l t' e :
  inv s -> threads s !! t = Some p -> holds p = Some l ->
  entries s !! l = Some e -> lock_holder e = Some t' -> t = t'.
Proof.
  intros Hi Ht Hp He Hh. destruct (inv_holds s Hi _ _ _ Ht Hp) as (e' & ? & ? & _). congruence.
Qed.

(** Taking ([h = Some t]) and giving back ([h = None]) the lock of entry [l]. *)
Lemma lock_inv s t p l e h q :
  inv s -> threads s !! t = Some q -> entries s !! l = Some e -> entry_result e = None ->
  leads p = None -> pc_ok (entries s) p ->
  (h = Some t /\ holds q = None /\ lock_holder e = None /\ holds p = Some l
   \/ h = None /\ holds q = Some l /\ holds p = None) ->
  inv (set_thread t p (update_entry l (store_holder h) s)).
Proof.
  intros Hi Ht He Hr Hlp Hok Hcase. pose proof Hi as [H1 H2 H3 H4 H5 H6 H7].
  assert (forall t' x, threads s !! t' = Some x -> t' <> t -> holds x <> Some l) as Hout.
  { intros t' x Hx Hne Hh. destruct Hcase as [(_ & _ & Hn & _)|(_ & Hq & _)].
    - destruct (H6 _ _ _ Hx Hh) as (e' & ? & ? & _). congruence.
    - destruct (H6 _ _ _ Ht Hq) as (e' & He' & Hh' & _).
      by destruct Hne; apply (holder_alone s t' x l t e'). }
  split; cbn [in_flight threads entries set_thread update_entry]; [| | |done| | |].
  - intros t' x k j [[-> ->]|[_ Hx]]%insert_thread_inv Hk; [congruence|eauto].
  - intros t1 t2 x1 x2 k1 k2 j [[-> ->]|[_ Hx1]]%insert_thread_inv
      [[-> ->]|[_ Hx2]]%insert_thread_inv Hk1 Hk2; try congruence. eauto.
  - by apply inv_map_alter.
  - intros t' x [[-> ->]|[_ Hx]]%insert_thread_inv; apply pc_ok_alter; eauto.
  - intros t' x j [[-> ->]|[Hne Hx]]%insert_thread_inv Hh.
    + destruct Hcase as [(-> & _ & _ & Hhp)|(_ & _ & Hhp)]; [|congruence].
      assert (j = l) as -> by congruence. eexists. split; [by apply alter_lookup|].
      by rewrite decide_True.
    + destruct (H6 _ _ _ Hx Hh) as (e0 & Hj & Hh0 & Hr0). eexists. split; [by apply alter_lookup|].
      rewrite decide_False; [done|]. intros ->. by apply (Hout t' x).
  - intros j e' t' Hj Hh. apply alter_lookup_inv in Hj as (e0 & Hj & ->).
    destruct (decide (j = l)) as [->|Hne].
    + destruct Hcase as [(-> & _ & _ & Hhp)|(-> & _)]; [|done]. injection Hh as <-.
      exists p. by rewrite lookup_insert_eq.
    + destruct (H7 _ _ _ Hj Hh) as (x & Hx & Hhx). exists x.
      rewrite lookup_insert_ne; [done|]. intros <-. assert (x = q) as -> by congruence.
      destruct Hcase as [(_ & Hq & _)|(_ & Hq & _)]; congruence.
Qed.

Lemma leader_alone s t p k l :
  inv s -> threads s !! t = Some p -> leads p = Some (k, l) ->
  forall t' p' l', threads s !! t' = Some p' -> leads p' = Some (k, l') -> t' = t.
Proof.
  intros Hi Ht Hp t' p' l' Ht' Hp'.
  pose proof (inv_leader s Hi _ _ _ _ Ht Hp). pose proof (inv_leader s Hi _ _ _ _ Ht' Hp').
  assert (l' = l) as -> by congruence. by eapply (inv_unique s Hi).
Qed.

(** The first request of a key. *)
Lemma register_inv s t key :
  inv s -> threads s !! t = None -> in_flight s !! key = None ->
  inv (set_thread t (Leading key (length (entries s)))
         (mkState (<[key := length (entries s)]> (in_flight s)) (entries s ++ [add_waiter new_entry])
            (threads s))).
Proof.
  intros [H1 H2 H3 H4 H5 H6 H7] Ht Hk. remember (length (entries s)) as l eqn:El.
  assert (forall k j, in_flight s !! k = Some j -> (j < l)%nat) as Hlt.
  { intros k j Hj. destruct (H3 _ _ Hj) as (e & He & _). apply lookup_lt_Some in He. lia. }
  assert (forall j e, (entries s ++ [add_waiter new_entry]) !! j = Some e ->
    entries s !! j = Some e \/ j = l /\ e = add_waiter new_entry) as Hg.
  { intros j e [He|[Hle He]]%lookup_app_Some; [by left|]. right.
    destruct (j - length (entries s))%nat eqn:E; [|done]. injection He as <-. split; [lia|done]. }
  split; cbn [in_flight entries threads set_thread].
  - intros t' x k j [[-> ->]|[_ Hx]]%insert_thread_inv Hl.
    + injection Hl as <- <-. apply lookup_insert_eq.
    + pose proof (H1 _ _ _ _ Hx Hl). rewrite lookup_insert_ne; [done|]. intros ->. congruence.
  - intros t1 t2 x1 x2 k1 k2 j [[-> ->]|[_ Hx1]]%insert_thread_inv
      [[-> ->]|[_ Hx2]]%insert_thread_inv Hl1 Hl2; [done| | |eauto].
    + injection Hl1 as <- <-. pose proof (Hlt _ _ (H1 _ _ _ _ Hx2 Hl2)). lia.
    + injection Hl2 as <- <-. pose proof (Hlt _ _ (H1 _ _ _ _ Hx1 Hl1)). lia.
  - intros k j [[<- <-]|[_ Hj]]%lookup_insert_Some.
    + exists (add_waiter new_entry). split; [by apply list_lookup_middle|simpl; lia].
    + destruct (H3 _ _ Hj) as (e & He & Hw). exists e. split; [by apply lookup_app_l_Some|done].
  - intros k1 k2 j [[<- <-]|[_ Hj1]]%lookup_insert_Some [[<- E]|[_ Hj2]]%lookup_insert_Some; [done| | |eauto].
    + apply Hlt in Hj2. lia.
    + subst j. apply Hlt in Hj1. lia.
  - intros t' x [[-> ->]|[_ Hx]]%insert_thread_inv.
    + intros e [He|[_ ->]]%Hg; [|done]. apply lookup_lt_Some in He. lia.
    + apply (pc_ok_ext (entries s)); [| |eauto].
      * intros j e _ He. exists e. split; [by apply lookup_app_l_Some|done].
      * intros j e Hj [He|[-> ->]]%Hg; [eauto|]. exfalso. specialize (H5 _ _ Hx).
        destruct x; simpl in *; simplify_eq.
        -- pose proof (Hlt _ _ (H1 _ _ _ _ Hx eq_refl)). lia.
        -- destruct H5 as (? & He & _). apply lookup_lt_Some in He. lia.
        -- destruct H5 as [? He]. apply lookup_lt_Some in He. lia.
        -- destruct H5 as (? & He & _). apply lookup_lt_Some in He. lia.
        -- destruct H5 as (? & He & _). apply lookup_lt_Some in He. lia.
  - intros t' x j [[-> ->]|[_ Hx]]%insert_thread_inv Hh; [done|].
    destruct (H6 _ _ _ Hx Hh) as (e & He & ?). exists e. split; [by apply lookup_app_l_Some|done].
  - intros j e t' [He|[-> ->]]%Hg Hh; [|done]. destruct (H7 _ _ _ He Hh) as (x & Hx & ?).
    exists x. rewrite lookup_insert_ne; [done|]. intros ->. congruence.
Qed.

(** The leader stores the result with nobody inside the lock and nobody parked. *)
Lemma store_result_inv s t key l r e :
  inv s -> threads s !! t = Some (Leading key l) -> entries s !! l = Some e -> lock_holder e = None ->
  (forall t', threads s !! t' <> Some (Parked l)) ->
  inv (set_thread t (Stored key l r) (update_entry l (store_result r) s)).
Proof.
  intros Hi Ht He Hh Hnp. pose proof Hi as [H1 H2 H3 H4 H5 H6 H7].
  assert (entry_result e = None) as Hr by (by apply (H5 _ _ Ht)).
  split; cbn [in_flight threads entries set_thread update_entry]; [| | |done| | |].
  - intros t' x k j [[-> ->]|[_ Hx]]%insert_thread_inv Hl; [injection Hl as <- <-; by eapply H1|eauto].
  - intros t1 t2 x1 x2 k1 k2 j [[-> ->]|[_ Hx1]]%insert_thread_inv
      [[-> ->]|[_ Hx2]]%insert_thread_inv Hl1 Hl2; [done| | |eauto].
    + injection Hl1 as <- <-. by eapply (H2 t t2).
    + injection Hl2 as <- <-. by eapply (H2 t1 t).
  - by apply inv_map_alter.
  - intros t' x [[-> ->]|[Hne Hx]]%insert_thread_inv.
    + eexists. split; [by apply alter_lookup|]. by rewrite decide_True.
    + pose proof (H5 _ _ Hx) as Hok. destruct (decide (pc_entry x = Some l)) as [Hp|Hp];
        [|apply pc_ok_alter; [done|done]].
      destruct x; simpl in *; simplify_eq.
      * destruct Hne. by eapply (H2 t' t).
      * destruct Hok as (e0 & ? & ?). congruence.
      * eexists. by apply alter_lookup.
      * by destruct (Hnp t').
      * destruct Hok as (e0 & ? & ?). congruence.
  - intros t' x j [[-> ->]|[_ Hx]]%insert_thread_inv Hl; [done|].
    destruct (H6 _ _ _ Hx Hl) as (e0 & Hj & Hh0 & Hr0). eexists. split; [by apply alter_lookup|].
    rewrite decide_False; [done|]. intros ->. congruence.
  - intros j e' t' Hj Hh'. apply alter_lookup_inv in Hj as (e0 & Hj & ->).
    destruct (H7 j e0 t' Hj) as (x & Hx & Hl); [by destruct (decide _)|]. exists x.
    rewrite lookup_insert_ne; [done|]. intros <-. assert (x = Leading key l) as -> by congruence. done.
Qed.

Lemma nobody_parked_after_notify s l t : threads (notify_all l s) !! t <> Some (Parked l).
Proof.
  cbn. rewrite lookup_fmap. destruct (threads s !! t) as [p|]; [|done]. intros [= E].
  destruct p; simpl in E; try done. destruct (decide _) as [|Hn]; [done|]. injection E as ->. done.
Qed.

(** A leader that leaves: its key goes, and nobody else led it. *)
Lemma leave_inv s t q k l p :
  inv s -> threads s !! t = Some q -> leads q = Some (k, l) -> holds q = None ->
  leads p = None -> holds p = None -> pc_ok (entries s) p ->
  inv (set_thread t p (remove_key k s)).
Proof.
  intros Hi Ht Hq Hhq Hp Hhp Hok. change (inv (remove_key k (set_thread t p s))).
  apply remove_key_inv.
  - cbn [threads set_thread]. intros t' x l' [[<- <-]|[Hne Hx]]%lookup_insert_Some Hx'; [congruence|].
    destruct Hne. symmetry. by eapply (leader_alone s t q k l Hi Ht Hq).
  - apply set_thread_inv; [done|done|congruence|]. rewrite Ht. simpl. congruence.
Qed.

Lemma act_inv a s s' : inv s -> act a s = Some s' -> inv s'.
Proof.
  intros Hi. destruct a as [t key|t r|t|t|t|t|t|t|t]; cbn [act].
  - unfold enter. destruct (threads s !! t) eqn:Ht; [done|].
    destruct (in_flight s !! key) as [l|] eqn:Hk; [|intros [= <-]; by apply register_inv].
    destruct (inv_map s Hi _ _ Hk) as (e & He & Hw). rewrite He. cbn [mbind option_bind].
    rewrite (proj2 (Nat.eqb_neq _ 1)) by (simpl; lia). intros [= <-].
    apply set_thread_inv; [apply update_entry_inv; [simpl; repeat split; lia|done]|..].
    + simpl. rewrite (alter_lookup _ _ _ _ _ He). by eexists.
    + done.
    + cbn [threads update_entry]. by rewrite Ht.
  - unfold set_result. destruct (threads s !! t) as [[key l| | | | | | | | | |]|] eqn:Ht; try done.
    destruct (entries s !! l) as [e|] eqn:He; [|done]. cbn [mbind option_bind].
    destruct (lock_holder e) eqn:Hh; [done|]. intros [= <-].
    change (inv (set_thread t (Stored key l r) (update_entry l (store_result r) (notify_all l s)))).
    apply (store_result_inv _ t key l r e); [by apply notify_all_inv| |done|done|apply nobody_parked_after_notify].
    cbn. by rewrite lookup_fmap, Ht.
  - unfold cleanup. destruct (threads s !! t) as [[| key l r| | | | | | | | |]|] eqn:Ht; try done.
    intros [= <-]. apply (leave_inv s t (Stored key l r) key l); try done.
    by apply (inv_pc s Hi _ _ Ht).
  - unfold mark_panicked. destruct (threads s !! t) as [[key l| | | | | | | | | |]|] eqn:Ht; try done.
    intros [= <-]. apply set_thread_inv; [apply update_entry_inv; [simpl; repeat split; lia|done]|done|..].
    + intros k j [= <- <-]. exists (Leading key l). done.
    + cbn [threads update_entry]. by rewrite Ht.
  - unfold notify_panicked. destruct (threads s !! t) as [[| |key l| | | | | | | |]|] eqn:Ht; try done.
    intros [= <-]. apply set_thread_inv; [by apply notify_all_inv|done|..]; cbn [threads notify_all].
    + intros k j [= <- <-]. exists (PanicMarked key l). by rewrite lookup_fmap, Ht.
    + by rewrite lookup_fmap, Ht.
  - unfold remove_panicked. destruct (threads s !! t) as [[| | |key l| | | | | | |]|] eqn:Ht; try done.
    intros [= <-]. by apply (leave_inv s t (PanicNotified key l) key l).
  - unfold wait_lock. destruct (threads s !! t) as [[| | | | |l| | | | |]|] eqn:Ht; try done.
    destruct (entries s !! l) as [e|] eqn:He; [|done]. cbn [mbind option_bind].
    destruct (lock_holder e) eqn:Hh; [done|]. destruct (entry_result e) as [r|] eqn:Hr; intros [= <-].
    + apply set_thread_inv; [done|simpl; eauto|done|by rewrite Ht].
    + by apply (lock_inv s t (Locked l) l e (Some t) (Waiting l)); try done; left.
  - unfold wait_check. destruct (threads s !! t) as [[| | | | | |l| | | |]|] eqn:Ht; try done.
    destruct (inv_holds s Hi _ _ _ Ht eq_refl) as (e & He & Hh & Hr). rewrite He. cbn [mbind option_bind].
    destruct (leader_panicked e); intros [= <-].
    + by apply (lock_inv s t (WaiterPanicked l) l e None (Locked l)); try done; right.
    + apply set_thread_inv; [done|done|done|by rewrite Ht].
  - unfold wait_park. destruct (threads s !! t) as [[| | | | | | |l| | |]|] eqn:Ht; try done.
    destruct (inv_holds s Hi _ _ _ Ht eq_refl) as (e & He & Hh & Hr). intros [= <-].
    apply (lock_inv s t (Parked l) l e None (NotPanicked l)); try done; [by exists e|by right].
Qed.

Lemma init_inv : inv init.
Proof. split; intros *; cbn; rewrite ?lookup_empty; done. Qed.

Lemma reachable_inv s : rtc step init s -> inv s.
Proof.
  apply (rtc_invariant step inv); [|apply init_inv]. intros a b Ha [x Hx]. by eapply act_inv.
Qed.

Lemma acts_rtc l s s' : acts l s = Some s' -> rtc step s s'.
Proof.
  revert s. induction l as [|a l IH]; intros s E; simpl in E; [by injection E as ->; constructor|].
  destruct (act a s) as [s1|] eqn:Ea; [|done]. eapply rtc_l; [by exists a|]. by apply IH.
Qed.

(** *** A thread nobody will wake *)

Record stuck (t l : nat) (s : state) : Prop := {
  stuck_parked : threads s !! t = Some (Parked l);
  stuck_no_leader : forall t' p k, threads s !! t' = Some p -> leads p <> Some (k, l);
  stuck_not_in_map : forall k, in_flight s !! k <> Some l;
  stuck_entry : (l < length (entries s))%nat
}.

Lemma stuck_set_thread t l t0 p s :
  t0 <> t -> (forall k, leads p <> Some (k, l)) -> stuck t l s -> stuck t l (set_thread t0 p s).
Proof.
  intros Hne Hp [H1 H2 H3 H4]. split; cbn [threads set_thread in_flight entries]; try done.
  - by rewrite lookup_insert_ne.
  - intros t' q k [[_ <-]|[_ Hq]]%lookup_insert_Some; [apply Hp|by apply (H2 t')].
Qed.

Lemma stuck_update_entry t l j f s : stuck t l s -> stuck t l (update_entry j f s).
Proof. intros [H1 H2 H3 H4]. split; try done. cbn. by rewrite length_alter. Qed.

Lemma stuck_notify t l j s : j <> l -> stuck t l s -> stuck t l (notify_all j s).
Proof.
  intros Hj [H1 H2 H3 H4]. split; try done; cbn [threads notify_all].
  - rewrite lookup_fmap, H1. simpl. by rewrite decide_False.
  - intros t' q k Hq. rewrite lookup_fmap in Hq. destruct (threads s !! t') as [p|] eqn:E; [|done].
    injection Hq as <-. rewrite (proj1 (notify_leads j p)). by apply (H2 t').
Qed.

Lemma stuck_remove_key t l k s : stuck t l s -> stuck t l (remove_key k s).
Proof.
  intros [H1 H2 H3 H4]. split; try done. cbn. intros k'. rewrite lookup_delete_Some.
  intros [_ H]. by apply (H3 k').
Qed.

Lemma stuck_act t l a s s' : stuck t l s -> act a s = Some s' -> stuck t l s'.
Proof.
  intros Hs. pose proof Hs as [H1 H2 H3 H4].
  assert (forall t0 p, threads s !! t0 = Some p -> p <> Parked l -> t0 <> t) as Hne by (intros t0 p ? ? ->; congruence).
  destruct a as [t0 key|t0 r|t0|t0|t0|t0|t0|t0|t0]; cbn [act].
  - unfold enter. destruct (threads s !! t0) eqn:Ht; [done|].
    assert (t0 <> t) as Hne0 by (intros ->; congruence).
    destruct (in_flight s !! key) as [j|] eqn:Hk.
    + destruct (entries s !! j) as [e|]; [|done]. cbn [mbind option_bind]. intros [= <-].
      assert (j <> l) by (intros ->; by apply (H3 key)).
      apply stuck_set_thread; [done| |by apply stuck_update_entry].
      intros k. destruct (_ =? 1)%nat; simpl; congruence.
    + intros [= <-]. apply stuck_set_thread; [done|simpl; intros k [= _ E]; lia|].
      split; cbn [threads in_flight entries]; [done|done| |rewrite length_app; simpl; lia].
      intros k [[_ E]|[_ E]]%lookup_insert_Some; [lia|by apply (H3 k)].
  - unfold set_result. destruct (threads s !! t0) as [[key j| | | | | | | | | |]|] eqn:Ht; try done.
    destruct (entries s !! j) as [e|]; [|done]. cbn [mbind option_bind].
    destruct (lock_holder e); [done|]. intros [= <-].
    assert (j <> l) by (intros ->; by apply (H2 _ _ key Ht)).
    apply stuck_set_thread; [by eapply Hne|simpl; congruence|].
    apply stuck_notify; [done|]. by apply stuck_update_entry.
  - unfold cleanup. destruct (threads s !! t0) as [[| key j r| | | | | | | | |]|] eqn:Ht; try done.
    intros [= <-]. apply stuck_set_thread; [by eapply Hne|done|by apply stuck_remove_key].
  - unfold mark_panicked. destruct (threads s !! t0) as [[key j| | | | | | | | | |]|] eqn:Ht; try done.
    intros [= <-]. assert (j <> l) by (intros ->; by apply (H2 _ _ key Ht)).
    apply stuck_set_thread; [by eapply Hne|simpl; congruence|by apply stuck_update_entry].
  - unfold notify_panicked. destruct (threads s !! t0) as [[| |key j| | | | | | | |]|] eqn:Ht; try done.
    intros [= <-]. assert (j <> l) by (intros ->; by apply (H2 _ _ key Ht)).
    apply stuck_set_thread; [by eapply Hne|simpl; congruence|by apply stuck_notify].
  - unfold remove_panicked. destruct (threads s !! t0) as [[| | |key j| | | | | | |]|] eqn:Ht; try done.
    intros [= <-]. apply stuck_set_thread; [by eapply Hne|done|by apply stuck_remove_key].
  - unfold wait_lock. destruct (threads s !! t0) as [[| | | | |j| | | | |]|] eqn:Ht; try done.
    destruct (entries s !! j) as [e|]; [|done]. cbn [mbind option_bind].
    destruct (lock_holder e); [done|]. destruct (entry_result e); intros [= <-];
      (apply stuck_set_thread; [by eapply Hne|done|]; auto using stuck_update_entry).
  - unfold wait_check. destruct (threads s !! t0) as [[| | | | | |j| | | |]|] eqn:Ht; try done.
    destruct (entries s !! j) as [e|]; [|done]. cbn [mbind option_bind].
    destruct (leader_panicked e); intros [= <-];
      (apply stuck_set_thread; [by eapply Hne|done|]; auto using stuck_update_entry).
  - unfold wait_park. destruct (threads s !! t0) as [[| | | | | | |j| | |]|] eqn:Ht; try done.
    intros [= <-]. apply stuck_set_thread; [by eapply Hne|done|by apply stuck_update_entry].
Qed.

(** ** Theorems *)

(** [C10] In every interleaving at most one thread leads the load of a key at a time,
    and all callers that come back from the same flight come back with the result
    its leader stored. *)
Theorem single_flight_safe s :
  rtc step init s ->
  (forall t t' p p' k l l', threads s !! t = Some p -> threads s !! t' = Some p' ->
     leads p = Some (k, l) -> leads p' = Some (k, l') -> t = t' /\ l = l')
  /\ (forall t t' l r r', threads s !! t = Some (Returned l r) ->
        threads s !! t' = Some (Returned l r') -> r = r')
  /\ (forall t t' k l r r', threads s !! t = Some (Stored k l r) ->
        threads s !! t' = Some (Returned l r') -> r = r').
Proof.
  intros Hi%reachable_inv. split; [|split].
  - intros t t' p p' k l l' Ht Ht' Hp Hp'. split; [symmetry; by eapply leader_alone|].
    pose proof (inv_leader s Hi _ _ _ _ Ht Hp). pose proof (inv_leader s Hi _ _ _ _ Ht' Hp'). congruence.
  - intros t t' l r r' Ht Ht'. destruct (inv_pc s Hi _ _ Ht) as (e & ? & ?).
    destruct (inv_pc s Hi _ _ Ht') as (e' & ? & ?). congruence.
  - intros t t' k l r r' Ht Ht'. destruct (inv_pc s Hi _ _ Ht) as (e & ? & ?).
    destruct (inv_pc s Hi _ _ Ht') as (e' & ? & ?). congruence.
Qed.

(** [C40] No waiter is left behind by a finished load: once a result is stored nobody
    is parked on that entry or inside its lock, and the next step of every caller
    still waiting on it returns that result. *)
Theorem stored_result_reaches_waiters s l e r :
  rtc step init s -> entries s !! l = Some e -> entry_result e = Some r ->
  (forall t, threads s !! t <> Some (Parked l))
  /\ (forall t p, threads s !! t = Some p -> holds p <> Some l)
  /\ (forall t, threads s !! t = Some (Waiting l) ->
        act (Lock t) s = Some (set_thread t (Returned l r) s)).
Proof.
  intros Hi%reachable_inv He Hr. split; [|split].
  - intros t Ht. destruct (inv_pc s Hi _ _ Ht) as (e' & ? & ?). congruence.
  - intros t p Ht Hp. destruct (inv_holds s Hi _ _ _ Ht Hp) as (e' & ? & _ & ?). congruence.
  - intros t Ht. cbn [act]. unfold wait_lock. rewrite Ht, He. cbn [mbind option_bind]. rewrite Hr.
    destruct (lock_holder e) as [h|] eqn:Hh; [|done].
    destruct (inv_holder s Hi _ _ _ He Hh) as (p & Hp & Hl).
    destruct (inv_holds s Hi _ _ _ Hp Hl) as (e' & ? & _ & ?). congruence.
Qed.

(** A lost wakeup: the cleanup guard of a panicking leader sets the flag and
    notifies without the result lock, so both can fall between a waiter's look at
    the flag and its wait; the waiter then stays parked in every continuation, with
    the entry already gone from the map. *)
Theorem panic_wakeup_can_be_lost (key : K) :
  exists s, rtc step init s /\ threads s !! 1 = Some (Parked 0)
    /\ threads s !! 0 = Some LeaderUnwound /\ in_flight s = ∅
    /\ forall s', rtc step s s' -> threads s' !! 1 = Some (Parked 0).
Proof.
  set (script := [Enter 0 key; Enter 1 key; Lock 1; CheckPanicked 1; MarkPanicked 0;
                  NotifyPanicked 0; Wait 1; RemovePanicked 0]).
  assert (exists s, acts script init = Some s /\ in_flight s = ∅ /\ length (entries s) = 1
    /\ threads s = <[0 := LeaderUnwound]> (<[1 := Parked 0]> ∅)) as (s & Hs & Hm & Hl & Ht).
  { unfold script. cbn [acts].
    change (act (Enter 0 key) init) with
      (Some (mkState {[ key := 0 ]} [mkInFlight None 1 false None] {[ 0 := Leading key 0 ]})).
    cbn [mbind option_bind act]. unfold enter. cbn [threads in_flight].
    rewrite lookup_singleton_ne by done. rewrite lookup_singleton_eq. cbn -[insert singletonM delete].
    eexists. split; [reflexivity|]. cbn -[insert singletonM delete]. 
    split; [apply delete_singleton_eq|]. split; [done|]. reflexivity. }
  exists s. split; [by eapply acts_rtc|]. rewrite Ht. split; [done|]. split; [done|]. split; [done|].
  intros s' Hrun. assert (stuck 1 0 s') as [? _ _ _]; [|done].
  apply (rtc_invariant step (stuck 1 0) s); [|split|done].
  - intros a b Ha [x Hx]. by eapply stuck_act.
  - by rewrite Ht.
  - intros t p k. rewrite Ht. intros [[_ <-]|[_ [[_ <-]|[_ ?]]%lookup_insert_Some]]%lookup_insert_Some; done.
  - intros k. rewrite Hm. by rewrite lookup_empty.
  - rewrite Hl. lia.
Qed.

End SingleFlight.

(** ** Examples: two callers of key 5, the load returns 7 *)

Definition example_script : list (@action nat nat) :=
  [Enter 0 5; Enter 1 5; Lock 1; CheckPanicked 1; Wait 1; Finish 0 7].

Definition example_state : @state nat _ _ nat :=
  match acts example_script init with Some s => s | None => init end.

Lemma example_reachable : rtc step init example_state.
Proof. apply (acts_rtc example_script). vm_compute. reflexivity. Qed.

Definition example_done : @state nat _ _ nat :=
  match acts (example_script ++ [Lock 1; Cleanup 0]) init with Some s => s | None => init end.

Lemma single_flight_safe_witness :
  threads example_done !! 0 = Some (Returned 0 7) /\
  forall r, threads example_done !! 1 = Some (Returned 0 r) -> 7 = r.
Proof.
  split; [vm_compute; reflexivity|]. intros r Hr.
  apply (single_flight_safe example_done) with (t := 0) (t' := 1) (l := 0).
  - apply (acts_rtc (example_script ++ [Lock 1; Cleanup 0])). vm_compute. reflexivity.
  - vm_compute. reflexivity.
  - exact Hr.
Defined.

Lemma stored_result_reaches_waiters_witness :
  threads example_state !! 1 = Some (Waiting 0)
  /\ act (Lock 1) example_state = Some (set_thread 1 (Returned 0 7) example_state).
Proof.
  split; [vm_compute; reflexivity|].
  destruct (stored_result_reaches_waiters example_state 0 (mkInFlight (Some 7) 2 false None) 7)
    as (_ & _ & H).
  - apply example_reachable.
  - vm_compute. reflexivity.
  - reflexivity.
  - apply H. vm_compute. reflexivity.
Defined.
End SingleFlight.
