(* ===== verification/AdapterStore.v ===== *)
(** * The RCU adapter index (adapteros-core/src/adapter_store.rs)

    [AdapterStore] publishes immutable snapshots of the adapter index, one per
    generation. A request pins the current snapshot, which counts it in every
    adapter's reference count, and unpins it when it ends; replaced snapshots are
    kept until their counts are zero. The counters are [Arc<AtomicUsize>], shared
    between snapshots and with the adapter table, so they live in an arena [Cells]
    and records hold positions in it. The time of an audit event is an argument. *)

From S2P Require Import Prelude Hashing.
Open Scope Z_scope.

Module AdapterStore.

(** ** Shared counters *)

(** [Arc<AtomicUsize>] values by the identity of their allocation. *)
Notation Cells := (gmap nat Z).

Definition load (cells : Cells) (c : nat) : Z := default 0 (cells !! c).

Definition fetch_add_1 (cells : Cells) (c : nat) : Cells :=
  <[c := u64_wrapping_add (load cells c) 1]> cells.

Definition fetch_sub_1 (cells : Cells) (c : nat) : Cells :=
  <[c := u64_wrapping_sub (load cells c) 1]> cells.

(** ** Data *)

Definition MAX_RETIRED_SNAPSHOTS : nat := 50.
Definition MAX_GENERATION_AUDIT_EVENTS : nat := 512.

Record AdapterGenerationAuditEvent : Type := mkAudit {
  timestamp_ms : Z;
  event : string;
  audit_generation : Z;
  previous_generation : Z;
  audit_retired_count : nat;
  details : string;
}.

Record AdapterStoreHealth : Type := mkHealth {
  healthy : bool;
  current_generation : Z;
  health_retired_count : nat;
  audit_events : nat;
  next_action : string;
}.

Record AdapterCacheKey : Type := mkKey {
  adapter_id : string;
  adapter_hash : B3Hash;
  base_manifest_hash : option B3Hash;
  backend_type : string;
  kernel_version_id : string;
  tenant_id : option string;
  adapter_dir_hash : option B3Hash;
  galaxy_id : option string;
}.

#[global] Instance AdapterCacheKey_eq_dec : EqDecision AdapterCacheKey.
Proof. solve_decision. Defined.

#[global] Instance AdapterCacheKey_countable : Countable AdapterCacheKey.
Proof.
  refine (inj_countable'
    (fun k => (adapter_id k, adapter_hash k, base_manifest_hash k, backend_type k,
               kernel_version_id k, tenant_id k, adapter_dir_hash k, galaxy_id k))
    (fun '(a, b, c, d, e, f, g, h) => mkKey a b c d e f g h) _).
  by intros [].
Defined.

Definition AdapterCacheKey_new (id : string) (h : B3Hash) (base : option B3Hash)
    (backend kernel : string) (tenant : option string) (dir : option B3Hash)
  : AdapterCacheKey :=
  mkKey id h base backend kernel tenant dir None.

Definition with_galaxy (k : AdapterCacheKey) (g : option string) : AdapterCacheKey :=
  mkKey (adapter_id k) (adapter_hash k) (base_manifest_hash k) (backend_type k)
    (kernel_version_id k) (tenant_id k) (adapter_dir_hash k) g.

Record AdapterRecord : Type := mkRecord {
  hash : B3Hash;
  refcount : nat;
}.

Record AdapterSnapshot : Type := mkSnapshot {
  generation : Z;
  entries : gmap AdapterCacheKey AdapterRecord;
}.

Record AdapterPins : Type := mkPins {
  snapshot_of : AdapterSnapshot;
  pinned : list (AdapterCacheKey * nat);
}.

Record AdapterStore : Type := mkStore {
  current : AdapterSnapshot;
  retired : list AdapterSnapshot;
  generation_audit : list AdapterGenerationAuditEvent;
}.

(** ** Operations *)

Definition pins_generation (p : AdapterPins) : Z := generation (snapshot_of p).

Definition hashes (p : AdapterPins) : gmap AdapterCacheKey AdapterRecord :=
  entries (snapshot_of p).

Definition new : AdapterStore := mkStore (mkSnapshot 0 ∅) [] [].

Definition snapshot (s : AdapterStore) : AdapterSnapshot := current s.

Definition retired_count (s : AdapterStore) : nat := length (retired s).

Definition push_generation_audit (ev : string) (gen prev : Z) (count : nat)
    (text : string) (now : Z) (s : AdapterStore) : AdapterStore :=
  let log := generation_audit s in
  let log :=
    if (length log =? MAX_GENERATION_AUDIT_EVENTS)%nat then drop 1 log else log in
  mkStore (current s) (retired s) (log ++ [mkAudit now ev gen prev count text]).

(** [std::mem::replace] of the current snapshot; the old one is kept on the retired
    list when its generation differs. *)
Definition replace_current (sn : AdapterSnapshot) (s : AdapterStore) : AdapterStore :=
  let old := current s in
  mkStore sn
    (if negb (generation old =? generation sn) then retired s ++ [old] else retired s)
    (generation_audit s).

Definition install (gen : Z) (es : gmap AdapterCacheKey AdapterRecord) (now : Z)
    (s : AdapterStore) : AdapterSnapshot * AdapterStore :=
  let guard := current s in
  if gen <=? generation guard then
    (guard,
     push_generation_audit "generation_rejected" gen (generation guard) (retired_count s)
       ("Rejected non-monotonic install request (requested=" +:+ pretty gen
        +:+ ", current=" +:+ pretty (generation guard) +:+ ")") now s)
  else
    let new_snapshot := mkSnapshot gen es in
    let previous := generation guard in
    let s' := replace_current new_snapshot s in
    (new_snapshot,
     push_generation_audit "generation_installed" gen previous (retired_count s')
       ("Installed generation " +:+ pretty gen +:+ " with "
        +:+ pretty (size es) +:+ " entries") now s').

Definition install_force (gen : Z) (es : gmap AdapterCacheKey AdapterRecord) (now : Z)
    (s : AdapterStore) : AdapterSnapshot * AdapterStore :=
  let previous := generation (current s) in
  let new_snapshot := mkSnapshot gen es in
  let s' := replace_current new_snapshot s in
  (new_snapshot,
   push_generation_audit "generation_forced_install" gen previous (retired_count s')
     ("Force-installed generation " +:+ pretty gen +:+ " with "
      +:+ pretty (size es) +:+ " entries") now s').

(** One pass of the retry loop: attempt number [attempt] of [attempts]; [others] is
    what other threads do to the store while this one sleeps. *)
Fixpoint install_attempts (fuel : nat) (attempt attempts : Z) (gen : Z)
    (es : gmap AdapterCacheKey AdapterRecord) (now : Z)
    (others : Z -> AdapterStore -> AdapterStore) (s : AdapterStore)
  : option AdapterSnapshot * AdapterStore :=
  match fuel with
  | O => (None, s)
  | S fuel =>
      let '(sn, s) := install gen es now s in
      if generation sn =? gen then
        (Some sn,
         if 1 <? attempt then
           push_generation_audit "generation_retry_succeeded" gen (generation sn)
             (retired_count s)
             ("Install succeeded after " +:+ pretty attempt +:+ " attempts") now s
         else s)
      else
        install_attempts fuel (attempt + 1) attempts gen es now others
          (if attempt <? attempts then others attempt s else s)
  end.

Definition install_with_retry (gen : Z) (es : gmap AdapterCacheKey AdapterRecord)
    (max_attempts : Z) (now : Z) (others : Z -> AdapterStore -> AdapterStore)
    (s : AdapterStore) : AdapterSnapshot * AdapterStore :=
  let attempts := Z.max max_attempts 1 in
  match install_attempts (Z.to_nat attempts) 1 attempts gen es now others s with
  | (Some sn, s) => (sn, s)
  | (None, s) =>
      let current := snapshot s in
      (current,
       push_generation_audit "generation_retry_exhausted" gen (generation current)
         (retired_count s)
         ("Install retry exhausted after " +:+ pretty attempts
          +:+ " attempts; keeping generation " +:+ pretty (generation current)) now s)
  end.

Definition pin_current (s : AdapterStore) (cells : Cells) : AdapterPins * Cells :=
  let sn := snapshot s in
  let records := map_to_list (entries sn) in
  (mkPins sn (map (fun '(k, r) => (k, refcount r)) records),
   foldl (fun cs '(_, r) => fetch_add_1 cs (refcount r)) cells records).

(** [Drop for AdapterPins]; the assertion on the previous count panics ([None]). *)
Fixpoint drop_pinned (l : list (AdapterCacheKey * nat)) (cells : Cells) : option Cells :=
  match l with
  | [] => Some cells
  | (_, rc) :: l' =>
      let prev := load cells rc in
      let cells := fetch_sub_1 cells rc in
      if 1 <=? prev then drop_pinned l' cells else None
  end.

Definition drop_pins (p : AdapterPins) (cells : Cells) : option Cells :=
  drop_pinned (pinned p) cells.

Definition in_use (cells : Cells) (sn : AdapterSnapshot) : bool :=
  existsb (fun '(_, r) => 0 <? load cells (refcount r)) (map_to_list (entries sn)).

(** [{:?}] of a [Vec<u64>]. *)
Fixpoint debug_list_tail (l : list Z) : string :=
  match l with [] => "]" | z :: l' => ", " +:+ pretty z +:+ debug_list_tail l' end.
Definition debug_list (l : list Z) : string :=
  match l with [] => "[]" | z :: l' => "[" +:+ pretty z +:+ debug_list_tail l' end.

(** The loop over the force-evicted snapshots. *)
Fixpoint audit_force_evicted (evicted : list AdapterSnapshot) (now : Z)
    (s : AdapterStore) : AdapterStore :=
  match evicted with
  | [] => s
  | sn :: evicted' =>
      audit_force_evicted evicted' now
        (push_generation_audit "retired_force_evicted" (generation sn)
           (generation (snapshot s)) (length (retired s))
           "Force-evicted retired snapshot due to retention cap" now s)
  end.

Definition drain_retired (cells : Cells) (now : Z) (s : AdapterStore)
  : list Z * AdapterStore :=
  let drained :=
    map generation (List.filter (fun sn => negb (in_use cells sn)) (retired s)) in
  let kept := List.filter (in_use cells) (retired s) in
  let '(drained, s) :=
    if (MAX_RETIRED_SNAPSHOTS <? length kept)%nat then
      let excess := (length kept - MAX_RETIRED_SNAPSHOTS)%nat in
      let s := mkStore (current s) (drop excess kept) (generation_audit s) in
      (drained ++ map generation (take excess kept),
       audit_force_evicted (take excess kept) now s)
    else (drained, mkStore (current s) kept (generation_audit s)) in
  (drained,
   match drained with
   | [] => s
   | _ =>
       push_generation_audit "retired_drained" (generation (snapshot s)) 0
         (length (retired s)) ("Drained retired generations: " +:+ debug_list drained) now s
   end).

Definition generation_audit_log (s : AdapterStore) : list AdapterGenerationAuditEvent :=
  generation_audit s.

Definition generation_health (s : AdapterStore) : AdapterStoreHealth :=
  let healthy := (retired_count s <=? MAX_RETIRED_SNAPSHOTS)%nat in
  mkHealth healthy (generation (snapshot s)) (retired_count s) (length (generation_audit s))
    (if healthy then "none" else "drain retired snapshots or inspect stuck request pins").

(** ** Requests around the store

    A world is the store, the shared counters and the pins of the requests in
    flight; each step is one call some thread makes. *)

Record World : Type := mkWorld {
  w_store : AdapterStore;
  w_cells : Cells;
  w_pins : list AdapterPins;
}.

Definition initial : World := mkWorld new ∅ [].

Inductive step : World -> World -> Prop :=
| step_install gen es now s cs ps :
    step (mkWorld s cs ps) (mkWorld (install gen es now s).2 cs ps)
| step_install_force gen es now s cs ps :
    step (mkWorld s cs ps) (mkWorld (install_force gen es now s).2 cs ps)
| step_pin s cs ps :
    step (mkWorld s cs ps)
         (mkWorld s (pin_current s cs).2 ((pin_current s cs).1 :: ps))
| step_unpin i p s cs cs' ps :
    ps !! i = Some p -> drop_pins p cs = Some cs' ->
    step (mkWorld s cs ps) (mkWorld s cs' (delete i ps))
| step_drain now s cs ps :
    step (mkWorld s cs ps) (mkWorld (drain_retired cs now s).2 cs ps).

(** How often a list of pins, and all requests in flight, hold a counter. *)
Definition pin_count (c : nat) (l : list (AdapterCacheKey * nat)) : Z :=
  Z.of_nat (length (List.filter (fun kc => (kc.2 =? c)%nat) l)).

Definition held (c : nat) (ps : list AdapterPins) : Z :=
  sumZ (map (fun p => pin_count c (pinned p)) ps).

(** All entries pinned by requests in flight. *)
Definition total_pinned (ps : list AdapterPins) : Z :=
  sumZ (map (fun p => Z.of_nat (length (pinned p))) ps).

(** ** Counting lemmas *)

Lemma u64_mod_pos : 0 < u64_mod.
Proof. reflexivity. Qed.

Lemma load_insert cs c c' v :
  load (<[c := v]> cs) c' = if (c =? c')%nat then v else load cs c'.
Proof.
  unfold load. destruct (Nat.eqb_spec c c') as [->|NE].
  - by rewrite lookup_insert_eq.
  - by rewrite lookup_insert_ne.
Qed.

Lemma pin_count_cons c kc l :
  pin_count c (kc :: l) = (if (kc.2 =? c)%nat then 1 else 0) + pin_count c l.
Proof. unfold pin_count. simpl. destruct (kc.2 =? c)%nat; simpl; lia. Qed.

Lemma pin_count_nonneg c l : 0 <= pin_count c l.
Proof. unfold pin_count. lia. Qed.

Lemma pin_count_le c l : pin_count c l <= Z.of_nat (length l).
Proof. unfold pin_count. pose proof (filter_length_le (fun kc => (kc.2 =? c)%nat) l). lia. Qed.

Lemma held_nonneg c ps : 0 <= held c ps.
Proof. apply sumZ_map_nonneg. intros; apply pin_count_nonneg. Qed.

Lemma held_le_total c ps : held c ps <= total_pinned ps.
Proof.
  unfold held, total_pinned. induction ps as [|p ps IH]; simpl; [done|].
  pose proof (pin_count_le c (pinned p)). lia.
Qed.

Lemma held_delete c ps i p :
  ps !! i = Some p -> held c ps = pin_count c (pinned p) + held c (delete i ps).
Proof.
  intros Hp. unfold held.
  change (sumZ (map (fun q => pin_count c (pinned q)) ps)
          = sumZ (map (fun q => pin_count c (pinned q)) (p :: delete i ps))).
  apply sumZ_perm, Permutation_map, delete_Permutation, Hp.
Qed.

Lemma held_elem c ps p : p ∈ ps -> pin_count c (pinned p) <= held c ps.
Proof.
  intros [i Hi]%list_elem_of_lookup. rewrite (held_delete _ _ _ _ Hi).
  pose proof (held_nonneg c (delete i ps)). lia.
Qed.

(** Counters agree with a count [f] modulo the width of the atomic. *)
Definition counts (cs : Cells) (f : nat -> Z) : Prop :=
  forall c, load cs c = f c mod u64_mod.

Lemma counts_ext cs f g : counts cs f -> (forall c, f c = g c) -> counts cs g.
Proof. intros H E c. by rewrite H, E. Qed.

Lemma counts_add cs f c0 :
  counts cs f -> counts (fetch_add_1 cs c0) (fun c => (if (c0 =? c)%nat then 1 else 0) + f c).
Proof.
  intros H c. unfold fetch_add_1. rewrite load_insert.
  destruct (Nat.eqb_spec c0 c) as [->|]; [|by rewrite H].
  unfold u64_wrapping_add. rewrite H, Zplus_mod_idemp_l. f_equal; lia.
Qed.

Lemma counts_sub cs f c0 :
  counts cs f -> counts (fetch_sub_1 cs c0) (fun c => f c - (if (c0 =? c)%nat then 1 else 0)).
Proof.
  intros H c. unfold fetch_sub_1. rewrite load_insert.
  destruct (Nat.eqb_spec c0 c) as [->|]; [|by rewrite H, Z.sub_0_r].
  unfold u64_wrapping_sub. by rewrite H, Zminus_mod_idemp_l.
Qed.

Lemma counts_pin l cs f :
  counts cs f ->
  counts (foldl (fun cs '(_, r) => fetch_add_1 cs (refcount r)) cs l)
         (fun c => pin_count c (map (fun '(k, r) => (k, refcount r)) l) + f c).
Proof.
  revert cs f. induction l as [|[k r] l IH]; intros cs f H; simpl.
  - eapply counts_ext; [exact H|]. done.
  - eapply counts_ext; [apply IH, counts_add, H|]. intros c.
    cbv beta. rewrite pin_count_cons. simpl. lia.
Qed.

(** Dropping pins that the count covers succeeds and takes them off the count. *)
Lemma counts_unpin l cs f :
  counts cs f ->
  (forall c, pin_count c l <= f c < u64_mod) ->
  exists cs', drop_pinned l cs = Some cs' /\ counts cs' (fun c => f c - pin_count c l).
Proof.
  revert cs f. induction l as [|[k c0] l IH]; intros cs f H Hle; simpl.
  - exists cs. split; [done|]. eapply counts_ext; [exact H|]. intros c. unfold pin_count. simpl. lia.
  - assert (Hf : load cs c0 = f c0).
    { rewrite H. apply Z.mod_small. specialize (Hle c0).
      pose proof (pin_count_nonneg c0 ((k, c0) :: l)). lia. }
    assert (Hone : 1 <= f c0).
    { specialize (Hle c0). rewrite pin_count_cons in Hle. simpl in Hle.
      rewrite Nat.eqb_refl in Hle. pose proof (pin_count_nonneg c0 l). lia. }
    rewrite Hf, (proj2 (Z.leb_le 1 _) Hone).
    destruct (IH _ _ (counts_sub _ _ c0 H)) as (cs' & E & Hc).
    { intros c. specialize (Hle c). rewrite pin_count_cons in Hle. simpl in Hle.
      pose proof (pin_count_nonneg c l). destruct (c0 =? c)%nat; lia. }
    exists cs'. split; [done|]. eapply counts_ext; [exact Hc|].
    intros c. cbv beta. rewrite pin_count_cons. simpl. lia.
Qed.

(** When a drop succeeds it takes the pins off the count whatever the count was. *)
Lemma counts_unpin_ok l cs cs' f :
  counts cs f -> drop_pinned l cs = Some cs' -> counts cs' (fun c => f c - pin_count c l).
Proof.
  revert cs f. induction l as [|[k c0] l IH]; intros cs f H; simpl.
  - intros [= <-]. eapply counts_ext; [exact H|]. intros c. unfold pin_count. simpl. lia.
  - destruct (1 <=? load cs c0); [|done]. intros E.
    eapply counts_ext; [exact (IH _ _ (counts_sub _ _ c0 H) E)|].
    intros c. cbv beta. rewrite pin_count_cons. simpl. lia.
Qed.

(** ** Invariant *)

(** Pins hold exactly the counters of the snapshot they were taken from. *)
Definition pins_wf (p : AdapterPins) : Prop :=
  pinned p = map (fun '(k, r) => (k, refcount r)) (map_to_list (entries (snapshot_of p))).

Record inv (w : World) : Prop := {
  inv_counts : counts (w_cells w) (fun c => held c (w_pins w));
  inv_pins : Forall pins_wf (w_pins w);
  inv_audit : (length (generation_audit (w_store w)) <= MAX_GENERATION_AUDIT_EVENTS)%nat;
}.

Lemma audit_push_bounded ev g p n t now s :
  (length (generation_audit s) <= MAX_GENERATION_AUDIT_EVENTS)%nat ->
  (length (generation_audit (push_generation_audit ev g p n t now s))
   <= MAX_GENERATION_AUDIT_EVENTS)%nat.
Proof.
  intros H. unfold push_generation_audit. simpl. rewrite length_app. simpl.
  destruct (Nat.eqb_spec (length (generation_audit s)) MAX_GENERATION_AUDIT_EVENTS) as [E|NE].
  - rewrite length_drop, E. unfold MAX_GENERATION_AUDIT_EVENTS. lia.
  - lia.
Qed.
#[local] Hint Resolve audit_push_bounded : aos.

Lemma install_audit_bounded g es now s :
  (length (generation_audit s) <= MAX_GENERATION_AUDIT_EVENTS)%nat ->
  (length (generation_audit (install g es now s).2) <= MAX_GENERATION_AUDIT_EVENTS)%nat.
Proof. intros H. unfold install. destruct (g <=? _); apply audit_push_bounded, H. Qed.

Lemma evict_audit_bounded l now s :
  (length (generation_audit s) <= MAX_GENERATION_AUDIT_EVENTS)%nat ->
  (length (generation_audit (audit_force_evicted l now s)) <= MAX_GENERATION_AUDIT_EVENTS)%nat.
Proof. revert s. induction l; simpl; auto with aos. Qed.
#[local] Hint Resolve install_audit_bounded evict_audit_bounded : aos.

Lemma drain_audit_bounded cs now s :
  (length (generation_audit s) <= MAX_GENERATION_AUDIT_EVENTS)%nat ->
  (length (generation_audit (drain_retired cs now s).2) <= MAX_GENERATION_AUDIT_EVENTS)%nat.
Proof.
  intros H. unfold drain_retired. destruct (_ <? _)%nat; cbv beta iota zeta.
  - destruct (_ ++ _); cbn [snd]; auto with aos.
  - destruct (map _ _); cbn [snd]; auto with aos.
Qed.
#[local] Hint Resolve drain_audit_bounded : aos.

Lemma store_inv_initial : inv initial.
Proof. split; [by intros c|constructor|]. simpl. lia. Qed.

Lemma store_inv_step w w' : inv w -> step w w' -> inv w'.
Proof.
  intros [Hc Hp Ha] Hstep. destruct Hstep; cbn [w_store w_cells w_pins] in *.
  - split; cbn [w_store w_cells w_pins]; auto with aos.
  - split; cbn [w_store w_cells w_pins]; auto. by apply audit_push_bounded.
  - split; cbn [w_store w_cells w_pins]; auto; [|by constructor].
    by apply counts_pin.
  - split; cbn [w_store w_cells w_pins]; auto.
    + eapply counts_ext; [by eapply counts_unpin_ok|]. intros c. cbv beta.
      rewrite (held_delete c ps i p) by done. lia.
    + by apply Forall_delete.
  - split; cbn [w_store w_cells w_pins]; auto with aos.
Qed.

Lemma store_inv_reachable w : rtc step initial w -> inv w.
Proof. apply rtc_invariant; [exact store_inv_step|exact store_inv_initial]. Qed.

Lemma held_small w c :
  rtc step initial w -> total_pinned (w_pins w) < u64_mod ->
  load (w_cells w) c = held c (w_pins w).
Proof.
  intros Hr Hb. rewrite (inv_counts _ (store_inv_reachable _ Hr)). apply Z.mod_small.
  pose proof (held_nonneg c (w_pins w)). pose proof (held_le_total c (w_pins w)). lia.
Qed.

(** [drain_retired] with its case distinctions resolved. *)
Lemma drain_retired_eq cs now s :
  let kept := List.filter (in_use cs) (retired s) in
  let excess := (length kept - MAX_RETIRED_SNAPSHOTS)%nat in
  (drain_retired cs now s).1
    = map generation (List.filter (fun sn => negb (in_use cs sn)) (retired s))
      ++ map generation (take excess kept)
  /\ retired (drain_retired cs now s).2 = drop excess kept
  /\ current (drain_retired cs now s).2 = current s.
Proof.
  intros kept excess. unfold drain_retired. fold kept. cbv zeta.
  assert (Hev : forall l t, retired (audit_force_evicted l now t) = retired t
                            /\ current (audit_force_evicted l now t) = current t).
  { induction l as [|sn l IH]; intros t; simpl; [done|]. by rewrite !(proj1 (IH _)), !(proj2 (IH _)). }
  destruct (Nat.ltb_spec MAX_RETIRED_SNAPSHOTS (length kept)) as [Hlt|Hle]; cbv beta iota.
  - fold excess. destruct (_ ++ _); cbn [fst snd push_generation_audit retired current];
      by rewrite (proj1 (Hev _ _)), (proj2 (Hev _ _)).
  - replace excess with 0%nat by (unfold excess; lia). rewrite take_0, drop_0, app_nil_r.
    by destruct (map _ _).
Qed.

Lemma in_use_spec cs sn :
  in_use cs sn = true <->
  exists k r, entries sn !! k = Some r /\ 0 < load cs (refcount r).
Proof.
  unfold in_use. rewrite existsb_exists. split.
  - intros ([k r] & Hin & Hlt). apply Z.ltb_lt in Hlt. exists k, r. split; [|done].
    by apply elem_of_map_to_list, list_elem_of_In.
  - intros (k & r & Hk & Hlt). exists (k, r). split; [|by apply Z.ltb_lt].
    by apply list_elem_of_In, elem_of_map_to_list.
Qed.

Lemma pin_count_pos c l k : (k, c) ∈ l -> 0 < pin_count c l.
Proof.
  induction l as [|[k' c'] l IH]; [by intros ?%elem_of_nil|].
  rewrite pin_count_cons. intros [[= <- <-]|Hin]%elem_of_cons; simpl.
  - rewrite Nat.eqb_refl. pose proof (pin_count_nonneg c l). lia.
  - apply IH in Hin. destruct (c' =? c)%nat; lia.
Qed.

(** A snapshot some request has pinned is in use. *)
Lemma pinned_in_use w p :
  rtc step initial w -> total_pinned (w_pins w) < u64_mod ->
  p ∈ w_pins w -> entries (snapshot_of p) <> ∅ ->
  in_use (w_cells w) (snapshot_of p) = true.
Proof.
  intros Hr Hb Hp Hne. apply in_use_spec.
  apply map_choose in Hne as (k & r & Hk). exists k, r. split; [done|].
  rewrite held_small by done. eapply Z.lt_le_trans; [|by apply held_elem].
  apply (pin_count_pos _ _ k).
  pose proof (inv_pins _ (store_inv_reachable _ Hr)) as Hwf. rewrite Forall_forall in Hwf.
  rewrite (Hwf p Hp). apply list_elem_of_fmap.
  exists (k, r). split; [done|]. by apply elem_of_map_to_list.
Qed.

(** ** An example: one request holds generation 1 while generation 2 is installed *)

Definition ex_key : AdapterCacheKey :=
  AdapterCacheKey_new "a" zero None "mlx" "k1" None None.
Definition ex_store1 : AdapterStore := (install 1 {[ex_key := mkRecord zero 0]} 0 new).2.
Definition ex_pins : AdapterPins := (pin_current ex_store1 ∅).1.
Definition ex_world : World :=
  mkWorld (install 2 ∅ 0 ex_store1).2 (pin_current ex_store1 ∅).2 [ex_pins].

Lemma ex_reachable : rtc step initial ex_world.
Proof.
  eapply rtc_l; [apply (step_install 1 {[ex_key := mkRecord zero 0]} 0)|].
  eapply rtc_l; [apply step_pin|].
  eapply rtc_l; [apply (step_install 2 ∅ 0)|]. apply rtc_refl.
Qed.

Lemma ex_entries_nonempty : entries (snapshot_of ex_pins) <> ∅.
Proof. apply map_non_empty_singleton. Qed.

(** ** Properties *)

(** [C18] Every counter of the store is exactly the number of pins the requests in
    flight hold on it (modulo the width of the atomic), in any interleaving of
    installs, forced installs, pins, unpins and drains; so unpinning a request never
    trips the underflow assertion in [Drop for AdapterPins]. *)
Theorem refcounts_count_pins w :
  rtc step initial w ->
  (forall c, load (w_cells w) c = held c (w_pins w) mod u64_mod)
  /\ (total_pinned (w_pins w) < u64_mod ->
      forall p, p ∈ w_pins w -> exists cs', drop_pins p (w_cells w) = Some cs').
Proof.
  intros Hr. pose proof (store_inv_reachable _ Hr) as [Hc _ _]. split; [exact Hc|].
  intros Hb p Hp.
  destruct (counts_unpin (pinned p) _ _ Hc) as (cs' & E & _); [|by exists cs'].
  intros c. split; [by apply held_elem|].
  pose proof (held_le_total c (w_pins w)). lia.
Qed.

Lemma refcounts_count_pins_witness :
  load (w_cells ex_world) 0 = 1 /\ exists cs', drop_pins ex_pins (w_cells ex_world) = Some cs'.
Proof.
  destruct (refcounts_count_pins ex_world ex_reachable) as [Hc Hd]. split.
  - rewrite Hc. vm_compute. reflexivity.
  - apply Hd; [vm_compute; reflexivity|]. constructor.
Defined.

(** Draining never frees a snapshot a request still has pinned, as long as at
    most [MAX_RETIRED_SNAPSHOTS] retired snapshots are in use; and every snapshot it
    keeps is in use, so memory of finished requests is reclaimed. *)
Theorem drain_spares_pinned w now :
  rtc step initial w ->
  total_pinned (w_pins w) < u64_mod ->
  let s' := (drain_retired (w_cells w) now (w_store w)).2 in
  (forall sn, sn ∈ retired s' -> sn ∈ retired (w_store w) /\ in_use (w_cells w) sn = true)
  /\ ((length (List.filter (in_use (w_cells w)) (retired (w_store w)))
        <= MAX_RETIRED_SNAPSHOTS)%nat ->
      forall p, p ∈ w_pins w -> entries (snapshot_of p) <> ∅ ->
        snapshot_of p ∈ retired (w_store w) -> snapshot_of p ∈ retired s').
Proof.
  intros Hr Hb s'. destruct (drain_retired_eq (w_cells w) now (w_store w)) as (_ & E & _).
  unfold s'. rewrite E. split.
  - intros sn Hsn. apply (subseteq_drop _ _ _), list_elem_of_In, filter_In in Hsn as [Hi Hu].
    split; [by apply list_elem_of_In|done].
  - intros Hle p Hp Hne Hret.
    replace (_ - _)%nat with 0%nat by lia. rewrite drop_0.
    apply list_elem_of_In, filter_In. split; [by apply list_elem_of_In|].
    by apply pinned_in_use.
Qed.

Lemma drain_spares_pinned_witness :
  snapshot_of ex_pins ∈ retired (drain_retired (w_cells ex_world) 0 (w_store ex_world)).2.
Proof.
  apply (drain_spares_pinned ex_world 0 ex_reachable).
  - vm_compute. reflexivity.
  - vm_compute. lia.
  - constructor.
  - exact ex_entries_nonempty.
  - right. left.
Defined.

(** The store's memory is bounded: the audit log never exceeds its cap in any
    run, a drain leaves at most [MAX_RETIRED_SNAPSHOTS] retired snapshots whatever
    the counters are, and what it drained together with what it kept is what was
    retired before. *)
Theorem store_bounded w now :
  rtc step initial w ->
  let '(drained, s') := drain_retired (w_cells w) now (w_store w) in
  (length (generation_audit (w_store w)) <= MAX_GENERATION_AUDIT_EVENTS)%nat
  /\ (retired_count s' <= MAX_RETIRED_SNAPSHOTS)%nat
  /\ healthy (generation_health s') = true
  /\ drained ++ map generation (retired s') ≡ₚ map generation (retired (w_store w)).
Proof.
  intros Hr. destruct (drain_retired_eq (w_cells w) now (w_store w)) as (E1 & E2 & _).
  destruct (drain_retired _ _ _) as [drained s']. simpl in E1, E2.
  assert (Hcap : (retired_count s' <= MAX_RETIRED_SNAPSHOTS)%nat).
  { unfold retired_count. rewrite E2, length_drop. lia. }
  split; [exact (inv_audit _ (store_inv_reachable _ Hr))|]. split; [done|]. split.
  - apply Nat.leb_le, Hcap.
  - rewrite E1, E2, <- app_assoc, <- map_app, take_drop, <- map_app.
    apply Permutation_map. rewrite Permutation_app_comm. apply filter_split_perm.
Qed.

Lemma store_bounded_witness :
  (retired_count (drain_retired (w_cells ex_world) 0 (w_store ex_world)).2
   <= MAX_RETIRED_SNAPSHOTS)%nat.
Proof.
  pose proof (store_bounded ex_world 0 ex_reachable) as H.
  destruct (drain_retired _ _ _) as [d s']. apply H.
Defined.

(** Installing: a newer generation replaces the current snapshot, which is kept
    on the retired list; an older or equal one changes nothing but the audit log and
    hands back the current snapshot; a forced install replaces unconditionally. *)
Theorem install_outcome gen es now s :
  (generation (current s) < gen ->
   (install gen es now s).1 = mkSnapshot gen es
   /\ current (install gen es now s).2 = mkSnapshot gen es
   /\ retired (install gen es now s).2 = retired s ++ [current s])
  /\ (gen <= generation (current s) ->
      (install gen es now s).1 = current s
      /\ current (install gen es now s).2 = current s
      /\ retired (install gen es now s).2 = retired s)
  /\ current (install_force gen es now s).2 = mkSnapshot gen es.
Proof.
  unfold install, install_force. split; [|split; [|done]]; intros H.
  - rewrite (proj2 (Z.leb_gt _ _) H). unfold replace_current. simpl.
    by rewrite (proj2 (Z.eqb_neq _ _)) by lia.
  - by rewrite (proj2 (Z.leb_le _ _) H).
Qed.

Lemma install_outcome_witness : current (install 1 ∅ 0 new).2 = mkSnapshot 1 ∅.
Proof.
  destruct (install_outcome 1 ∅ 0 new) as (H & _ & _). apply H. reflexivity.
Defined.

(** [install_with_retry] takes the current snapshot of an equal generation for its
    own: it reports success at the first attempt, drops the entries and never logs
    that the install was refused for good. *)
Theorem retry_accepts_equal_generation es n now others s :
  let '(sn, s') := install_with_retry (generation (current s)) es n now others s in
  sn = current s /\ current s' = current s
  /\ s' = (install (generation (current s)) es now s).2.
Proof.
  unfold install_with_retry.
  destruct (Z.to_nat (Z.max n 1)) as [|k] eqn:E; [lia|]. simpl.
  unfold install. rewrite Z.leb_refl. by rewrite Z.eqb_refl.
Qed.

End AdapterStore.
