(* ===== verification/HotSwap.v ===== *)
(** * The adapter table of hot swaps (adapteros-lora-worker/src/adapter_hotswap.rs)

    [AdapterTable]: adapters are preloaded into a staging area, swapped into the
    active set together with a new generation of the pinned index
    ([AdapterStore]), rolled back, and the replaced stacks are unloaded from the
    kernel backend once nobody references their adapters. Also the canonical stack
    hash (adapteros-core/src/stack.rs).

    Reference counters are positions in the arena shared with the store; [next_cell]
    is the next [Arc] to be allocated. The kernel backend is the class
    [FusedKernels] of the calls the table makes, over an abstract state. Where the
    source lets go of its locks, [others] is what other threads do to the table in
    the meantime. The theorems are about calls that follow one another; [overlapping_swaps]
    shows what two swaps at once can do. VRAM sizes are taken to be below 2^63, so that the casts to [i64] are
    exact. Telemetry, metrics and the retirement channel are left out; clock readings are
    arguments (milliseconds). *)

From stdpp Require Import sorting.
From S2P Require Import Prelude Hashing AdapterStore.
Open Scope Z_scope.

Module HotSwap.

Notation Cells := (gmap nat Z).

(** ** Canonical stack hash (stack.rs) *)

Section StackHash.
Context `{Blake3} `{Hex}.

Definition pair_leb (a b : string * B3Hash) : bool := (a.1 <=? b.1)%string.

Definition stack_buffer (pairs : list (string * B3Hash)) : string :=
  foldr (fun '(id, h) acc => id +:+ ":" +:+ to_hex h +:+ acc) EmptyString pairs.

Definition stack_hash (adapters : list (string * B3Hash)) : B3Hash :=
  Hashing.hash (as_bytes_of (stack_buffer (stable_sort pair_leb adapters))).
End StackHash.

(** ** Data *)

Inductive LifecycleState := Unloaded | Loading | Loaded | Active | Unloading | Error.

(** [AdapterBacking]: which mapping keeps the weights resident. *)
Inductive AdapterBacking := Galaxy (path : string) | Standalone (path : string).

Definition backing_galaxy_id (b : AdapterBacking) : option string :=
  match b with Galaxy path => Some path | Standalone _ => None end.

Record AdapterLoadState : Type := mkLoadState {
  id : string;
  hash : B3Hash;
  expected_hash : B3Hash;
  vram_mb : Z;
  loaded_at : Z;
  is_active : bool;
  lifecycle : LifecycleState;
  backing : option AdapterBacking;
  recent_uses : list Z;
}.

Record Stack : Type := mkStack {
  stack_generation : Z;
  stack_active : gmap string AdapterLoadState;
}.

Record AdapterCacheIdentity : Type := mkIdentity {
  base_manifest_hash : option B3Hash;
  backend_type : string;
  kernel_version_id : string;
  tenant_id : option string;
  adapter_dir_hash : option B3Hash;
}.

Definition default_identity (version : string) : AdapterCacheIdentity :=
  mkIdentity None "unknown" version None None.

Record GpuFingerprint : Type := mkFingerprint {
  fp_adapter_id : string;
  buffer_bytes : Z;
  checkpoint_hash : B3Hash;
}.

Record StackCheckpoint : Type := mkCheckpoint {
  timestamp : Z;
  metadata_hash : B3Hash;
  cross_layer_hash : option B3Hash;
  gpu_fingerprints : list GpuFingerprint;
  adapter_ids : list string;
}.

Record AdapterTable : Type := mkTable {
  active : gmap string AdapterLoadState;
  staged : gmap string AdapterLoadState;
  rollback_state : option Stack;
  checkpoints : list StackCheckpoint;
  max_checkpoints : nat;
  current_stack : Z;
  refcounts : gmap string nat;
  retired_stacks : list Stack;
  retry_counts : gmap Z Z;
  store : AdapterStore.AdapterStore;
  cache_identity : AdapterCacheIdentity;
  adapter_cache_budget_bytes : option Z;
  cells : Cells;
  next_cell : nat;
}.

(** ** Usage of one adapter *)

(** [VecDeque::pop_front] while the front is older than the cutoff. *)
Fixpoint drop_older (cutoff : Z) (l : list Z) : list Z :=
  match l with
  | [] => []
  | t :: l' => if t <? cutoff then drop_older cutoff l' else l
  end.

Definition record_use (now : Z) (a : AdapterLoadState) : AdapterLoadState :=
  mkLoadState (id a) (hash a) (expected_hash a) (vram_mb a) (loaded_at a) (is_active a)
    (lifecycle a) (backing a) (drop_older (now - 60000) (recent_uses a ++ [now])).

Definition uses_per_minute (a : AdapterLoadState) : Z :=
  Z.of_nat (length (recent_uses a)) mod u32_mod.

Definition recently_used (now : Z) (a : AdapterLoadState) : bool :=
  match last (recent_uses a) with Some t => now - t <? 5000 | None => false end.

Definition set_hash (h : B3Hash) (a : AdapterLoadState) : AdapterLoadState :=
  mkLoadState (id a) h (expected_hash a) (vram_mb a) (loaded_at a) (is_active a)
    (lifecycle a) (backing a) (recent_uses a).

(** The clone [swap] puts into the active map. *)
Definition activate (a : AdapterLoadState) : AdapterLoadState :=
  mkLoadState (id a) (hash a) (expected_hash a) (vram_mb a) (loaded_at a) true
    Active (backing a) (recent_uses a).

(** ** Table updates *)

Definition set_active (m : gmap string AdapterLoadState) (t : AdapterTable) : AdapterTable :=
  mkTable m (staged t) (rollback_state t) (checkpoints t) (max_checkpoints t)
    (current_stack t) (refcounts t) (retired_stacks t) (retry_counts t) (store t)
    (cache_identity t) (adapter_cache_budget_bytes t) (cells t) (next_cell t).
Definition set_staged (m : gmap string AdapterLoadState) (t : AdapterTable) : AdapterTable :=
  mkTable (active t) m (rollback_state t) (checkpoints t) (max_checkpoints t)
    (current_stack t) (refcounts t) (retired_stacks t) (retry_counts t) (store t)
    (cache_identity t) (adapter_cache_budget_bytes t) (cells t) (next_cell t).
Definition set_rollback_state (r : option Stack) (t : AdapterTable) : AdapterTable :=
  mkTable (active t) (staged t) r (checkpoints t) (max_checkpoints t)
    (current_stack t) (refcounts t) (retired_stacks t) (retry_counts t) (store t)
    (cache_identity t) (adapter_cache_budget_bytes t) (cells t) (next_cell t).
Definition set_checkpoints (l : list StackCheckpoint) (t : AdapterTable) : AdapterTable :=
  mkTable (active t) (staged t) (rollback_state t) l (max_checkpoints t)
    (current_stack t) (refcounts t) (retired_stacks t) (retry_counts t) (store t)
    (cache_identity t) (adapter_cache_budget_bytes t) (cells t) (next_cell t).
Definition set_current_stack (g : Z) (t : AdapterTable) : AdapterTable :=
  mkTable (active t) (staged t) (rollback_state t) (checkpoints t) (max_checkpoints t)
    g (refcounts t) (retired_stacks t) (retry_counts t) (store t)
    (cache_identity t) (adapter_cache_budget_bytes t) (cells t) (next_cell t).
Definition set_refcounts (m : gmap string nat) (t : AdapterTable) : AdapterTable :=
  mkTable (active t) (staged t) (rollback_state t) (checkpoints t) (max_checkpoints t)
    (current_stack t) m (retired_stacks t) (retry_counts t) (store t)
    (cache_identity t) (adapter_cache_budget_bytes t) (cells t) (next_cell t).
Definition set_retired (l : list Stack) (t : AdapterTable) : AdapterTable :=
  mkTable (active t) (staged t) (rollback_state t) (checkpoints t) (max_checkpoints t)
    (current_stack t) (refcounts t) l (retry_counts t) (store t)
    (cache_identity t) (adapter_cache_budget_bytes t) (cells t) (next_cell t).
Definition set_retry_counts (m : gmap Z Z) (t : AdapterTable) : AdapterTable :=
  mkTable (active t) (staged t) (rollback_state t) (checkpoints t) (max_checkpoints t)
    (current_stack t) (refcounts t) (retired_stacks t) m (store t)
    (cache_identity t) (adapter_cache_budget_bytes t) (cells t) (next_cell t).
Definition set_store (s : AdapterStore.AdapterStore) (t : AdapterTable) : AdapterTable :=
  mkTable (active t) (staged t) (rollback_state t) (checkpoints t) (max_checkpoints t)
    (current_stack t) (refcounts t) (retired_stacks t) (retry_counts t) s
    (cache_identity t) (adapter_cache_budget_bytes t) (cells t) (next_cell t).
Definition set_cells (cs : Cells) (t : AdapterTable) : AdapterTable :=
  mkTable (active t) (staged t) (rollback_state t) (checkpoints t) (max_checkpoints t)
    (current_stack t) (refcounts t) (retired_stacks t) (retry_counts t) (store t)
    (cache_identity t) (adapter_cache_budget_bytes t) cs (next_cell t).
Definition set_next_cell (n : nat) (t : AdapterTable) : AdapterTable :=
  mkTable (active t) (staged t) (rollback_state t) (checkpoints t) (max_checkpoints t)
    (current_stack t) (refcounts t) (retired_stacks t) (retry_counts t) (store t)
    (cache_identity t) (adapter_cache_budget_bytes t) (cells t) n.

(** ** Construction and configuration *)

Definition with_checkpoint_limit (limit : nat) (version : string) : AdapterTable :=
  mkTable ∅ ∅ None [] limit 0 ∅ [] ∅ AdapterStore.new (default_identity version) None ∅ 0.

Definition new (version : string) : AdapterTable := with_checkpoint_limit 20 version.

Definition set_cache_identity (i : AdapterCacheIdentity) (t : AdapterTable) : AdapterTable :=
  mkTable (active t) (staged t) (rollback_state t) (checkpoints t) (max_checkpoints t)
    (current_stack t) (refcounts t) (retired_stacks t) (retry_counts t) (store t)
    i (adapter_cache_budget_bytes t) (cells t) (next_cell t).

Definition set_adapter_cache_budget_bytes (b : option Z) (t : AdapterTable) : AdapterTable :=
  mkTable (active t) (staged t) (rollback_state t) (checkpoints t) (max_checkpoints t)
    (current_stack t) (refcounts t) (retired_stacks t) (retry_counts t) (store t)
    (cache_identity t) b (cells t) (next_cell t).

(** ** Staging *)

(** [entry(id).or_insert_with(|| Arc::new(AtomicUsize::new(0)))]. *)
Definition ensure_refcount (name : string) (t : AdapterTable) : AdapterTable :=
  match refcounts t !! name with
  | Some _ => t
  | None =>
      set_next_cell (S (next_cell t))
        (set_cells (<[next_cell t := 0]> (cells t))
          (set_refcounts (<[name := next_cell t]> (refcounts t)) t))
  end.

Definition zero_vram_error (name : string) : AosError :=
  Worker ("Adapter preload failed: VRAM estimate is zero for adapter '" +:+ name
    +:+ "'. This indicates the adapter weights could not be measured. Check that the .aos file contains valid SafeTensors data.").

Definition preload_with_backing (name : string) (expected h : B3Hash) (vram : Z)
    (b : option AdapterBacking) (now : Z) (t : AdapterTable)
  : result unit AosError * AdapterTable :=
  if vram =? 0 then (Err (zero_vram_error name), t)
  else
    let t :=
      match staged t !! name with
      | Some _ => t
      | None =>
          set_staged (<[name := mkLoadState name h expected vram now false Loaded b []]>
                        (staged t)) t
      end in
    (Ok tt, ensure_refcount name t).

Definition preload (name : string) (h : B3Hash) (vram now : Z) (t : AdapterTable)
  : result unit AosError * AdapterTable :=
  preload_with_backing name h h vram None now t.

Definition staged_expected_hash (name : string) (t : AdapterTable) : option B3Hash :=
  expected_hash <$> staged t !! name.

Definition update_staged_hash (name : string) (h : B3Hash) (t : AdapterTable) : AdapterTable :=
  match staged t !! name with
  | Some a => set_staged (<[name := set_hash h a]> (staged t)) t
  | None => t
  end.

Definition clear_staged (t : AdapterTable) : AdapterTable := set_staged ∅ t.

(** ** Swapping *)

(** The key under which an active adapter is published for pinning. *)
Definition cache_key (i : AdapterCacheIdentity) (name : string) (a : AdapterLoadState)
  : AdapterStore.AdapterCacheKey :=
  let k := AdapterStore.AdapterCacheKey_new name (hash a) (base_manifest_hash i)
             (backend_type i) (kernel_version_id i) (tenant_id i) (adapter_dir_hash i) in
  match backing a with
  | Some b => AdapterStore.with_galaxy k (backing_galaxy_id b)
  | None => k
  end.

(** The record of one active adapter: its registered counter, or a fresh one. *)
Definition index_entry (i : AdapterCacheIdentity) (rcs : gmap string nat)
    (acc : gmap AdapterStore.AdapterCacheKey AdapterStore.AdapterRecord * nat)
    (p : string * AdapterLoadState)
  : gmap AdapterStore.AdapterCacheKey AdapterStore.AdapterRecord * nat :=
  let '(m, fresh) := acc in
  let '(name, a) := p in
  match rcs !! name with
  | Some rc => (<[cache_key i name a := AdapterStore.mkRecord (hash a) rc]> m, fresh)
  | None => (<[cache_key i name a := AdapterStore.mkRecord (hash a) fresh]> m, S fresh)
  end.

Definition store_entries (i : AdapterCacheIdentity) (rcs : gmap string nat) (fresh : nat)
    (m : gmap string AdapterLoadState)
  : gmap AdapterStore.AdapterCacheKey AdapterStore.AdapterRecord * nat :=
  foldl (index_entry i rcs) (∅, fresh) (map_to_list m).

Definition not_preloaded (name : string) : AosError :=
  Worker ("Hot-swap aborted: adapter '" +:+ name +:+ "' was not preloaded into staging. You must preload all adapters before swapping them in. Use the Preload command first with adapter ID and hash.").

Definition vanished (name : string) : AosError :=
  Worker ("Critical hot-swap error: adapter '" +:+ name +:+ "' was removed from staging between validation and swap (concurrent modification detected). Swap aborted; active set unchanged.").

(** The first id without a staged entry. *)
Definition first_unstaged (add_ids : list string) (t : AdapterTable) : option string :=
  List.find (fun x => bool_decide (staged t !! x = None)) add_ids.

(** The loop over [remove_ids]. *)
Definition swap_remove (acc : gmap string AdapterLoadState * Z) (x : string)
  : gmap string AdapterLoadState * Z :=
  match acc.1 !! x with
  | Some a => (delete x acc.1, acc.2 - vram_mb a)
  | None => acc
  end.

(** The loop over [add_ids], all of which are staged. *)
Definition swap_add (stg : gmap string AdapterLoadState)
    (acc : gmap string AdapterLoadState * Z) (x : string)
  : gmap string AdapterLoadState * Z :=
  match stg !! x with
  | Some a => (<[x := activate a]> acc.1, acc.2 + vram_mb a)
  | None => acc
  end.

Definition new_active (add_ids remove_ids : list string) (t : AdapterTable)
  : gmap string AdapterLoadState * Z :=
  foldl (swap_add (staged t)) (foldl swap_remove (active t, 0) remove_ids) add_ids.

(** The defensive path: staged entries of the swap are dropped, active ones kept. *)
Definition drop_staged_adds (add_ids : list string) (t : AdapterTable) : AdapterTable :=
  set_staged
    (foldl (fun m x => match active t !! x with Some _ => m | None => delete x m end)
       (staged t) add_ids) t.

(** From the new active map on, a swap is four accesses to the shared table: counters,
    the flip of map and generation, the index for pinning, and the retirement of the old
    stack. The generation and the active map it starts from were read before. *)
Definition swap_register (m : gmap string AdapterLoadState) (t : AdapterTable) : AdapterTable :=
  foldl (fun t x => ensure_refcount x t) t (map fst (map_to_list m)).

Definition swap_flip (old_stack : Z) (m : gmap string AdapterLoadState) (t : AdapterTable)
  : Z * AdapterTable :=
  (current_stack t, set_current_stack (u64_wrapping_add old_stack 1) (set_active m t)).

Definition swap_publish (new_gen : Z) (m : gmap string AdapterLoadState) (now : Z) (t : AdapterTable)
  : AdapterTable :=
  let '(es, fresh) := store_entries (cache_identity t) (refcounts t) (next_cell t) m in
  set_next_cell fresh (set_store (AdapterStore.install new_gen es now (store t)).2 t).

Definition swap_retire (previous_gen new_gen : Z) (old_active : gmap string AdapterLoadState)
    (t : AdapterTable) : AdapterTable :=
  if negb (previous_gen =? new_gen) then
    set_retired (retired_stacks t ++ [mkStack previous_gen old_active]) t
  else t.

Definition swap_commit (m : gmap string AdapterLoadState) (now : Z) (t : AdapterTable)
  : AdapterTable :=
  let old_stack := current_stack t in
  let old_active := active t in
  let new_gen := u64_wrapping_add old_stack 1 in
  let '(previous_gen, t) := swap_flip old_stack m (swap_register m t) in
  swap_retire previous_gen new_gen old_active (swap_publish new_gen m now t).

Definition swap (add_ids remove_ids : list string) (now : Z)
    (others : AdapterTable -> AdapterTable) (t : AdapterTable)
  : result (Z * nat) AosError * AdapterTable :=
  let t := set_rollback_state (Some (mkStack (current_stack t) (active t))) t in
  match first_unstaged add_ids t with
  | Some x => (Err (not_preloaded x), t)
  | None =>
      let t := others t in
      match first_unstaged add_ids t with
      | Some x => (Err (vanished x), drop_staged_adds add_ids t)
      | None =>
          let '(m, vram_delta) := new_active add_ids remove_ids t in
          (Ok (vram_delta, length add_ids), swap_commit m now t)
      end
  end.

Definition no_rollback : AosError :=
  Worker "Rollback failed: no previous adapter state saved. Cannot revert to earlier configuration. This typically happens when attempting rollback before any successful swap.".

Definition rollback (now : Z) (t : AdapterTable) : result unit AosError * AdapterTable :=
  match rollback_state t with
  | None => (Err no_rollback, t)
  | Some rb =>
      let old_generation := current_stack t in
      let old_active := active t in
      let t := set_current_stack (stack_generation rb) (set_active (stack_active rb) t) in
      let '(es, fresh) :=
        store_entries (cache_identity t) (refcounts t) (next_cell t) (stack_active rb) in
      let t := set_next_cell fresh
        (set_store (AdapterStore.install_force (stack_generation rb) es now (store t)).2 t) in
      let t :=
        if stack_generation rb <? old_generation then
          set_retired (retired_stacks t ++ [mkStack old_generation old_active]) t
        else t in
      (Ok tt, set_rollback_state None t)
  end.

(** ** References *)

Definition load_ref (name : string) (t : AdapterTable) : option Z :=
  AdapterStore.load (cells t) <$> refcounts t !! name.

Definition inc_ref (name : string) (t : AdapterTable) : AdapterTable :=
  match refcounts t !! name with
  | Some rc => set_cells (AdapterStore.fetch_add_1 (cells t) rc) t
  | None => t
  end.

Definition dec_ref (name : string) (t : AdapterTable) : Z * AdapterTable :=
  match refcounts t !! name with
  | Some rc =>
      let old := AdapterStore.load (cells t) rc in
      (saturating_sub old 1, set_cells (AdapterStore.fetch_sub_1 (cells t) rc) t)
  | None => (0, t)
  end.

(** [counts]: how often each named adapter is referenced. *)
Definition ref_counts (names : list string) (t : AdapterTable) : list (string * Z) :=
  map (fun x => (x, default 0 (load_ref x t))) names.

Definition all_unreferenced (names : list string) (t : AdapterTable) : bool :=
  forallb (fun p => p.2 =? 0) (ref_counts names t).

(** [join] of [Vec<String>]. *)
Fixpoint join (sep : string) (l : list string) : string :=
  match l with
  | [] => EmptyString
  | [x] => x
  | x :: l' => x +:+ sep +:+ join sep l'
  end.

Definition still_referenced (names : list string) (timeout : string) (t : AdapterTable)
  : AosError :=
  let busy := List.filter (fun p => 0 <? p.2) (ref_counts names t) in
  Worker ("Hot-swap blocked: " +:+ pretty (length busy)
    +:+ " adapter(s) still have active inference requests after " +:+ timeout
    +:+ " timeout. Adapters in use: "
    +:+ join ", " (map (fun p => "'" +:+ p.1 +:+ "' (" +:+ pretty p.2 +:+ " refs)") busy)
    +:+ ". Wait for requests to complete or increase timeout.").

(** [wait_for_zero_refs] looks at the counters every 25 ms until the timeout: [t] is
    the table at the first look, [looks] those at the following ones. *)
Fixpoint wait_for_zero_refs (names : list string) (timeout : string) (t : AdapterTable)
    (looks : list AdapterTable) : result unit AosError :=
  if all_unreferenced names t then Ok tt
  else match looks with
       | [] => Err (still_referenced names timeout t)
       | t' :: looks' => wait_for_zero_refs names timeout t' looks'
       end.

Definition get_active (t : AdapterTable) : list AdapterLoadState := map snd (map_to_list (active t)).

Definition total_vram_mb (t : AdapterTable) : Z :=
  sumZ (map vram_mb (get_active t)) mod u64_mod.

Definition get_current_stack_handle (t : AdapterTable) : Stack :=
  mkStack (current_stack t) (active t).

(** ** Residency *)

Definition BYTES_PER_MB : Z := 1024 * 1024.

Definition state_bytes (a : AdapterLoadState) : Z :=
  u64_saturating_mul (vram_mb a) BYTES_PER_MB.

(** [entry(id).and_modify(max).or_insert(bytes)] over one map of adapters. *)
Definition max_bytes (acc : gmap string Z) (m : gmap string AdapterLoadState) : gmap string Z :=
  foldl (fun acc '(x, a) =>
           <[x := match acc !! x with
                  | Some old => Z.max old (state_bytes a)
                  | None => state_bytes a
                  end]> acc) acc (map_to_list m).

Definition bytes_by_id (t : AdapterTable) : gmap string Z :=
  foldl (fun acc st => max_bytes acc (stack_active st))
    (max_bytes (max_bytes ∅ (active t)) (staged t)) (retired_stacks t).

Definition adapter_cache_bytes (t : AdapterTable) : Z :=
  sumZ (map snd (map_to_list (bytes_by_id t))) mod u64_mod.

(** ** Hashes and checkpoints *)

Section Checkpoints.
Context `{Blake3} `{Hex}.

Definition compute_stack_hash (t : AdapterTable) : B3Hash :=
  stack_hash (map (fun '(x, a) => (x, hash a)) (map_to_list (active t))).

Definition current_stack_hash (t : AdapterTable) : B3Hash := compute_stack_hash t.

Definition sorted_ids (t : AdapterTable) : list string :=
  stable_sort String.leb (map fst (map_to_list (active t))).

Definition fp_leb (a b : GpuFingerprint) : bool := (fp_adapter_id a <=? fp_adapter_id b)%string.

Definition compute_cross_layer_hash (fps : list GpuFingerprint) (t : AdapterTable) : B3Hash :=
  blake3
    (concat (map (fun x =>
         match active t !! x with
         | Some a => as_bytes_of x ++ as_bytes (hash a)
         | None => []
         end) (sorted_ids t))
     ++ concat (map (fun fp =>
         as_bytes_of (fp_adapter_id fp) ++ le_bytes 8 (buffer_bytes fp)
         ++ as_bytes (checkpoint_hash fp)) (stable_sort fp_leb fps))).

Definition create_checkpoint (fps : list GpuFingerprint) (now_secs : Z) (t : AdapterTable)
  : StackCheckpoint * AdapterTable :=
  let cp := mkCheckpoint now_secs (compute_stack_hash t)
              (Some (compute_cross_layer_hash fps t)) fps (sorted_ids t) in
  let cps := checkpoints t ++ [cp] in
  (cp, set_checkpoints
         (if (max_checkpoints t <? length cps)%nat then drop 1 cps else cps) t).

Definition get_checkpoints (limit : nat) (t : AdapterTable) : list StackCheckpoint :=
  let cps := checkpoints t in
  drop (if (limit <? length cps)%nat then length cps - limit else 0)%nat cps.

Definition verify_against_checkpoint (cp : StackCheckpoint) (fps : list GpuFingerprint)
    (t : AdapterTable) : bool :=
  let current_metadata := compute_stack_hash t in
  let current_cross_layer := compute_cross_layer_hash fps t in
  if bool_decide (current_metadata <> metadata_hash cp) then false
  else match cross_layer_hash cp with
       | Some expected => negb (bool_decide (current_cross_layer <> expected))
       | None => true
       end.

(** [adapter_id_to_u16]: the first two bytes of the hash of the id. *)
Definition adapter_id_to_u16 (x : string) : Z :=
  match as_bytes (Hashing.hash (as_bytes_of x)) with
  | b0 :: b1 :: _ => Z_of_byte b0 + 256 * Z_of_byte b1
  | _ => 0
  end.
End Checkpoints.

(** ** Retirement *)

(** The calls the table and its manager make on the kernel backend. *)
Class FusedKernels (K : Type) : Type := {
  attach_adapter : Z -> K -> result unit AosError * K;
  detach_adapter : Z -> K -> result unit AosError * K;
  switch_adapter : Z -> K -> result unit AosError * K;
  load_adapter_with_metadata : Z -> list byte -> K -> result unit AosError * K;
  verify_adapter_buffers : Z -> K -> result Z AosError;
  get_gpu_fingerprints : K -> gmap Z (Z * B3Hash);
}.

Section Retirement.
Context `{Blake3} `{FusedKernels K}.

(** [refcounts.get(id).is_some_and(|rc| rc == 0)] for all adapters of a stack. *)
Definition can_unload (names : list string) (t : AdapterTable) : bool :=
  forallb (fun x => match load_ref x t with Some n => n =? 0 | None => false end) names.

(** Detach in turn; the first failure stops the loop ([true]: failed). *)
Fixpoint detach_all (names : list string) (k : K) : bool * K :=
  match names with
  | [] => (false, k)
  | x :: names' =>
      match detach_adapter (adapter_id_to_u16 x) k with
      | (Ok _, k) => detach_all names' k
      | (Err _, k) => (true, k)
      end
  end.

(** [position(|s| s.generation == gen)] and [remove]. *)
Fixpoint remove_generation (gen : Z) (l : list Stack) : option (list Stack) :=
  match l with
  | [] => None
  | st :: l' =>
      if stack_generation st =? gen then Some l'
      else cons st <$> remove_generation gen l'
  end.

(** The end of a successful unload: the first stack of that generation goes. *)
Definition finish_unload (gen : Z) (t : AdapterTable) : AdapterTable :=
  match remove_generation gen (retired_stacks t) with
  | Some l => set_retry_counts (delete gen (retry_counts t)) (set_retired l t)
  | None => t
  end.

Definition stack_names (st : Stack) : list string := map fst (map_to_list (stack_active st)).

(** The loop of [process_retired_stacks] from position [i]. [others1] happens between
    the look at the counters and taking the list again, [others2] around the kernel
    calls. [None]: out of fuel. *)
Fixpoint process_retired_loop (fuel i : nat) (others1 others2 : AdapterTable -> AdapterTable)
    (kernels : option K) (t : AdapterTable) : option (option K * AdapterTable) :=
  match fuel with
  | O => None
  | S fuel =>
      match retired_stacks t !! i with
      | None => Some (kernels, t)
      | Some st =>
          let unload := can_unload (stack_names st) t in
          let t := others1 t in
          match retired_stacks t !! i with
          | None => Some (kernels, t)
          | Some st' =>
              if negb (stack_generation st' =? stack_generation st) then
                process_retired_loop fuel (S i) others1 others2 kernels t
              else if unload then
                let gen := stack_generation st' in
                if 3 <=? default 0 (retry_counts t !! gen) then
                  process_retired_loop fuel i others1 others2 kernels
                    (set_retry_counts (delete gen (retry_counts t))
                      (set_retired (delete i (retired_stacks t)) t))
                else
                  match kernels with
                  | Some k =>
                      let '(failed, k) := detach_all (stack_names st') k in
                      let t := others2 t in
                      if failed then
                        process_retired_loop fuel (S i) others1 others2 (Some k)
                          (set_retry_counts
                            (<[gen := default 0 (retry_counts t !! gen) + 1]> (retry_counts t)) t)
                      else
                        process_retired_loop fuel i others1 others2 (Some k)
                          (finish_unload gen t)
                  | None =>
                      process_retired_loop fuel i others1 others2 None
                        (finish_unload gen (others2 t))
                  end
              else process_retired_loop fuel (S i) others1 others2 kernels t
          end
      end
  end.

Definition process_retired_stacks (fuel : nat) (others1 others2 : AdapterTable -> AdapterTable)
    (kernels : option K) (t : AdapterTable) : option (option K * AdapterTable) :=
  process_retired_loop fuel 0 others1 others2 kernels t.

(** [force_cleanup_retired]: the same without retry counts; a failed unload is left
    for the next call. *)
Fixpoint force_cleanup_loop (fuel i : nat) (others1 others2 : AdapterTable -> AdapterTable)
    (cleaned : nat) (kernels : option K) (t : AdapterTable)
  : option (nat * option K * AdapterTable) :=
  match fuel with
  | O => None
  | S fuel =>
      match retired_stacks t !! i with
      | None => Some (cleaned, kernels, t)
      | Some st =>
          let unload := can_unload (stack_names st) t in
          let t := others1 t in
          match retired_stacks t !! i with
          | None => Some (cleaned, kernels, t)
          | Some st' =>
              if negb (stack_generation st' =? stack_generation st) then
                force_cleanup_loop fuel (S i) others1 others2 cleaned kernels t
              else if unload then
                let gen := stack_generation st' in
                let '(failed, kernels) :=
                  match kernels with
                  | Some k => let '(failed, k) := detach_all (stack_names st') k in (failed, Some k)
                  | None => (false, None)
                  end in
                let t := others2 t in
                if failed then
                  force_cleanup_loop fuel (S i) others1 others2 cleaned kernels t
                else
                  let cleaned :=
                    match remove_generation gen (retired_stacks t) with
                    | Some _ => S cleaned
                    | None => cleaned
                    end in
                  force_cleanup_loop fuel i others1 others2 cleaned kernels (finish_unload gen t)
              else force_cleanup_loop fuel (S i) others1 others2 cleaned kernels t
          end
      end
  end.

Definition force_cleanup_retired (fuel : nat) (others1 others2 : AdapterTable -> AdapterTable)
    (kernels : option K) (t : AdapterTable) : option (nat * option K * AdapterTable) :=
  force_cleanup_loop fuel 0 others1 others2 0 kernels t.
End Retirement.

(** ** Counters *)

Lemma ensure_refcount_spec x t :
  let t' := ensure_refcount x t in
  is_Some (refcounts t' !! x) /\ refcounts t ⊆ refcounts t'
  /\ active t' = active t /\ staged t' = staged t /\ rollback_state t' = rollback_state t
  /\ current_stack t' = current_stack t /\ retired_stacks t' = retired_stacks t
  /\ store t' = store t /\ cache_identity t' = cache_identity t.
Proof.
  unfold ensure_refcount. destruct (refcounts t !! x) eqn:E; simpl.
  - by rewrite E.
  - rewrite lookup_insert_eq. split; [done|]. split; [by apply insert_subseteq|done].
Qed.

Lemma ensure_refcounts_spec xs t :
  let t' := foldl (fun t x => ensure_refcount x t) t xs in
  (forall x, x ∈ xs -> is_Some (refcounts t' !! x)) /\ refcounts t ⊆ refcounts t'
  /\ active t' = active t /\ staged t' = staged t /\ rollback_state t' = rollback_state t
  /\ current_stack t' = current_stack t /\ retired_stacks t' = retired_stacks t
  /\ store t' = store t /\ cache_identity t' = cache_identity t.
Proof.
  revert t. induction xs as [|y xs IH]; intros t; simpl.
  - split; [by intros x ?%elem_of_nil|done].
  - destruct (ensure_refcount_spec y t) as (Hy & Hsub & E1 & E2 & E3 & E4 & E5 & E6 & E7).
    destruct (IH (ensure_refcount y t)) as (Hxs & Hsub' & F1 & F2 & F3 & F4 & F5 & F6 & F7).
    rewrite F1, F2, F3, F4, F5, F6, F7. split; [|split; [by etrans|done]].
    intros x [->|Hx]%elem_of_cons; [|by apply Hxs].
    destruct Hy as [c Hc]. exists c. by eapply lookup_weaken.
Qed.

(** ** Stack hashes *)

Lemma stack_sort_canonical (l l' : list (string * B3Hash)) :
  NoDup (l.*1) -> l ≡ₚ l' -> stable_sort pair_leb l = stable_sort pair_leb l'.
Proof. intros Hnd. apply (key_sort_canonical fst). intros x y. by apply (nodup_key fst). Qed.

(** The pairs a table hashes, from its map of hashes. *)
Lemma hash_pairs_perm (m : gmap string AdapterLoadState) :
  map (fun '(x, a) => (x, hash a)) (map_to_list m) ≡ₚ map_to_list (hash <$> m).
Proof.
  rewrite map_to_list_fmap. apply reflexive_eq, List.map_ext. by intros [].
Qed.

Lemma stack_hash_map `{Blake3} `{Hex} l (m : gmap string B3Hash) :
  l ≡ₚ map_to_list m -> stack_hash l = stack_hash (map_to_list m).
Proof.
  intros Hp. unfold stack_hash. do 3 f_equal. symmetry. apply stack_sort_canonical; [|done].
  apply NoDup_fst_map_to_list.
Qed.

Lemma compute_stack_hash_eq `{Blake3} `{Hex} t :
  compute_stack_hash t = stack_hash (map_to_list (hash <$> active t)).
Proof. apply stack_hash_map, hash_pairs_perm. Qed.

Lemma sorted_ids_eq t : sorted_ids t = stable_sort String.leb (map_to_list (hash <$> active t)).*1.
Proof.
  apply ids_sort_canonical. rewrite <- (hash_pairs_perm (active t)).
  replace (map fst (map_to_list (active t)))
    with ((map (fun '(x, a) => (x, hash a)) (map_to_list (active t))).*1); [done|].
  unfold fmap. rewrite List.map_map. apply List.map_ext. by intros [].
Qed.

Lemma cross_layer_hash_ext `{Blake3} fps t t' :
  (hash <$> active t') = (hash <$> active t) ->
  compute_cross_layer_hash fps t' = compute_cross_layer_hash fps t.
Proof.
  intros E. unfold compute_cross_layer_hash. rewrite !sorted_ids_eq, E. do 3 f_equal.
  apply List.map_ext. intros x. apply (f_equal (lookup x)) in E. rewrite !lookup_fmap in E.
  destruct (active t' !! x), (active t !! x); simpl in E; congruence.
Qed.

(** ** The published index *)

Definition registered (rcs : gmap string nat) (m : gmap string AdapterLoadState) : Prop :=
  forall x, is_Some (m !! x) -> is_Some (rcs !! x).

Lemma registered_mono rcs rcs' m : rcs ⊆ rcs' -> registered rcs m -> registered rcs' m.
Proof. intros Hs Hm x Hx. destruct (Hm x Hx) as [c Hc]. exists c. by eapply lookup_weaken. Qed.

(** With every counter registered the index does not depend on fresh counters, nor
    on counters registered later. *)
Lemma store_entries_registered i rcs rcs' f f' m :
  rcs ⊆ rcs' -> registered rcs m ->
  (store_entries i rcs f m).1 = (store_entries i rcs' f' m).1
  /\ (store_entries i rcs f m).2 = f.
Proof.
  intros Hsub Hreg. unfold store_entries.
  assert (Hl : forall x a, (x, a) ∈ map_to_list m -> is_Some (rcs !! x)).
  { intros x a Hxa%elem_of_map_to_list. apply Hreg. eauto. }
  generalize (∅ : gmap AdapterStore.AdapterCacheKey AdapterStore.AdapterRecord) as m0.
  revert Hl f f'. generalize (map_to_list m) as l.
  induction l as [|[x a] l IH]; intros Hl f f' m0; simpl; [done|].
  destruct (Hl x a) as [c Hc]; [by left|].
  rewrite Hc, (lookup_weaken _ _ _ _ Hc Hsub). apply IH.
  intros y b Hb. apply (Hl y b). by right.
Qed.

Lemma cache_key_id i x a : AdapterStore.adapter_id (cache_key i x a) = x.
Proof. unfold cache_key. by destruct (backing a). Qed.

Lemma index_list_spec i rcs f l :
  NoDup (l.*1) ->
  let es := (foldl (index_entry i rcs) (∅, f) l).1 in
  (forall k r, es !! k = Some r ->
     exists x a, (x, a) ∈ l /\ k = cache_key i x a /\ AdapterStore.hash r = hash a
                 /\ (forall c, rcs !! x = Some c -> AdapterStore.refcount r = c))
  /\ (forall x a, (x, a) ∈ l -> is_Some (es !! cache_key i x a)).
Proof.
  induction l as [|[x a] l IH] using rev_ind; intros Hnd es.
  { unfold es. simpl. split; [|by intros x a ?%elem_of_nil].
    intros k r. by rewrite lookup_empty. }
  rewrite fmap_app in Hnd. apply NoDup_app in Hnd as (Hl & Hx & _).
  specialize (IH Hl). destruct IH as [IH1 IH2]. unfold es. rewrite foldl_app. simpl.
  destruct (foldl (index_entry i rcs) (∅, f) l) as [m fr]. simpl in *.
  assert (exists c, (rcs !! x = Some c \/ rcs !! x = None) /\
    (match rcs !! x with
     | Some rc => (<[cache_key i x a := AdapterStore.mkRecord (hash a) rc]> m, fr)
     | None => (<[cache_key i x a := AdapterStore.mkRecord (hash a) fr]> m, S fr)
     end).1 = <[cache_key i x a := AdapterStore.mkRecord (hash a) c]> m) as (c & Hc & ->).
  { destruct (rcs !! x) as [c|]; eexists; split; eauto. }
  split.
  - intros k r. destruct (decide (k = cache_key i x a)) as [->|NE].
    + rewrite lookup_insert_eq. intros [= <-]. exists x, a. split; [set_solver|].
      split; [done|]. split; [done|]. intros c' Hc'. simpl. destruct Hc; congruence.
    + rewrite lookup_insert_ne by done. intros Hk. destruct (IH1 k r Hk) as (y & b & Hy & Hr).
      exists y, b. split; [set_solver|done].
  - intros y b [Hy|Hy]%elem_of_app.
    + destruct (IH2 y b Hy) as [r Hr]. rewrite lookup_insert_ne; [by eauto|].
      intros E. apply (f_equal AdapterStore.adapter_id) in E. rewrite !cache_key_id in E. subst y.
      apply (Hx x); [|set_solver]. apply list_elem_of_fmap. by exists (x, b).
    + apply list_elem_of_singleton in Hy as [= -> ->]. rewrite lookup_insert_eq. eauto.
Qed.

(** The index lists exactly the adapters of the map, with their hash, under the key
    of the identity, counting on the registered counter. *)
Lemma store_entries_spec i rcs f m :
  let es := (store_entries i rcs f m).1 in
  (forall k r, es !! k = Some r ->
     exists x a, m !! x = Some a /\ k = cache_key i x a /\ AdapterStore.hash r = hash a
                 /\ (forall c, rcs !! x = Some c -> AdapterStore.refcount r = c))
  /\ (forall x a, m !! x = Some a -> is_Some (es !! cache_key i x a)).
Proof.
  destruct (index_list_spec i rcs f (map_to_list m)) as [H1 H2]; [apply NoDup_fst_map_to_list|].
  split.
  - intros k r Hk. destruct (H1 k r Hk) as (x & a & Hx & Hr). exists x, a.
    split; [by apply elem_of_map_to_list|done].
  - intros x a Hx. by apply H2, elem_of_map_to_list.
Qed.

(** ** The new active set *)

Lemma swap_remove_lookup rem m d x :
  (foldl swap_remove (m, d) rem).1 !! x = if decide (x ∈ rem) then None else m !! x.
Proof.
  revert m d. induction rem as [|y rem IH]; intros m d; simpl; [done|].
  unfold swap_remove at 2. simpl. destruct (m !! y) as [a|] eqn:Hy; rewrite IH.
  - destruct (decide (x ∈ rem)) as [Hin|Hin]; [by rewrite decide_True by set_solver|].
    destruct (decide (x = y)) as [->|NE].
    + rewrite lookup_delete_eq, decide_True by set_solver. done.
    + rewrite lookup_delete_ne by done. by rewrite decide_False by set_solver.
  - destruct (decide (x ∈ rem)) as [Hin|Hin]; [by rewrite decide_True by set_solver|].
    destruct (decide (x = y)) as [->|NE].
    + by rewrite decide_True by set_solver.
    + by rewrite decide_False by set_solver.
Qed.

Lemma swap_add_lookup stg add m d x :
  (forall y, y ∈ add -> is_Some (stg !! y)) ->
  (foldl (swap_add stg) (m, d) add).1 !! x
  = if decide (x ∈ add) then activate <$> stg !! x else m !! x.
Proof.
  revert m d. induction add as [|y add IH]; intros m d Hstg; simpl; [done|].
  unfold swap_add at 2. simpl. destruct (Hstg y) as [a Ha]; [by left|]. rewrite Ha, IH.
  2: { intros z Hz. apply Hstg. by right. }
  destruct (decide (x ∈ add)) as [Hin|Hin]; [by rewrite decide_True by set_solver|].
  destruct (decide (x = y)) as [->|NE].
  - by rewrite lookup_insert_eq, decide_True, Ha by set_solver.
  - rewrite lookup_insert_ne by done. by rewrite decide_False by set_solver.
Qed.

Lemma first_unstaged_None add t :
  first_unstaged add t = None -> forall x, x ∈ add -> is_Some (staged t !! x).
Proof.
  unfold first_unstaged. intros Hf x Hx.
  pose proof (List.find_none _ _ Hf x (proj1 (list_elem_of_In _ _) Hx)) as Hn.
  apply bool_decide_eq_false in Hn. by destruct (staged t !! x); [eauto|].
Qed.

Lemma first_unstaged_Some add t x :
  first_unstaged add t = Some x -> x ∈ add /\ staged t !! x = None.
Proof.
  intros [Hin Hx]%List.find_some. apply bool_decide_eq_true in Hx.
  split; [by apply list_elem_of_In|done].
Qed.

Lemma new_active_lookup add rem t x :
  first_unstaged add t = None ->
  (new_active add rem t).1 !! x
  = if decide (x ∈ add) then activate <$> staged t !! x
    else if decide (x ∈ rem) then None else active t !! x.
Proof.
  intros Hf. unfold new_active. destruct (foldl swap_remove _ _) as [m d] eqn:E.
  rewrite swap_add_lookup by (by apply first_unstaged_None).
  by rewrite <- (swap_remove_lookup rem (active t) 0 x), E.
Qed.

Lemma swap_commit_spec m now t :
  let t' := swap_commit m now t in
  let new_gen := u64_wrapping_add (current_stack t) 1 in
  active t' = m /\ current_stack t' = new_gen /\ staged t' = staged t
  /\ rollback_state t' = rollback_state t /\ cache_identity t' = cache_identity t
  /\ refcounts t ⊆ refcounts t' /\ registered (refcounts t') m
  /\ (is_u64 (current_stack t) ->
      retired_stacks t' = retired_stacks t ++ [mkStack (current_stack t) (active t)])
  /\ store t' = (AdapterStore.install new_gen
       (store_entries (cache_identity t') (refcounts t') (next_cell t') m).1 now (store t)).2.
Proof.
  unfold swap_commit, swap_flip, swap_register, swap_publish, swap_retire.
  destruct (ensure_refcounts_spec (map fst (map_to_list m)) t)
    as (Hreg & Hsub & E1 & E2 & E3 & E4 & E5 & E6 & E7).
  set (t1 := foldl _ t _) in *. simpl. rewrite E4, E6, E7.
  assert (Hm : registered (refcounts t1) m).
  { intros x [a Ha]. apply Hreg, list_elem_of_fmap. exists (x, a).
    split; [done|by apply elem_of_map_to_list]. }
  destruct (store_entries_registered (cache_identity t) (refcounts t1) (refcounts t1)
              (next_cell t1) (next_cell t1) m) as [_ Hf]; [done|done|].
  destruct (store_entries (cache_identity t) (refcounts t1) (next_cell t1) m) as [es fresh] eqn:Es.
  simpl in Hf. subst fresh.
  destruct (negb _) eqn:Hneg; simpl; rewrite ?E7, ?Es, ?E2, ?E3, ?E5, ?E6;
    repeat (split; [done|]); split; try done.
  intros Hr. apply negb_false_iff, Z.eqb_eq in Hneg. exfalso. unfold u64_wrapping_add in Hneg.
  destruct (Z.eq_dec (current_stack t + 1) u64_mod) as [E|NE].
  - rewrite E, Z_mod_same_full in Hneg. unfold is_u64, u64_mod in *. lia.
  - rewrite Z.mod_small in Hneg by (unfold is_u64 in Hr; lia). lia.
Qed.

(** ** The invariant of the table *)

(** The index is that of the active set, with the keys of an identity. *)
Record table_ok_at (i : AdapterCacheIdentity) (t : AdapterTable) : Prop := {
  ok_index : AdapterStore.current (store t)
    = AdapterStore.mkSnapshot (current_stack t)
        (store_entries i (refcounts t) (next_cell t) (active t)).1;
  ok_active : registered (refcounts t) (active t);
  ok_rollback rb : rollback_state t = Some rb ->
    0 <= stack_generation rb <= current_stack t /\ registered (refcounts t) (stack_active rb);
  ok_generation : is_u64 (current_stack t);
}.
#[global] Arguments ok_index {i} t _.
#[global] Arguments ok_active {i} t _ x _.
#[global] Arguments ok_rollback {i} t _ rb _.
#[global] Arguments ok_generation {i} t _.

Definition table_ok (t : AdapterTable) : Prop := table_ok_at (cache_identity t) t.

(** Fields the index depends on. *)
Definition same_index (t t' : AdapterTable) : Prop :=
  active t' = active t /\ current_stack t' = current_stack t /\ store t' = store t
  /\ cache_identity t' = cache_identity t /\ rollback_state t' = rollback_state t
  /\ refcounts t ⊆ refcounts t'.

#[global] Instance same_index_preorder : PreOrder same_index.
Proof.
  split; [by intros t|]. intros t u v (A1 & A2 & A3 & A4 & A5 & A6) (B1 & B2 & B3 & B4 & B5 & B6).
  unfold same_index. rewrite B1, B2, B3, B4, B5. repeat (split; [done|]). by etrans.
Qed.

Lemma table_ok_at_same_index i t t' : same_index t t' -> table_ok_at i t -> table_ok_at i t'.
Proof.
  intros (E1 & E2 & E3 & E4 & E5 & E6) [H1 H2 H3 H4]. split.
  - rewrite E1, E2, E3, H1. f_equal. by apply store_entries_registered.
  - rewrite E1. by eapply registered_mono.
  - intros rb. rewrite E5, E2. intros Hrb. destruct (H3 rb Hrb) as [? Hr].
    split; [done|]. by eapply registered_mono.
  - by rewrite E2.
Qed.

Lemma same_index_identity t t' : same_index t t' -> cache_identity t' = cache_identity t.
Proof. by intros (_ & _ & _ & E & _). Qed.

Lemma table_ok_same_index t t' : same_index t t' -> table_ok t -> table_ok t'.
Proof.
  intros Hs Hok. unfold table_ok. rewrite (same_index_identity _ _ Hs).
  by eapply table_ok_at_same_index.
Qed.

Lemma preload_same_index x e h v b now t :
  same_index t (preload_with_backing x e h v b now t).2.
Proof.
  unfold preload_with_backing. destruct (v =? 0); [done|]. simpl.
  set (t1 := match staged t !! x with Some _ => t | None => _ end).
  assert (same_index t t1) as Ht1 by (unfold t1; by destruct (staged t !! x)).
  etrans; [exact Ht1|].
  destruct (ensure_refcount_spec x t1) as (_ & S & A & _ & R & C & _ & St & I). done.
Qed.

Section RetirementFrame.
Context `{Blake3} `{FusedKernels K}.

(** Without interference, retirement touches only the retired list, the retry counts
    and the kernels. *)
Definition retirement_frame (t t' : AdapterTable) : Prop := same_index t t' /\ staged t' = staged t.

#[local] Instance retirement_frame_preorder : PreOrder retirement_frame.
Proof.
  split; [done|]. intros t u v [S1 E1] [S2 E2]. split; [by etrans|by rewrite E2].
Qed.

Lemma finish_unload_same gen t : retirement_frame t (finish_unload gen t).
Proof. unfold finish_unload. by destruct (remove_generation _ _). Qed.

Lemma process_retired_same fuel i kernels kernels' t t' :
  process_retired_loop fuel i (fun u => u) (fun u => u) kernels t = Some (kernels', t') ->
  retirement_frame t t'.
Proof.
  revert i kernels t. induction fuel as [|fuel IH]; intros i kernels t E; simpl in E; [done|].
  destruct (retired_stacks t !! i) as [st|] eqn:Hi; [|by injection E as _ <-].
  destruct (negb _); [by eapply IH|].
  destruct (can_unload _ t); [|by eapply IH].
  destruct (3 <=? _).
  { etrans; [|by eapply IH]. done. }
  destruct kernels as [k|].
  - destruct (detach_all _ k) as [[] k'].
    + etrans; [|by eapply IH]. done.
    + etrans; [|by eapply IH]. apply finish_unload_same.
  - etrans; [|by eapply IH]. apply finish_unload_same.
Qed.

Lemma force_cleanup_same fuel i cleaned cleaned' kernels kernels' t t' :
  force_cleanup_loop fuel i (fun u => u) (fun u => u) cleaned kernels t = Some (cleaned', kernels', t') ->
  retirement_frame t t'.
Proof.
  revert i cleaned kernels t.
  induction fuel as [|fuel IH]; intros i cleaned kernels t E; simpl in E; [done|].
  destruct (retired_stacks t !! i) as [st|] eqn:Hi; [|by injection E as _ _ <-].
  destruct (negb _); [by eapply IH|].
  destruct (can_unload _ t); [|by eapply IH].
  destruct (match kernels with Some k => _ | None => _ end) as [[] ks]; [by eapply IH|].
  etrans; [|by eapply IH]. apply finish_unload_same.
Qed.

Lemma remove_generation_length gen l l' :
  remove_generation gen l = Some l' -> length l = S (length l').
Proof.
  revert l'. induction l as [|st l IH]; intros l'; simpl; [done|].
  destruct (_ =? gen); [by intros [= ->]|].
  destruct (remove_generation gen l) as [k|]; simpl; [|done]. intros [= <-]. simpl.
  by rewrite (IH k).
Qed.

Lemma remove_generation_found gen l i st :
  l !! i = Some st -> stack_generation st = gen -> is_Some (remove_generation gen l).
Proof.
  revert i. induction l as [|st' l IH]; intros i; [done|]. simpl.
  destruct (Z.eqb_spec (stack_generation st') gen) as [E|NE]; [by eauto|].
  destruct i as [|i]; simpl; [by intros [= ->]|]. intros Hi Hg.
  destruct (IH i Hi Hg) as [k ->]. simpl. eauto.
Qed.

Lemma finish_unload_shorter i t st :
  retired_stacks t !! i = Some st ->
  length (retired_stacks t) = S (length (retired_stacks (finish_unload (stack_generation st) t))).
Proof.
  intros Hi. unfold finish_unload.
  destruct (remove_generation_found (stack_generation st) _ i st Hi) as [l Hl]; [done|].
  rewrite Hl. simpl. by apply remove_generation_length in Hl.
Qed.

(** Every pass either moves on or shortens the list. *)
Lemma process_retired_terminates fuel i kernels t :
  (length (retired_stacks t) - i < fuel)%nat ->
  is_Some (process_retired_loop fuel i (fun u => u) (fun u => u) kernels t).
Proof.
  revert i kernels t. induction fuel as [|fuel IH]; intros i kernels t Hf; [lia|]. simpl.
  destruct (retired_stacks t !! i) as [st|] eqn:Hi; [|by eauto].
  pose proof (lookup_lt_Some _ _ _ Hi) as Hlt. rewrite Z.eqb_refl. simpl.
  destruct (can_unload _ t); [|apply IH; lia].
  destruct (3 <=? _).
  { apply IH. simpl. rewrite length_delete by eauto. lia. }
  pose proof (finish_unload_shorter i t st Hi) as Hs.
  destruct kernels as [k|]; [destruct (detach_all _ k) as [[] k']|]; apply IH; simpl; lia.
Qed.
End RetirementFrame.

(** What callers do to a table, one call at a time. The generation is a 64-bit
    counter: a swap needs room for one more. *)
Inductive table_step `{Blake3} `{Hex} : AdapterTable -> AdapterTable -> Prop :=
| ts_preload x e h v b now t : table_step t (preload_with_backing x e h v b now t).2
| ts_update_hash x h t : table_step t (update_staged_hash x h t)
| ts_clear_staged t : table_step t (clear_staged t)
| ts_swap add rem now t :
    current_stack t < u64_max -> table_step t (swap add rem now (fun u => u) t).2
| ts_rollback now t : table_step t (rollback now t).2
| ts_inc_ref x t : table_step t (inc_ref x t)
| ts_dec_ref x t : table_step t (dec_ref x t).2
| ts_checkpoint fps now t : table_step t (create_checkpoint fps now t).2
| ts_pin t :
    table_step t (set_cells (AdapterStore.pin_current (store t) (cells t)).2 t)
| ts_unpin p cs t :
    AdapterStore.drop_pins p (cells t) = Some cs -> table_step t (set_cells cs t)
| ts_retire K `(FusedKernels K) fuel k k' t t' :
    process_retired_stacks fuel (fun u => u) (fun u => u) k t = Some (k', t') ->
    table_step t t'
| ts_force_cleanup K `(FusedKernels K) fuel n k k' t t' :
    force_cleanup_retired fuel (fun u => u) (fun u => u) k t = Some (n, k', t') ->
    table_step t t'
| ts_restore_checkpoints cps t : table_step t (set_checkpoints cps t)
| ts_cache_budget b t : table_step t (set_adapter_cache_budget_bytes b t).

(** ... and to change the identity that the keys of the index are made of. *)
Inductive table_step_any `{Blake3} `{Hex} (t : AdapterTable) : AdapterTable -> Prop :=
| tsa_step t' : table_step t t' -> table_step_any t t'
| tsa_identity i : table_step_any t (set_cache_identity i t).

Lemma swap_table_ok_at i add rem now t :
  current_stack t < u64_max -> table_ok_at i t ->
  let t' := (swap add rem now (fun u => u) t).2 in
  table_ok t' \/ table_ok_at i t' /\ cache_identity t' = cache_identity t.
Proof.
  intros Hb Hok. unfold swap.
  set (t1 := set_rollback_state _ t).
  assert (Hok1 : table_ok_at i t1).
  { destruct Hok as [H1 H2 H3 H4]. split; simpl; try done.
    intros rb [= <-]. simpl. split; [|done]. unfold is_u64 in H4. lia. }
  destruct (first_unstaged add t1); [by right|]. left.
  destruct (new_active add rem t1) as [m d]. simpl. destruct Hok1 as [H1 H2 H3 H4].
  destruct (swap_commit_spec m now t1) as (A & C & _ & R & I & S & Hm & _ & St).
  set (t2 := swap_commit m now t1) in *.
  assert (Hg : u64_wrapping_add (current_stack t1) 1 = current_stack t1 + 1).
  { apply u64_wrapping_add_small. unfold is_u64, u64_max in *. simpl in *. lia. }
  split.
  - rewrite St, A, C. unfold AdapterStore.install. rewrite H1. simpl.
    by rewrite (proj2 (Z.leb_gt _ _)) by (simpl in *; lia).
  - by rewrite A.
  - intros rb. rewrite R, C, Hg. intros Hrb. destruct (H3 rb Hrb) as [? Hr].
    split; [lia|]. by eapply registered_mono.
  - rewrite C. apply u64_wrapping_add_range.
Qed.

Lemma swap_table_ok add rem now t :
  current_stack t < u64_max -> table_ok t -> table_ok (swap add rem now (fun u => u) t).2.
Proof.
  intros Hb Hok. destruct (swap_table_ok_at _ add rem now t Hb Hok) as [|[Ha E]]; [done|].
  unfold table_ok. by rewrite E.
Qed.

(** Rollback of a registered stack, with its fields spelled out. *)
Lemma rollback_spec now t rb :
  rollback_state t = Some rb -> registered (refcounts t) (stack_active rb) ->
  let t' := (rollback now t).2 in
  (rollback now t).1 = Ok tt /\ active t' = stack_active rb
  /\ current_stack t' = stack_generation rb /\ staged t' = staged t
  /\ refcounts t' = refcounts t /\ cache_identity t' = cache_identity t
  /\ rollback_state t' = None
  /\ AdapterStore.current (store t') = AdapterStore.mkSnapshot (stack_generation rb)
       (store_entries (cache_identity t) (refcounts t) (next_cell t') (stack_active rb)).1.
Proof.
  intros Hrb Hreg. unfold rollback. rewrite Hrb. simpl.
  destruct (store_entries_registered (cache_identity t) (refcounts t) (refcounts t)
              (next_cell t) (next_cell t) (stack_active rb)) as [_ Hf]; [done|done|].
  destruct (store_entries (cache_identity t) (refcounts t) (next_cell t) (stack_active rb))
    as [es fresh] eqn:Es. simpl in Hf. subst fresh.
  destruct (_ <? current_stack t); simpl; rewrite Es; done.
Qed.


Lemma rollback_table_ok_at i now t :
  table_ok_at i t ->
  let t' := (rollback now t).2 in
  table_ok t' \/ table_ok_at i t' /\ cache_identity t' = cache_identity t.
Proof.
  intros Hok. destruct (rollback_state t) as [rb|] eqn:Hrb.
  - left. destruct (ok_rollback t Hok rb Hrb) as [Hg Hr].
    destruct (rollback_spec now t rb Hrb Hr) as (_ & A & C & _ & R & I & N & St).
    split.
    + by rewrite St, A, C, R, I.
    + by rewrite A, R.
    + by rewrite N.
    + rewrite C. pose proof (ok_generation t Hok). unfold is_u64 in *. lia.
  - right. unfold rollback. by rewrite Hrb.
Qed.

Lemma rollback_table_ok now t : table_ok t -> table_ok (rollback now t).2.
Proof.
  intros Hok. destruct (rollback_table_ok_at _ now t Hok) as [|[Ha E]]; [done|].
  unfold table_ok. by rewrite E.
Qed.

(** A step that publishes an index does so under the identity of the table; the others
    leave the index and the identity as they are. *)
Lemma table_step_ok_at `{Blake3} `{Hex} i t t' :
  table_ok_at i t -> table_step t t' ->
  table_ok t' \/ table_ok_at i t' /\ cache_identity t' = cache_identity t.
Proof.
  intros Hok Hstep.
  assert (same_index t t' -> table_ok t' \/ table_ok_at i t' /\ cache_identity t' = cache_identity t) as Hsame.
  { intros Hs. right. split; [by eapply table_ok_at_same_index|by apply same_index_identity]. }
  destruct Hstep.
  - apply Hsame, preload_same_index.
  - apply Hsame. unfold update_staged_hash. by destruct (staged t !! x).
  - by apply Hsame.
  - by apply swap_table_ok_at.
  - by apply rollback_table_ok_at.
  - apply Hsame. unfold inc_ref. by destruct (refcounts t !! x).
  - apply Hsame. unfold dec_ref. by destruct (refcounts t !! x).
  - by apply Hsame.
  - by apply Hsame.
  - by apply Hsame.
  - apply Hsame. by eapply process_retired_same.
  - apply Hsame. by eapply force_cleanup_same.
  - by apply Hsame.
  - by apply Hsame.
Qed.

Lemma table_step_ok `{Blake3} `{Hex} t t' : table_ok t -> table_step t t' -> table_ok t'.
Proof.
  intros Hok Hs. destruct (table_step_ok_at _ t t' Hok Hs) as [|[Ha E]]; [done|].
  unfold table_ok. by rewrite E.
Qed.

Lemma table_step_any_ok `{Blake3} `{Hex} t t' :
  (exists i, table_ok_at i t) -> table_step_any t t' -> exists i, table_ok_at i t'.
Proof.
  intros [i Hok] [u Hs|j].
  - destruct (table_step_ok_at i t u Hok Hs) as [|[? _]]; by eexists.
  - exists i. destruct Hok as [H1 H2 H3 H4]. by split.
Qed.

(** Whatever is staged has a counter, and counters stay. *)
Lemma table_step_counters `{Blake3} `{Hex} t t' :
  table_step_any t t' ->
  registered (refcounts t) (staged t) -> registered (refcounts t') (staged t').
Proof.
  intros Hs Hr.
  assert (refcounts t ⊆ refcounts t' -> (forall x, is_Some (staged t' !! x) -> is_Some (staged t !! x)) ->
    registered (refcounts t') (staged t')) as Hle.
  { intros Hsub Hst x Hx. by eapply registered_mono, Hst. }
  destruct Hs as [t' Hs|i]; [|by apply Hle].
  destruct Hs as [x e h v b now u|x h u|u|add rem now u _|now u|x u|x u|fps now u|u|p cs u _
    |K ? fuel k k' u u' Hp|K ? fuel n k k' u u' Hp|cps u|b u]; try by apply Hle.
  - unfold preload_with_backing. destruct (v =? 0); [done|]. cbn [snd].
    set (t1 := match staged u !! x with Some _ => u | None => _ end).
    destruct (ensure_refcount_spec x t1) as (Hx & S & _ & St & _). rewrite St.
    intros y Hy. destruct (decide (y = x)) as [->|NE]; [done|].
    assert (is_Some (staged u !! y)) as Hy'.
    { revert Hy. unfold t1. destruct (staged u !! x); [done|]. simpl. by rewrite lookup_insert_ne by done. }
    eapply registered_mono; [exact S| |exact Hy']. unfold t1. by destruct (staged u !! x).
  - apply Hle; unfold update_staged_hash; destruct (staged u !! x) eqn:E; try done. simpl. intros y.
    destruct (decide (y = x)) as [->|NE]; [by rewrite E|by rewrite lookup_insert_ne by done].
  - apply Hle; [done|]. intros x. simpl. rewrite lookup_empty. by intros [].
  - unfold swap in *. set (t1 := set_rollback_state _ u) in *. destruct (first_unstaged add t1); [done|].
    destruct (new_active add rem t1) as [m d]. cbn [snd] in *.
    destruct (swap_commit_spec m now t1) as (_ & _ & S & _ & _ & Sub & _). apply Hle; [done|]. by rewrite S.
  - unfold rollback in *. destruct (rollback_state u) as [rb|]; [|done].
    cbn [cache_identity refcounts next_cell set_current_stack set_active] in *.
    destruct (store_entries _ _ _ _) as [es fresh]. destruct (_ <? _); by apply Hle.
  - unfold inc_ref in *. destruct (refcounts u !! x); by apply Hle.
  - unfold dec_ref in *. destruct (refcounts u !! x); by apply Hle.
  - apply process_retired_same in Hp as [(_ & _ & _ & _ & _ & Hsub) St]. apply Hle; [done|]. by rewrite St.
  - apply force_cleanup_same in Hp as [(_ & _ & _ & _ & _ & Hsub) St]. apply Hle; [done|]. by rewrite St.
Qed.

Lemma new_table_ok v : table_ok (new v).
Proof.
  split; simpl; try done.
  intros x [a Ha]. by rewrite lookup_empty in Ha.
Qed.

Lemma table_any_reachable `{Blake3} `{Hex} v t :
  rtc table_step_any (new v) t ->
  (exists i, table_ok_at i t) /\ registered (refcounts t) (staged t).
Proof.
  intros Hr. split; revert Hr.
  - apply (rtc_invariant table_step_any (fun t => exists i, table_ok_at i t)); [exact table_step_any_ok|].
    eexists. apply new_table_ok.
  - apply (rtc_invariant table_step_any (fun t => registered (refcounts t) (staged t))).
    + intros u w Hu Hs. by eapply table_step_counters.
    + intros x [a Ha]. simpl in Ha. by rewrite lookup_empty in Ha.
Qed.

Lemma table_step_weaken `{Blake3} `{Hex} t t' : rtc table_step t t' -> rtc table_step_any t t'.
Proof. intros Hr. eapply rtc_subrel; [|exact Hr]. intros u w. apply tsa_step. Qed.

Lemma table_reachable_ok `{Blake3} `{Hex} v t : rtc table_step (new v) t -> table_ok t.
Proof. apply rtc_invariant; [exact table_step_ok|apply new_table_ok]. Qed.

(** ** Memory of the active set *)

Definition vram_sum (m : gmap string AdapterLoadState) : Z :=
  sumZ (map vram_mb (map snd (map_to_list m))).

Lemma vram_sum_insert m x a :
  m !! x = None -> vram_sum (<[x := a]> m) = vram_sum m + vram_mb a.
Proof.
  intros Hx. unfold vram_sum.
  rewrite (sumZ_perm _ _ (Permutation_map vram_mb (Permutation_map snd (map_to_list_insert m x a Hx)))).
  simpl. lia.
Qed.

Lemma vram_sum_delete m x a :
  m !! x = Some a -> vram_sum (delete x m) = vram_sum m - vram_mb a.
Proof.
  intros Hx. rewrite <- (insert_delete_id m x a Hx) at 2.
  rewrite vram_sum_insert by apply lookup_delete_eq. lia.
Qed.

Lemma swap_remove_vram rem m d :
  let '(m', d') := foldl swap_remove (m, d) rem in vram_sum m' - d' = vram_sum m - d.
Proof.
  revert m d. induction rem as [|x rem IH]; intros m d; simpl; [done|].
  unfold swap_remove at 2. simpl. destruct (m !! x) as [a|] eqn:Hx; [|apply IH].
  specialize (IH (delete x m) (d - vram_mb a)). destruct (foldl _ _ _) as [m' d'].
  rewrite (vram_sum_delete m x a Hx) in IH. lia.
Qed.

Lemma swap_add_vram stg add m d :
  NoDup add -> (forall x, x ∈ add -> m !! x = None) ->
  let '(m', d') := foldl (swap_add stg) (m, d) add in vram_sum m' - d' = vram_sum m - d.
Proof.
  revert m d. induction add as [|x add IH]; intros m d Hnd Hm; simpl; [done|].
  inversion_clear Hnd as [|? ? Hx Hnd'].
  unfold swap_add at 2. simpl. destruct (stg !! x) as [a|].
  - specialize (IH (<[x := activate a]> m) (d + vram_mb a) Hnd').
    destruct (foldl _ _ _) as [m' d'].
    rewrite vram_sum_insert in IH by (apply Hm; by left). simpl in IH.
    rewrite IH; [lia|]. intros y Hy. rewrite lookup_insert_ne; [apply Hm; by right|].
    intros ->. done.
  - apply IH; [done|]. intros y Hy. apply Hm. by right.
Qed.

(** ** What retirement detaches *)

(** A backend that logs the detach calls it gets; [fails] says which ones it refuses. *)
Definition log_kernels (fails : Z -> bool) : FusedKernels (list Z) := {|
  attach_adapter _ k := (Ok tt, k);
  detach_adapter i k := ((if fails i then Err (Kernel "detach") else Ok tt), k ++ [i]);
  switch_adapter _ k := (Ok tt, k);
  load_adapter_with_metadata _ _ k := (Ok tt, k);
  verify_adapter_buffers _ _ := Err (Kernel "verify");
  get_gpu_fingerprints _ := ∅;
|}.

Section Detached.
Context `{Blake3} (fails : Z -> bool).
Existing Instance log_kernels.

Lemma detach_all_log names k :
  exists ds, (detach_all (H0 := log_kernels fails) names k).2 = k ++ ds
             /\ Forall (fun i => exists x, x ∈ names /\ i = adapter_id_to_u16 x) ds.
Proof.
  revert k. induction names as [|x names IH]; intros k; simpl.
  - exists []. by rewrite app_nil_r.
  - destruct (fails _).
    + exists [adapter_id_to_u16 x]. split; [done|]. repeat constructor. exists x. set_solver.
    + destruct (IH (k ++ [adapter_id_to_u16 x])) as (ds & E & Hds).
      exists (adapter_id_to_u16 x :: ds). rewrite E, <- app_assoc. split; [done|].
      constructor; [exists x; set_solver|]. eapply Forall_impl; [exact Hds|].
      intros i (y & Hy & ->). exists y. set_solver.
Qed.

(** An adapter a retired stack of [t] lists and nobody references. *)
Definition unreferenced_retired (t : AdapterTable) (i : Z) : Prop :=
  exists st x, st ∈ retired_stacks t /\ x ∈ stack_names st
    /\ i = adapter_id_to_u16 x /\ load_ref x t = Some 0.

Lemma unreferenced_mono t u i :
  retired_stacks u ⊆ retired_stacks t -> refcounts u = refcounts t -> cells u = cells t ->
  unreferenced_retired u i -> unreferenced_retired t i.
Proof.
  intros Hs Hr Hc (st & x & Hst & Hx & -> & Hl). exists st, x.
  unfold load_ref in *. rewrite Hr, Hc in Hl. eauto 10.
Qed.

Lemma remove_generation_sub gen l l' : remove_generation gen l = Some l' -> l' ⊆ l.
Proof.
  revert l'. induction l as [|st l IH]; intros l'; simpl; [done|].
  destruct (_ =? gen); [intros [= ->]; set_solver|].
  destruct (remove_generation gen l) as [k|]; simpl; [|done]. intros [= <-].
  specialize (IH k eq_refl). set_solver.
Qed.

Lemma finish_unload_frame gen t :
  retired_stacks (finish_unload gen t) ⊆ retired_stacks t
  /\ refcounts (finish_unload gen t) = refcounts t /\ cells (finish_unload gen t) = cells t.
Proof.
  unfold finish_unload. destruct (remove_generation _ _) eqn:E; [|done]. simpl.
  split; [by eapply remove_generation_sub|done].
Qed.

Lemma process_retired_log fuel i k k' t t' :
  process_retired_loop (H0 := log_kernels fails) fuel i (fun u => u) (fun u => u) (Some k) t
    = Some (Some k', t') ->
  exists ds, k' = k ++ ds /\ Forall (unreferenced_retired t) ds.
Proof.
  revert i k t. induction fuel as [|fuel IH]; intros i k t E; simpl in E; [done|].
  destruct (retired_stacks t !! i) as [st|] eqn:Hi.
  2: { injection E as -> ->. exists []. by rewrite app_nil_r. }
  rewrite Z.eqb_refl in E. simpl in E.
  destruct (can_unload _ t) eqn:Hc; [|by eapply IH].
  destruct (3 <=? _).
  { destruct (IH _ _ _ E) as (ds & -> & Hds). exists ds. split; [done|].
    eapply Forall_impl; [exact Hds|]. intros j. apply unreferenced_mono; [|done|done].
    simpl. intros u Hu. rewrite (delete_Permutation _ _ _ Hi). by right. }
  destruct (detach_all_log (stack_names st) k) as (ds1 & E1 & Hds1).
  destruct (detach_all _ k) as [failed k1]. simpl in E1. subst k1.
  assert (Hun : Forall (unreferenced_retired t) ds1).
  { eapply Forall_impl; [exact Hds1|]. intros j (x & Hx & ->). exists st, x.
    split; [by eapply list_elem_of_lookup_2|]. split; [done|]. split; [done|].
    unfold can_unload in Hc. rewrite forallb_forall in Hc.
    specialize (Hc x (proj1 (list_elem_of_In _ _) Hx)).
    destruct (load_ref x t) as [n|]; [|done]. by apply Z.eqb_eq in Hc as ->. }
  destruct failed; destruct (IH _ _ _ E) as (ds2 & -> & Hds2);
    exists (ds1 ++ ds2); (split; [by rewrite app_assoc|]); apply Forall_app; split; try done.
  eapply Forall_impl; [exact Hds2|]. intros j.
  destruct (finish_unload_frame (stack_generation st) t) as (? & ? & ?).
  by apply unreferenced_mono.
Qed.
End Detached.

(** ** Properties *)

(** The published index is that of the active set under an identity: it carries the
    current generation, lists every active adapter with its hash and its registered
    counter, and nothing else. *)
Definition index_is_active (i : AdapterCacheIdentity) (t : AdapterTable) : Prop :=
  let cur := AdapterStore.current (store t) in
  AdapterStore.generation cur = current_stack t
  /\ (forall x a, active t !! x = Some a ->
       exists r, AdapterStore.entries cur !! cache_key i x a = Some r
         /\ AdapterStore.hash r = hash a
         /\ refcounts t !! x = Some (AdapterStore.refcount r))
  /\ (forall k r, AdapterStore.entries cur !! k = Some r ->
       exists x a, active t !! x = Some a /\ k = cache_key i x a).

Lemma table_ok_index i t : table_ok_at i t -> index_is_active i t.
Proof.
  intros [Hi Ha _ _]. unfold index_is_active. rewrite Hi. simpl.
  destruct (store_entries_spec i (refcounts t) (next_cell t) (active t)) as [S1 S2].
  split; [done|]. split.
  - intros x a Hx. destruct (S2 x a Hx) as [r Hk]. exists r. split; [done|].
    destruct (S1 _ r Hk) as (y & b & Hy & E & Hh & Hc).
    apply (f_equal AdapterStore.adapter_id) in E. rewrite !cache_key_id in E. subst y.
    assert (b = a) as -> by congruence. split; [done|].
    destruct (Ha x) as [c Hc']; [by eauto|]. by rewrite (Hc c Hc').
  - intros k r Hk. destruct (S1 k r Hk) as (x & a & Hx & E & _). by exists x, a.
Qed.

(** [C7] After any sequence of calls that do not overlap, changes of the cache identity
    among them, the index published for pinning is the active set: it carries the current
    generation, lists every active adapter with its hash and its registered counter, and
    nothing else, under keys of one identity, which is the table's own as long as nobody
    changed it; and every active or staged adapter has a counter. *)
Theorem index_matches_active `{Blake3} `{Hex} v t :
  rtc table_step_any (new v) t ->
  (exists i, index_is_active i t)
  /\ (rtc table_step (new v) t -> index_is_active (cache_identity t) t)
  /\ (forall x, is_Some (active t !! x) \/ is_Some (staged t !! x) -> is_Some (refcounts t !! x)).
Proof.
  intros Hr. destruct (table_any_reachable v t Hr) as [[i Hok] Hs]. split_and!.
  - exists i. by apply table_ok_index.
  - intros Hr'. by apply table_ok_index, (table_reachable_ok v).
  - intros x [Hx|Hx]; [|by apply Hs]. by apply (ok_active t Hok).
Qed.

(** *** Swaps that overlap

    [AdapterTable::swap] takes no lock from reading the generation to publishing the index.
    Two swaps that read one generation, in the order: the first flips, the second flips,
    the first publishes, the second publishes. *)
Definition overlapping_swaps (m1 m2 : gmap string AdapterLoadState) (now : Z) (t : AdapterTable)
  : AdapterTable :=
  let old_stack := current_stack t in
  let old_active := active t in
  let new_gen := u64_wrapping_add old_stack 1 in
  let '(previous1, t) := swap_flip old_stack m1 (swap_register m1 t) in
  let '(previous2, t) := swap_flip old_stack m2 (swap_register m2 t) in
  let t := swap_publish new_gen m2 now (swap_publish new_gen m1 now t) in
  swap_retire previous2 new_gen old_active (swap_retire previous1 new_gen old_active t).

Lemma swap_register_spec m t :
  let t' := swap_register m t in
  registered (refcounts t') m /\ refcounts t ⊆ refcounts t'
  /\ active t' = active t /\ current_stack t' = current_stack t
  /\ store t' = store t /\ cache_identity t' = cache_identity t.
Proof.
  destruct (ensure_refcounts_spec (map fst (map_to_list m)) t) as (Hreg & Hsub & A & _ & _ & C & _ & S & I).
  unfold swap_register. split_and!; try done.
  intros x [a Ha]. apply Hreg, list_elem_of_fmap. exists (x, a). split; [done|by apply elem_of_map_to_list].
Qed.

(** Publishing a registered map of a newer generation replaces the index. *)
Lemma swap_publish_spec g m now t :
  registered (refcounts t) m ->
  let t' := swap_publish g m now t in
  active t' = active t /\ current_stack t' = current_stack t /\ refcounts t' = refcounts t
  /\ cache_identity t' = cache_identity t
  /\ AdapterStore.current (store t')
     = if g <=? AdapterStore.generation (AdapterStore.current (store t))
       then AdapterStore.current (store t)
       else AdapterStore.mkSnapshot g (store_entries (cache_identity t) (refcounts t) 0 m).1.
Proof.
  intros Hreg. unfold swap_publish, AdapterStore.install.
  destruct (store_entries_registered (cache_identity t) (refcounts t) (refcounts t) (next_cell t) 0 m)
    as [E _]; [done|done|].
  destruct (store_entries _ _ (next_cell t) m) as [es fresh]. cbn [fst] in E. subst es.
  destruct (g <=? _); by split_and!.
Qed.

Lemma swap_retire_spec p g m t :
  let t' := swap_retire p g m t in
  active t' = active t /\ current_stack t' = current_stack t /\ refcounts t' = refcounts t
  /\ store t' = store t.
Proof. unfold swap_retire. by destruct (negb _). Qed.

(** Then the active set is that of the second swap and the index that of the first, at one
    generation. *)
Lemma overlapping_swaps_spec m1 m2 now t :
  table_ok t -> current_stack t < u64_max ->
  let t' := overlapping_swaps m1 m2 now t in
  active t' = m2 /\ current_stack t' = current_stack t + 1
  /\ registered (refcounts t') m1
  /\ AdapterStore.current (store t')
     = AdapterStore.mkSnapshot (current_stack t + 1)
         (store_entries (cache_identity t) (refcounts t') 0 m1).1.
Proof.
  intros Hok Hb t'. pose proof (ok_generation t Hok) as Hg. pose proof (ok_index t Hok) as Hi.
  assert (Hn : u64_wrapping_add (current_stack t) 1 = current_stack t + 1).
  { apply u64_wrapping_add_small. unfold is_u64, u64_max in *. lia. }
  unfold t', overlapping_swaps, swap_flip. rewrite Hn. cbn zeta.
  destruct (swap_register_spec m1 t) as (R1 & S1 & _ & _ & T1 & I1).
  set (ta := set_current_stack (current_stack t + 1) (set_active m1 (swap_register m1 t))).
  destruct (swap_register_spec m2 ta) as (R2 & S2 & _ & _ & T2 & I2).
  set (tb := set_current_stack (current_stack t + 1) (set_active m2 (swap_register m2 ta))).
  assert (registered (refcounts tb) m1) as R1' by (by eapply registered_mono; [exact S2|]).
  destruct (swap_publish_spec (current_stack t + 1) m1 now tb R1') as (A3 & C3 & F3 & I3 & P3).
  set (tc := swap_publish (current_stack t + 1) m1 now tb) in *.
  destruct (swap_publish_spec (current_stack t + 1) m2 now tc) as (A4 & C4 & F4 & I4 & P4).
  { rewrite F3. exact R2. }
  set (td := swap_publish (current_stack t + 1) m2 now tc) in *.
  set (te := swap_retire (current_stack (swap_register m1 t)) (current_stack t + 1) (active t) td).
  destruct (swap_retire_spec (current_stack (swap_register m1 t)) (current_stack t + 1) (active t) td)
    as (A5 & C5 & F5 & T5).
  fold te in A5, C5, F5, T5.
  destruct (swap_retire_spec (current_stack (swap_register m2 ta)) (current_stack t + 1) (active t) te)
    as (A6 & C6 & F6 & T6).
  assert (AdapterStore.current (store tb) = AdapterStore.current (store t)) as Hs.
  { change (store tb) with (store (swap_register m2 ta)). rewrite T2.
    change (store ta) with (store (swap_register m1 t)). by rewrite T1. }
  rewrite Hs, Hi in P3. cbn [AdapterStore.generation] in P3.
  rewrite (proj2 (Z.leb_gt _ _)) in P3 by lia.
  rewrite P3 in P4. cbn [AdapterStore.generation] in P4. rewrite (proj2 (Z.leb_le _ _)) in P4 by lia.
  rewrite A6, A5, A4, A3, C6, C5, C4, C3, F6, F5, F4, F3, T6, T5, P4.
  split_and!; try done. f_equal.
  assert (cache_identity tb = cache_identity t) as ->; [|done].
  change (cache_identity tb) with (cache_identity (swap_register m2 ta)). rewrite I2.
  change (cache_identity ta) with (cache_identity (swap_register m1 t)). by rewrite I1.
Qed.

(** A swap is all or nothing, whatever other threads do between its validation
    and its commit: it fails with one of two errors exactly when an adapter to add is
    not staged, leaving the active set, the generation, the index and the retired
    stacks alone; otherwise the new active set is the old one without [remove_ids],
    overridden by the staged [add_ids], the generation moves on by one and the old
    stack is retired. *)
Theorem swap_outcome add_ids remove_ids now others t :
  let t1 := set_rollback_state (Some (mkStack (current_stack t) (active t))) t in
  let t2 := others t1 in
  is_u64 (current_stack t2) ->
  match swap add_ids remove_ids now others t with
  | (Err e, t') =>
      (exists x, x ∈ add_ids /\ staged t !! x = None /\ e = not_preloaded x /\ t' = t1)
      \/ (exists x, x ∈ add_ids /\ staged t2 !! x = None /\ e = vanished x
            /\ active t' = active t2 /\ current_stack t' = current_stack t2
            /\ store t' = store t2 /\ retired_stacks t' = retired_stacks t2)
  | (Ok (_, added), t') =>
      added = length add_ids
      /\ (forall x, x ∈ add_ids -> is_Some (staged t !! x) /\ is_Some (staged t2 !! x))
      /\ (forall x, active t' !! x
            = if decide (x ∈ add_ids) then activate <$> staged t2 !! x
              else if decide (x ∈ remove_ids) then None else active t2 !! x)
      /\ current_stack t' = u64_wrapping_add (current_stack t2) 1
      /\ retired_stacks t'
          = retired_stacks t2 ++ [mkStack (current_stack t2) (active t2)]
      /\ staged t' = staged t2 /\ rollback_state t' = rollback_state t2
  end.
Proof.
  intros t1 t2 Hg. unfold swap. fold t1. fold t2.
  destruct (first_unstaged add_ids t1) as [x|] eqn:F1.
  { apply first_unstaged_Some in F1 as [Hx Hs]. left. by exists x. }
  destruct (first_unstaged add_ids t2) as [x|] eqn:F2.
  { apply first_unstaged_Some in F2 as [Hx Hs]. right. by exists x. }
  destruct (new_active add_ids remove_ids t2) as [m d] eqn:Em.
  destruct (swap_commit_spec m now t2) as (A & C & S & R & _ & _ & _ & Ret & _).
  rewrite A, C, S, R, (Ret Hg). split; [done|]. split.
  - intros x Hx. split; [by eapply (first_unstaged_None add_ids t1)|].
    by eapply first_unstaged_None.
  - split; [|done]. intros x.
    rewrite <- (new_active_lookup add_ids remove_ids t2 x F2). by rewrite Em.
Qed.


(** The reported change of memory is the change of the active set's memory, for
    adapters named once and not active after the removals. *)
Theorem swap_vram_delta add_ids remove_ids now t d n t' :
  NoDup add_ids ->
  (forall x, x ∈ add_ids -> x ∈ remove_ids \/ active t !! x = None) ->
  swap add_ids remove_ids now (fun u => u) t = (Ok (d, n), t') ->
  vram_sum (active t') = vram_sum (active t) + d.
Proof.
  intros Hnd Hdis E. unfold swap in E. set (t1 := set_rollback_state _ t) in E.
  destruct (first_unstaged add_ids t1); [done|].
  destruct (new_active add_ids remove_ids t1) as [m d'] eqn:Em. injection E as -> _ <-.
  destruct (swap_commit_spec m now t1) as (-> & _).
  unfold new_active in Em.
  pose proof (swap_remove_vram remove_ids (active t) 0) as Hrem.
  destruct (foldl swap_remove (active t1, 0) remove_ids) as [m0 d0] eqn:E0.
  change (active t1) with (active t) in E0. rewrite E0 in Hrem.
  pose proof (swap_add_vram (staged t1) add_ids m0 d0 Hnd) as Hadd. rewrite Em in Hadd.
  assert (vram_sum m - d = vram_sum m0 - d0); [|lia].
  apply Hadd. intros x Hx. change m0 with (m0, d0).1. rewrite <- E0, swap_remove_lookup.
  destruct (decide (x ∈ remove_ids)); [done|]. by destruct (Hdis x Hx).
Qed.

(** Retirement returns: with one pass of fuel per retired stack and one more, the
    loop of [process_retired_stacks] comes to its end, whatever the backend answers. *)
Theorem retirement_terminates `{Blake3} `{FusedKernels K} kernels t :
  exists kernels' t',
    process_retired_stacks (S (length (retired_stacks t))) (fun u => u) (fun u => u) kernels t
    = Some (kernels', t').
Proof.
  destruct (process_retired_terminates (S (length (retired_stacks t))) 0 kernels t)
    as [[k' t'] E]; [lia|]. by exists k', t'.
Qed.

(** Retirement never detaches an adapter in use: every detach call it makes is
    for an adapter of a retired stack whose reference count is zero, also when some
    of the calls fail. *)
Theorem retirement_detaches_unreferenced `{Blake3} fails fuel k k' t t' :
  process_retired_stacks (H0 := log_kernels fails) fuel (fun u => u) (fun u => u) (Some k) t
    = Some (Some k', t') ->
  exists calls, k' = k ++ calls /\ Forall (unreferenced_retired t) calls.
Proof. apply process_retired_log. Qed.

(** Checkpoints: one created now verifies now and against any later table with the
    same adapters and hashes, and the history never outgrows its limit. *)
Theorem checkpoint_verifies `{Blake3} `{Hex} fps now t t' :
  (hash <$> active t') = (hash <$> active t) ->
  (length (checkpoints t) <= max_checkpoints t)%nat ->
  let '(cp, u) := create_checkpoint fps now t in
  verify_against_checkpoint cp fps t' = true
  /\ (length (checkpoints u) <= max_checkpoints u)%nat
  /\ (0 < max_checkpoints t -> last (checkpoints u) = Some cp)%nat.
Proof.
  intros Hact Hlen. unfold create_checkpoint, verify_against_checkpoint. simpl.
  rewrite (cross_layer_hash_ext fps t t' Hact), !compute_stack_hash_eq, Hact.
  rewrite !bool_decide_eq_false_2 by tauto. split; [done|].
  rewrite length_app. simpl. destruct (Nat.ltb_spec (max_checkpoints t) (length (checkpoints t) + 1)).
  - split; [rewrite length_drop, length_app; simpl; lia|]. intros Hpos.
    destruct (checkpoints t) as [|c cps]; simpl in *; [lia|]. by rewrite drop_0, last_snoc.
  - split; [rewrite length_app; simpl; lia|]. intros _. apply last_snoc.
Qed.

(** Without failures and references, retirement detaches every adapter of every
    retired stack, in order, and empties the list. *)
Lemma process_retired_all `{Blake3} fuel k t :
  (length (retired_stacks t) < fuel)%nat -> retry_counts t = ∅ ->
  Forall (fun st => can_unload (stack_names st) t = true) (retired_stacks t) ->
  exists t', process_retired_loop (H0 := log_kernels (fun _ => false)) fuel 0
      (fun u => u) (fun u => u) (Some k) t
    = Some (Some (k ++ map adapter_id_to_u16 (concat (map stack_names (retired_stacks t)))), t')
    /\ active t' = active t /\ store t' = store t.
Proof.
  assert (Hd : forall names k0, detach_all (H0 := log_kernels (fun _ => false)) names k0
                               = (false, k0 ++ map adapter_id_to_u16 names)).
  { induction names as [|x names IH]; intros k0; simpl; [by rewrite app_nil_r|].
    by rewrite IH, <- app_assoc. }
  revert k t. induction fuel as [|fuel IH]; intros k t Hf Hr Hall; [lia|].
  destruct (retired_stacks t) as [|st l] eqn:El; simpl; rewrite El; simpl.
  { exists t. by rewrite app_nil_r. }
  apply Forall_cons in Hall as [Hst Hl]. rewrite Hst, Z.eqb_refl, Hr, lookup_empty, Hd. simpl.
  assert (Efin : finish_unload (stack_generation st) t
                 = set_retry_counts (delete (stack_generation st) ∅) (set_retired l t)).
  { unfold finish_unload. rewrite El, Hr. simpl. by rewrite Z.eqb_refl. }
  rewrite Efin.
  destruct (IH (k ++ map adapter_id_to_u16 (stack_names st))
      (set_retry_counts (delete (stack_generation st) ∅) (set_retired l t)))
    as (t' & E & Ha & Hs); [simpl in *; lia|apply delete_empty|exact Hl|].
  exists t'. split; [|done]. rewrite map_app, app_assoc. exact E.
Qed.

(** Retirement looks only at the reference counts: an adapter that stayed active
    across a swap is also part of the retired stack, so while no request holds it,
    it is detached from the kernels although it is active and published. *)
Theorem retirement_unloads_active_adapters `{Blake3} t st x k :
  retry_counts t = ∅ ->
  Forall (fun st => can_unload (stack_names st) t = true) (retired_stacks t) ->
  st ∈ retired_stacks t -> x ∈ stack_names st -> is_Some (active t !! x) ->
  exists k' t',
    process_retired_stacks (H0 := log_kernels (fun _ => false))
      (S (length (retired_stacks t))) (fun u => u) (fun u => u) (Some k) t = Some (Some k', t')
    /\ adapter_id_to_u16 x ∈ k' /\ is_Some (active t' !! x) /\ store t' = store t.
Proof.
  intros Hr Hall Hst Hx Hact.
  destruct (process_retired_all (S (length (retired_stacks t))) k t) as (t' & E & Ha & Hs);
    [lia|done|done|].
  eexists _, t'. split; [exact E|]. rewrite Ha. split; [|done].
  apply elem_of_app. right. apply list_elem_of_fmap_2.
  apply list_elem_of_In, in_concat. exists (stack_names st).
  split; [apply in_map; by apply list_elem_of_In|by apply list_elem_of_In].
Qed.

(** Generations repeat after a rollback, and a retired stack is removed by its
    generation: unloading the second of two stacks of one generation takes the first
    off the list, which is still referenced and is then never unloaded, and leaves
    the one whose adapters are gone. *)
Theorem equal_generations_confused `{Blake3} t st1 st2 k :
  retired_stacks t = [st1; st2] -> stack_generation st1 = stack_generation st2 ->
  retry_counts t = ∅ ->
  can_unload (stack_names st1) t = false -> can_unload (stack_names st2) t = true ->
  exists t',
    process_retired_stacks (H0 := log_kernels (fun _ => false)) 3 (fun u => u) (fun u => u)
      (Some k) t = Some (Some (k ++ map adapter_id_to_u16 (stack_names st2)), t')
    /\ retired_stacks t' = [st2].
Proof.
  intros El Eg Hr H1 H2. unfold process_retired_stacks. simpl.
  rewrite !El. simpl. rewrite H1, H2, !Z.eqb_refl. simpl. rewrite Hr, lookup_empty. simpl.
  assert (Hd : forall names k0, detach_all (H0 := log_kernels (fun _ => false)) names k0
                               = (false, k0 ++ map adapter_id_to_u16 names)).
  { induction names as [|x names IH]; intros k0; simpl; [by rewrite app_nil_r|].
    by rewrite IH, <- app_assoc. }
  rewrite Hd. unfold finish_unload. rewrite El. simpl. rewrite Eg, Z.eqb_refl. simpl. eauto.
Qed.

(** ** Examples, with a computable hash *)

Section Examples.
#[local] Existing Instance toy_blake3.
#[local] Existing Instance hex_lower.

Definition ex_hash (b : byte) : B3Hash := vreplicate 32 b.

(** "a" active at generation 1, "b" staged. *)
Definition ex_t0 : AdapterTable := (preload "a" (ex_hash x61) 100 0 (new "1")).2.
Definition ex_t1 : AdapterTable := (swap ["a"] [] 0 (fun u => u) ex_t0).2.
Definition ex_t2 : AdapterTable := (preload "b" (ex_hash x62) 50 0 ex_t1).2.

Lemma ex_t2_reachable : rtc table_step (new "1") ex_t2.
Proof.
  eapply rtc_l; [apply (ts_preload "a" (ex_hash x61) (ex_hash x61) 100 None 0)|].
  eapply rtc_l; [apply (ts_swap ["a"] [] 0); reflexivity|].
  eapply rtc_l; [apply (ts_preload "b" (ex_hash x62) (ex_hash x62) 50 None 0)|].
  apply rtc_refl.
Qed.

(** The identity changes while "a" is active: its key stays, "b" keeps its counter. *)
Lemma index_matches_active_witness :
  let t := set_cache_identity (default_identity "2") ex_t2 in
  (exists i, index_is_active i t) /\ is_Some (refcounts t !! "b").
Proof.
  assert (rtc table_step_any (new "1") (set_cache_identity (default_identity "2") ex_t2)) as Hr.
  { eapply rtc_r; [apply table_step_weaken, ex_t2_reachable|apply tsa_identity]. }
  destruct (index_matches_active "1" _ Hr) as (Hi & _ & Hc).
  split; [exact Hi|]. apply Hc. right. vm_compute. by eexists.
Defined.

Lemma swap_outcome_witness :
  exists d t', swap ["b"] ["a"] 0 (fun u => u) ex_t2 = (Ok (d, 1%nat), t')
    /\ active t' !! "a" = None /\ current_stack t' = 2.
Proof.
  pose proof (swap_outcome ["b"] ["a"] 0 (fun u => u) ex_t2) as W. cbv zeta in W.
  specialize (W ltac:(vm_compute; split; congruence)).
  destruct (swap ["b"] ["a"] 0 (fun u => u) ex_t2) as [[[d n]|e] t'] eqn:E.
  - destruct W as (-> & _ & Ha & Hc & _). exists d, t'. split; [done|].
    rewrite Ha, Hc. split; reflexivity.
  - apply (f_equal fst) in E. vm_compute in E. discriminate.
Defined.


Lemma swap_vram_delta_witness :
  vram_sum (active (swap ["b"] ["a"] 0 (fun u => u) ex_t2).2) = vram_sum (active ex_t2) - 50.
Proof.
  destruct (swap ["b"] ["a"] 0 (fun u => u) ex_t2) as [[[d n]|e] t'] eqn:E;
    [|apply (f_equal fst) in E; vm_compute in E; discriminate].
  assert (d = -50) as -> by (apply (f_equal fst) in E; vm_compute in E; congruence).
  apply (swap_vram_delta ["b"] ["a"] 0 ex_t2 (-50) n t').
  - repeat constructor. apply not_elem_of_nil.
  - intros x Hx. right. apply list_elem_of_singleton in Hx as ->. vm_compute. reflexivity.
  - exact E.
Defined.

Lemma checkpoint_verifies_witness :
  verify_against_checkpoint (create_checkpoint [] 0 ex_t1).1 [] ex_t2 = true.
Proof.
  pose proof (checkpoint_verifies [] 0 ex_t1 ex_t2 eq_refl ltac:(vm_compute; lia)) as W.
  exact (proj1 W).
Defined.

(** "b" joins "a": the stack of "a" alone is retired while "a" stays active. *)
Definition ex_t3 : AdapterTable := (swap ["b"] [] 0 (fun u => u) ex_t2).2.

Lemma retirement_detaches_unreferenced_witness :
  exists calls,
    (process_retired_stacks (H0 := log_kernels (fun _ => false)) 3 (fun u => u) (fun u => u)
       (Some []) ex_t3 ≫= fst) = Some calls
    /\ Forall (unreferenced_retired ex_t3) calls.
Proof.
  destruct (process_retired_stacks (H0 := log_kernels (fun _ => false)) 3 (fun u => u)
              (fun u => u) (Some []) ex_t3) as [[[k'|] t']|] eqn:E.
  - destruct (retirement_detaches_unreferenced _ _ _ _ _ _ E) as (calls & -> & Hc).
    exists calls. split; [reflexivity|exact Hc].
  - apply (f_equal (option_map fst)) in E. vm_compute in E. discriminate.
  - apply (f_equal (option_map fst)) in E. vm_compute in E. discriminate.
Defined.

Lemma retirement_unloads_active_adapters_witness :
  exists k' t',
    process_retired_stacks (H0 := log_kernels (fun _ => false)) 3 (fun u => u) (fun u => u)
      (Some []) ex_t3 = Some (Some k', t')
    /\ adapter_id_to_u16 "a" ∈ k' /\ is_Some (active t' !! "a").
Proof.
  destruct (retirement_unloads_active_adapters ex_t3
    (mkStack 1 (active ex_t2)) "a" []) as (k' & t' & E & Hk & Ha & _).
  - reflexivity.
  - repeat constructor.
  - right. left.
  - left.
  - eexists. reflexivity.
  - exists k', t'. split; [exact E|]. split; [exact Hk|exact Ha].
Defined.

(** A request holds "a" of generation 1, which is rolled back; "b" becomes
    generation 1 again and is replaced by "c". *)
Definition ex_retire (t : AdapterTable) : AdapterTable :=
  match process_retired_stacks (H0 := log_kernels (fun _ => false)) 9 (fun u => u) (fun u => u)
          None t with
  | Some (_, t') => t'
  | None => t
  end.
Definition ex_u0 : AdapterTable :=
  (preload "c" (ex_hash x63) 10 0 (preload "b" (ex_hash x62) 10 0 ex_t0).2).2.
Definition ex_u1 : AdapterTable :=
  inc_ref "a" (ex_retire (swap ["a"] [] 0 (fun u => u) ex_u0).2).
Definition ex_u2 : AdapterTable :=
  ex_retire (swap ["b"] [] 0 (fun u => u) (rollback 0 ex_u1).2).2.
Definition ex_u3 : AdapterTable := (swap ["c"] ["b"] 0 (fun u => u) ex_u2).2.

Lemma equal_generations_confused_witness :
  exists st1 st2 t',
    retired_stacks ex_u3 = [st1; st2]
    /\ process_retired_stacks (H0 := log_kernels (fun _ => false)) 3 (fun u => u) (fun u => u)
         (Some []) ex_u3 = Some (Some (map adapter_id_to_u16 (stack_names st2)), t')
    /\ retired_stacks t' = [st2].
Proof.
  set (st1 := mkStack 1 (active ex_u1)). set (st2 := mkStack 1 (active ex_u2)).
  assert (E : retired_stacks ex_u3 = [st1; st2]) by (vm_compute; reflexivity).
  destruct (equal_generations_confused ex_u3 st1 st2 [] E) as (t' & Ep & Er).
  - exact (@eq_refl Z 1).
  - vm_compute. reflexivity.
  - vm_compute. reflexivity.
  - vm_compute. reflexivity.
  - exists st1, st2, t'. split; [exact E|]. split; [exact Ep|exact Er].
Defined.
End Examples.

End HotSwap.
