(* ===== verification/HotSwapManager.v ===== *)
(** * The hot-swap manager (adapteros-lora-worker/src/adapter_hotswap.rs)

    [HotSwapManager] runs the commands of the control plane (preload, swap, rollback,
    verify) on the adapter table and the kernel backend: integrity checks, the
    residency budget with its evictions, the drain of references before a removal,
    the kernel calls and the clean-up when a step fails.

    The adapter files and their verification are the class [AdapterFiles]: loading
    maps a file, [verify_outcome] checks it against the expected hash. The memory
    monitor's readings and whether a path stays in the tenant's directory are
    arguments of the preload. Durations and telemetry are left out. *)

From S2P Require Import Prelude Hashing AdapterStore HotSwap.
Open Scope Z_scope.

Module HotSwapManager.
Import HotSwap.

(** ** Integrity *)

Inductive AdapterIntegrityMode := Off | Warn | Enforce.

Definition is_off (m : AdapterIntegrityMode) : bool := match m with Off => true | _ => false end.
Definition is_enforce (m : AdapterIntegrityMode) : bool :=
  match m with Enforce => true | _ => false end.

Inductive AdapterIntegrityReason :=
| MissingAdapter | ManifestParseFailed | AdapterIdMismatch | BaseModelMismatch
| TierViolation | ScopeViolation | HashMismatch | VerifyTimeout | StackHashMismatch.

Definition reason_as_str (r : AdapterIntegrityReason) : string :=
  match r with
  | MissingAdapter => "missing_adapter"
  | ManifestParseFailed => "manifest_parse_failed"
  | AdapterIdMismatch => "adapter_id_mismatch"
  | BaseModelMismatch => "base_model_mismatch"
  | TierViolation => "tier_violation"
  | ScopeViolation => "scope_violation"
  | HashMismatch => "hash_mismatch"
  | VerifyTimeout => "verify_timeout"
  | StackHashMismatch => "stack_hash_mismatch"
  end.

Record AdapterIntegrityError : Type := mkIntegrityError {
  ie_adapter_id : string;
  reason : AdapterIntegrityReason;
  message : string;
  expected : option B3Hash;
  actual : option B3Hash;
}.

(** A mapped adapter file: its backing, its weights, whether its manifest parses. *)
Record AdapterLoadOutcome : Type := mkOutcome {
  outcome_backing : AdapterBacking;
  payload : list byte;
  manifest_parses : bool;
}.

(** The loader and the verifier, both of which read adapter files. *)
Class AdapterFiles : Type := {
  adapter_path : string -> string;
  tenant_root : string;
  load_adapter : string -> result AdapterLoadOutcome AosError;
  verify_outcome : string -> B3Hash -> AdapterLoadOutcome -> result B3Hash AdapterIntegrityError;
}.

Definition should_reject_integrity (mode : AdapterIntegrityMode) (err : AdapterIntegrityError)
  : bool :=
  match reason err with MissingAdapter | ManifestParseFailed => true | _ => is_enforce mode end.

Definition missing_adapter_error (name text : string) : AdapterIntegrityError :=
  mkIntegrityError name MissingAdapter text None None.

Definition not_staged_text (name : string) : string :=
  "Hot-swap aborted: adapter '" +:+ name +:+ "' was not preloaded into staging".

(** ** Results *)

Record MemoryState : Type := mkMemoryState {
  ms_total_vram_mb : Z;
  active_adapters : list (string * Z * bool);
}.

Record AdapterCommandResult : Type := mkResult {
  success : bool;
  result_message : string;
  vram_delta_mb : option Z;
  result_stack_hash : option B3Hash;
  memory_state_of : MemoryState;
  reject_reason : option string;
}.

Section Manager.
Context {B : Blake3} {X : Hex} {F : AdapterFiles} {K : Type} {FK : FusedKernels K}.

Record HotSwapManager : Type := mkManager {
  table : AdapterTable;
  kernels : option K;
  mode : AdapterIntegrityMode;
}.

Definition set_table (t : AdapterTable) (m : HotSwapManager) : HotSwapManager :=
  mkManager t (kernels m) (mode m).
Definition set_kernels (k : option K) (m : HotSwapManager) : HotSwapManager :=
  mkManager (table m) k (mode m).

Definition memory_state (m : HotSwapManager) : MemoryState :=
  mkMemoryState (total_vram_mb (table m))
    (map (fun a => (id a, vram_mb a, is_active a)) (get_active (table m))).

Definition rejection_result (err : AdapterIntegrityError) (h : option B3Hash)
    (m : HotSwapManager) : AdapterCommandResult :=
  mkResult false (message err) None h (memory_state m) (Some (reason_as_str (reason err))).

(** ** Residency budget *)

Record AdapterEvictionCandidate : Type := mkCandidate {
  cand_adapter_id : string;
  cand_loaded_at : Z;
  cand_vram_bytes : Z;
}.

Record AdapterEvictionBlockCounts : Type := mkBlocked {
  blocked_pinned : nat;
  blocked_active : nat;
}.

(** The closure [consider] of [collect_eviction_candidates]. *)
Definition consider (protected : gset string) (t : AdapterTable)
    (acc : gmap string AdapterEvictionCandidate * AdapterEvictionBlockCounts)
    (p : string * AdapterLoadState)
  : gmap string AdapterEvictionCandidate * AdapterEvictionBlockCounts :=
  let '(cands, blocked) := acc in
  let '(name, a) := p in
  if bool_decide (name ∈ protected) then acc
  else if bool_decide (is_Some (active t !! name)) then
    (cands, mkBlocked (blocked_pinned blocked) (S (blocked_active blocked)))
  else if 0 <? default 0 (load_ref name t) then
    (cands, mkBlocked (S (blocked_pinned blocked)) (blocked_active blocked))
  else
    let vram_bytes := state_bytes a in
    if vram_bytes =? 0 then acc
    else
      match cands !! name with
      | Some c =>
          (<[name := mkCandidate name (Z.min (loaded_at a) (cand_loaded_at c))
                       (Z.max (cand_vram_bytes c) vram_bytes)]> cands, blocked)
      | None => (<[name := mkCandidate name (loaded_at a) vram_bytes]> cands, blocked)
      end.

Definition candidate_leb (a b : AdapterEvictionCandidate) : bool :=
  (cand_loaded_at a <? cand_loaded_at b)
  || ((cand_loaded_at a =? cand_loaded_at b)
      && (cand_adapter_id a <=? cand_adapter_id b)%string).

Definition collect_eviction_candidates (protected : gset string) (t : AdapterTable)
  : list AdapterEvictionCandidate * AdapterEvictionBlockCounts :=
  let '(cands, blocked) :=
    foldl (fun acc st => foldl (consider protected t) acc (map_to_list (stack_active st)))
      (foldl (consider protected t) (∅, mkBlocked 0 0) (map_to_list (staged t)))
      (retired_stacks t) in
  (stable_sort candidate_leb (map snd (map_to_list cands)), blocked).

(** The retired stacks without one adapter; emptied stacks go, and are reported. *)
Fixpoint remove_adapter_from_retired (name : string) (l : list Stack) : list Z * list Stack :=
  match l with
  | [] => ([], [])
  | st :: l' =>
      let '(removed, updated) := remove_adapter_from_retired name l' in
      match stack_active st !! name with
      | None => (removed, st :: updated)
      | Some _ =>
          let act := delete name (stack_active st) in
          if bool_decide (act = ∅) then (stack_generation st :: removed, updated)
          else (removed, mkStack (stack_generation st) act :: updated)
      end
  end.

(** The bytes an adapter keeps resident outside the active set. *)
Definition evictable_bytes (name : string) (t : AdapterTable) : Z :=
  foldl (fun acc st => match stack_active st !! name with
                       | Some a => Z.max acc (state_bytes a)
                       | None => acc
                       end)
    (match staged t !! name with Some a => Z.max 0 (state_bytes a) | None => 0 end)
    (retired_stacks t).

Definition evict_adapter_by_id (name : string) (m : HotSwapManager)
  : result Z AosError * HotSwapManager :=
  let t := table m in
  if bool_decide (is_Some (active t !! name)) then (Ok 0, m)
  else if 0 <? default 0 (load_ref name t) then (Ok 0, m)
  else
    let vram_bytes := evictable_bytes name t in
    if vram_bytes =? 0 then (Ok 0, m)
    else
      let '(detached, ks) :=
        match kernels m with
        | Some k => let '(r, k) := detach_adapter (adapter_id_to_u16 name) k in (r, Some k)
        | None => (Ok tt, None)
        end in
      let m := set_kernels ks m in
      match detached with
      | Err e => (Err e, m)
      | Ok _ =>
          let t := set_staged (delete name (staged t)) t in
          let '(gens, retired) := remove_adapter_from_retired name (retired_stacks t) in
          let t := set_retired retired t in
          let t := set_retry_counts (foldl (fun c g => delete g c) (retry_counts t) gens) t in
          let still_present :=
            bool_decide (is_Some (active t !! name)) || bool_decide (is_Some (staged t !! name))
            || existsb (fun st => bool_decide (is_Some (stack_active st !! name)))
                 (retired_stacks t) in
          let t := if still_present then t
                   else set_refcounts (delete name (refcounts t)) t in
          (Ok vram_bytes, set_table t m)
      end.

Fixpoint evict_loop (target freed : Z) (l : list AdapterEvictionCandidate) (m : HotSwapManager)
  : Z * HotSwapManager :=
  match l with
  | [] => (freed, m)
  | c :: l' =>
      if target <=? freed then (freed, m)
      else match evict_adapter_by_id (cand_adapter_id c) m with
           | (Ok bytes, m) => evict_loop target (u64_wrapping_add freed bytes) l' m
           | (Err _, m) => evict_loop target freed l' m
           end
  end.

Definition evict_candidates_for_budget (target : Z) (l : list AdapterEvictionCandidate)
    (m : HotSwapManager) : Z * HotSwapManager :=
  if target =? 0 then (0, m) else evict_loop target 0 l m.

Definition budget_exceeded (needed freed budget : Z) (blocked : AdapterEvictionBlockCounts)
  : AosError :=
  ResourceExhaustion
    ("Adapter cache budget exceeded: needed "
     +:+ pretty ((needed + BYTES_PER_MB - 1) / BYTES_PER_MB) +:+ " MB, freed "
     +:+ pretty (freed / BYTES_PER_MB) +:+ " MB (pinned=" +:+ pretty (blocked_pinned blocked)
     +:+ ", active=" +:+ pretty (blocked_active blocked) +:+ "), max "
     +:+ pretty (budget / BYTES_PER_MB) +:+ " MB").

Definition enforce_adapter_cache_budget (needed : Z) (protected_id : option string)
    (m : HotSwapManager) : result unit AosError * HotSwapManager :=
  match adapter_cache_budget_bytes (table m) with
  | None => (Ok tt, m)
  | Some budget =>
      if budget =? 0 then
        (Err (Validation "Adapter cache budget bytes must be greater than zero"), m)
      else
        let current := adapter_cache_bytes (table m) in
        if u64_wrapping_add current needed <=? budget then (Ok tt, m)
        else
          let target := u64_wrapping_sub (u64_wrapping_add current needed) budget in
          let protected := match protected_id with Some x => {[x]} | None => ∅ end in
          let '(candidates, blocked) := collect_eviction_candidates protected (table m) in
          let '(freed, m) := evict_candidates_for_budget target candidates m in
          let after := adapter_cache_bytes (table m) in
          if budget <? u64_wrapping_add after needed then
            (Err (budget_exceeded needed freed budget blocked), m)
          else (Ok tt, m)
  end.

(** ** Checks before a swap *)

(** The loop of [verify_add_ids_for_swap]. *)
Fixpoint verify_adds (add_ids : list string) (m : HotSwapManager)
  : result unit AdapterIntegrityError * HotSwapManager :=
  match add_ids with
  | [] => (Ok tt, m)
  | name :: add_ids' =>
      match staged_expected_hash name (table m) with
      | None => (Err (missing_adapter_error name (not_staged_text name)), m)
      | Some expected_hash =>
          match load_adapter name with
          | Err (NotFound _) =>
              (Err (missing_adapter_error name
                      ("Adapter file not found for '" +:+ name +:+ "' at '"
                       +:+ adapter_path name +:+ "'")), m)
          | Err e =>
              (Err (mkIntegrityError name ManifestParseFailed
                      ("Adapter verification load failed: " +:+ error_text e) None None), m)
          | Ok outcome =>
              match verify_outcome name expected_hash outcome with
              | Ok weights_hash =>
                  verify_adds add_ids' (set_table (update_staged_hash name weights_hash (table m)) m)
              | Err err =>
                  let m := match actual err with
                           | Some h => set_table (update_staged_hash name h (table m)) m
                           | None => m
                           end in
                  if should_reject_integrity (mode m) err then (Err err, m)
                  else verify_adds add_ids' m
              end
          end
      end
  end.

(** The hash the stack would have after the swap. *)
Fixpoint predict_adds (stg : gmap string AdapterLoadState) (l : list string)
    (es : gmap string B3Hash) : result B3Hash AdapterIntegrityError :=
  match l with
  | [] => Ok (stack_hash (map_to_list es))
  | x :: l' =>
      match stg !! x with
      | None => Err (missing_adapter_error x (not_staged_text x))
      | Some a => predict_adds stg l' (<[x := hash a]> es)
      end
  end.

Definition compute_stack_hash_with (add_ids remove_ids : list string) (t : AdapterTable)
  : result B3Hash AdapterIntegrityError :=
  predict_adds (staged t) add_ids
    (foldl (fun es x => delete x es) (hash <$> active t) remove_ids).

Definition stack_mismatch (wanted got : B3Hash) : AdapterIntegrityError :=
  mkIntegrityError "stack" StackHashMismatch
    ("Adapter stack hash mismatch: expected " +:+ to_hex wanted +:+ ", got " +:+ to_hex got)
    (Some wanted) (Some got).

Definition check_swap_integrity (add_ids remove_ids : list string)
    (expected_stack_hash : option B3Hash) (m : HotSwapManager)
  : result unit AdapterIntegrityError * HotSwapManager :=
  match List.find (fun x => bool_decide (staged_expected_hash x (table m) = None)) add_ids with
  | Some missing => (Err (missing_adapter_error missing (not_staged_text missing)), m)
  | None =>
      if negb (is_off (mode m)) || bool_decide (is_Some expected_stack_hash) then
        match verify_adds add_ids m with
        | (Err e, m) => (Err e, m)
        | (Ok _, m) =>
            match expected_stack_hash with
            | None => (Ok tt, m)
            | Some wanted =>
                match compute_stack_hash_with add_ids remove_ids (table m) with
                | Err e => (Err e, m)
                | Ok predicted =>
                    if bool_decide (predicted <> wanted) then
                      (Err (stack_mismatch wanted predicted), m)
                    else (Ok tt, m)
                end
            end
        end
      else (Ok tt, m)
  end.

(** ** Steps around a swap *)

(** First occurrences that pass the test ([HashSet::insert] as the filter). *)
Fixpoint dedup_filter (p : string -> bool) (seen : gset string) (l : list string) : list string :=
  match l with
  | [] => []
  | x :: l' =>
      if bool_decide (x ∈ seen) then dedup_filter p seen l'
      else if p x then x :: dedup_filter p ({[x]} ∪ seen) l'
      else dedup_filter p ({[x]} ∪ seen) l'
  end.

Definition staged_adds_for_swap (add_ids : list string) (t : AdapterTable) : list string :=
  dedup_filter (fun x => bool_decide (is_Some (staged t !! x))
                         && negb (bool_decide (is_Some (active t !! x)))) ∅ add_ids.

(** Detach a list, ignoring failures. *)
Definition detach_each (l : list string) (ks : option K) : option K :=
  match ks with
  | None => None
  | Some k => Some (foldl (fun k x => (detach_adapter (adapter_id_to_u16 x) k).2) k l)
  end.

Definition cleanup_staged_on_failure (add_ids : list string) (m : HotSwapManager)
  : HotSwapManager :=
  let staged_adds := staged_adds_for_swap add_ids (table m) in
  match staged_adds with
  | [] => m
  | _ =>
      let t := table m in
      let drop_inactive {A} (d : gmap string A) : gmap string A :=
        foldl (fun d x => if bool_decide (is_Some (active t !! x)) then d else delete x d)
          d staged_adds in
      mkManager (set_refcounts (drop_inactive (refcounts t))
                   (set_staged (drop_inactive (staged t)) t))
        (detach_each staged_adds (kernels m)) (mode m)
  end.

Fixpoint attach_loop (l : list string) (k : K) : result unit AosError * K :=
  match l with
  | [] => (Ok tt, k)
  | x :: l' =>
      match attach_adapter (adapter_id_to_u16 x) k with
      | (Ok _, k) => attach_loop l' k
      | (Err e, k) => (Err e, k)
      end
  end.

Definition attach_staged_for_swap (add_ids : list string) (m : HotSwapManager)
  : result unit AosError * HotSwapManager :=
  match kernels m with
  | None => (Ok tt, m)
  | Some k =>
      let '(r, k) := attach_loop (staged_adds_for_swap add_ids (table m)) k in
      (r, set_kernels (Some k) m)
  end.

Definition detach_removed_after_swap (remove_ids : list string) (m : HotSwapManager)
  : HotSwapManager :=
  let to_detach :=
    dedup_filter (fun x => negb (bool_decide (is_Some (active (table m) !! x)))) ∅ remove_ids in
  set_kernels (detach_each to_detach (kernels m)) m.

Definition hint_switch_adapter_after_swap (add_ids : list string) (m : HotSwapManager)
  : HotSwapManager :=
  match add_ids with
  | [x] =>
      if (size (active (table m)) =? 1)%nat && bool_decide (is_Some (active (table m) !! x)) then
        match kernels m with
        | Some k => set_kernels (Some (switch_adapter (adapter_id_to_u16 x) k).2) m
        | None => m
        end
      else m
  | _ => m
  end.

(** Fingerprints of the active adapters the backend knows. *)
Definition active_fingerprints (k : K) (t : AdapterTable) : list GpuFingerprint :=
  omap (fun a => match get_gpu_fingerprints k !! adapter_id_to_u16 (id a) with
                 | Some (bytes, h) => Some (mkFingerprint (id a) bytes h)
                 | None => None
                 end) (get_active t).

(** ** Commands *)

(** [{:?}] of a [Vec<String>] whose strings need no escapes. *)
Definition quoted (x : string) : string :=
  String (Ascii.ascii_of_nat 34) x +:+ String (Ascii.ascii_of_nat 34) EmptyString.
Definition debug_strings (l : list string) : string :=
  "[" +:+ join ", " (map quoted l) +:+ "]".

(** Up to the result of the table's swap; [looks] are the tables the drain loop sees
    after its first look. *)
Definition swap_with_expected_hash (add_ids remove_ids : list string)
    (expected_stack_hash : option B3Hash) (looks : list AdapterTable) (now : Z)
    (m : HotSwapManager)
  : result (Z * nat) (AdapterIntegrityError + AosError) * HotSwapManager :=
  match check_swap_integrity add_ids remove_ids expected_stack_hash m with
  | (Err err, m) => (Err (inl err), cleanup_staged_on_failure add_ids m)
  | (Ok _, m) =>
      match (match remove_ids with
             | [] => Ok tt
             | _ => wait_for_zero_refs remove_ids "2s" (table m) looks
             end) with
      | Err e => (Err (inr e), cleanup_staged_on_failure add_ids m)
      | Ok _ =>
          match attach_staged_for_swap add_ids m with
          | (Err e, m) => (Err (inr e), cleanup_staged_on_failure add_ids m)
          | (Ok _, m) =>
              match swap add_ids remove_ids now (fun t => t) (table m) with
              | (Err e, t) => (Err (inr e), cleanup_staged_on_failure add_ids (set_table t m))
              | (Ok r, t) =>
                  (Ok r, hint_switch_adapter_after_swap add_ids
                           (detach_removed_after_swap remove_ids (set_table t m)))
              end
          end
      end
  end.

Definition execute_swap (add_ids remove_ids : list string) (expected_stack_hash : option B3Hash)
    (looks : list AdapterTable) (now : Z) (m : HotSwapManager)
  : result AdapterCommandResult AosError * HotSwapManager :=
  match swap_with_expected_hash add_ids remove_ids expected_stack_hash looks now m with
  | (Err (inl err), m) => (Ok (rejection_result err (actual err) m), m)
  | (Err (inr e), m) => (Err e, m)
  | (Ok (vram_delta, _), m) =>
      let h := compute_stack_hash (table m) in
      let '(cross, m) :=
        match kernels m with
        | None => (None, m)
        | Some k =>
            match active_fingerprints k (table m) with
            | [] => (None, m)
            | fps =>
                let '(cp, t) := create_checkpoint fps (now / 1000) (table m) in
                (cross_layer_hash cp, set_table t m)
            end
        end in
      (Ok (mkResult true ("Swapped: +" +:+ debug_strings add_ids +:+ " / -"
             +:+ debug_strings remove_ids) (Some vram_delta)
             (match cross with Some c => Some c | None => Some h end) (memory_state m) None), m)
  end.

Definition execute_rollback (now : Z) (m : HotSwapManager)
  : result AdapterCommandResult AosError * HotSwapManager :=
  match rollback now (table m) with
  | (Err e, t) => (Err e, set_table t m)
  | (Ok _, t) =>
      let m := set_table t m in
      (Ok (mkResult true "Rolled back to last verified state" None
             (Some (compute_stack_hash t)) (memory_state m) None), m)
  end.

Definition execute_verify_stack (now : Z) (m : HotSwapManager)
  : result AdapterCommandResult AosError * HotSwapManager :=
  let h := compute_stack_hash (table m) in
  let '(cross, m) :=
    match kernels m with
    | None => (None, m)
    | Some k =>
        let fps := active_fingerprints k (table m) in
        let '(cp, t) := create_checkpoint fps (now / 1000) (table m) in
        (cross_layer_hash cp, set_table t m)
    end in
  (Ok (mkResult true "Stack verified (with GPU integrity check)" None
         (match cross with Some c => Some c | None => Some h end) (memory_state m) None), m).

(** *** Preload *)

(** What the memory monitor reports, when there is one. *)
Record MemoryReading : Type := mkReading { available_mb : Z; pressure_critical : bool }.

Definition isolation_error (name : string) : AosError :=
  IsolationViolation ("Tenant isolation violation: adapter path '" +:+ adapter_path name
    +:+ "' is outside tenant root '" +:+ tenant_root
    +:+ "'. This is a security violation - adapters must reside within their tenant's directory.").

Definition file_missing (name : string) (h : B3Hash) : AdapterIntegrityError :=
  mkIntegrityError name MissingAdapter
    ("Adapter file not found for '" +:+ name +:+ "' at '" +:+ adapter_path name +:+ "'")
    (Some h) None.

Definition manifest_error (name : string) : AdapterIntegrityError :=
  mkIntegrityError name ManifestParseFailed
    ("Adapter manifest parse failed for '" +:+ adapter_path name +:+ "'") None None.

(** Whether the adapter's weights are resident somewhere already. *)
Definition already_loaded (name : string) (t : AdapterTable) : bool :=
  bool_decide (is_Some (active t !! name)) || bool_decide (is_Some (staged t !! name))
  || existsb (fun st => bool_decide (is_Some (stack_active st !! name))) (retired_stacks t).

(** Load and attach the weights; on failure what was loaded is detached again. The
    result is the memory the backend measured, or the estimate. *)
Definition load_weights (name : string) (weights : list byte) (k : K) : result Z AosError * K :=
  let u := adapter_id_to_u16 name in
  match load_adapter_with_metadata u weights k with
  | (Err e, k) => (Err e, (detach_adapter u k).2)
  | (Ok _, k) =>
      match attach_adapter u k with
      | (Err e, k) => (Err e, (detach_adapter u k).2)
      | (Ok _, k) =>
          (Ok (match verify_adapter_buffers u k with
               | Ok buffer_size => Z.max (buffer_size / BYTES_PER_MB) 1
               | Err _ => Z.max (Z.of_nat (length weights) / BYTES_PER_MB) 1
               end), k)
      end
  end.

Definition insufficient_vram (name : string) (wanted available : Z) : AosError :=
  MemoryPressure ("Adapter preload blocked: insufficient VRAM for adapter '" +:+ name
    +:+ "'. Requires ~" +:+ pretty wanted +:+ "MB but only " +:+ pretty available
    +:+ "MB available. Unload other adapters or reduce active adapter count.").

Definition critical_pressure (name : string) (wanted : Z) : AosError :=
  MemoryPressure ("Adapter preload blocked: critical memory pressure detected. Cannot load adapter '"
    +:+ name +:+ "' (requires ~" +:+ pretty wanted
    +:+ "MB). System is under severe memory stress. Wait for memory to free up or terminate other processes.").

(** With a backend: the residency budget, the memory monitor, the load. *)
Definition preload_kernels (name : string) (o : AdapterLoadOutcome)
    (monitor : option MemoryReading) (m : HotSwapManager) : result Z AosError * HotSwapManager :=
  let estimated := Z.max (Z.of_nat (length (payload o)) / BYTES_PER_MB) 1 in
  let needed := if already_loaded name (table m) then 0
                else u64_saturating_mul estimated BYTES_PER_MB in
  match enforce_adapter_cache_budget needed (Some name) m with
  | (Err e, m) => (Err e, m)
  | (Ok _, m) =>
      match (match monitor with
             | None => None
             | Some r =>
                 if available_mb r <? estimated then
                   Some (insufficient_vram name estimated (available_mb r))
                 else if pressure_critical r then Some (critical_pressure name estimated)
                 else None
             end) with
      | Some e => (Err e, m)
      | None =>
          match kernels m with
          | None => (Ok 24, m)
          | Some k =>
              let '(r, k) := load_weights name (payload o) k in (r, set_kernels (Some k) m)
          end
      end
  end.

(** Into the table; a table error undoes the load, a budget error evicts the adapter. *)
Definition preload_table (name : string) (h observed : B3Hash) (vram : Z)
    (b : option AdapterBacking) (loaded : bool) (now : Z) (m : HotSwapManager)
  : result AdapterCommandResult AosError * HotSwapManager :=
  match preload_with_backing name h observed vram b now (table m) with
  | (Err e, t) =>
      let ks := if loaded then detach_each [name] (kernels m) else kernels m in
      let t := set_refcounts (delete name (refcounts t)) (set_staged (delete name (staged t)) t) in
      (Err e, mkManager t ks (mode m))
  | (Ok _, t) =>
      match enforce_adapter_cache_budget 0 (Some name) (set_table t m) with
      | (Err e, m) => (Err e, (evict_adapter_by_id name m).2)
      | (Ok _, m) =>
          (Ok (mkResult true ("Preloaded adapter: " +:+ name) (Some vram) None
                 (memory_state m) None), m)
      end
  end.

(** [isolated]: the adapter's path is inside the tenant's directory. *)
Definition execute_preload (name : string) (h : B3Hash) (isolated : bool)
    (monitor : option MemoryReading) (now : Z) (m : HotSwapManager)
  : result AdapterCommandResult AosError * HotSwapManager :=
  let reject err := (Ok (rejection_result err None m), m) in
  if negb isolated then (Err (isolation_error name), m)
  else
    let requires_load := bool_decide (is_Some (kernels m)) || negb (is_off (mode m)) in
    if negb requires_load then preload_table name h h 24 None false now m
    else
      match load_adapter name with
      | Err (NotFound _) => reject (file_missing name h)
      | Err e => (Err e, m)
      | Ok o =>
          let checked : result B3Hash AdapterIntegrityError :=
            if is_off (mode m) then
              if manifest_parses o then Ok h else Err (manifest_error name)
            else
              match verify_outcome name h o with
              | Ok w => Ok w
              | Err err =>
                  if should_reject_integrity (mode m) err then Err err
                  else Ok (default h (actual err))
              end in
          match checked with
          | Err err => reject err
          | Ok observed =>
              match kernels m with
              | None => preload_table name h observed 24 None false now m
              | Some _ =>
                  if negb (manifest_parses o) then reject (manifest_error name)
                  else
                    match preload_kernels name o monitor m with
                    | (Err e, m) => (Err e, m)
                    | (Ok vram, m) =>
                        preload_table name h observed vram (Some (outcome_backing o)) true now m
                    end
              end
          end
      end.

Inductive AdapterCommand :=
| Preload (adapter_id : string) (hash : B3Hash)
| Swap (add_ids remove_ids : list string) (expected_stack_hash : option B3Hash)
| Rollback
| VerifyStack.

Definition execute (c : AdapterCommand) (isolated : bool) (monitor : option MemoryReading)
    (looks : list AdapterTable) (now : Z) (m : HotSwapManager)
  : result AdapterCommandResult AosError * HotSwapManager :=
  match c with
  | Preload name h => execute_preload name h isolated monitor now m
  | Swap add rem expected => execute_swap add rem expected looks now m
  | Rollback => execute_rollback now m
  | VerifyStack => execute_verify_stack now m
  end.

Record FallbackLoadOutcome : Type := mkFallback {
  fb_adapter_id : string;
  fb_result : AdapterCommandResult;
  attempts : nat;
  failures : list (string * string);
}.

(** The loop over the candidates from position [idx]; [cut_off idx] is the manager a
    timed-out attempt leaves behind, when the timeout strikes. *)
Fixpoint fallback_loop (candidates : list (string * B3Hash)) (idx : nat)
    (failed : list (string * string)) (timeout_ms : Z)
    (cut_off : nat -> option HotSwapManager) (isolated : string -> bool)
    (monitor : option MemoryReading) (now : Z) (m : HotSwapManager)
  : option FallbackLoadOutcome * list (string * string) * HotSwapManager :=
  match candidates with
  | [] => (None, failed, m)
  | (name, h) :: rest =>
      let next reason :=
        fallback_loop rest (S idx) (failed ++ [(name, reason)]) timeout_ms cut_off
          isolated monitor now in
      match cut_off idx with
      | Some m' => next ("Timed out after " +:+ pretty timeout_ms +:+ "ms") m'
      | None =>
          match execute_preload name h (isolated name) monitor now m with
          | (Ok r, m) =>
              if success r then (Some (mkFallback name r (S idx) failed), failed, m)
              else next (default (result_message r) (reject_reason r)) m
          | (Err e, m) => next (error_text e) m
          end
      end
  end.

Definition try_load_with_fallback (candidates : list (string * B3Hash)) (timeout_ms : Z)
    (cut_off : nat -> option HotSwapManager) (isolated : string -> bool)
    (monitor : option MemoryReading) (now : Z) (m : HotSwapManager)
  : result FallbackLoadOutcome AosError * HotSwapManager :=
  match candidates with
  | [] => (Err (ResourceExhaustion "No adapter candidates provided for fallback load"), m)
  | _ =>
      match fallback_loop candidates 0 [] timeout_ms cut_off isolated monitor now m with
      | (Some o, _, m) => (Ok o, m)
      | (None, failed, m) =>
          (Err (ResourceExhaustion
             ("All " +:+ pretty (length candidates) +:+ " adapter candidates failed: ["
              +:+ join "; " (map (fun '(x, r) => x +:+ ":" +:+ r) failed) +:+ "]")), m)
      end
  end.

(** ** Hash prediction *)

Lemma foldl_delete_lookup {A} (l : list string) (m : gmap string A) x :
  foldl (fun m y => delete y m) m l !! x = if decide (x ∈ l) then None else m !! x.
Proof.
  revert m. induction l as [|y l IH]; intros m; simpl; [done|]. rewrite IH.
  destruct (decide (x ∈ l)); [by rewrite decide_True by set_solver|].
  destruct (decide (x = y)) as [->|NE].
  - rewrite lookup_delete_eq, decide_True by set_solver. done.
  - rewrite lookup_delete_ne by done. by rewrite decide_False by set_solver.
Qed.

Lemma predict_adds_ok stg l es h :
  predict_adds stg l es = Ok h ->
  exists es', h = stack_hash (map_to_list es')
    /\ forall x, es' !! x = if decide (x ∈ l) then hash <$> stg !! x else es !! x.
Proof.
  revert es. induction l as [|y l IH]; intros es; simpl.
  - intros [= <-]. by exists es.
  - destruct (stg !! y) as [a|] eqn:Hy; [|done]. intros E.
    destruct (IH _ E) as (es' & -> & Hes). exists es'. split; [done|]. intros x. rewrite Hes.
    destruct (decide (x ∈ l)); [by rewrite decide_True by set_solver|].
    destruct (decide (x = y)) as [->|NE].
    + by rewrite lookup_insert_eq, decide_True, Hy by set_solver.
    + rewrite lookup_insert_ne by done. by rewrite decide_False by set_solver.
Qed.

Lemma swap_hash_predicted_aux add rem now t h r t' :
  compute_stack_hash_with add rem t = Ok h ->
  swap add rem now (fun u => u) t = (Ok r, t') ->
  compute_stack_hash t' = h.
Proof.
  intros (es & -> & Hes)%predict_adds_ok E. rewrite compute_stack_hash_eq.
  do 2 f_equal. apply map_eq. intros x. rewrite Hes, foldl_delete_lookup, !lookup_fmap.
  unfold swap in E. set (t1 := set_rollback_state _ t) in E.
  destruct (first_unstaged add t1) as [|] eqn:Hf; [done|].
  destruct (new_active add rem t1) as [m d] eqn:Em. injection E as _ <-.
  destruct (swap_commit_spec m now t1) as (-> & _).
  pose proof (new_active_lookup add rem t1 x Hf) as Hx. rewrite Em in Hx. simpl in Hx. rewrite Hx.
  destruct (decide (x ∈ add)); [by destruct (staged t !! x)|].
  by destruct (decide (x ∈ rem)).
Qed.

(** ** What the steps before the commit leave alone *)

(** The part of the table that requests see. *)
Definition visible (t : AdapterTable) :=
  (active t, current_stack t, store t, retired_stacks t, cells t).

Lemma update_staged_visible x h t : visible (update_staged_hash x h t) = visible t.
Proof. unfold update_staged_hash. by destruct (staged t !! x). Qed.

Lemma update_staged_other x h t y : x <> y -> staged (update_staged_hash x h t) !! y = staged t !! y.
Proof.
  intros NE. unfold update_staged_hash. destruct (staged t !! x); simpl; [|done].
  by rewrite lookup_insert_ne.
Qed.

(** A step of a swap of [add]: requests and other staged adapters see nothing. *)
Definition quiet (add : list string) (m m' : HotSwapManager) : Prop :=
  visible (table m') = visible (table m)
  /\ (mode m' = mode m /\ (kernels m' = None <-> kernels m = None))
  /\ forall y, y ∉ add -> staged (table m') !! y = staged (table m) !! y.

#[local] Instance quiet_preorder add : PreOrder (quiet add).
Proof.
  split; [by intros m|]. intros a b c (A1 & A2 & A3) (B1 & B2 & B3).
  split; [congruence|]. split; [|intros y Hy; rewrite B3, A3; done].
  destruct A2 as [? A2], B2 as [? B2]. split; [congruence|]. by rewrite B2.
Qed.

Lemma quiet_update add x h m :
  x ∈ add -> quiet add m (set_table (update_staged_hash x h (table m)) m).
Proof.
  intros Hx. split; [apply update_staged_visible|]. split; [done|].
  intros y Hy. apply update_staged_other. set_solver.
Qed.

Lemma verify_adds_quiet add l m : l ⊆ add -> quiet add m (verify_adds l m).2.
Proof.
  revert m. induction l as [|x l IH]; intros m Hl; simpl; [done|].
  assert (x ∈ add) by set_solver. assert (l ⊆ add) by set_solver.
  destruct (staged_expected_hash x (table m)); [|done].
  destruct (load_adapter x) as [o|e]; [|by destruct e].
  destruct (verify_outcome x _ o) as [w|err].
  - etrans; [by apply (quiet_update _ x w)|]. by apply IH.
  - set (m1 := match actual err with Some _ => _ | None => _ end).
    assert (quiet add m m1) by (unfold m1; destruct (actual err); [by apply quiet_update|done]).
    destruct (should_reject_integrity _ err); [done|]. etrans; [done|]. by apply IH.
Qed.

Lemma check_quiet add rem e m : quiet add m (check_swap_integrity add rem e m).2.
Proof.
  unfold check_swap_integrity. destruct (List.find _ add); [done|].
  destruct (_ || _); [|done].
  pose proof (verify_adds_quiet add add m ltac:(done)) as Hq.
  destruct (verify_adds add m) as [[u|err] m1]; [|done].
  destruct e as [w|]; [|done].
  destruct (compute_stack_hash_with _ _ _); [|done]. by destruct (bool_decide _).
Qed.

Lemma dedup_filter_sub p seen l : dedup_filter p seen l ⊆ l.
Proof.
  revert seen. induction l as [|x l IH]; intros seen; simpl; [done|].
  destruct (bool_decide _); [specialize (IH seen); set_solver|].
  destruct (p x); specialize (IH ({[x]} ∪ seen)); set_solver.
Qed.

Lemma drop_inactive_other {A} (act : gmap string AdapterLoadState) adds (d : gmap string A) y :
  y ∉ adds ->
  foldl (fun d x => if bool_decide (is_Some (act !! x)) then d else delete x d) d adds !! y
  = d !! y.
Proof.
  revert d. induction adds as [|x adds IH]; intros d Hy; simpl; [done|].
  rewrite IH by set_solver. destruct (bool_decide _); [done|].
  apply lookup_delete_ne. set_solver.
Qed.

Lemma cleanup_quiet add m : quiet add m (cleanup_staged_on_failure add m).
Proof.
  unfold cleanup_staged_on_failure.
  assert (Hsub : staged_adds_for_swap add (table m) ⊆ add) by apply dedup_filter_sub.
  destruct (staged_adds_for_swap add (table m)) as [|x l]; [done|].
  split; [done|]. split; [by simpl; destruct (kernels m)|]. intros y Hy.
  apply (drop_inactive_other (active (table m)) (x :: l) (staged (table m)) y). set_solver.
Qed.

Lemma attach_quiet add m : quiet add m (attach_staged_for_swap add m).2.
Proof.
  unfold attach_staged_for_swap. destruct (kernels m) eqn:Hk; [|done].
  destruct (attach_loop _ _) as [[] k']; (split; [done|]); split; try done; simpl; by rewrite Hk.
Qed.

(** A swap that does not succeed. *)
Lemma swap_failure_quiet add rem e looks now m err m' :
  swap_with_expected_hash add rem e looks now m = (Err err, m') -> quiet add m m'.
Proof.
  unfold swap_with_expected_hash. pose proof (check_quiet add rem e m) as Hq.
  destruct (check_swap_integrity add rem e m) as [[u|ierr] m1].
  2: { intros [= _ <-]. etrans; [exact Hq|]. apply cleanup_quiet. }
  destruct (match rem with [] => _ | _ => _ end) as [u1|e1].
  2: { intros [= _ <-]. etrans; [exact Hq|]. apply cleanup_quiet. }
  pose proof (attach_quiet add m1) as Ha.
  destruct (attach_staged_for_swap add m1) as [[u'|e'] m2].
  2: { intros [= _ <-]. etrans; [exact Hq|]. etrans; [exact Ha|]. apply cleanup_quiet. }
  destruct (swap add rem now (fun t => t) (table m2)) as [[r|e'] t] eqn:E; [done|].
  intros [= _ <-]. etrans; [exact Hq|]. etrans; [exact Ha|]. etrans; [|apply cleanup_quiet].
  unfold swap in E. destruct (first_unstaged add _) as [x|] eqn:Hf.
  - injection E as _ <-. done.
  - destruct (new_active _ _ _). done.
Qed.

(** ** What eviction leaves alone *)

(** Every retired copy of [x], by generation. *)
Definition retired_copy (x : string) (l : list Stack) (g : Z) (a : AdapterLoadState) : Prop :=
  exists st, st ∈ l /\ stack_generation st = g /\ stack_active st !! x = Some a.

(** [m'] differs from [m] only in what it evicted, and [x] was not. *)
Record spares (x : string) (m m' : HotSwapManager) : Prop := {
  sp_active : active (table m') = active (table m);
  sp_generation : current_stack (table m') = current_stack (table m);
  sp_store : store (table m') = store (table m);
  sp_cells : cells (table m') = cells (table m);
  sp_staged : staged (table m') !! x = staged (table m) !! x;
  sp_refcount : refcounts (table m') !! x = refcounts (table m) !! x;
  sp_retired g a :
    retired_copy x (retired_stacks (table m')) g a <-> retired_copy x (retired_stacks (table m)) g a;
}.

#[local] Instance spares_preorder x : PreOrder (spares x).
Proof.
  split; [by intros m; split|]. intros a b c [] []. split; try congruence.
  intros g s. etrans; eauto.
Qed.

Lemma remove_from_retired_other x y l g a :
  x <> y ->
  retired_copy x (remove_adapter_from_retired y l).2 g a <-> retired_copy x l g a.
Proof.
  intros NE. unfold retired_copy. induction l as [|st l IH]; simpl; [done|].
  destruct (remove_adapter_from_retired y l) as [removed updated]. simpl in IH.
  assert (Hstep : forall st', stack_generation st' = stack_generation st ->
            stack_active st' !! x = stack_active st !! x ->
            (exists u, u ∈ st' :: updated /\ stack_generation u = g /\ stack_active u !! x = Some a)
            <-> (exists u, u ∈ st :: l /\ stack_generation u = g /\ stack_active u !! x = Some a)).
  { intros st' Eg Ea. setoid_rewrite elem_of_cons. split.
    - intros (u & [->|Hu] & Hg & Hx).
      + exists st. rewrite <- Eg, <- Ea. auto.
      + destruct (proj1 IH) as (v & Hv & ?); eauto.
    - intros (u & [->|Hu] & Hg & Hx).
      + exists st'. rewrite Eg, Ea. auto.
      + destruct (proj2 IH) as (v & Hv & ?); eauto. }
  destruct (stack_active st !! y) as [b|] eqn:Hy; [|by apply Hstep].
  case_bool_decide as He; simpl.
  - etrans; [exact IH|]. setoid_rewrite elem_of_cons. split; [intros (u & ? & ?); eauto|].
    intros (u & [->|Hu] & Hg & Hx); [|by eauto]. exfalso.
    apply (f_equal (lookup x)) in He. rewrite lookup_delete_ne, lookup_empty in He by done.
    congruence.
  - apply Hstep; [done|]. simpl. by rewrite lookup_delete_ne.
Qed.

(** Evicting another adapter, or one in use, spares [x]. *)
Lemma evict_spares x y m :
  x <> y \/ is_Some (active (table m) !! x) \/ 0 < default 0 (load_ref x (table m)) ->
  spares x m (evict_adapter_by_id y m).2.
Proof.
  intros Hx. unfold evict_adapter_by_id. case_bool_decide as Ha; [done|].
  destruct (0 <? default 0 (load_ref y (table m))) eqn:Hl; [done|]. apply Z.ltb_ge in Hl.
  assert (x <> y) as NE.
  { intros ->. destruct Hx as [?|[?|?]]; [done|done|lia]. }
  destruct (_ =? 0); [done|].
  destruct (match kernels m with Some _ => _ | None => _ end) as [[u|e] ks]; [|by split].
  pose proof (fun g a => remove_from_retired_other x y (retired_stacks (table m)) g a NE) as Hr.
  simpl. destruct (remove_adapter_from_retired y _) as [gens retired]. simpl in Hr.
  destruct (_ || _); split; simpl; try done; by rewrite lookup_delete_ne.
Qed.

Lemma evict_loop_spares x target freed l m :
  (is_Some (active (table m) !! x) \/ 0 < default 0 (load_ref x (table m))
   \/ Forall (fun c => cand_adapter_id c <> x) l) ->
  spares x m (evict_loop target freed l m).2.
Proof.
  revert freed m. induction l as [|c l IH]; intros freed m Hx; simpl; [done|].
  destruct (target <=? freed); [done|].
  assert (Hsp : spares x m (evict_adapter_by_id (cand_adapter_id c) m).2).
  { apply evict_spares. destruct Hx as [?|[?|Hl]]; [by auto..|].
    apply Forall_cons in Hl as [? _]. by left. }
  assert (Hx' : is_Some (active (table (evict_adapter_by_id (cand_adapter_id c) m).2) !! x)
     \/ 0 < default 0 (load_ref x (table (evict_adapter_by_id (cand_adapter_id c) m).2))
     \/ Forall (fun c => cand_adapter_id c <> x) l).
  { destruct Hsp as [H1 _ _ H4 _ H6 _]. unfold load_ref. rewrite H1, H4, H6.
    destruct Hx as [?|[?|Hl]]; [by auto..|]. apply Forall_cons in Hl as [_ ?]. auto. }
  destruct (evict_adapter_by_id (cand_adapter_id c) m) as [[bytes|e] m1]; simpl in *;
    etrans; [exact Hsp|by apply IH|exact Hsp|by apply IH].
Qed.

(** No protected adapter is a candidate. *)
Definition unprotected (x : string) (cands : gmap string AdapterEvictionCandidate) : Prop :=
  forall y c, cands !! y = Some c -> cand_adapter_id c <> x.

Lemma consider_unprotected x protected t acc p :
  x ∈ protected -> unprotected x acc.1 -> unprotected x (consider protected t acc p).1.
Proof.
  intros Hx Hu. destruct acc as [cands blocked], p as [name a]. simpl in *.
  case_bool_decide as Hp; [done|]. assert (name <> x) as NE by set_solver.
  case_bool_decide; [done|]. destruct (0 <? _); [done|]. destruct (_ =? 0); [done|].
  destruct (cands !! name); simpl; intros y c'; rewrite lookup_insert_Some;
    intros [[<- <-]|[_ Hy]]; simpl; eauto.
Qed.

Lemma consider_all_unprotected x protected t l acc :
  x ∈ protected -> unprotected x acc.1 -> unprotected x (foldl (consider protected t) acc l).1.
Proof.
  intros Hx. revert acc. induction l as [|p l IH]; intros acc Hu; simpl; [done|].
  by apply IH, consider_unprotected.
Qed.

Lemma candidates_unprotected x protected t :
  x ∈ protected ->
  Forall (fun c => cand_adapter_id c <> x) (collect_eviction_candidates protected t).1.
Proof.
  intros Hx. unfold collect_eviction_candidates.
  set (acc0 := foldl (consider protected t) (∅, mkBlocked 0 0) _).
  assert (H0 : unprotected x acc0.1).
  { apply consider_all_unprotected; [done|]. intros y c. simpl. by rewrite lookup_empty. }
  assert (H1 : forall l acc, unprotected x acc.1 ->
    unprotected x (foldl (fun acc st => foldl (consider protected t) acc
                           (map_to_list (stack_active st))) acc l).1).
  { induction l as [|st l IH]; intros acc Hu; simpl; [done|].
    by apply IH, consider_all_unprotected. }
  specialize (H1 (retired_stacks t) acc0 H0).
  destruct (foldl _ acc0 _) as [cands blocked]. simpl in *.
  rewrite stable_sort_perm. apply List.Forall_map, Forall_forall. intros [y c] Hc.
  apply elem_of_map_to_list in Hc. by apply (H1 y).
Qed.

(** ** Fallback *)

Lemma fallback_loop_spec tried rest failed timeout cut_off isolated monitor now m :
  map fst failed = map fst tried ->
  let '(o, failed', _) :=
    fallback_loop rest (length tried) failed timeout cut_off isolated monitor now m in
  match o with
  | Some o =>
      success (fb_result o) = true /\ attempts o = S (length (failures o))
      /\ fst <$> (tried ++ rest) !! length (failures o) = Some (fb_adapter_id o)
      /\ map fst (failures o) = map fst (take (length (failures o)) (tried ++ rest))
  | None => map fst failed' = map fst (tried ++ rest)
  end.
Proof.
  revert tried failed m. induction rest as [|[x h] rest IH]; intros tried failed m Hf; simpl.
  { by rewrite app_nil_r. }
  assert (Hlen : length failed = length tried).
  { by rewrite <- (length_map fst failed), Hf, length_map. }
  assert (Hnext : forall reason, map fst (failed ++ [(x, reason)]) = map fst (tried ++ [(x, h)])).
  { intros reason. by rewrite !map_app, Hf. }
  assert (Hl : S (length tried) = length (tried ++ [(x, h)])) by (rewrite length_app; simpl; lia).
  assert (Happ : tried ++ (x, h) :: rest = (tried ++ [(x, h)]) ++ rest) by by rewrite <- app_assoc.
  rewrite Hl. destruct (cut_off (length tried)) as [m1|].
  { rewrite Happ. by apply IH. }
  destruct (execute_preload x h (isolated x) monitor now m) as [[r|e] m1].
  2: { rewrite Happ. by apply IH. }
  destruct (success r) eqn:Hr.
  2: { rewrite Happ. by apply IH. }
  simpl. rewrite Hlen, Hr. split; [done|]. split; [by rewrite <- Hl|]. split.
  - by rewrite list_lookup_middle.
  - by rewrite Hf, take_app_length.
Qed.

(** A successful swap command, step by step: the checks leave a manager [m1] whose
    table the swap turns into [t]; then come only the kernel calls. *)
Lemma execute_swap_success add rem e looks now m r m' :
  execute_swap add rem e looks now m = (Ok r, m') -> success r = true ->
  exists m1 t res,
    quiet add m m1
    /\ (forall h, e = Some h -> compute_stack_hash_with add rem (table m1) = Ok h)
    /\ swap add rem now (fun u => u) (table m1) = (Ok res, t)
    /\ kernels m' = kernels (hint_switch_adapter_after_swap add
                               (detach_removed_after_swap rem (set_table t m1)))
    /\ active (table m') = active t /\ rollback_state (table m') = rollback_state t.
Proof.
  unfold execute_swap, swap_with_expected_hash. intros E Hs.
  pose proof (check_quiet add rem e m) as Hq.
  destruct (check_swap_integrity add rem e m) as [[u|ierr] m1] eqn:Ec.
  2: { injection E as <- <-. done. }
  assert (Hp : forall h, e = Some h -> compute_stack_hash_with add rem (table m1) = Ok h).
  { intros h ->. revert Ec. unfold check_swap_integrity. destruct (List.find _ _); [done|].
    rewrite orb_true_r. destruct (verify_adds add m) as [[]]; [|done].
    destruct (compute_stack_hash_with _ _ _) as [p|] eqn:Ep; [|done].
    case_bool_decide as Hd; [done|]. intros [= _ <-]. rewrite Ep. f_equal.
    destruct (decide (p = h)); [done|by destruct Hd]. }
  destruct (match rem with [] => _ | _ => _ end) as [u1|e1]; [|done].
  pose proof (attach_quiet add m1) as Ha.
  assert (Ht : table (attach_staged_for_swap add m1).2 = table m1).
  { unfold attach_staged_for_swap. destruct (kernels m1); [|done].
    by destruct (attach_loop _ _) as [[] ?]. }
  destruct (attach_staged_for_swap add m1) as [[u'|e'] m2]; [|done]. simpl in Ht, Ha.
  destruct (swap add rem now (fun t => t) (table m2)) as [[[d n]|e'] t] eqn:Esw; [|done].
  exists m2, t, (d, n). split; [by etrans|]. split; [by rewrite Ht|]. split; [done|].
  set (m3 := hint_switch_adapter_after_swap _ _) in *.
  assert (Hm3 : table m3 = t).
  { unfold m3, hint_switch_adapter_after_swap.
    destruct add as [|x [|]]; try done. destruct (_ && _); [|done].
    by destruct (kernels (detach_removed_after_swap rem (set_table t m2))). }
  destruct (match kernels m3 with Some _ => _ | None => _ end) as [cross m4] eqn:Ek.
  injection E as _ <-.
  destruct (kernels m3) as [k|] eqn:Hk; [|by injection Ek as _ <-; rewrite Hm3].
  destruct (active_fingerprints k (table m3)); injection Ek as _ <-; simpl; by rewrite ?Hk, Hm3.
Qed.

(** ** Properties *)

(** [C30] The residency budget: when it can be met, what is resident together with what
    is asked for fits; whether it can or not, active adapters, adapters some request
    references and the protected one keep their staged entry, their counter and their
    place in every retired stack, and the active set, the generation and the index do
    not change. *)
Theorem budget_enforced needed protected_id m :
  let '(res, m') := enforce_adapter_cache_budget needed protected_id m in
  (forall b, adapter_cache_budget_bytes (table m) = Some b -> res = Ok tt ->
     b <> 0 /\ u64_wrapping_add (adapter_cache_bytes (table m')) needed <= b)
  /\ (forall x,
       is_Some (active (table m) !! x) \/ 0 < default 0 (load_ref x (table m))
       \/ protected_id = Some x ->
       spares x m m').
Proof.
  unfold enforce_adapter_cache_budget.
  destruct (adapter_cache_budget_bytes (table m)) as [b|]; [|by split].
  destruct (Z.eqb_spec b 0) as [->|Hb]; [by split|].
  destruct (Z.leb_spec (u64_wrapping_add (adapter_cache_bytes (table m)) needed) b) as [Hle|Hgt].
  { split; [|done]. by intros b' [= <-] _. }
  set (protected := match protected_id with Some _ => _ | None => _ end).
  destruct (collect_eviction_candidates protected (table m)) as [cands blocked] eqn:Ec.
  set (target := u64_wrapping_sub _ b).
  destruct (evict_candidates_for_budget target cands m) as [freed m1] eqn:Ee.
  assert (Hsp : forall x, is_Some (active (table m) !! x) \/ 0 < default 0 (load_ref x (table m))
                 \/ protected_id = Some x -> spares x m m1).
  { intros x Hx. replace m1 with (evict_candidates_for_budget target cands m).2 by by rewrite Ee.
    unfold evict_candidates_for_budget. destruct (target =? 0); [done|].
    apply evict_loop_spares. destruct Hx as [?|[?| ->]]; [by auto..|]. right; right.
    pose proof (candidates_unprotected x protected (table m) ltac:(unfold protected; set_solver)) as Hc.
    by rewrite Ec in Hc. }
  destruct (Z.ltb_spec b (u64_wrapping_add (adapter_cache_bytes (table m1)) needed)); [by split|].
  split; [|done]. by intros b' [= <-] _.
Qed.

(** Fallback loading takes the first candidate, in order, whose preload succeeds:
    the failures it reports are exactly the candidates before it, and when it reports
    none succeeded, every candidate was tried. *)
Theorem fallback_first_success candidates timeout cut_off isolated monitor now m :
  candidates <> [] ->
  match (try_load_with_fallback candidates timeout cut_off isolated monitor now m).1 with
  | Ok o =>
      success (fb_result o) = true /\ attempts o = S (length (failures o))
      /\ fst <$> candidates !! length (failures o) = Some (fb_adapter_id o)
      /\ map fst (failures o) = map fst (take (length (failures o)) candidates)
  | Err e =>
      exists failed, map fst failed = map fst candidates
        /\ e = ResourceExhaustion
             ("All " +:+ pretty (length candidates) +:+ " adapter candidates failed: ["
              +:+ join "; " (map (fun '(x, r) => x +:+ ":" +:+ r) failed) +:+ "]")
  end.
Proof.
  intros Hne. unfold try_load_with_fallback. destruct candidates as [|c cs]; [done|].
  set (l := c :: cs) in *.
  pose proof (fallback_loop_spec [] l [] timeout cut_off isolated monitor now m eq_refl) as Hs.
  cbn [length app] in Hs.
  destruct (fallback_loop l 0 [] _ _ _ _ _ m) as [[[o|] failed] m']; cbn [fst].
  - exact Hs.
  - by exists failed.
Qed.

(** The hash predicted before a swap is the hash of the stack after it. *)
Theorem swap_hash_predicted add_ids remove_ids now t h r t' :
  compute_stack_hash_with add_ids remove_ids t = Ok h ->
  swap add_ids remove_ids now (fun u => u) t = (Ok r, t') ->
  compute_stack_hash t' = h.
Proof. apply swap_hash_predicted_aux. Qed.

(** A swap command with an expected stack hash either leaves the active set alone
    or installs a stack with exactly that hash. *)
Theorem expected_hash_enforced add_ids remove_ids h looks now m r m' :
  execute_swap add_ids remove_ids (Some h) looks now m = (Ok r, m') ->
  success r = true ->
  compute_stack_hash (table m') = h.
Proof.
  intros E Hs. destruct (execute_swap_success _ _ _ _ _ _ _ _ E Hs)
    as (m1 & t & res & _ & Hp & Esw & _ & Ha & _).
  rewrite <- (swap_hash_predicted_aux _ _ _ _ _ _ _ (Hp h eq_refl) Esw).
  rewrite !compute_stack_hash_eq. by rewrite Ha.
Qed.

(** A swap command that does not succeed, whatever the step that failed (staging,
    integrity, drain, kernel attach, table), leaves the active set, the generation,
    the published index, the retired stacks and the counters as they were, and every
    staged adapter that was not part of the swap. *)
Theorem failed_swap_changes_nothing add_ids remove_ids e looks now m res m' :
  execute_swap add_ids remove_ids e looks now m = (res, m') ->
  (forall r, res = Ok r -> success r = false) ->
  active (table m') = active (table m) /\ current_stack (table m') = current_stack (table m)
  /\ store (table m') = store (table m) /\ retired_stacks (table m') = retired_stacks (table m)
  /\ cells (table m') = cells (table m)
  /\ (forall y, y ∉ add_ids -> staged (table m') !! y = staged (table m) !! y).
Proof.
  unfold execute_swap. intros E Hres.
  destruct (swap_with_expected_hash add_ids remove_ids e looks now m) as [[[d n]|[ie|ae]] m1] eqn:Es.
  - destruct (match kernels m1 with Some _ => _ | None => _ end). injection E as <- _.
    specialize (Hres _ eq_refl). done.
  - injection E as _ <-. apply swap_failure_quiet in Es as (Hv & _ & Hst).
    injection Hv as -> -> -> -> ->. by repeat (split; [done|]).
  - injection E as _ <-. apply swap_failure_quiet in Es as (Hv & _ & Hst).
    injection Hv as -> -> -> -> ->. by repeat (split; [done|]).
Qed.

Lemma dedup_filter_in p seen l x :
  x ∈ l -> p x = true -> x ∉ seen -> x ∈ dedup_filter p seen l.
Proof.
  revert seen. induction l as [|y l IH]; intros seen Hx Hp Hs; [by apply elem_of_nil in Hx|].
  simpl. apply elem_of_cons in Hx as [<-|Hx].
  - rewrite bool_decide_eq_false_2, Hp by done. by left.
  - case_bool_decide; [by apply IH|]. destruct (decide (x = y)) as [->|NE].
    + rewrite Hp. by left.
    + destruct (p y); [right|]; apply IH; set_solver.
Qed.
End Manager.
Arguments HotSwapManager : clear implicits.

(** ** Kernels and rollback *)

(** A backend that keeps the set of attached adapters. *)
Definition attached_kernels : FusedKernels (gset Z) := {|
  attach_adapter i k := (Ok tt, {[i]} ∪ k);
  detach_adapter i k := (Ok tt, k ∖ {[i]});
  switch_adapter _ k := (Ok tt, k);
  load_adapter_with_metadata i _ k := (Ok tt, {[i]} ∪ k);
  verify_adapter_buffers _ _ := Err (Kernel "verify");
  get_gpu_fingerprints _ := ∅;
|}.

Section Rollback.
Context {B : Blake3} {X : Hex} {F : AdapterFiles}.
#[local] Existing Instance attached_kernels.

Lemma detach_each_gone l x k :
  x ∈ l ->
  adapter_id_to_u16 x ∉ foldl (fun k x => (detach_adapter (adapter_id_to_u16 x) k).2) k l.
Proof.
  assert (Hmono : forall l (k : gset Z), foldl (fun k x => (detach_adapter (adapter_id_to_u16 x) k).2) k l ⊆ k).
  { clear. induction l as [|y l IH]; intros k; simpl; [done|]. etrans; [apply IH|]. set_solver. }
  revert k. induction l as [|y l IH]; intros k Hx; [by apply elem_of_nil in Hx|].
  apply elem_of_cons in Hx as [<-|Hx]; simpl; [|by apply IH].
  intros Hin. apply Hmono in Hin. set_solver.
Qed.

(** After a successful swap, no removed adapter that is not active is attached. *)
Lemma execute_swap_kernels add rem e looks now m r m' :
  execute_swap add rem e looks now m = (Ok r, m') -> success r = true ->
  forall k, kernels m = Some k ->
  exists k', kernels m' = Some k'
    /\ forall x, x ∈ rem -> active (table m') !! x = None -> adapter_id_to_u16 x ∉ k'.
Proof.
  intros E Hs k Hk. destruct (execute_swap_success _ _ _ _ _ _ _ _ E Hs)
    as (m1 & t & res & Hq & _ & _ & Hk' & Hact & _).
  destruct (kernels m1) as [k1|] eqn:Hk1.
  2: { apply (proj2 (proj1 (proj2 Hq))) in Hk1. congruence. }
  set (m2 := detach_removed_after_swap rem (set_table t m1)) in *.
  assert (Hm2 : exists k2, kernels m2 = Some k2
    /\ forall x, x ∈ rem -> active t !! x = None -> adapter_id_to_u16 x ∉ k2).
  { unfold m2, detach_removed_after_swap. simpl. rewrite Hk1. simpl. eexists. split; [done|].
    intros x Hx Hn. apply detach_each_gone, dedup_filter_in; [done| |set_solver].
    by rewrite Hn, bool_decide_eq_false_2 by by intros []. }
  destruct Hm2 as (k2 & Hk2 & Hgone). exists k2. rewrite Hk', Hact. split; [|done].
  unfold hint_switch_adapter_after_swap. destruct add as [|y [|]]; try done.
  destruct (_ && _); [|done]. by rewrite Hk2.
Qed.

(** A swap detaches the adapters it removes from the kernels at once, and a
    rollback only restores the table: after both, a removed adapter is active and
    published again while its weights are not attached. *)
Theorem rollback_leaves_adapter_detached add_ids remove_ids e looks now now' k m r m1 r' m2 x :
  kernels m = Some k ->
  execute_swap add_ids remove_ids e looks now m = (Ok r, m1) -> success r = true ->
  execute_rollback now' m1 = (Ok r', m2) ->
  x ∈ remove_ids -> x ∉ add_ids -> is_Some (active (table m) !! x) ->
  is_Some (active (table m2) !! x)
  /\ exists k', kernels m2 = Some k' /\ adapter_id_to_u16 x ∉ k'.
Proof.
  intros Hk E Hs Er Hx Hnx [a Ha].
  destruct (execute_swap_kernels _ _ _ _ _ _ _ _ E Hs k Hk) as (k1 & Hk1 & Hgone).
  destruct (execute_swap_success _ _ _ _ _ _ _ _ E Hs)
    as (m0 & t & res & (Hv & _) & _ & Esw & _ & Hact & Hrb).
  injection Hv as Hact0 _ _ _ _.
  unfold swap in Esw. set (t1 := set_rollback_state _ (table m0)) in Esw.
  destruct (first_unstaged add_ids t1) eqn:Hf; [done|].
  destruct (new_active add_ids remove_ids t1) as [mm d] eqn:Em. injection Esw as _ <-.
  destruct (swap_commit_spec mm now t1) as (A & _ & _ & R & _).
  rewrite R in Hrb. unfold execute_rollback, rollback in Er. rewrite Hrb in Er. simpl in Er.
  destruct (store_entries _ _ _ _) as [es fresh].
  injection Er as _ <-. simpl. split.
  - destruct (_ <? _); simpl; rewrite Hact0, Ha; eauto.
  - exists k1. split; [done|]. apply Hgone; [done|].
    rewrite Hact, A. pose proof (new_active_lookup add_ids remove_ids t1 x Hf) as Hl.
    rewrite Em in Hl. simpl in Hl. by rewrite Hl, decide_False, decide_True.
Qed.
End Rollback.

(** ** Examples *)

Section Examples.
#[local] Existing Instance toy_blake3.
#[local] Existing Instance hex_lower.
#[local] Existing Instance attached_kernels.

(** Every file is there and verifies. *)
#[local] Instance ex_files : AdapterFiles := {|
  adapter_path x := x;
  tenant_root := "t";
  load_adapter x := Ok (mkOutcome (Standalone x) [x00] true);
  verify_outcome _ h _ := Ok h;
|}.

(** "a" active and attached, "b" staged. *)
Definition ex_manager : HotSwapManager (gset Z) :=
  mkManager ex_t2 (Some {[adapter_id_to_u16 "a"]}) Enforce.

Definition ex_target : B3Hash := compute_stack_hash (swap ["b"] ["a"] 0 (fun u => u) ex_t2).2.

Definition ex_swap := execute_swap ["b"] ["a"] (Some ex_target) [] 0 ex_manager.

Lemma ex_swap_ok : match ex_swap.1 with Ok r => success r | Err _ => false end = true.
Proof. vm_compute. reflexivity. Qed.

Lemma swap_hash_predicted_witness :
  compute_stack_hash_with ["b"] ["a"] ex_t2 = Ok ex_target.
Proof.
  destruct (swap ["b"] ["a"] 0 (fun u => u) ex_t2) as [[r|e] t'] eqn:E;
    [|apply (f_equal fst) in E; vm_compute in E; discriminate].
  destruct (compute_stack_hash_with ["b"] ["a"] ex_t2) as [h|e] eqn:Eh;
    [|vm_compute in Eh; discriminate].
  rewrite <- (swap_hash_predicted ["b"] ["a"] 0 ex_t2 h r t' Eh E).
  unfold ex_target. rewrite E. reflexivity.
Defined.

Lemma expected_hash_enforced_witness : compute_stack_hash (table ex_swap.2) = ex_target.
Proof.
  pose proof ex_swap_ok as Hs. unfold ex_swap in *.
  destruct (execute_swap ["b"] ["a"] (Some ex_target) [] 0 ex_manager) as [[r|e] m'] eqn:E.
  - exact (expected_hash_enforced ["b"] ["a"] ex_target [] 0 ex_manager r m' E Hs).
  - discriminate.
Defined.

(** "c" was never staged. *)
Lemma failed_swap_changes_nothing_witness :
  active (table (execute_swap ["c"] ["a"] None [] 0 ex_manager).2) = active ex_t2.
Proof.
  destruct (execute_swap ["c"] ["a"] None [] 0 ex_manager) as [res m'] eqn:E.
  apply (failed_swap_changes_nothing ["c"] ["a"] None [] 0 ex_manager res m' E).
  intros r ->. apply (f_equal (fun p => match p.1 with Ok r => Some (success r) | _ => None end)) in E.
  vm_compute in E. injection E as E. exact (eq_sym E).
Defined.

Lemma fallback_first_success_witness :
  match (try_load_with_fallback [("b", ex_hash x62)] 5 (fun _ => None) (fun _ => true) None 0
           ex_manager).1 with
  | Ok o => attempts o = 1%nat
  | Err _ => True
  end.
Proof.
  pose proof (fallback_first_success [("b", ex_hash x62)] 5 (fun _ => None) (fun _ => true) None 0
    ex_manager ltac:(discriminate)) as W.
  destruct (try_load_with_fallback _ _ _ _ _ _ _) as [[o|e] m']; cbn [fst] in *; [|exact I].
  destruct W as (_ & -> & Hl & _). destruct (failures o) as [|f [|f' l]]; try discriminate Hl.
  reflexivity.
Defined.

Lemma rollback_leaves_adapter_detached_witness :
  let m2 := (execute_rollback 0 ex_swap.2).2 in
  is_Some (active (table m2) !! "a")
  /\ exists k', kernels m2 = Some k' /\ adapter_id_to_u16 "a" ∉ k'.
Proof.
  pose proof ex_swap_ok as Hs. unfold ex_swap in *.
  destruct (execute_swap ["b"] ["a"] (Some ex_target) [] 0 ex_manager) as [[r|e] m1] eqn:E;
    [|discriminate].
  assert (Hr : match (execute_rollback 0
                  (execute_swap ["b"] ["a"] (Some ex_target) [] 0 ex_manager).2).1 with
               | Ok _ => true | Err _ => false end = true) by (vm_compute; reflexivity).
  rewrite E in Hr. cbn [snd] in *.
  destruct (execute_rollback 0 m1) as [[r'|e'] m2] eqn:Er; [|discriminate].
  apply (rollback_leaves_adapter_detached ["b"] ["a"] (Some ex_target) [] 0 0
           {[adapter_id_to_u16 "a"]} ex_manager r m1 r' m2 "a").
  - reflexivity.
  - exact E.
  - exact Hs.
  - exact Er.
  - left.
  - intros Hin. apply list_elem_of_singleton in Hin. discriminate.
  - eexists. reflexivity.
Defined.
End Examples.

End HotSwapManager.
