(* ===== verification/RequestPinner.v ===== *)
(** * Pinning the adapters of a request (adapteros-lora-worker/src/request_pinner.rs)

    A request reads the current stack of the hot-swap table, pins the snapshot of the
    adapter store, and keeps both if they are of one generation; it tries twice. What other
    threads do between these accesses is [others], numbered by the place where it happens,
    on the table and on whatever state of their own they have: they can be in the middle of
    a call. A swap is taken apart into its accesses to the table, so that a request can
    come between the flip of the active map and the publication of the index. *)

From S2P Require Import Prelude Hashing AdapterStore HotSwap.

Local Open Scope Z.
Local Open Scope aos.

Module RequestPinner.
Import HotSwap.

Record PinnedRequest : Type := mkPinned {
  pins : AdapterStore.AdapterPins;
  pinned_stack : Stack;
  pinned_hash : B3Hash;
}.

Section Pinning.
Context `{Blake3} `{Hex}.

Definition changed_while_pinning : AosError := Worker "Adapter stack changed while pinning request".

(** The table, and the state [X] of the other threads. *)
Context {X : Type}.

(** [for _ in 0..2]; pins that are not kept are dropped at the end of their round, and a
    drop that panics is [None]. *)
Fixpoint pin_attempts (fuel i : nat) (allow_empty : bool)
    (others : nat -> AdapterTable * X -> AdapterTable * X) (s : AdapterTable * X) :
    option (AdapterTable * X * result PinnedRequest AosError) :=
  match fuel with
  | O => Some (s, Err changed_while_pinning)
  | S fuel =>
      let stack := get_current_stack_handle s.1 in
      if bool_decide (stack_active stack = ∅) && negb allow_empty then
        Some (s, Err (Worker "No active adapters available to pin"))
      else
        let '(t, x) := others (2 * i)%nat s in
        let '(p, cs) := AdapterStore.pin_current (store t) (cells t) in
        let '(t, x) := others (2 * i + 1)%nat (set_cells cs t, x) in
        if AdapterStore.pins_generation p =? stack_generation stack then
          Some (t, x, Ok (mkPinned p stack (compute_stack_hash t)))
        else
          match AdapterStore.drop_pins p (cells t) with
          | Some cs => pin_attempts fuel (S i) allow_empty others (set_cells cs t, x)
          | None => None
          end
  end.

Definition pin_internal (allow_empty : bool)
    (others : nat -> AdapterTable * X -> AdapterTable * X) (s : AdapterTable * X) :
    option (AdapterTable * X * result PinnedRequest AosError) :=
  pin_attempts 2 0 allow_empty others s.


Definition pin_allow_empty (others : nat -> AdapterTable * X -> AdapterTable * X)
    (s : AdapterTable * X) := pin_internal true others s.


End Pinning.

Section PinFacts.
Context `{Blake3} `{Hex}.

(** ** What the other threads do meanwhile *)

(** An access that leaves alone what a pin reads. *)
Definition keeps_index (t t' : AdapterTable) : Prop :=
  active t' = active t /\ current_stack t' = current_stack t
  /\ AdapterStore.current (store t') = AdapterStore.current (store t)
  /\ refcounts t ⊆ refcounts t'.

(** Accesses of other threads, of which one at a time is in a swap: between the flip of
    the active map and the publication of the index it holds the new map. Nobody rolls
    back. *)
Inductive forward_step : AdapterTable * option (gmap string AdapterLoadState) ->
    AdapterTable * option (gmap string AdapterLoadState) -> Prop :=
| fs_flip m t :
    registered (refcounts t) m -> current_stack t < u64_max ->
    forward_step (t, None) ((swap_flip (current_stack t) m t).2, Some m)
| fs_publish m now t : forward_step (t, Some m) (swap_publish (current_stack t) m now t, None)
| fs_other t t' x : keeps_index t t' -> forward_step (t, x) (t', x).

Lemma keeps_index_set_cells cs t : keeps_index t (set_cells cs t).
Proof. done. Qed.

(** Every call of the table but a swap or a rollback is such an access, and a swap is a
    sequence of them. *)
Lemma same_index_keeps t t' : same_index t t' -> keeps_index t t'.
Proof. intros (A & C & S & _ & _ & R). unfold keeps_index. by rewrite S. Qed.

Lemma swap_forward add rem now t :
  current_stack t < u64_max ->
  rtc forward_step (t, None) ((swap add rem now (fun u => u) t).2, None).
Proof.
  intros Hb. unfold swap. set (t1 := set_rollback_state _ t).
  eapply rtc_l; [apply (fs_other t t1); done|].
  destruct (first_unstaged add t1); [done|].
  destruct (new_active add rem t1) as [m d]. cbn [snd]. unfold swap_commit.
  destruct (swap_register_spec m t1) as (R & S & A & C & T & _).
  eapply rtc_l; [apply (fs_other t1 (swap_register m t1)); unfold keeps_index; by rewrite T|].
  rewrite <- C. eapply rtc_l; [apply (fs_flip m); [done|by rewrite C]|]. cbn [swap_flip snd].
  eapply rtc_l; [apply (fs_publish m now)|]. apply rtc_once, fs_other.
  destruct (swap_retire_spec (current_stack (swap_register m t1))
    (u64_wrapping_add (current_stack (swap_register m t1)) 1) (active t1)
    (swap_publish (u64_wrapping_add (current_stack (swap_register m t1)) 1) m now
      (set_current_stack (u64_wrapping_add (current_stack (swap_register m t1)) 1)
        (set_active m (swap_register m t1))))) as (A' & C' & F' & T').
  unfold keeps_index. cbn [current_stack set_current_stack]. by rewrite A', C', F', T'.
Qed.

(** ** What a pinned request holds *)

(** A published index is that of generation [g] and active map [m]. *)
Definition index_of (g : Z) (m : gmap string AdapterLoadState) (rcs : gmap string nat)
    (snap : AdapterStore.AdapterSnapshot) : Prop :=
  AdapterStore.generation snap = g
  /\ (forall x a, m !! x = Some a -> exists k r, AdapterStore.entries snap !! k = Some r
        /\ AdapterStore.adapter_id k = x /\ AdapterStore.adapter_hash k = hash a
        /\ rcs !! x = Some (AdapterStore.refcount r))
  /\ (forall k r, AdapterStore.entries snap !! k = Some r -> is_Some (m !! AdapterStore.adapter_id k)).

(** The pins of such a snapshot. *)
Definition pins_stack (p : AdapterStore.AdapterPins) (g : Z) (m : gmap string AdapterLoadState)
    (rcs : gmap string nat) : Prop :=
  AdapterStore.pins_generation p = g
  /\ (forall x a, m !! x = Some a -> exists k c, (k, c) ∈ AdapterStore.pinned p
        /\ AdapterStore.adapter_id k = x /\ AdapterStore.adapter_hash k = hash a /\ rcs !! x = Some c)
  /\ (forall k c, (k, c) ∈ AdapterStore.pinned p -> is_Some (m !! AdapterStore.adapter_id k)).

Lemma cache_key_hash i x a : AdapterStore.adapter_hash (cache_key i x a) = hash a.
Proof. unfold cache_key. by destruct (backing a). Qed.

Lemma store_entries_index_of i rcs f m g :
  registered rcs m -> index_of g m rcs (AdapterStore.mkSnapshot g (store_entries i rcs f m).1).
Proof.
  intros Hreg. destruct (store_entries_spec i rcs f m) as [S1 S2].
  split; [done|]. cbn [AdapterStore.entries]. split.
  - intros x a Hx. destruct (S2 x a Hx) as [r Hk].
    destruct (S1 _ r Hk) as (y & b & Hy & E & Hh & Hc).
    apply (f_equal AdapterStore.adapter_id) in E. rewrite !cache_key_id in E. subst y.
    assert (b = a) as -> by congruence. destruct (Hreg x) as [c Hc']; [by eauto|].
    exists (cache_key i x a), r. rewrite cache_key_id, cache_key_hash. by rewrite (Hc c Hc').
  - intros k r Hk. destruct (S1 k r Hk) as (x & a & Hx & -> & _). rewrite cache_key_id. by exists a.
Qed.



(** A pin takes what is published. *)
Lemma pin_current_index g m rcs st cs :
  index_of g m rcs (AdapterStore.current st) ->
  pins_stack (AdapterStore.pin_current st cs).1 g m rcs.
Proof.
  intros (Hg & Hm & Ho). unfold pins_stack, AdapterStore.pins_generation, AdapterStore.pin_current,
    AdapterStore.snapshot. cbn [fst AdapterStore.snapshot_of AdapterStore.pinned]. split; [done|]. split.
  - intros x a Hx. destruct (Hm x a Hx) as (k & r & Hk & ? & ? & ?).
    exists k, (AdapterStore.refcount r). split; [|done].
    apply list_elem_of_fmap. exists (k, r). split; [done|]. by apply elem_of_map_to_list.
  - intros k c ([k' r] & E & Hin)%list_elem_of_fmap. apply elem_of_map_to_list in Hin.
    injection E as -> ->. by eapply Ho.
Qed.

Lemma table_ok_index_of i t :
  table_ok_at i t -> index_of (current_stack t) (active t) (refcounts t) (AdapterStore.current (store t)).
Proof. intros [Hi Ha _ _]. rewrite Hi. by apply store_entries_index_of. Qed.

Lemma pin_pins_stack t :
  table_ok t ->
  pins_stack (AdapterStore.pin_current (store t) (cells t)).1 (current_stack t) (active t) (refcounts t).
Proof. intros Hok. by eapply pin_current_index, table_ok_index_of. Qed.











Context {X : Type}.

(** Alone, a request is refused exactly when there is no adapter to pin and it needs one;
    otherwise it gets the current stack, its hash and its pins at once. *)
Theorem request_pin_alone v t (x : X) ae :
  rtc table_step (new v) t ->
  pin_internal ae (fun _ u => u) (t, x) =
    if bool_decide (active t = ∅) && negb ae then
      Some (t, x, Err (Worker "No active adapters available to pin"))
    else
      let '(p, cs) := AdapterStore.pin_current (store t) (cells t) in
      Some (set_cells cs t, x, Ok (mkPinned p (mkStack (current_stack t) (active t)) (compute_stack_hash t))).
Proof.
  intros Hr. apply table_reachable_ok in Hr. unfold pin_internal.
  cbn [pin_attempts fst get_current_stack_handle stack_active].
  destruct (_ && _); [done|]. destruct (pin_pins_stack t Hr) as (Hg & _ & _).
  destruct (AdapterStore.pin_current (store t) (cells t)) as [p cs]. cbn [fst] in Hg. cbn zeta.
  cbn [stack_generation]. rewrite Hg, Z.eqb_refl. done.
Qed.

(** A request takes the pins it finds, when their generation is that of the stack it read. *)
Lemma pin_accepts t t1 (x : X) ae m :
  active t <> ∅ ->
  index_of (current_stack t) m (refcounts t1) (AdapterStore.current (store t1)) ->
  exists s' req,
    pin_internal ae (fun n u => if (n =? 0)%nat then (t1, u.2) else u) (t, x) = Some (s', Ok req)
    /\ pinned_stack req = mkStack (current_stack t) (active t)
    /\ pins_stack (pins req) (current_stack t) m (refcounts t1).
Proof.
  intros Hne Hi. pose proof (pin_current_index _ _ _ _ (cells t1) Hi) as Hp. unfold pin_internal.
  cbn [pin_attempts fst snd get_current_stack_handle stack_active Nat.mul Nat.add Nat.eqb].
  rewrite bool_decide_false by done. cbn [andb].
  destruct (AdapterStore.pin_current (store t1) (cells t1)) as [p cs]. cbn [fst] in Hp. cbn zeta.
  assert (Hp' := Hp). destruct Hp' as [Hpg _]. cbn [stack_generation]. rewrite Hpg, Z.eqb_refl.
  eexists _, _. split; [reflexivity|]. by split.
Qed.

(** Generations are handed out again after a rollback: when another thread rolls back and
    swaps between the two reads, the pins have the generation the request expects and are
    accepted, but they are pins of the other stack. *)
Theorem rollback_confuses_pin v t (x : X) ae rb add rem now now' r t2 :
  rtc table_step (new v) t -> active t <> ∅ ->
  rollback_state t = Some rb -> stack_generation rb + 1 = current_stack t ->
  swap add rem now' (fun u => u) (rollback now t).2 = (Ok r, t2) ->
  exists s' req,
    pin_internal ae (fun n u => if (n =? 0)%nat then (t2, u.2) else u) (t, x) = Some (s', Ok req)
    /\ pinned_stack req = mkStack (current_stack t) (active t)
    /\ pins_stack (pins req) (current_stack t) (active t2) (refcounts t2).
Proof.
  intros Hr Hne Hrb Hg E. assert (table_ok t) as Hok by by eapply table_reachable_ok.
  destruct (ok_rollback t Hok rb Hrb) as [Hge Hreg].
  destruct (rollback_spec now t rb Hrb Hreg) as (_ & A & C & _).
  assert (table_ok (rollback now t).2) as Hok1 by by apply rollback_table_ok.
  set (t1 := (rollback now t).2) in *. pose proof (ok_generation t Hok) as Hu.
  assert (current_stack t1 < u64_max) as Hb by (unfold is_u64, u64_max in *; lia).
  assert (table_ok t2) as Hok2 by (pose proof (swap_table_ok add rem now' t1 Hb Hok1) as Y; by rewrite E in Y).
  assert (current_stack t2 = current_stack t) as Hc.
  { unfold swap in E. set (u := set_rollback_state _ t1) in E. destruct (first_unstaged add u); [done|].
    destruct (new_active add rem u) as [m d]. injection E as _ <-.
    destruct (swap_commit_spec m now' u) as (_ & -> & _).
    rewrite u64_wrapping_add_small by (unfold is_u64, u64_max in *; simpl; lia). simpl. lia. }
  apply pin_accepts; [done|]. rewrite <- Hc. by eapply table_ok_index_of.
Qed.

(** Two swaps that overlap can leave the active set of one and the index of the other at
    one generation: from then on, until the next swap, requests that run the one pin the
    other, with no other thread about. *)
Theorem overlapping_swaps_confuse_pin v t (x : X) ae m1 m2 now :
  rtc table_step (new v) t -> current_stack t < u64_max -> m2 <> ∅ ->
  let t' := overlapping_swaps m1 m2 now t in
  exists s' req,
    pin_internal ae (fun _ u => u) (t', x) = Some (s', Ok req)
    /\ pinned_stack req = mkStack (current_stack t + 1) m2
    /\ pins_stack (pins req) (current_stack t + 1) m1 (refcounts t').
Proof.
  intros Hr Hb Hne t'. apply table_reachable_ok in Hr.
  destruct (overlapping_swaps_spec m1 m2 now t Hr Hb) as (A & C & R & P).
  fold t' in A, C, R, P. rewrite <- A, <- C.
  change (pin_internal ae (fun _ u => u) (t', x)) with
    (pin_internal ae (fun n u => if (n =? 0)%nat then (t', u.2) else u) (t', x)).
  apply pin_accepts; [by rewrite A|]. rewrite P, C. by apply store_entries_index_of.
Qed.

(** The hash of the stack is computed after the generations were compared: it is the
    hash of whatever stack is current by then. *)
Theorem hash_of_another_stack v t (x : X) ae f :
  rtc table_step (new v) t -> active t <> ∅ ->
  let cs := (AdapterStore.pin_current (store t) (cells t)).2 in
  exists req,
    pin_internal ae (fun n u => if (n =? 1)%nat then (f u.1, u.2) else u) (t, x)
      = Some (f (set_cells cs t), x, Ok req)
    /\ pinned_stack req = mkStack (current_stack t) (active t)
    /\ pinned_hash req = compute_stack_hash (f (set_cells cs t)).
Proof.
  intros Hr Hne cs. apply table_reachable_ok in Hr. unfold pin_internal.
  cbn [pin_attempts fst snd get_current_stack_handle stack_active Nat.mul Nat.add Nat.eqb].
  rewrite bool_decide_false by done. cbn [andb].
  destruct (pin_pins_stack t Hr) as (Hg & _ & _). unfold cs.
  destruct (AdapterStore.pin_current (store t) (cells t)) as [p cs']. cbn [fst] in Hg. cbn zeta.
  cbn [stack_generation snd fst]. rewrite Hg, Z.eqb_refl. by eexists.
Qed.
End PinFacts.

(** ** Examples *)
Section Examples.
#[local] Existing Instance toy_blake3.
#[local] Existing Instance hex_lower.

(** A thread that lets "b" join "a" has flipped the active map when the request begins; it
    publishes the index after the request has read the stack. *)
Definition joined : gmap string AdapterLoadState := (new_active ["b"] [] ex_t2).1.









Lemma request_pin_alone_witness :
  exists s' req, pin_internal false (fun _ u => u) (ex_t2, tt) = Some (s', Ok req).
Proof.
  pose proof (request_pin_alone "1" ex_t2 tt false ex_t2_reachable) as E.
  assert (bool_decide (active ex_t2 = ∅) = false) as Hb by (vm_compute; reflexivity).
  rewrite Hb in E. cbn [andb] in E.
  destruct (AdapterStore.pin_current (store ex_t2) (cells ex_t2)) as [p cs]. eexists _, _. exact E.
Defined.

Lemma ex_t2_active : active ex_t2 <> ∅.
Proof. intros E. apply (f_equal (fun m => bool_decide (m = ∅))) in E. vm_compute in E. discriminate E. Qed.

Definition swapped_back : result (Z * nat) AosError * AdapterTable :=
  swap ["b"] [] 0 (fun u => u) (rollback 0 ex_t2).2.

(** The request runs "a" with a pin on "b". *)
Lemma rollback_confuses_pin_witness :
  exists s' req,
    pin_internal false (fun n u => if (n =? 0)%nat then (swapped_back.2, u.2) else u) (ex_t2, tt)
      = Some (s', Ok req)
    /\ is_Some (stack_active (pinned_stack req) !! "a")
    /\ forall k c, (k, c) ∈ AdapterStore.pinned (pins req) -> AdapterStore.adapter_id k <> "a".
Proof.
  assert (is_ok swapped_back.1 = true) as Hok by (vm_compute; reflexivity).
  assert (bool_decide (active swapped_back.2 !! "a" = None) = true) as Hn by (vm_compute; reflexivity).
  assert (bool_decide (is_Some (active ex_t2 !! "a")) = true) as Ha by (vm_compute; reflexivity).
  assert (option_map stack_generation (rollback_state ex_t2) = Some (current_stack ex_t2 - 1)) as Hg
    by (vm_compute; reflexivity).
  apply bool_decide_eq_true in Hn, Ha.
  destruct (rollback_state ex_t2) as [rb|] eqn:Hrb; [|discriminate Hg]. cbn [option_map] in Hg. injection Hg as Hg.
  assert (stack_generation rb + 1 = current_stack ex_t2) as Hg' by lia.
  destruct swapped_back as [[r|e] t2] eqn:E; [|discriminate Hok]. cbn [snd] in *. unfold swapped_back in E.
  destruct (rollback_confuses_pin "1" ex_t2 tt false rb ["b"] [] 0 0 r t2 ex_t2_reachable ex_t2_active Hrb Hg' E)
    as (s' & req & Hp & Hs & _ & _ & Honly).
  exists s', req. split; [exact Hp|]. rewrite Hs. split; [exact Ha|].
  intros k c Hin Hk. specialize (Honly k c Hin). rewrite Hk, Hn in Honly.
  destruct Honly as [? Honly]. discriminate Honly.
Defined.

(** One thread lets "b" join, another removes "a" for "b": the request runs "b" alone with
    pins on both. *)
Definition replaced : gmap string AdapterLoadState := (new_active ["b"] ["a"] ex_t2).1.

Lemma overlapping_swaps_confuse_pin_witness :
  exists s' req,
    pin_internal false (fun _ u => u) (overlapping_swaps joined replaced 0 ex_t2, tt) = Some (s', Ok req)
    /\ stack_active (pinned_stack req) !! "a" = None
    /\ exists k c, (k, c) ∈ AdapterStore.pinned (pins req) /\ AdapterStore.adapter_id k = "a".
Proof.
  assert (bool_decide (replaced = ∅) = false) as Hne by (vm_compute; reflexivity).
  assert (bool_decide (is_Some (joined !! "a")) = true) as Ha by (vm_compute; reflexivity).
  apply bool_decide_eq_false in Hne. apply bool_decide_eq_true in Ha as [a Ha].
  destruct (overlapping_swaps_confuse_pin "1" ex_t2 tt false joined replaced 0 ex_t2_reachable
    ltac:(vm_compute; reflexivity) Hne) as (s' & req & Hp & Hs & _ & Hm & _).
  exists s', req. split; [exact Hp|]. split; [rewrite Hs; vm_compute; reflexivity|].
  destruct (Hm "a" a Ha) as (k & c & Hin & Hk & _). exists k, c. split; [exact Hin|exact Hk].
Defined.

Lemma hash_of_another_stack_witness :
  exists req, pin_internal false
      (fun n u => if (n =? 1)%nat then ((swap ["b"] [] 0 (fun w => w) u.1).2, u.2) else u) (ex_t2, tt)
      = Some ((swap ["b"] [] 0 (fun u => u)
           (set_cells (AdapterStore.pin_current (store ex_t2) (cells ex_t2)).2 ex_t2)).2, tt, Ok req)
    /\ pinned_hash req <> compute_stack_hash ex_t2.
Proof.
  destruct (hash_of_another_stack "1" ex_t2 tt false (fun u => (swap ["b"] [] 0 (fun w => w) u).2)
    ex_t2_reachable ex_t2_active) as (req & E & _ & Hh).
  exists req. split; [exact E|]. rewrite Hh. vm_compute. discriminate.
Defined.
End Examples.
End RequestPinner.
