(* ===== verification/Barrier.v ===== *)
(** * Tick-synchronised barrier (adapteros-deterministic-exec/src/multi_agent.rs)

    [AgentBarrier]: agents wait until every living agent has reached their tick. The
    model interleaves the callers of [wait] at its shared accesses: the failure flag,
    the tick map, the generation counter, the dead set. [wait_step] is one access of
    one caller; wake-ups only decide when a caller looks again, so a sleeping caller
    may always be scheduled. Tick-based timeouts read the shared tick counter,
    wall-clock timeouts an elapsed time given to the step. Telemetry is left out. *)

From S2P Require Import Prelude Hashing.
Open Scope Z_scope.

Module Barrier.

(** ** Data *)

Inductive CoordinationError :=
| AgentNotRegistered (agent_id : string)
| Timeout (ticks : Z)
| Failed (reason : string).

Definition error_display (e : CoordinationError) : string :=
  match e with
  | AgentNotRegistered a => "Agent " +:+ a +:+ " not registered in barrier"
  | Timeout t => "Barrier timeout after " +:+ pretty t +:+ " ticks"
  | Failed r => "Barrier failed: " +:+ r
  end.

(** [tick_counter] is the value of the shared counter the barrier refers to. *)
Record AgentBarrier : Type := mkBarrier {
  agent_ids : list string;
  agent_ticks : gmap string Z;
  generation : Z;
  failed : bool;
  dead_agents : gset string;
  timeout_ticks : option Z;
  tick_counter : option Z;
}.

Definition initial_ticks (ids : list string) : gmap string Z :=
  foldl (fun m a => <[a := 0]> m) ∅ ids.

Definition with_config (ids : list string) : AgentBarrier :=
  mkBarrier ids (initial_ticks ids) 0 false ∅ None None.

Definition new (ids : list string) : AgentBarrier := with_config ids.

Definition with_tick_timeout (ids : list string) (counter timeout : Z) : AgentBarrier :=
  mkBarrier ids (initial_ticks ids) 0 false ∅ (Some timeout) (Some counter).

Definition set_ticks (m : gmap string Z) (b : AgentBarrier) : AgentBarrier :=
  mkBarrier (agent_ids b) m (generation b) (failed b) (dead_agents b) (timeout_ticks b)
    (tick_counter b).
Definition set_generation (g : Z) (b : AgentBarrier) : AgentBarrier :=
  mkBarrier (agent_ids b) (agent_ticks b) g (failed b) (dead_agents b) (timeout_ticks b)
    (tick_counter b).
Definition set_failed (f : bool) (b : AgentBarrier) : AgentBarrier :=
  mkBarrier (agent_ids b) (agent_ticks b) (generation b) f (dead_agents b) (timeout_ticks b)
    (tick_counter b).
Definition set_dead (d : gset string) (b : AgentBarrier) : AgentBarrier :=
  mkBarrier (agent_ids b) (agent_ticks b) (generation b) (failed b) d (timeout_ticks b)
    (tick_counter b).
Definition set_counter (c : option Z) (b : AgentBarrier) : AgentBarrier :=
  mkBarrier (agent_ids b) (agent_ticks b) (generation b) (failed b) (dead_agents b)
    (timeout_ticks b) c.

(** ** Operations *)

Definition mark_agent_dead (agent : string) (b : AgentBarrier)
  : result unit CoordinationError * AgentBarrier :=
  if negb (bool_decide (agent ∈ agent_ids b)) then (Err (AgentNotRegistered agent), b)
  else if bool_decide (agent ∈ dead_agents b) then (Ok tt, b)
  else (Ok tt, set_dead ({[agent]} ∪ dead_agents b) b).

(** [remaining_count], a [usize] subtraction. *)
Definition remaining_count (b : AgentBarrier) : Z :=
  u64_wrapping_sub (Z.of_nat (length (agent_ids b))) (Z.of_nat (size (dead_agents b))).

Definition agent_tick (agent : string) (b : AgentBarrier) : option Z := agent_ticks b !! agent.

Definition compute_wait_duration_ticks (start : option Z) (b : AgentBarrier) : Z :=
  match tick_counter b, start with
  | Some c, Some s => saturating_sub c s
  | _, _ => 0
  end.

(** Where a caller of [wait] is. [start] is [wait_start_tick], [gen] the generation it
    loaded. *)
Inductive Phase :=
| Entering
| Recording (start : option Z)
| LoadingGeneration (start : option Z)
| CheckingTimeout (start : option Z) (gen : Z)
| CheckingFailed (start : option Z) (gen : Z)
| CheckingReady (start : option Z) (gen : Z)
| Advancing (start : option Z) (gen : Z)
| Sleeping (start : option Z) (gen : Z)
| Done (r : result unit CoordinationError).

Record Waiter : Type := mkWaiter { agent : string; current_tick : Z; phase : Phase }.

Definition is_timeout (start : option Z) (elapsed_ms : Z) (b : AgentBarrier) : bool :=
  match tick_counter b, timeout_ticks b with
  | Some current, Some timeout =>
      timeout <=? saturating_sub current (default current start)
  | None, _ => 30000 <? elapsed_ms
  | Some _, None => false
  end.

(** All living agents have reached the tick. *)
Definition all_ready (tick : Z) (b : AgentBarrier) : bool :=
  forallb (fun '(a, t) => bool_decide (a ∈ dead_agents b) || (tick <=? t))
    (map_to_list (agent_ticks b)).

(** One shared access of [wait(agent, tick)]. *)
Definition wait_step (a : string) (tick elapsed_ms : Z) (p : Phase) (b : AgentBarrier)
  : Phase * AgentBarrier :=
  match p with
  | Entering =>
      if failed b then
        (Done (Err (Failed "Barrier already failed due to previous timeout")), b)
      else (Recording (tick_counter b), b)
  | Recording start =>
      match agent_ticks b !! a with
      | None => (Done (Err (AgentNotRegistered a)), b)
      | Some _ => (LoadingGeneration start, set_ticks (<[a := tick]> (agent_ticks b)) b)
      end
  | LoadingGeneration start => (CheckingTimeout start (generation b), b)
  | CheckingTimeout start gen =>
      if is_timeout start elapsed_ms b then (Done (Err (Timeout tick)), set_failed true b)
      else (CheckingFailed start gen, b)
  | CheckingFailed start gen =>
      if failed b then
        (Done (Err (Failed "Barrier failed due to timeout from another agent")), b)
      else (CheckingReady start gen, b)
  | CheckingReady start gen =>
      if all_ready tick b then (Advancing start gen, b) else (Sleeping start gen, b)
  | Advancing start gen =>
      if generation b =? gen then
        (Done (Ok tt), set_generation (u64_wrapping_add gen 1) b)
      else if gen <? generation b then (Done (Ok tt), b)
      else (Sleeping start gen, b)
  | Sleeping start gen => (CheckingTimeout start gen, b)
  | Done r => (Done r, b)
  end.

(** ** Global sequence numbers *)

Definition next_global_seq (counter : Z) : Z * Z := (counter, u64_wrapping_add counter 1).

Record CoordinatedAction : Type := mkAction {
  sequence : Z; action_agent : string; action_tick : Z; action_payload : list byte
}.

Definition action_new (a : string) (tick : Z) (payload : list byte) (counter : Z)
  : CoordinatedAction * Z :=
  let '(s, counter) := next_global_seq counter in (mkAction s a tick payload, counter).

Definition action_hash `{Blake3} (x : CoordinatedAction) : B3Hash :=
  blake3 (le_bytes 8 (sequence x) ++ as_bytes_of (action_agent x)
          ++ le_bytes 8 (action_tick x) ++ action_payload x).

(** ** Interleavings *)

Record World : Type := mkWorld { barrier : AgentBarrier; waiters : list Waiter }.

Definition finished (w : Waiter) : bool := match phase w with Done _ => true | _ => false end.

(** A caller starts, makes an access, an agent is declared dead, time passes. Agents
    wait one call at a time, with ticks that do not go back. *)
Inductive step : World -> World -> Prop :=
| step_call a tick b ws :
    (forall w, w ∈ ws -> agent w = a -> finished w = true) ->
    (forall t, agent_ticks b !! a = Some t -> t <= tick) ->
    step (mkWorld b ws) (mkWorld b (mkWaiter a tick Entering :: ws))
| step_access i w elapsed p b b' ws :
    ws !! i = Some w ->
    (forall start g, phase w = Advancing start g -> generation b < u64_max) ->
    wait_step (agent w) (current_tick w) elapsed (phase w) b = (p, b') ->
    step (mkWorld b ws) (mkWorld b' (<[i := mkWaiter (agent w) (current_tick w) p]> ws))
| step_dead a b ws : step (mkWorld b ws) (mkWorld (mark_agent_dead a b).2 ws)
| step_time c b ws : step (mkWorld b ws) (mkWorld (set_counter c b) ws).

Definition released (w : Waiter) : bool :=
  match phase w with Done (Ok _) => true | _ => false end.

(** ** Invariant *)

Definition ready_for (tick : Z) (b : AgentBarrier) : Prop :=
  forall a t, agent_ticks b !! a = Some t -> a ∈ dead_agents b \/ tick <= t.

Lemma all_ready_spec tick b : all_ready tick b = true <-> ready_for tick b.
Proof.
  unfold all_ready, ready_for. rewrite forallb_forall. split.
  - intros Hall a t Ha. specialize (Hall (a, t)). simpl in Hall.
    rewrite orb_true_iff, bool_decide_eq_true, Z.leb_le in Hall. apply Hall.
    by apply list_elem_of_In, elem_of_map_to_list.
  - intros Hr [a t] Ha. apply list_elem_of_In, elem_of_map_to_list in Ha.
    rewrite orb_true_iff, bool_decide_eq_true, Z.leb_le. by apply Hr.
Qed.

(** What a call has established about the barrier by the time it is in a phase. *)
Definition waiter_ok (b : AgentBarrier) (w : Waiter) : Prop :=
  match phase w with
  | Entering | Recording _ => forall t, agent_ticks b !! agent w = Some t -> t <= current_tick w
  | LoadingGeneration _ => True
  | CheckingTimeout _ g | CheckingFailed _ g | CheckingReady _ g | Sleeping _ g =>
      g <= generation b
  | Advancing _ g => g <= generation b /\ ready_for (current_tick w) b
  | Done (Ok _) => ready_for (current_tick w) b
  | Done (Err _) => True
  end.

(** The barrier moves forward, and the ticks of agents other than [a] stay. *)
Record advances (a : option string) (b b' : AgentBarrier) : Prop := {
  adv_ticks x t' : agent_ticks b' !! x = Some t' ->
    exists t, agent_ticks b !! x = Some t /\ t <= t';
  adv_frame x : a <> Some x -> agent_ticks b' !! x = agent_ticks b !! x;
  adv_dead : dead_agents b ⊆ dead_agents b';
  adv_generation : generation b <= generation b';
}.

Lemma ready_advances a tick b b' : advances a b b' -> ready_for tick b -> ready_for tick b'.
Proof.
  intros [Ht _ Hd _] Hr x t' Hx. destruct (Ht x t' Hx) as (t & Hxt & Hle).
  destruct (Hr x t Hxt); [left; set_solver|right; lia].
Qed.

Lemma waiter_ok_advances a b b' w :
  advances a b b' -> (a = Some (agent w) -> finished w = true) ->
  waiter_ok b w -> waiter_ok b' w.
Proof.
  intros Hadv Ha. unfold waiter_ok, finished in *.
  pose proof (adv_frame _ _ _ Hadv (agent w)) as Hf.
  pose proof (adv_generation _ _ _ Hadv). pose proof (ready_advances a (current_tick w) b b' Hadv).
  destruct (phase w) as [| | | | | |? g| |[]]; try lia; try done; try (intros [? ?]; split; [lia|auto]).
  - rewrite Hf; [done|]. intros E. by specialize (Ha E).
  - rewrite Hf; [done|]. intros E. by specialize (Ha E).
Qed.

Lemma advances_refl a b : advances a b b.
Proof. split; [|done|done|lia]. intros x t Ht. exists t. split; [done|lia]. Qed.

Definition released_count (ws : list Waiter) : Z :=
  sumZ (map (fun w => if released w then 1 else 0) ws).

Record inv (w : World) : Prop := {
  inv_waiters : Forall (waiter_ok (barrier w)) (waiters w);
  inv_unique i j x y : waiters w !! i = Some x -> waiters w !! j = Some y ->
    finished x = false -> finished y = false -> agent x = agent y -> i = j;
  inv_generation : 0 <= generation (barrier w) <= released_count (waiters w);
  inv_dead : forall a, a ∈ dead_agents (barrier w) -> a ∈ agent_ids (barrier w);
}.

(** The parts of [wait_step_advances] that evaluate. *)
Ltac frame := repeat split; first [done|lia].

(** One access, seen from its caller and from everyone else. *)
Lemma wait_step_advances a tick elapsed p b p' b' :
  waiter_ok b (mkWaiter a tick p) -> 0 <= generation b ->
  (forall start g, p = Advancing start g -> generation b < u64_max) ->
  wait_step a tick elapsed p b = (p', b') ->
  advances (if finished (mkWaiter a tick p) then None else Some a) b b'
  /\ waiter_ok b' (mkWaiter a tick p')
  /\ dead_agents b' = dead_agents b /\ agent_ids b' = agent_ids b
  /\ generation b' - generation b
     <= (if released (mkWaiter a tick p') then 1 else 0)
        - (if released (mkWaiter a tick p) then 1 else 0)
  /\ (finished (mkWaiter a tick p) = true -> p' = p /\ b' = b).
Proof.
  intros Hok Hg Hmax E. unfold waiter_ok in *. simpl in *.
  destruct p as [|start|start|start g|start g|start g|start g|start g|r]; simpl in *.
  - destruct (failed b); injection E as <- <-; simpl; (split; [apply advances_refl|frame]).
  - destruct (agent_ticks b !! a) as [t|] eqn:Ha; injection E as <- <-; simpl;
      [|by split; [apply advances_refl|frame]].
    split; [|frame]. split; simpl; [|intros x NE; apply lookup_insert_ne; congruence|done|lia].
    intros x t'. rewrite lookup_insert_Some. intros [[<- <-]|[_ Hx]]; [|exists t'; split; [done|lia]].
    exists t. auto.
  - injection E as <- <-. simpl. split; [apply advances_refl|frame].
  - destruct (is_timeout _ _ _); injection E as <- <-; simpl; (split; [|frame]);
      [|apply advances_refl].
    split; simpl; [|done|done|lia]. intros x t Ht. exists t. split; [done|lia].
  - destruct (failed b); injection E as <- <-; simpl; (split; [apply advances_refl|frame]).
  - destruct (all_ready tick b) eqn:Hr; injection E as <- <-; simpl;
      (split; [apply advances_refl|]); [|frame].
    apply all_ready_spec in Hr. frame.
  - destruct Hok as [Hle Hr]. destruct (Z.eqb_spec (generation b) g) as [<-|NE].
    + injection E as <- <-. simpl. specialize (Hmax _ _ eq_refl).
      rewrite u64_wrapping_add_small by solve_range.
      split; [|frame]. split; simpl; [|done|done|lia]. intros x t Ht. exists t. split; [done|lia].
    + destruct (Z.ltb_spec g (generation b)); [|lia]. injection E as <- <-. simpl.
      split; [apply advances_refl|frame].
  - injection E as <- <-. simpl. split; [apply advances_refl|frame].
  - injection E as <- <-. simpl. split; [apply advances_refl|frame].
Qed.

Lemma barrier_inv_step w w' : inv w -> step w w' -> inv w'.
Proof.
  intros [Hw Hu Hg Hd] Hstep. destruct Hstep as [a tick b ws Hfin Hmono|i w elapsed p b b' ws Hi Hmax E|a b ws|c b ws];
    cbn [barrier waiters] in *.
  - split; cbn [barrier waiters].
    + by constructor.
    + intros [|i] [|j] x y; simpl; try done.
      * intros [= <-] Hj _ Hy Ea. simpl in Ea.
        rewrite (Hfin y) in Hy; [done|by eapply list_elem_of_lookup_2|done].
      * intros Hi' [= <-] Hx _ Ea. simpl in Ea.
        rewrite (Hfin x) in Hx; [done|by eapply list_elem_of_lookup_2|done].
      * intros Hi' Hj Hx Hy Ea. f_equal. eauto.
    + unfold released_count in *. simpl. lia.
    + done.
  - destruct w as [a tick p0]. cbn [agent current_tick phase] in *.
    assert (Hok : waiter_ok b (mkWaiter a tick p0)) by (by eapply Forall_lookup_1).
    destruct (wait_step_advances a tick elapsed p0 b p b' Hok) as (Hadv & Hok' & Ed & Ei & Hcount & Hdone);
      [lia|exact Hmax|exact E|].
    split; cbn [barrier waiters].
    + apply Forall_lookup_2. intros j x Hj.
      apply list_lookup_insert_Some in Hj as [(<- & <- & _)|[NE Hj]]; [done|].
      eapply waiter_ok_advances; [exact Hadv| |by eapply Forall_lookup_1].
      intros Ea. destruct (finished (mkWaiter a tick p0)) eqn:Hf; [done|]. injection Ea as Ea.
      destruct (finished x) eqn:Hx; [done|]. exfalso. apply NE. by eapply Hu.
    + intros j k x y Hj Hk Hx Hy Ea.
      assert (Hold : forall n z, <[i := mkWaiter a tick p]> ws !! n = Some z -> finished z = false ->
               exists z', ws !! n = Some z' /\ agent z' = agent z /\ finished z' = false).
      { intros n z Hn Hz. apply list_lookup_insert_Some in Hn as [(<- & <- & _)|[_ Hn]]; [|eauto].
        exists (mkWaiter a tick p0). split; [done|]. split; [done|].
        destruct (finished (mkWaiter a tick p0)) eqn:Hf; [|done].
        destruct (Hdone eq_refl) as [-> _]. congruence. }
      destruct (Hold j x Hj Hx) as (x' & ? & ? & ?). destruct (Hold k y Hk Hy) as (y' & ? & ? & ?).
      eapply Hu; eauto; congruence.
    + unfold released_count in *. rewrite (sumZ_map_insert _ _ _ _ _ Hi).
      pose proof (adv_generation _ _ _ Hadv). cbn [released phase] in *. lia.
    + rewrite Ed, Ei. exact Hd.
  - assert (Hadv : advances None b (mark_agent_dead a b).2).
    { unfold mark_agent_dead. destruct (negb _); [apply advances_refl|].
      destruct (bool_decide _); [apply advances_refl|].
      split; simpl; [|done|set_solver|lia]. intros x t Ht. exists t. split; [done|lia]. }
    assert (Hg' : generation (mark_agent_dead a b).2 = generation b).
    { unfold mark_agent_dead. destruct (negb _); [done|]. by destruct (bool_decide _). }
    split; cbn [barrier waiters]; [|done|by rewrite Hg'|].
    + eapply Forall_impl; [exact Hw|]. intros x. by apply (waiter_ok_advances None).
    + intros x. unfold mark_agent_dead. case_bool_decide as Hin; simpl; [|apply Hd].
      destruct (bool_decide _); simpl; [apply Hd|]. intros [->%elem_of_singleton|Hx]%elem_of_union; auto.
  - split; done.
Qed.

Lemma barrier_inv_initial b : dead_agents b = ∅ -> generation b = 0 -> inv (mkWorld b []).
Proof.
  intros Hd Hg. split; simpl; try done; [by rewrite Hg|]. rewrite Hd. set_solver.
Qed.

Lemma barrier_inv_reachable b w :
  dead_agents b = ∅ -> generation b = 0 -> rtc step (mkWorld b []) w -> inv w.
Proof. intros Hd Hg. apply rtc_invariant; [exact barrier_inv_step|by apply barrier_inv_initial]. Qed.

(** ** Progress of one caller *)

(** [n] accesses of one caller while nobody else runs. *)
Fixpoint run_alone (n : nat) (a : string) (tick elapsed : Z) (p : Phase) (b : AgentBarrier)
  : Phase * AgentBarrier :=
  match n with
  | O => (p, b)
  | S n => let '(p, b) := wait_step a tick elapsed p b in run_alone n a tick elapsed p b
  end.

(** No access clears the failure flag. *)
Lemma failed_sticky w w' : step w w' -> failed (barrier w) = true -> failed (barrier w') = true.
Proof.
  intros Hstep Hf. destruct Hstep as [|i w elapsed p b b' ws Hi Hmax E|a b ws|]; simpl in *; try done.
  - destruct (phase w); simpl in E; branch; by injection E as <- <-.
  - unfold mark_agent_dead. destruct (negb _); [done|]. by destruct (bool_decide _).
Qed.

(** ** Properties *)

(** [C20] The barrier holds agents back: in any interleaving of waits, deaths and
    passing time, a call that returned [Ok] for a tick leaves a barrier in which every
    agent is dead or has reached that tick. *)
Theorem barrier_safe b w x :
  dead_agents b = ∅ -> generation b = 0 -> rtc step (mkWorld b []) w ->
  x ∈ waiters w -> phase x = Done (Ok tt) ->
  forall a t, agent_ticks (barrier w) !! a = Some t ->
    a ∈ dead_agents (barrier w) \/ current_tick x <= t.
Proof.
  intros Hd Hg Hr Hx Hp. pose proof (inv_waiters _ (barrier_inv_reachable b w Hd Hg Hr)) as Hw.
  rewrite Forall_forall in Hw. specialize (Hw x Hx). unfold waiter_ok in Hw.
  rewrite Hp in Hw. exact Hw.
Qed.

(** [C37] The barrier lets agents go: once every living agent has reached the tick, no
    timeout has struck and the barrier has not failed, a caller at the head of its
    loop returns [Ok] after four more accesses, whether or not it is the one that
    advances the generation. *)
Theorem barrier_releases b w x start g elapsed :
  dead_agents b = ∅ -> generation b = 0 -> rtc step (mkWorld b []) w ->
  x ∈ waiters w -> phase x = CheckingTimeout start g ->
  ready_for (current_tick x) (barrier w) ->
  failed (barrier w) = false -> is_timeout start elapsed (barrier w) = false ->
  (run_alone 4 (agent x) (current_tick x) elapsed (phase x) (barrier w)).1 = Done (Ok tt).
Proof.
  intros Hd Hg Hr Hx Hp Hready Hf Ht. pose proof (inv_waiters _ (barrier_inv_reachable b w Hd Hg Hr)) as Hw.
  rewrite Forall_forall in Hw. specialize (Hw x Hx). unfold waiter_ok in Hw. rewrite Hp in *.
  simpl. rewrite Ht. simpl. rewrite Hf. simpl. rewrite (proj2 (all_ready_spec _ _) Hready). simpl.
  destruct (Z.eqb_spec (generation (barrier w)) g); [done|].
  by rewrite (proj2 (Z.ltb_lt _ _)) by lia.
Qed.

(** A timeout is broadcast: once a caller has timed out the barrier stays failed,
    and from then on every call that starts, and every waiting call at its next look
    at the flag, returns an error. *)
Theorem barrier_failure_broadcast w w' a tick elapsed start g :
  failed (barrier w) = true -> rtc step w w' ->
  failed (barrier w') = true
  /\ (wait_step a tick elapsed Entering (barrier w')).1
     = Done (Err (Failed "Barrier already failed due to previous timeout"))
  /\ (wait_step a tick elapsed (CheckingFailed start g) (barrier w')).1
     = Done (Err (Failed "Barrier failed due to timeout from another agent")).
Proof.
  intros Hf Hr.
  assert (Hf' : failed (barrier w') = true).
  { apply (rtc_invariant step (fun w => failed (barrier w) = true) w w'); [|done|done].
    intros u v Hu Hs. by eapply failed_sticky. }
  simpl. by rewrite Hf'.
Qed.

(** Counters stay in range: the generation never exceeds the number of calls
    released, and the number of living agents reported after a death does not
    underflow. *)
Theorem barrier_counters_bounded b w :
  dead_agents b = ∅ -> generation b = 0 -> rtc step (mkWorld b []) w ->
  Z.of_nat (length (agent_ids (barrier w))) < u64_mod ->
  0 <= generation (barrier w) <= released_count (waiters w)
  /\ remaining_count (barrier w)
     = Z.of_nat (length (agent_ids (barrier w))) - Z.of_nat (size (dead_agents (barrier w)))
  /\ 0 <= remaining_count (barrier w).
Proof.
  intros Hd Hg Hr Hb. destruct (barrier_inv_reachable b w Hd Hg Hr) as [_ _ Hgen Hdead].
  assert (Hsub : (size (dead_agents (barrier w)) <= length (agent_ids (barrier w)))%nat).
  { change (length (elements (dead_agents (barrier w))) <= length (agent_ids (barrier w)))%nat.
    apply submseteq_length, NoDup_submseteq; [apply NoDup_elements|].
    intros a Ha%elem_of_elements. by apply Hdead. }
  split; [done|]. unfold remaining_count. rewrite u64_wrapping_sub_small by lia. lia.
Qed.

(** ** Examples *)

Definition ex_b : AgentBarrier := new ["x"; "y"].

(** Both agents record tick 5, "x" loads the generation and passes; "y" loads the
    generation only then. *)
Definition ex_access (i : nat) (w : World) : World :=
  match waiters w !! i with
  | Some x =>
      let '(p, b) := wait_step (agent x) (current_tick x) 0 (phase x) (barrier w) in
      mkWorld b (<[i := mkWaiter (agent x) (current_tick x) p]> (waiters w))
  | None => w
  end.

Definition ex_call (a : string) (w : World) : World :=
  mkWorld (barrier w) (mkWaiter a 5 Entering :: waiters w).

Lemma ex_access_step i w :
  generation (barrier w) < u64_max -> (i < length (waiters w))%nat -> step w (ex_access i w).
Proof.
  intros Hg Hi. unfold ex_access. destruct w as [b ws]. simpl in *.
  destruct (lookup_lt_is_Some_2 ws i Hi) as [x Hx]. rewrite Hx.
  destruct (wait_step _ _ _ _ _) as [p b'] eqn:E. by eapply step_access.
Qed.

Definition ex_both : World := ex_call "y" (ex_call "x" (mkWorld ex_b [])).
(** Position 1 is "x", position 0 is "y". *)
Definition ex_recorded : World := foldl (fun w i => ex_access i w) ex_both [1; 1; 0; 0]%nat.
Definition ex_passed : World :=
  foldl (fun w i => ex_access i w) ex_recorded [1; 1; 1; 1; 1]%nat.
Definition ex_both_passed : World :=
  foldl (fun w i => ex_access i w) ex_passed [0; 0; 0; 0; 0]%nat.

(** Runs of accesses, last access first. *)
Ltac run_accesses :=
  cbn [foldl];
  repeat (lazymatch goal with
          | |- rtc step _ (ex_access ?i _) =>
              eapply rtc_r; [|apply (ex_access_step i); [vm_compute; reflexivity|vm_compute; lia]]
          end).

Lemma ex_recorded_run : rtc step (mkWorld ex_b []) ex_recorded.
Proof.
  unfold ex_recorded. run_accesses. unfold ex_both, ex_call.
  eapply rtc_r; [eapply rtc_r; [apply rtc_refl|]|]; apply step_call; simpl.
  - by intros w ?%elem_of_nil.
  - intros t. vm_compute. intros [= <-]. done.
  - intros w Hw%list_elem_of_singleton. by subst.
  - intros t. vm_compute. intros [= <-]. done.
Qed.

Lemma ex_both_passed_run : rtc step (mkWorld ex_b []) ex_both_passed.
Proof.
  etrans; [apply ex_recorded_run|]. unfold ex_both_passed, ex_passed. run_accesses. apply rtc_refl.
Qed.

Lemma barrier_safe_witness :
  exists t, agent_ticks (barrier ex_both_passed) !! "y" = Some t /\ 5 <= t.
Proof.
  exists 5. split; [by vm_compute|].
  destruct (barrier_safe ex_b ex_both_passed (mkWaiter "x" 5 (Done (Ok tt))) eq_refl eq_refl
              ex_both_passed_run ltac:(vm_compute; right; left) eq_refl "y" 5
              ltac:(by vm_compute)) as [Hd|Hle].
  - exfalso. revert Hd. vm_compute. done.
  - exact Hle.
Defined.

(** "x" stands at the head of its loop after loading the generation. *)
Definition ex_waiting : World := ex_access 1 ex_recorded.

Lemma barrier_releases_witness :
  (run_alone 4 "x" 5 0 (CheckingTimeout None 0) (barrier ex_waiting)).1 = Done (Ok tt).
Proof.
  apply (barrier_releases ex_b ex_waiting (mkWaiter "x" 5 (CheckingTimeout None 0)) None 0 0).
  - reflexivity.
  - reflexivity.
  - eapply rtc_r; [apply ex_recorded_run|]. apply ex_access_step; [reflexivity|vm_compute; lia].
  - vm_compute. right. left.
  - reflexivity.
  - apply all_ready_spec. vm_compute. reflexivity.
  - reflexivity.
  - reflexivity.
Defined.

Lemma barrier_failure_broadcast_witness :
  (wait_step "x" 9 0 Entering (set_failed true ex_b)).1
  = Done (Err (Failed "Barrier already failed due to previous timeout")).
Proof.
  apply (barrier_failure_broadcast (mkWorld (set_failed true ex_b) [])
           (mkWorld (set_failed true ex_b) []) "x" 9 0 None 0); [reflexivity|apply rtc_refl].
Defined.

Lemma barrier_counters_bounded_witness : generation (barrier ex_both_passed) <= 2.
Proof.
  apply (barrier_counters_bounded ex_b ex_both_passed eq_refl eq_refl ex_both_passed_run).
  vm_compute. reflexivity.
Defined.

(** One synchronisation can advance the generation more than once: a caller that
    loads the generation after another has already advanced it advances it again,
    although both waited for the same tick. *)
Theorem generation_advances_twice :
  exists w, rtc step (mkWorld (new ["x"; "y"]) []) w
    /\ map (fun x => (agent x, current_tick x, phase x)) (waiters w)
       = [("y", 5, Done (Ok tt)); ("x", 5, Done (Ok tt))]
    /\ generation (barrier w) = 2.
Proof.
  exists ex_both_passed. split; [apply ex_both_passed_run|]. vm_compute. done.
Qed.

End Barrier.
