(* ===== verification/TickLedger.v ===== *)
(** * Global tick ledger (adapteros-deterministic-exec/src/global_ledger.rs)

    [GlobalTickLedger] gives every executor event a tick, links it to the previous
    event hash, stores it in the table [tick_ledger_entries] that all hosts of a
    deployment share, and compares two hosts' entries tick by tick. The table is a
    list of rows with the columns' types (64-bit signed integers, hex texts); whether
    an insert succeeds, where it fails, and the id the database gives the row, are arguments
    (reads are taken to succeed). The
    canonical JSON of an event is the class [EventCodec]. Telemetry is left out. *)

From stdpp Require Import sorting.
From S2P Require Import Prelude Hashing.
Open Scope Z_scope.

Module TickLedger.

(** ** Events (lib.rs) *)

Definition TaskId : Type := B3Hash.

Inductive ExecutorEvent :=
| TaskSpawned (task_id : TaskId) (description : string) (tick : Z) (agent_id : option string) (hash : B3Hash)
| TaskCompleted (task_id : TaskId) (tick duration_ticks : Z) (agent_id : option string) (hash : B3Hash)
| TaskFailed (task_id : TaskId) (error : string) (tick duration_ticks : Z) (agent_id : option string) (hash : B3Hash)
| TaskTimeout (task_id : TaskId) (timeout_ticks tick : Z) (agent_id : option string) (hash : B3Hash)
| InferenceStarted (run_id : string) (tick : Z) (hash : B3Hash)
| TickAdvanced (from_tick to_tick : Z) (agent_id : option string) (hash : B3Hash).

Definition event_type_of (e : ExecutorEvent) : string :=
  match e with
  | TaskSpawned _ _ _ _ _ => "TaskSpawned"
  | TaskCompleted _ _ _ _ _ => "TaskCompleted"
  | TaskFailed _ _ _ _ _ _ => "TaskFailed"
  | TaskTimeout _ _ _ _ _ => "TaskTimeout"
  | InferenceStarted _ _ _ => "InferenceStarted"
  | TickAdvanced _ _ _ _ => "TickAdvanced"
  end.

(** [serde_jcs::to_vec]. *)
Class EventCodec : Type := jcs : ExecutorEvent -> list byte.

(** ** Data *)

Record TickLedgerEntry : Type := mkEntry {
  id : option string;
  tick : Z;
  tenant_id : string;
  host_id : string;
  task_id : TaskId;
  event_type : string;
  event_hash : B3Hash;
  timestamp_us : Z;
  prev_entry_hash : option B3Hash;
}.

Record DivergencePoint : Type := mkDivergence {
  div_tick : Z;
  hash_a : B3Hash;
  hash_b : B3Hash;
  entries_a_count : nat;
  entries_b_count : nat;
}.

Record ConsistencyReport : Type := mkReport {
  report_tenant_id : string;
  host_a : string;
  host_b : string;
  tick_range_start : Z;
  tick_range_end : Z;
  consistent : bool;
  divergence_count : nat;
  divergences : list DivergencePoint;
}.

(** A row of [tick_ledger_entries]. *)
Record Row : Type := mkRow {
  row_id : string;
  row_tick : Z;
  row_tenant_id : string;
  row_host_id : string;
  row_task_id : string;
  row_event_type : string;
  row_event_hash : string;
  row_timestamp_us : Z;
  row_prev_entry_hash : option string;
}.

Record Db : Type := mkDb { rows : list Row; reports : list ConsistencyReport }.

Record GlobalTickLedger : Type := mkLedger {
  local_tick : Z;
  ledger_tenant_id : string;
  ledger_host_id : string;
  entries : list TickLedgerEntry;
  max_cache_size : nat;
  last_entry_hash : option B3Hash;
  use_deterministic_timestamps : bool;
}.

Definition new (tenant host : string) : GlobalTickLedger :=
  mkLedger 0 tenant host [] 1000 None true.

Definition with_wall_clock_timestamps (tenant host : string) : GlobalTickLedger :=
  mkLedger 0 tenant host [] 1000 None false.

(** [as i64] and [as u64]. *)
Definition as_i64 (z : Z) : Z := if z <? 2 ^ 63 then z else z - u64_mod.
Definition as_u64 (z : Z) : Z := z mod u64_mod.

(** What the database answers to an insert: the id of the stored row, or where the
    insert failed (no pool, begin, execute, commit). *)
Inductive DbAnswer :=
| Stored (id : string)
| NoPool (e : AosError)
| BeginFailed (msg : string)
| InsertFailed (msg : string)
| CommitFailed (msg : string).

Section Ledger.
Context {B : Blake3} {X : Hex} {EC : EventCodec}.

(** ** Recording *)

Definition compute_event_hash (t : Z) (task : TaskId) (e : ExecutorEvent) : B3Hash :=
  blake3 (le_bytes 8 t ++ as_bytes task ++ jcs e).

Definition compute_entry_hash (event : B3Hash) (prev : option B3Hash) : B3Hash :=
  blake3 (match prev with Some p => as_bytes p | None => [] end ++ as_bytes event).

Definition current_tick (l : GlobalTickLedger) : Z := local_tick l.

Definition set_tick (t : Z) (l : GlobalTickLedger) : GlobalTickLedger :=
  mkLedger t (ledger_tenant_id l) (ledger_host_id l) (entries l) (max_cache_size l)
    (last_entry_hash l) (use_deterministic_timestamps l).
Definition set_last (h : option B3Hash) (l : GlobalTickLedger) : GlobalTickLedger :=
  mkLedger (local_tick l) (ledger_tenant_id l) (ledger_host_id l) (entries l) (max_cache_size l)
    h (use_deterministic_timestamps l).
Definition set_entries (es : list TickLedgerEntry) (l : GlobalTickLedger) : GlobalTickLedger :=
  mkLedger (local_tick l) (ledger_tenant_id l) (ledger_host_id l) es (max_cache_size l)
    (last_entry_hash l) (use_deterministic_timestamps l).

Definition increment_tick (l : GlobalTickLedger) : Z * GlobalTickLedger :=
  (local_tick l, set_tick (u64_wrapping_add (local_tick l) 1) l).

(** The critical section on [last_entry_hash]: the new entry links to the last event
    hash and becomes the last one. *)
Definition link_entry (t : Z) (task : TaskId) (e : ExecutorEvent) (wall_us : Z)
    (l : GlobalTickLedger) : B3Hash * TickLedgerEntry * GlobalTickLedger :=
  let timestamp :=
    if use_deterministic_timestamps l then u64_wrapping_mul t 1000 else wall_us in
  let h := compute_event_hash t task e in
  let prev := last_entry_hash l in
  (compute_entry_hash h prev,
   mkEntry None t (ledger_tenant_id l) (ledger_host_id l) task (event_type_of e) h timestamp prev,
   set_last (Some h) l).

Definition row_of (rid : string) (e : TickLedgerEntry) : Row :=
  mkRow rid (as_i64 (tick e)) (tenant_id e) (host_id e) (hex_encode (as_bytes (task_id e)))
    (event_type e) (to_hex (event_hash e)) (as_i64 (timestamp_us e))
    (to_hex <$> prev_entry_hash e).

Definition store_entry (e : TickLedgerEntry) (answer : DbAnswer) (db : Db)
  : result unit AosError * Db :=
  match answer with
  | NoPool e => (Err e, db)
  | BeginFailed msg => (Err (Database ("Failed to begin transaction: " +:+ msg)), db)
  | InsertFailed msg => (Err (Database ("Failed to store ledger entry: " +:+ msg)), db)
  | CommitFailed msg => (Err (Database ("Failed to commit ledger transaction: " +:+ msg)), db)
  | Stored rid => (Ok tt, mkDb (rows db ++ [row_of rid e]) (reports db))
  end.

(** The cache keeps the last [max_cache_size] entries. *)
Definition cache_entry (e : TickLedgerEntry) (l : GlobalTickLedger) : GlobalTickLedger :=
  let es := entries l ++ [e] in
  set_entries (drop (length es - max_cache_size l) es) l.

Definition record_tick_with_assigned_tick (t : Z) (task : TaskId) (e : ExecutorEvent)
    (wall_us : Z) (answer : DbAnswer) (l : GlobalTickLedger) (db : Db)
  : result B3Hash AosError * GlobalTickLedger * Db :=
  let '(entry_hash, entry, l) := link_entry t task e wall_us l in
  match store_entry entry answer db with
  | (Err err, db) => (Err err, l, db)
  | (Ok _, db) => (Ok entry_hash, cache_entry entry l, db)
  end.

Definition record_tick (task : TaskId) (e : ExecutorEvent) (wall_us : Z) (answer : DbAnswer)
    (l : GlobalTickLedger) (db : Db) : result B3Hash AosError * GlobalTickLedger * Db :=
  let '(t, l) := increment_tick l in
  record_tick_with_assigned_tick t task e wall_us answer l db.

Definition record_tick_at (t : Z) (task : TaskId) (e : ExecutorEvent) (wall_us : Z)
    (answer : DbAnswer) (l : GlobalTickLedger) (db : Db)
  : result B3Hash AosError * GlobalTickLedger * Db :=
  let l := set_tick (Z.max (local_tick l) (u64_saturating_add t 1)) l in
  record_tick_with_assigned_tick t task e wall_us answer l db.

(** ** Reading back *)

Definition entry_of_row (r : Row) : result TickLedgerEntry AosError :=
  match from_hex (row_event_hash r) with
  | Err e => Err e
  | Ok h =>
      let prev := match row_prev_entry_hash r with
                  | Some text => match from_hex text with Ok p => Some p | Err _ => None end
                  | None => None
                  end in
      match hex_decode (row_task_id r) with
      | Err e => Err (Database ("Invalid task ID: " +:+ e))
      | Ok bytes =>
          let task := match decide (length bytes = 32%nat) with
                      | left E => eq_rect (length bytes) (vec byte) (list_to_vec bytes) 32%nat E
                      | right _ => zero
                      end in
          Ok (mkEntry (Some (row_id r)) (as_u64 (row_tick r)) (row_tenant_id r) (row_host_id r)
                task (row_event_type r) h (as_u64 (row_timestamp_us r)) prev)
      end
  end.

Fixpoint entries_of_rows (rs : list Row) : result (list TickLedgerEntry) AosError :=
  match rs with
  | [] => Ok []
  | r :: rs' =>
      match entry_of_row r with
      | Err e => Err e
      | Ok x => match entries_of_rows rs' with Ok l => Ok (x :: l) | Err e => Err e end
      end
  end.

(** [WHERE tenant_id = ? AND host_id = ? AND tick >= ? AND tick <= ? ORDER BY tick ASC]. *)
Definition select_rows (tenant host : string) (lo hi : Z) (db : Db) : list Row :=
  stable_sort (fun a b => row_tick a <=? row_tick b)
    (List.filter (fun r => bool_decide (row_tenant_id r = tenant)
                           && bool_decide (row_host_id r = host)
                           && (as_i64 lo <=? row_tick r) && (row_tick r <=? as_i64 hi)) (rows db)).

Definition get_entries (lo hi : Z) (l : GlobalTickLedger) (db : Db)
  : result (list TickLedgerEntry) AosError :=
  entries_of_rows (select_rows (ledger_tenant_id l) (ledger_host_id l) lo hi db).

Definition get_peer_entries (peer : string) (lo hi : Z) (l : GlobalTickLedger) (db : Db)
  : result (list TickLedgerEntry) AosError :=
  entries_of_rows (select_rows (ledger_tenant_id l) peer lo hi db).

(** ** Comparing hosts *)

(** [map.entry(tick).or_default().push(entry)]. *)
Definition by_tick (es : list TickLedgerEntry) : gmap Z (list TickLedgerEntry) :=
  foldl (fun m e => <[tick e := default [] (m !! tick e) ++ [e]]> m) ∅ es.

(** [sort_unstable] and [dedup] of the keys of both maps. *)
Fixpoint dedup (l : list Z) : list Z :=
  match l with
  | [] => []
  | x :: rest =>
      match rest with
      | y :: _ => if x =? y then dedup rest else x :: dedup rest
      | [] => [x]
      end
  end.

Definition all_ticks (our peer : gmap Z (list TickLedgerEntry)) : list Z :=
  dedup (stable_sort Z.leb (map fst (map_to_list our) ++ map fst (map_to_list peer))).

Definition first_hash (es : list TickLedgerEntry) : B3Hash :=
  match es with e :: _ => event_hash e | [] => zero end.

(** The first pair of entries at a tick with different hashes. *)
Fixpoint first_mismatch (t : Z) (na nb : nat) (our peer : list TickLedgerEntry)
  : list DivergencePoint :=
  match our, peer with
  | a :: our', b :: peer' =>
      if bool_decide (event_hash a <> event_hash b) then
        [mkDivergence t (event_hash a) (event_hash b) na nb]
      else first_mismatch t na nb our' peer'
  | _, _ => []
  end.

Definition divergences_at (our peer : gmap Z (list TickLedgerEntry)) (t : Z)
  : list DivergencePoint :=
  match our !! t, peer !! t with
  | Some a, Some b =>
      if negb (length a =? length b)%nat then
        [mkDivergence t (first_hash a) (first_hash b) (length a) (length b)]
      else first_mismatch t (length a) (length b) a b
  | Some a, None => [mkDivergence t (first_hash a) zero (length a) 0]
  | None, Some b => [mkDivergence t zero (first_hash b) 0 (length b)]
  | None, None => []
  end.

Definition compute_divergences (our peer : list TickLedgerEntry) : list DivergencePoint :=
  let our_map := by_tick our in
  let peer_map := by_tick peer in
  concat (map (divergences_at our_map peer_map) (all_ticks our_map peer_map)).

Definition store_consistency_report (r : ConsistencyReport) (answer : DbAnswer) (db : Db)
  : result unit AosError * Db :=
  match answer with
  | NoPool e => (Err e, db)
  | BeginFailed msg | InsertFailed msg | CommitFailed msg =>
      (Err (Database ("Failed to store consistency report: " +:+ msg)), db)
  | Stored _ => (Ok tt, mkDb (rows db) (reports db ++ [r]))
  end.

Definition verify_cross_host (peer : string) (lo hi : Z) (answer : DbAnswer)
    (l : GlobalTickLedger) (db : Db) : result ConsistencyReport AosError * Db :=
  match get_entries lo hi l db with
  | Err e => (Err e, db)
  | Ok our =>
      match get_peer_entries peer lo hi l db with
      | Err e => (Err e, db)
      | Ok theirs =>
          let ds := compute_divergences our theirs in
          let report := mkReport (ledger_tenant_id l) (ledger_host_id l) peer lo hi
                          (match ds with [] => true | _ => false end) (length ds) ds in
          match store_consistency_report report answer db with
          | (Err e, db) => (Err e, db)
          | (Ok _, db) => (Ok report, db)
          end
      end
  end.

Definition get_latest_entry_hash (l : GlobalTickLedger) : option B3Hash := last_entry_hash l.

(** ** The comparison *)

(** The entries at one tick, in order. *)
Definition at_tick (t : Z) (es : list TickLedgerEntry) : list TickLedgerEntry :=
  List.filter (fun e => tick e =? t) es.

Lemma by_tick_lookup es t :
  by_tick es !! t = match at_tick t es with [] => None | l => Some l end.
Proof.
  unfold by_tick, at_tick. induction es as [|e es IH] using rev_ind; [done|].
  rewrite foldl_app, List.filter_app. simpl. destruct (Z.eqb_spec (tick e) t) as [<-|NE].
  - rewrite lookup_insert_eq, IH. by destruct (List.filter _ es).
  - by rewrite lookup_insert_ne, app_nil_r, IH.
Qed.

Lemma dedup_elem x l : x ∈ dedup l <-> x ∈ l.
Proof.
  induction l as [|y l IH]; [done|]. destruct l as [|z l]; [done|].
  change (dedup (y :: z :: l)) with (if y =? z then dedup (z :: l) else y :: dedup (z :: l)).
  destruct (Z.eqb_spec y z) as [->|NE].
  - rewrite IH. set_solver.
  - rewrite elem_of_cons, IH. set_solver.
Qed.

Lemma all_ticks_elem our peer t :
  t ∈ all_ticks our peer <-> is_Some (our !! t) \/ is_Some (peer !! t).
Proof.
  unfold all_ticks. rewrite dedup_elem, stable_sort_perm, elem_of_app.
  assert (Hk : forall m : gmap Z (list TickLedgerEntry),
             t ∈ map fst (map_to_list m) <-> is_Some (m !! t)).
  { intros m. rewrite list_elem_of_fmap. split.
    - intros ([t' v] & -> & Hv). simpl. exists v. by apply elem_of_map_to_list.
    - intros [v Hv]. exists (t, v). split; [done|]. by apply elem_of_map_to_list. }
  by rewrite !Hk.
Qed.

Lemma first_mismatch_nil t na nb our peer :
  length our = length peer ->
  first_mismatch t na nb our peer = [] <-> map event_hash our = map event_hash peer.
Proof.
  revert peer. induction our as [|a our IH]; intros [|b peer] Hl; simpl in *; try done.
  case_bool_decide as Hd.
  - split; [done|]. by intros [= E _].
  - rewrite IH by lia. split; [|by intros [= _ ->]]. intros ->. f_equal.
    destruct (decide (event_hash a = event_hash b)); [done|by destruct Hd].
Qed.

Lemma divergences_at_nil our peer t :
  divergences_at (by_tick our) (by_tick peer) t = []
  <-> map event_hash (at_tick t our) = map event_hash (at_tick t peer).
Proof.
  unfold divergences_at. rewrite !by_tick_lookup.
  destruct (at_tick t our) as [|a our'], (at_tick t peer) as [|b peer']; try done.
  destruct (Nat.eqb_spec (length (a :: our')) (length (b :: peer'))) as [E|NE].
  - by apply first_mismatch_nil.
  - split; [done|]. intros E. apply (f_equal length) in E. by rewrite !length_map in E.
Qed.

Lemma compute_divergences_nil our peer :
  compute_divergences our peer = []
  <-> forall t, map event_hash (at_tick t our) = map event_hash (at_tick t peer).
Proof.
  unfold compute_divergences. split.
  - intros E t. destruct (decide (t ∈ all_ticks (by_tick our) (by_tick peer))) as [Hin|Hout].
    + apply divergences_at_nil.
      assert (Hsub : divergences_at (by_tick our) (by_tick peer) t ⊆ []); [|by apply list_nil_subseteq].
      rewrite <- E. intros d Hd. apply list_elem_of_In, in_concat. eexists.
      split; [|by apply list_elem_of_In]. apply in_map. by apply list_elem_of_In.
    + rewrite all_ticks_elem, !by_tick_lookup in Hout.
      destruct (at_tick t our), (at_tick t peer); try done; exfalso; apply Hout; eauto.
  - intros Hall. apply list_nil_subseteq. intros d Hd.
    apply list_elem_of_In, in_concat in Hd as (l & Hl & Hd). apply in_map_iff in Hl as (t & <- & _).
    by rewrite (proj2 (divergences_at_nil our peer t) (Hall t)) in Hd.
Qed.

(** ** Recording *)

(** One recording: task, event, wall clock, and the id of the stored row. *)
Definition Recording : Type := TaskId * ExecutorEvent * Z * string.

(** The entries a ledger links for a list of recordings, with their row ids. *)
Fixpoint linked (l : GlobalTickLedger) (evs : list Recording) : list (string * TickLedgerEntry) :=
  match evs with
  | [] => []
  | (task, e, wall, rid) :: evs' =>
      let '(t, l) := increment_tick l in
      let '(_, entry, l) := link_entry t task e wall l in
      (rid, entry) :: linked l evs'
  end.

Lemma linked_set_entries es l evs : linked (set_entries es l) evs = linked l evs.
Proof.
  revert es l. induction evs as [|[[[task e] wall] rid] evs IH]; intros es l; [done|].
  simpl. f_equal. exact (IH es (set_last _ (set_tick _ l))).
Qed.

(** Two hosts recording into one table, in any order ([true]: the first host). *)
Fixpoint run2 (cmds : list (bool * Recording)) (la lb : GlobalTickLedger) (db : Db)
  : GlobalTickLedger * GlobalTickLedger * Db :=
  match cmds with
  | [] => (la, lb, db)
  | (true, (task, e, wall, rid)) :: cmds' =>
      let '(_, la, db) := record_tick task e wall (Stored rid) la db in run2 cmds' la lb db
  | (false, (task, e, wall, rid)) :: cmds' =>
      let '(_, lb, db) := record_tick task e wall (Stored rid) lb db in run2 cmds' la lb db
  end.

Definition of_host (h : bool) (cmds : list (bool * Recording)) : list Recording :=
  map snd (List.filter (fun c => Bool.eqb c.1 h) cmds).

Definition host_rows (tenant host : string) (db : Db) : list Row :=
  List.filter (fun r => bool_decide (row_tenant_id r = tenant)
                        && bool_decide (row_host_id r = host)) (rows db).

Definition rows_of (l : list (string * TickLedgerEntry)) : list Row :=
  map (fun '(rid, e) => row_of rid e) l.

Lemma run2_rows cmds la lb db :
  ledger_tenant_id la = ledger_tenant_id lb -> ledger_host_id la <> ledger_host_id lb ->
  let '(la', lb', db') := run2 cmds la lb db in
  host_rows (ledger_tenant_id la) (ledger_host_id la) db'
    = host_rows (ledger_tenant_id la) (ledger_host_id la) db ++ rows_of (linked la (of_host true cmds))
  /\ host_rows (ledger_tenant_id lb) (ledger_host_id lb) db'
    = host_rows (ledger_tenant_id lb) (ledger_host_id lb) db ++ rows_of (linked lb (of_host false cmds))
  /\ ledger_tenant_id la' = ledger_tenant_id la /\ ledger_host_id la' = ledger_host_id la.
Proof.
  revert la lb db.
  induction cmds as [|[[] [[[task e] wall] rid]] cmds IH]; intros la lb db Ht Hh; simpl.
  { by rewrite !app_nil_r. }
  - set (la1 := cache_entry _ _). set (db1 := mkDb _ _).
    specialize (IH la1 lb db1 Ht Hh). destruct (run2 cmds la1 lb db1) as [[la' lb'] db'].
    change (ledger_tenant_id la1) with (ledger_tenant_id la) in IH.
    change (ledger_host_id la1) with (ledger_host_id la) in IH.
    destruct IH as (Ha & Hb & Hrest). split; [|split; [|done]].
    + rewrite Ha. unfold host_rows at 1. simpl. rewrite List.filter_app. simpl.
      rewrite !bool_decide_eq_true_2 by done. simpl. rewrite <- app_assoc. simpl.
      unfold la1, cache_entry. by rewrite linked_set_entries.
    + rewrite Hb. unfold host_rows at 1. simpl. rewrite List.filter_app. simpl.
      rewrite (bool_decide_eq_false_2 (_ = ledger_host_id lb)) by done.
      by rewrite andb_false_r, app_nil_r.
  - set (lb1 := cache_entry _ _). set (db1 := mkDb _ _).
    specialize (IH la lb1 db1 Ht Hh). destruct (run2 cmds la lb1 db1) as [[la' lb'] db'].
    change (ledger_tenant_id lb1) with (ledger_tenant_id lb) in IH.
    change (ledger_host_id lb1) with (ledger_host_id lb) in IH.
    destruct IH as (Ha & Hb & Hrest). split; [|split; [|done]].
    + rewrite Ha. unfold host_rows at 1. simpl. rewrite List.filter_app. simpl.
      rewrite (bool_decide_eq_false_2 (_ = ledger_host_id la)) by done.
      by rewrite andb_false_r, app_nil_r.
    + rewrite Hb. unfold host_rows at 1. simpl. rewrite List.filter_app. simpl.
      rewrite !bool_decide_eq_true_2 by done. simpl. rewrite <- app_assoc. simpl.
      unfold lb1, cache_entry. by rewrite linked_set_entries.
Qed.

(** The entries of a sequence of recordings: consecutive ticks, hashes of the events,
    each linked to the one before. *)
Definition event_message (t : Z) (r : Recording) : list byte :=
  let '(task, e, _, _) := r in le_bytes 8 t ++ as_bytes task ++ jcs e.

Lemma linked_spec l evs i rid e :
  0 <= local_tick l -> local_tick l + Z.of_nat (length evs) < u64_mod ->
  linked l evs !! i = Some (rid, e) ->
  tick e = local_tick l + Z.of_nat i
  /\ tenant_id e = ledger_tenant_id l /\ host_id e = ledger_host_id l
  /\ event_hash <$> Some e = blake3 ∘ event_message (local_tick l + Z.of_nat i) <$> evs !! i
  /\ prev_entry_hash e = match i with
                         | O => last_entry_hash l
                         | S j => (fun p => event_hash p.2) <$> linked l evs !! j
                         end.
Proof.
  revert l i. induction evs as [|[[[task ev] wall] r] evs IH]; intros l i H0 Hlen; [done|].
  destruct i as [|i].
  { simpl. intros [= <- <-]. simpl. by rewrite Z.add_0_r. }
  replace (local_tick l + Z.of_nat (S i)) with (local_tick l + 1 + Z.of_nat i) by lia. simpl.
  - set (l1 := set_last _ _). intros Hi.
    assert (Hl1 : local_tick l1 = local_tick l + 1).
    { simpl in Hlen |- *. apply u64_wrapping_add_small. lia. }
    destruct (IH l1 i) as (Ht & Hten & Hho & Hh & Hp); [lia|simpl in Hlen; lia|done|].
    rewrite Hl1 in Ht, Hh.
    split; [done|]. split; [done|]. split; [done|]. split; [done|]. rewrite Hp.
    destruct i; [done|]. simpl. done.
Qed.

Lemma linked_length l evs : length (linked l evs) = length evs.
Proof.
  revert l. induction evs as [|[[[task ev] wall] r] evs IH]; intros l; [done|]. simpl. by rewrite IH.
Qed.

(** ** Reading back *)

Definition with_id (rid : string) (e : TickLedgerEntry) : TickLedgerEntry :=
  mkEntry (Some rid) (tick e) (tenant_id e) (host_id e) (task_id e) (event_type e)
    (event_hash e) (timestamp_us e) (prev_entry_hash e).

Lemma as_u64_i64 z : is_u64 z -> as_u64 (as_i64 z) = z.
Proof.
  unfold is_u64, as_u64, as_i64, u64_mod. intros Hz. destruct (Z.ltb_spec z (2 ^ 63)).
  - apply Z.mod_small. lia.
  - rewrite <- (Z.mod_add _ 1) by lia.
    replace (z - 2 ^ 64 + 1 * 2 ^ 64) with z by lia. apply Z.mod_small. lia.
Qed.

(** Storing an entry and reading it back loses nothing. *)
Lemma entry_of_row_of `{!HexLaws X} rid e :
  is_u64 (tick e) -> is_u64 (timestamp_us e) -> entry_of_row (row_of rid e) = Ok (with_id rid e).
Proof.
  intros Ht Hts. unfold entry_of_row, row_of. simpl. rewrite from_hex_to_hex, hex_decode_encode.
  rewrite !as_u64_i64 by done.
  destruct (decide _) as [E|NE]; [|by destruct NE; apply as_bytes_length].
  unfold with_id. do 2 f_equal.
  - apply as_bytes_inj. unfold as_bytes. by rewrite vec_to_list_cast, vec_to_list_to_vec.
  - destruct (prev_entry_hash e); simpl; [by rewrite from_hex_to_hex|done].
Qed.

Lemma entries_of_rows_of `{!HexLaws X} l :
  Forall (fun p => is_u64 (tick p.2) /\ is_u64 (timestamp_us p.2)) l ->
  entries_of_rows (rows_of l) = Ok (map (fun p => with_id p.1 p.2) l).
Proof.
  induction 1 as [|[rid e] l [Ht Hts] _ IH]; [done|].
  change (rows_of ((rid, e) :: l)) with (row_of rid e :: rows_of l).
  cbn [entries_of_rows]. by rewrite entry_of_row_of, IH.
Qed.

(** ** A ledger's own entries, read back *)

(** A new ledger with deterministic timestamps and room for the ticks. *)
Definition ledger_ok (l : GlobalTickLedger) (evs : list Recording) : Prop :=
  local_tick l = 0 /\ use_deterministic_timestamps l = true
  /\ Z.of_nat (length evs) < 2 ^ 53.

Lemma linked_deterministic l evs i rid e :
  use_deterministic_timestamps l = true -> linked l evs !! i = Some (rid, e) ->
  is_u64 (timestamp_us e).
Proof.
  revert l i. induction evs as [|[[[task ev] wall] r] evs IH]; intros l i Hd; [done|].
  destruct i as [|i]; simpl.
  - intros [= <- <-]. simpl. rewrite Hd. by apply Z.mod_pos_bound.
  - apply IH. done.
Qed.

Lemma linked_ticks l evs i rid e :
  ledger_ok l evs -> linked l evs !! i = Some (rid, e) ->
  tick e = Z.of_nat i /\ 0 <= tick e < 2 ^ 53.
Proof.
  intros (H0 & _ & Hlen) Hi.
  pose proof (lookup_lt_Some _ _ _ Hi) as Hlt. rewrite linked_length in Hlt.
  destruct (linked_spec l evs i rid e) as (Ht & _); [lia|unfold u64_mod; lia|done|].
  rewrite Ht, H0. lia.
Qed.

Lemma linked_u64 l evs :
  ledger_ok l evs ->
  Forall (fun p => is_u64 (tick p.2) /\ is_u64 (timestamp_us p.2)) (linked l evs).
Proof.
  intros Hok. apply Forall_lookup_2. intros i [rid e] Hi. simpl.
  destruct (linked_ticks l evs i rid e Hok Hi) as [_ Hr]. destruct Hok as (_ & Hd & _).
  split; [unfold is_u64, u64_mod; lia|]. by eapply linked_deterministic.
Qed.

(** The rows of a sequence are already in tick order. *)
Lemma rows_of_linked_sorted l evs :
  ledger_ok l evs ->
  StronglySorted (fun a b => (row_tick a <=? row_tick b) = true) (rows_of (linked l evs)).
Proof.
  intros Hok.
  assert (Hlt : forall i rid e, linked l evs !! i = Some (rid, e) ->
            row_tick (row_of rid e) = Z.of_nat i).
  { intros i rid e Hi. destruct (linked_ticks l evs i rid e Hok Hi) as [Ht Hr].
    simpl. unfold as_i64. rewrite (proj2 (Z.ltb_lt _ _)) by lia. done. }
  assert (Hgen : forall k n, (forall i rid e, k !! i = Some (rid, e) ->
            row_tick (row_of rid e) = n + Z.of_nat i) ->
            StronglySorted (fun a b => (row_tick a <=? row_tick b) = true) (rows_of k)).
  { clear. induction k as [|[rid e] k IH]; intros n Hk; simpl; constructor.
    - apply (IH (n + 1)). intros i rid' e' Hi. rewrite (Hk (S i) rid' e' Hi). lia.
    - apply List.Forall_map, Forall_lookup_2. intros i [rid' e'] Hi. apply Z.leb_le.
      rewrite (Hk 0%nat rid e eq_refl), (Hk (S i) rid' e' Hi). lia. }
  apply (Hgen _ 0). intros i rid e Hi. rewrite (Hlt i rid e Hi). lia.
Qed.

(** Selecting the whole range gives back the host's rows in order. *)
Lemma select_all l evs hi db :
  ledger_ok l evs -> Z.of_nat (length evs) <= hi < 2 ^ 63 ->
  host_rows (ledger_tenant_id l) (ledger_host_id l) db = rows_of (linked l evs) ->
  select_rows (ledger_tenant_id l) (ledger_host_id l) 0 hi db = rows_of (linked l evs).
Proof.
  intros Hok Hhi Hrows. unfold select_rows.
  replace (List.filter _ (rows db)) with (rows_of (linked l evs)).
  { by apply stable_sort_id, rows_of_linked_sorted. }
  rewrite <- Hrows. unfold host_rows in *. revert Hrows.
  assert (Hin : forall r, r ∈ rows_of (linked l evs) ->
            (as_i64 0 <=? row_tick r) && (row_tick r <=? as_i64 hi) = true).
  { intros r (p & -> & Hp)%list_elem_of_fmap. destruct p as [rid e].
    apply list_elem_of_lookup in Hp as [i Hi].
    destruct (linked_ticks l evs i rid e Hok Hi) as [Ht Hr].
    pose proof (lookup_lt_Some _ _ _ Hi) as Hlt. rewrite linked_length in Hlt.
    simpl. unfold as_i64. rewrite !(proj2 (Z.ltb_lt _ _)) by lia.
    apply andb_true_iff. rewrite !Z.leb_le. lia. }
  intros E. rewrite <- E in Hin. clear E. revert Hin.
  induction (rows db) as [|r rs IH]; simpl; [done|]. intros Hin.
  destruct (bool_decide (row_tenant_id r = ledger_tenant_id l)) eqn:E1,
    (bool_decide (row_host_id r = ledger_host_id l)) eqn:E2; simpl in *; try by apply IH.
  rewrite (Hin r) by left. f_equal. apply IH. intros r' Hr'. apply Hin. by right.
Qed.

Definition read_back (l : GlobalTickLedger) (evs : list Recording) : list TickLedgerEntry :=
  map (fun p => with_id p.1 p.2) (linked l evs).

Lemma read_back_lookup l evs i e :
  ledger_ok l evs -> read_back l evs !! i = Some e -> tick e = Z.of_nat i.
Proof.
  intros Hok. unfold read_back. rewrite list_lookup_fmap.
  destruct (linked l evs !! i) as [[rid x]|] eqn:Hi; simpl; [|done]. intros [= <-].
  by destruct (linked_ticks l evs i rid x Hok Hi).
Qed.

Lemma at_tick_none t es : (forall e, e ∈ es -> tick e <> t) -> at_tick t es = [].
Proof.
  unfold at_tick. induction es as [|x es IH]; intros Hall; simpl; [done|].
  rewrite (proj2 (Z.eqb_neq _ _)) by (apply Hall; by left). apply IH. set_solver.
Qed.

(** With consecutive ticks, the entries at a tick are the one at that position. *)
Lemma at_tick_consecutive (es : list TickLedgerEntry) n i :
  (forall j e, es !! j = Some e -> tick e = n + Z.of_nat j) ->
  at_tick (n + Z.of_nat i) es = match es !! i with Some e => [e] | None => [] end.
Proof.
  revert n i. induction es as [|e es IH]; intros n i Hes; [done|].
  assert (He : tick e = n) by (rewrite (Hes 0%nat e eq_refl); lia).
  assert (Hes' : forall j e', es !! j = Some e' -> tick e' = (n + 1) + Z.of_nat j).
  { intros j e' Hj. rewrite (Hes (S j) e' Hj). lia. }
  assert (Hbefore : at_tick n es = []).
  { apply at_tick_none. intros e' [j Hj]%list_elem_of_lookup. rewrite (Hes' j e' Hj). lia. }
  unfold at_tick in *. simpl. rewrite He. destruct i as [|i]; simpl.
  - rewrite Z.add_0_r, Z.eqb_refl. by rewrite Hbefore.
  - rewrite (proj2 (Z.eqb_neq _ _)) by lia.
    replace (n + Z.of_nat (S i)) with (n + 1 + Z.of_nat i) by lia. exact (IH _ i Hes').
Qed.

Lemma no_divergence_iff la evsa lb evsb :
  ledger_ok la evsa -> ledger_ok lb evsb ->
  compute_divergences (read_back la evsa) (read_back lb evsb) = []
  <-> map event_hash (read_back la evsa) = map event_hash (read_back lb evsb).
Proof.
  intros Ha Hb. rewrite compute_divergences_nil.
  assert (Hc : forall l evs, ledger_ok l evs -> forall i,
    at_tick (Z.of_nat i) (read_back l evs)
    = match read_back l evs !! i with Some e => [e] | None => [] end).
  { intros l evs Hok i. rewrite <- (Z.add_0_l (Z.of_nat i)). apply at_tick_consecutive.
    intros j e Hj. rewrite Z.add_0_l. by eapply read_back_lookup. }
  assert (Hneg : forall l evs, ledger_ok l evs -> forall t, t < 0 -> at_tick t (read_back l evs) = []).
  { intros l evs Hok t Ht. apply at_tick_none. intros e [j Hj]%list_elem_of_lookup.
    rewrite (read_back_lookup _ _ _ _ Hok Hj). lia. }
  split.
  - intros Hall. apply list_eq. intros i. specialize (Hall (Z.of_nat i)).
    rewrite !Hc in Hall by done. rewrite !list_lookup_fmap.
    destruct (read_back la evsa !! i), (read_back lb evsb !! i); simpl in *; congruence.
  - intros E t. destruct (Z.ltb_spec t 0) as [Hlt|Hge]; [by rewrite !Hneg|].
    rewrite <- (Z2Nat.id t Hge), !Hc by done.
    apply (f_equal (lookup (Z.to_nat t))) in E. rewrite !list_lookup_fmap in E.
    destruct (read_back la evsa !! Z.to_nat t), (read_back lb evsb !! Z.to_nat t);
      simpl in *; congruence.
Qed.

(** What a host recorded, ticks and hashes aside. *)
Definition content (r : Recording) : TaskId * list byte :=
  let '(task, e, _, _) := r in (task, jcs e).
Definition contents (evs : list Recording) : list (TaskId * list byte) := map content evs.

(** The messages whose digests the comparison sees. *)
Definition messages (evs : list Recording) : list (list byte) :=
  imap (fun i r => event_message (Z.of_nat i) r) evs.

Lemma event_message_inj t r r' :
  event_message t r = event_message t r' <-> content r = content r'.
Proof.
  destruct r as [[[task e] wall] rid], r' as [[[task' e'] wall'] rid'].
  unfold event_message, content. split.
  - intros E. apply app_inv_head in E. apply app_inj_1 in E as [E1 E2];
      [|by rewrite !as_bytes_length]. apply as_bytes_inj in E1. by subst; rewrite E2.
  - intros [= -> ->]. done.
Qed.

Lemma read_back_hash l evs i :
  ledger_ok l evs ->
  event_hash <$> read_back l evs !! i = blake3 ∘ event_message (Z.of_nat i) <$> evs !! i.
Proof.
  intros Hok. destruct (Hok) as (H0 & _ & Hlen). unfold read_back. rewrite list_lookup_fmap.
  destruct (linked l evs !! i) as [[rid e]|] eqn:Hi.
  - destruct (linked_spec l evs i rid e) as (_ & _ & _ & Hh & _);
      [lia|unfold u64_mod; lia|done|]. rewrite H0 in Hh. exact Hh.
  - apply lookup_ge_None in Hi. rewrite linked_length in Hi.
    by rewrite (proj2 (lookup_ge_None evs i) Hi).
Qed.

Lemma hashes_iff_contents la evsa lb evsb :
  ledger_ok la evsa -> ledger_ok lb evsb ->
  collision_free (messages evsa ++ messages evsb) ->
  map event_hash (read_back la evsa) = map event_hash (read_back lb evsb)
  <-> contents evsa = contents evsb.
Proof.
  intros Ha Hb Hc.
  assert (Hext : forall {A} (k k' : list A), k = k' <-> forall i, k !! i = k' !! i).
  { intros A k k'. split; [by intros ->|apply list_eq]. }
  rewrite !Hext. apply forall_proper. intros i.
  unfold contents. rewrite !list_lookup_fmap, !read_back_hash by done.
  destruct (evsa !! i) as [r|] eqn:Ea, (evsb !! i) as [r'|] eqn:Eb; simpl; try done.
  assert (Hm : forall evs x, evs !! i = Some x -> event_message (Z.of_nat i) x ∈ messages evs).
  { intros evs x Hx. apply list_elem_of_lookup. exists i. unfold messages.
    by rewrite list_lookup_imap, Hx. }
  rewrite !(inj_iff Some), <- event_message_inj. split; [|by intros ->].
  intros E. apply (collision_free_inj _ _ _ Hc); [apply elem_of_app; eauto..|exact E].
Qed.

(** ** End to end *)

(** Reading back the whole range after two hosts wrote to the shared table in any
    interleaving gives exactly the host's own recordings, in order: tick [i] for the
    [i]-th, its event hash, and a link to the hash of the one before (none for the
    first). *)
Theorem ledger_reads_back_chain `{!HexLaws X} T ha hb cmds hi :
  let evs := of_host true cmds in
  ha <> hb -> Z.of_nat (length evs) < 2 ^ 53 -> Z.of_nat (length evs) <= hi < 2 ^ 63 ->
  let '(la, _, db) := run2 cmds (new T ha) (new T hb) (mkDb [] []) in
  exists es, get_entries 0 hi la db = Ok es /\ length es = length evs
  /\ forall i e, es !! i = Some e ->
     tick e = Z.of_nat i /\ tenant_id e = T /\ host_id e = ha
     /\ Some (event_hash e) = blake3 ∘ event_message (Z.of_nat i) <$> evs !! i
     /\ prev_entry_hash e = match i with O => None | S j => event_hash <$> es !! j end.
Proof.
  intros evs Hh Hlen Hhi. pose proof (run2_rows cmds (new T ha) (new T hb) (mkDb [] []) eq_refl Hh) as Hr.
  destruct (run2 _ _ _ _) as [[la lb] db]. destruct Hr as (Ha & _ & HT & Hho). simpl in Ha, HT, Hho.
  assert (Hok : ledger_ok (new T ha) evs) by done.
  exists (read_back (new T ha) evs). split; [|split].
  - unfold get_entries. rewrite HT, Hho.
    pose proof (select_all (new T ha) evs hi db Hok Hhi Ha) as Hs. simpl in Hs.
    rewrite Hs. by apply entries_of_rows_of, linked_u64.
  - unfold read_back. by rewrite length_map, linked_length.
  - intros i e Hi. unfold read_back in Hi |- *. rewrite list_lookup_fmap in Hi.
    destruct (linked _ evs !! i) as [[rid x]|] eqn:Hx; [|done]. injection Hi as <-.
    destruct (linked_spec (new T ha) evs i rid x) as (Ht & HT' & Hh' & Hev & Hp);
      [simpl; lia|simpl; unfold u64_mod; lia|done|]. simpl in Ht, HT', Hh', Hev, Hp |- *.
    repeat (split; [done|]). rewrite Hp. destruct i as [|j]; [done|].
    rewrite list_lookup_fmap. by destruct (linked _ evs !! j) as [[]|].
Qed.

(** [C21] Cross-host verification is exact: after two hosts of one tenant recorded into
    the shared table in any interleaving, the report says consistent exactly when the
    two hosts recorded the same tasks and events in the same order, provided the hash
    tells the recorded messages apart. *)
Theorem cross_host_exact `{!HexLaws X} T ha hb cmds hi rid :
  let evsa := of_host true cmds in
  let evsb := of_host false cmds in
  ha <> hb -> Z.of_nat (length evsa) < 2 ^ 53 -> Z.of_nat (length evsb) < 2 ^ 53 ->
  Z.of_nat (length evsa) <= hi < 2 ^ 63 -> Z.of_nat (length evsb) <= hi ->
  collision_free (messages evsa ++ messages evsb) ->
  let '(la, _, db) := run2 cmds (new T ha) (new T hb) (mkDb [] []) in
  exists report db', verify_cross_host hb 0 hi (Stored rid) la db = (Ok report, db')
  /\ last (reports db') = Some report
  /\ (consistent report = true <-> contents evsa = contents evsb).
Proof.
  intros evsa evsb Hh Hla Hlb Hhi Hhb Hc.
  pose proof (run2_rows cmds (new T ha) (new T hb) (mkDb [] []) eq_refl Hh) as Hr.
  destruct (run2 _ _ _ _) as [[la lb] db]. destruct Hr as (Ha & Hb & HT & Hho).
  simpl in Ha, Hb, HT, Hho.
  assert (Hoka : ledger_ok (new T ha) evsa) by done.
  assert (Hokb : ledger_ok (new T hb) evsb) by done.
  unfold verify_cross_host, get_entries, get_peer_entries. rewrite HT, Hho.
  pose proof (select_all (new T ha) evsa hi db Hoka Hhi Ha) as Hsa.
  pose proof (select_all (new T hb) evsb hi db Hokb ltac:(lia) Hb) as Hsb.
  simpl in Hsa, Hsb. rewrite Hsa, Hsb.
  rewrite !entries_of_rows_of by by apply linked_u64.
  eexists _, _. split; [done|]. split; [apply last_snoc|]. simpl.
  rewrite <- (hashes_iff_contents _ _ _ _ Hoka Hokb Hc), <- no_divergence_iff by done.
  unfold read_back. by destruct (compute_divergences _ _).
Qed.

(** When the insert fails the entry is lost from the table and the cache, yet the
    chain has moved on: the tick is spent and the next entry links to the hash of the
    entry that was never stored. *)
Theorem failed_store_breaks_chain task e wall answer l db :
  (forall rid, answer <> Stored rid) ->
  exists err l', record_tick task e wall answer l db = (Err err, l', db)
  /\ entries l' = entries l
  /\ local_tick l' = u64_wrapping_add (local_tick l) 1
  /\ get_latest_entry_hash l' = Some (compute_event_hash (local_tick l) task e)
  /\ forall t task' e' wall', prev_entry_hash (link_entry t task' e' wall' l').1.2
       = Some (compute_event_hash (local_tick l) task e).
Proof.
  intros Hne. unfold record_tick, record_tick_with_assigned_tick. simpl.
  destruct answer as [rid| | | |]; [by destruct (Hne rid)|..]; eexists _, _; repeat split; simpl; done.
Qed.

(** The cache never holds more than [max_cache_size] entries. *)
Lemma cache_bounded e l : (length (entries (cache_entry e l)) <= max_cache_size l)%nat.
Proof. unfold cache_entry. simpl. rewrite length_drop. lia. Qed.

(** A tick is taken before the lock on the last hash: when two recordings take their
    ticks in one order and the lock in the other, the earlier tick links to the later
    one. *)
Lemma links_follow_lock_order l task1 e1 wall1 task2 e2 wall2 :
  is_u64 (local_tick l) -> local_tick l + 1 < u64_mod ->
  let '(t1, la) := increment_tick l in
  let '(t2, lb) := increment_tick la in
  let '(_, entry2, lc) := link_entry t2 task2 e2 wall2 lb in
  let '(_, entry1, _) := link_entry t1 task1 e1 wall1 lc in
  tick entry1 < tick entry2 /\ prev_entry_hash entry1 = Some (event_hash entry2)
  /\ prev_entry_hash entry2 = last_entry_hash l.
Proof.
  intros Hu Hlt. simpl. rewrite u64_wrapping_add_small by (unfold is_u64 in Hu; lia).
  repeat split; lia.
Qed.

End Ledger.

(** ** Examples *)

Section Examples.
#[local] Existing Instance toy_blake3.
#[local] Existing Instance hex_lower.
#[local] Existing Instance hex_lower_laws.
#[local] Instance toy_codec : EventCodec := fun e => as_bytes_of (event_type_of e).

Definition task_a : TaskId := vreplicate 32 x0a.
Definition ev_spawn : ExecutorEvent := TaskSpawned task_a "load" 0 None zero.
Definition ev_done : ExecutorEvent := TaskCompleted task_a 1 1 None zero.
Definition two_hosts : list (bool * Recording) :=
  [(true, (task_a, ev_spawn, 0, "r1")); (false, (task_a, ev_spawn, 0, "r2"));
   (false, (task_a, ev_done, 0, "r3")); (true, (task_a, ev_done, 0, "r4"))].

Lemma ledger_reads_back_chain_witness :
  let '(la, _, db) := run2 two_hosts (new "t" "a") (new "t" "b") (mkDb [] []) in
  exists es, get_entries 0 10 la db = Ok es /\ length es = 2%nat.
Proof.
  pose proof (ledger_reads_back_chain "t" "a" "b" two_hosts 10) as E.
  destruct (run2 _ _ _ _) as [[la lb] db]. destruct E as (es & Hes & Hl & _).
  - done.
  - by vm_compute.
  - by split; vm_compute.
  - by exists es.
Defined.

Lemma cross_host_exact_witness :
  let '(la, _, db) := run2 two_hosts (new "t" "a") (new "t" "b") (mkDb [] []) in
  exists report db', verify_cross_host "b" 0 10 (Stored "c1") la db = (Ok report, db')
  /\ consistent report = true.
Proof.
  pose proof (cross_host_exact "t" "a" "b" two_hosts 10 "c1") as E.
  destruct (run2 _ _ _ _) as [[la lb] db]. destruct E as (report & db' & Hv & _ & Hc).
  - done.
  - by vm_compute.
  - by vm_compute.
  - by split; vm_compute.
  - by vm_compute.
  - apply collision_freeb_sound. by vm_compute.
  - exists report, db'. split; [done|]. by apply Hc.
Defined.

Lemma failed_store_breaks_chain_witness :
  exists err l', record_tick task_a ev_spawn 0 (InsertFailed "disk full") (new "t" "a") (mkDb [] [])
    = (Err err, l', mkDb [] [])
  /\ get_latest_entry_hash l' = Some (compute_event_hash 0 task_a ev_spawn).
Proof.
  destruct (failed_store_breaks_chain task_a ev_spawn 0 (InsertFailed "disk full")
              (new "t" "a") (mkDb [] [])) as (err & l' & E & _ & _ & Hl & _); [done|].
  exists err, l'. split; [exact E|exact Hl].
Defined.
End Examples.

End TickLedger.
