(* ===== verification/Signatures.v ===== *)
(** * Ed25519 signatures

    The signature scheme that worker tokens, key updates and evidence envelopes are signed
    with is the ed25519-dalek crate: a class of its operations, the laws the crate
    documents, and a computable scheme that obeys them, for examples. *)

From S2P Require Import Prelude Hashing.

(** ed25519-dalek. [verify] and [verify_strict] are told apart by the source. *)
Class Ed25519 : Type := {
  SigningKey : Type;
  VerifyingKey : Type;
  signing_from_bytes : list byte -> SigningKey;
  verifying_key : SigningKey -> VerifyingKey;
  key_bytes : VerifyingKey -> list byte;
  key_from_bytes : list byte -> result VerifyingKey string;
  sign : SigningKey -> list byte -> list byte;
  verify : VerifyingKey -> list byte -> list byte -> bool;
  verify_strict : VerifyingKey -> list byte -> list byte -> bool;
}.

Class Ed25519Laws (E : Ed25519) : Prop := {
  sign_length sk m : length (sign sk m) = 64%nat;
  verify_sign sk m : verify (verifying_key sk) m (sign sk m) = true;
  verify_strict_sign sk m : verify_strict (verifying_key sk) m (sign sk m) = true;
  key_bytes_length k : length (key_bytes k) = 32%nat;
  key_from_to_bytes k : key_from_bytes (key_bytes k) = Ok k;
}.

Section Toy.
#[local] Existing Instance toy_blake3.

(** A one-byte key; a signature is the digest of key and message, twice. *)
Definition toy_ed25519 : Ed25519 := {|
  SigningKey := byte;
  VerifyingKey := byte;
  signing_from_bytes l := match l with k :: _ => k | [] => x00 end;
  verifying_key k := k;
  key_bytes k := replicate 32 k;
  key_from_bytes l := match l with k :: _ => Ok k | [] => Err "no key" end;
  sign k m := as_bytes (blake3 (k :: m)) ++ as_bytes (blake3 (k :: m));
  verify k m s := bytes_eqb s (as_bytes (blake3 (k :: m)) ++ as_bytes (blake3 (k :: m)));
  verify_strict k m s := bytes_eqb s (as_bytes (blake3 (k :: m)) ++ as_bytes (blake3 (k :: m)));
|}.

Lemma toy_ed25519_laws : Ed25519Laws toy_ed25519.
Proof.
  split; intros; cbn [verify verify_strict sign verifying_key key_bytes key_from_bytes toy_ed25519].
  - by rewrite length_app, !as_bytes_length.
  - apply bytes_eqb_eq. reflexivity.
  - apply bytes_eqb_eq. reflexivity.
  - reflexivity.
  - reflexivity.
Qed.

End Toy.
