(* ===== verification/WorkerAuth.v ===== *)
(** * Worker authentication (crate adapteros-boot)

    The control plane signs short-lived tokens for workers (worker_auth.rs); workers
    check them against a ring of keys that rotates (key_ring.rs), refuse a token id
    they have seen (jti_cache.rs), and accept new keys in signed updates
    (key_update.rs, handled in adapteros-lora-worker/src/uds_server.rs). Ed25519,
    base64, JSON and the LRU map are third-party code, given by the classes [Ed25519],
    [Base64], [Json] and [Lru] with the laws their documentation states; clock
    readings, generated keys, nonces and the outcome of file operations are arguments.
    The loading and generating of key files is left out. *)

From Stdlib Require Import Ascii.
From S2P Require Import Prelude Hashing Signatures Lifecycle.
Open Scope Z_scope.

Module WorkerAuth.

(** [as i64] and [i64] arithmetic, which wraps around in release builds. *)
Definition to_i64 (z : Z) : Z := (z + 2 ^ 63) mod 2 ^ 64 - 2 ^ 63.

(** ** Errors (error.rs) *)

Inductive WorkerAuthError :=
| InvalidFormat
| InvalidSignature
| Expired
| NotYetValid
| InvalidIssuer
| InvalidAudience
| ReplayDetected
| WorkerIdMismatch (expected got : string)
| Base64Decode (msg : string)
| JsonParse (msg : string)
| KeyError (msg : string)
| Serialization (msg : string)
| InvalidKeyFormat (msg : string)
| CorruptedKeypair (path reason : string)
| KeyNotFound (msg : string)
| EmptyRequestId
| EmptyWorkerId
| TtlTooShort (min actual : Z)
| WorkerIdTooLong (max actual : Z)
| RequestIdTooLong (max actual : Z)
| InvalidIdentifierChars (field : string)
| UnknownKeyId (kid : string).

Definition auth_error_text (e : WorkerAuthError) : string :=
  match e with
  | InvalidFormat => "Invalid token format"
  | InvalidSignature => "Invalid signature"
  | Expired => "Token expired"
  | NotYetValid => "Token not yet valid"
  | InvalidIssuer => "Invalid issuer: expected 'control-plane'"
  | InvalidAudience => "Invalid audience: expected 'worker'"
  | ReplayDetected => "Replay detected: token already used"
  | WorkerIdMismatch expected got =>
      "Worker ID mismatch: token generated for '" +:+ expected +:+ "' but received by '" +:+ got
      +:+ "'. Check load balancer routing configuration."
  | Base64Decode m => "Base64 decode error: " +:+ m
  | JsonParse m => "JSON parse error: " +:+ m
  | KeyError m => "Key error: " +:+ m
  | Serialization m => "Serialization error: " +:+ m
  | InvalidKeyFormat m => "Invalid key format: " +:+ m
  | CorruptedKeypair path reason =>
      "Corrupted keypair file at '" +:+ path +:+ "': " +:+ reason
      +:+ ". In non-strict mode, the key will be regenerated. In strict mode, delete the file and restart, or use --regenerate-keys to force regeneration."
  | KeyNotFound m => "Key file not found: " +:+ m
  | EmptyRequestId => "Request ID (JTI) cannot be empty"
  | EmptyWorkerId => "Worker ID cannot be empty"
  | TtlTooShort min actual =>
      "TTL must be at least " +:+ pretty min +:+ " seconds, got " +:+ pretty actual
  | WorkerIdTooLong max actual =>
      "Worker ID exceeds maximum length of " +:+ pretty max +:+ " characters, got " +:+ pretty actual
  | RequestIdTooLong max actual =>
      "Request ID exceeds maximum length of " +:+ pretty max +:+ " characters, got " +:+ pretty actual
  | InvalidIdentifierChars f =>
      "Identifier contains invalid characters (must be ASCII printable): " +:+ f
  | UnknownKeyId k => "Unknown key ID: " +:+ k +:+ ". Key may have expired or rotation not synced."
  end.

(** ** Data *)

Definition CLOCK_SKEW_TOLERANCE_SECS : Z := 30.
Definition MIN_TOKEN_TTL_SECONDS : Z := 1.
Definition MAX_WORKER_ID_LENGTH : Z := 256.
Definition MAX_REQUEST_ID_LENGTH : Z := 256.
Definition DEFAULT_JTI_CACHE_SIZE : nat := 10000.
Definition KEY_UPDATE_MAX_AGE_SECS : Z := 300.
Definition KEY_UPDATE_PROTOCOL_VERSION : Z := 1.

Record WorkerTokenClaims : Type := mkClaims {
  iss : string; aud : string; wid : string; iat : Z; exp : Z; jti : string
}.

Record JwtHeader : Type := mkHeader { alg : string; typ : string; kid : string }.

Record JtiEntry : Type := mkJtiEntry { entry_jti : string; exp_unix : Z }.

Record KeyUpdateRequest : Type := mkUpdate {
  version : Z;
  new_public_key : string;
  new_kid : string;
  old_kid : string;
  grace_period_secs : Z;
  issued_at : Z;
  nonce : string;
  signature : string;
}.

Record KeyUpdateResponse : Type := mkResponse {
  resp_success : bool; resp_new_kid : option string; resp_key_count : nat;
  resp_error : option string
}.

(** ** Third-party code *)

(** [URL_SAFE_NO_PAD]. *)
Class Base64 : Type := {
  b64_encode : list byte -> string;
  b64_decode : string -> result (list byte) string;
}.

Class Base64Laws (B : Base64) : Prop := {
  b64_decode_encode l : b64_decode (b64_encode l) = Ok l;
  b64_no_dot l : Lifecycle.no_dot (b64_encode l);
}.

(** serde_json on the types in use; writing them does not fail. [update_json] is the
    object of all fields but the signature. *)
Class Json : Type := {
  header_to_vec : JwtHeader -> list byte;
  claims_to_vec : WorkerTokenClaims -> list byte;
  kid_from_slice : list byte -> result string string;
  claims_from_slice : list byte -> result WorkerTokenClaims string;
  update_json : Z -> string -> string -> string -> Z -> Z -> string -> list byte;
  entries_to_string : list JtiEntry -> string;
  entries_from_str : string -> result (list JtiEntry) string;
}.

Class JsonLaws (J : Json) : Prop := {
  kid_from_to h : kid_from_slice (header_to_vec h) = Ok (kid h);
  claims_from_to c : claims_from_slice (claims_to_vec c) = Ok c;
  entries_from_to l : entries_from_str (entries_to_string l) = Ok l;
}.

(** The [lru] crate's [LruCache<String, i64>]; [lru_iter] lists the entries, the most
    recently used first. *)
Class Lru (C : Type) : Type := {
  lru_new : nat -> C;
  lru_cap : C -> nat;
  lru_iter : C -> list (string * Z);
  lru_get : string -> C -> option Z * C;
  lru_peek : string -> C -> option Z;
  lru_put : string -> Z -> C -> C;
  lru_clear : C -> C;
}.

Fixpoint assoc (k : string) (l : list (string * Z)) : option Z :=
  match l with
  | [] => None
  | (k', v) :: l' => if bool_decide (k = k') then Some v else assoc k l'
  end.

Definition without (k : string) (l : list (string * Z)) : list (string * Z) :=
  List.filter (fun p => negb (bool_decide (p.1 = k))) l.

(** A lookup makes the entry the most recent one; a [put] does so too and drops the
    least recent one when the cache is full. *)
Class LruLaws (C : Type) `{Lru C} : Prop := {
  iter_new n : lru_iter (lru_new n) = [];
  cap_new n : lru_cap (lru_new n) = n;
  get_value k c : (lru_get k c).1 = assoc k (lru_iter c);
  iter_get k c : lru_iter (lru_get k c).2
    = match assoc k (lru_iter c) with
      | Some v => (k, v) :: without k (lru_iter c)
      | None => lru_iter c
      end;
  cap_get k c : lru_cap (lru_get k c).2 = lru_cap c;
  peek_value k c : lru_peek k c = assoc k (lru_iter c);
  iter_put k v c : lru_iter (lru_put k v c) = take (lru_cap c) ((k, v) :: without k (lru_iter c));
  cap_put k v c : lru_cap (lru_put k v c) = lru_cap c;
  iter_clear c : lru_iter (lru_clear c) = [];
  cap_clear c : lru_cap (lru_clear c) = lru_cap c;
}.

Section Auth.
Context {B : Blake3} {X : Hex} {E : Ed25519} {B64 : Base64} {J : Json}.
Context {C : Type} {LC : Lru C}.

(** ** Tokens (worker_auth.rs) *)

Definition printable (c : Ascii.ascii) : bool :=
  let n := Z.of_N (Ascii.N_of_ascii c) in (0x20 <=? n) && (n <=? 0x7E).

Fixpoint all_chars (p : Ascii.ascii -> bool) (s : string) : bool :=
  match s with EmptyString => true | String c s' => p c && all_chars p s' end.

Definition validate_identifier (value field : string) (max_length : Z)
  : result unit WorkerAuthError :=
  let len := Z.of_nat (String.length value) in
  if len =? 0 then
    Err (if bool_decide (field = "worker_id") then EmptyWorkerId
         else if bool_decide (field = "request_id") then EmptyRequestId
         else InvalidIdentifierChars (field +:+ " is empty"))
  else if max_length <? len then
    Err (if bool_decide (field = "worker_id") then WorkerIdTooLong max_length len
         else RequestIdTooLong max_length len)
  else if negb (all_chars printable value) then Err (InvalidIdentifierChars field)
  else Ok tt.

Definition derive_kid_from_verifying_key (k : VerifyingKey) : string :=
  "worker-" +:+ String.substring 0 32 (to_hex (blake3 (key_bytes k))).

Definition generate_worker_token (signing_key : SigningKey) (worker_id request_id : string)
    (ttl_seconds now : Z) : result string WorkerAuthError :=
  if ttl_seconds <? MIN_TOKEN_TTL_SECONDS then
    Err (TtlTooShort MIN_TOKEN_TTL_SECONDS ttl_seconds)
  else
    match validate_identifier worker_id "worker_id" MAX_WORKER_ID_LENGTH with
    | Err e => Err e
    | Ok _ =>
        match validate_identifier request_id "request_id" MAX_REQUEST_ID_LENGTH with
        | Err e => Err e
        | Ok _ =>
            let exp := to_i64 (now + to_i64 ttl_seconds) in
            let claims := mkClaims "control-plane" "worker" worker_id now exp request_id in
            let header := mkHeader "EdDSA" "JWT"
              (derive_kid_from_verifying_key (verifying_key signing_key)) in
            let message := b64_encode (header_to_vec header) +:+ "."
              +:+ b64_encode (claims_to_vec claims) in
            Ok (message +:+ "." +:+ b64_encode (sign signing_key (as_bytes_of message)))
        end
    end.

(** The checks on the claims that do not involve the cache. *)
Definition check_claims (claims : WorkerTokenClaims) (now : Z) : option WorkerAuthError :=
  if to_i64 (exp claims + CLOCK_SKEW_TOLERANCE_SECS) <? now then Some Expired
  else if to_i64 (now + CLOCK_SKEW_TOLERANCE_SECS) <? iat claims then Some NotYetValid
  else if bool_decide (iss claims <> "control-plane") then Some InvalidIssuer
  else if bool_decide (aud claims <> "worker") then Some InvalidAudience
  else None.

(** The replay check and the check of the worker id, which comes after it. *)
Definition register_claims (claims : WorkerTokenClaims) (expected_worker_id : option string)
    (now : Z) (cache : C) : result WorkerTokenClaims WorkerAuthError * C :=
  let '(cached, cache) := lru_get (jti claims) cache in
  if match cached with Some cached_exp => now <? cached_exp | None => false end then
    (Err ReplayDetected, cache)
  else
    let cache := lru_put (jti claims) (exp claims) cache in
    match expected_worker_id with
    | Some expected =>
        if bool_decide (wid claims <> expected) then
          (Err (WorkerIdMismatch expected (wid claims)), cache)
        else (Ok claims, cache)
    | None => (Ok claims, cache)
    end.

(** From the token to its signed claims. *)
Definition read_claims (token : string) (key : VerifyingKey)
  : result WorkerTokenClaims WorkerAuthError :=
  match Lifecycle.split_dot token with
  | [header; payload; sig] =>
      let message := header +:+ "." +:+ payload in
      match b64_decode sig with
      | Err e => Err (Base64Decode e)
      | Ok sig_bytes =>
          if negb (length sig_bytes =? 64)%nat then Err InvalidSignature
          else if negb (verify_strict key (as_bytes_of message) sig_bytes) then Err InvalidSignature
          else
            match b64_decode payload with
            | Err e => Err (Base64Decode e)
            | Ok claims_bytes =>
                match claims_from_slice claims_bytes with
                | Err e => Err (JsonParse e)
                | Ok claims => Ok claims
                end
            end
      end
  | _ => Err InvalidFormat
  end.

Definition validate_worker_token (token : string) (key : VerifyingKey)
    (expected_worker_id : option string) (now : Z) (cache : C)
  : result WorkerTokenClaims WorkerAuthError * C :=
  match read_claims token key with
  | Err e => (Err e, cache)
  | Ok claims =>
      match check_claims claims now with
      | Some e => (Err e, cache)
      | None => register_claims claims expected_worker_id now cache
      end
  end.

(** ** The persistent cache (jti_cache.rs) *)

Record JtiCacheStore : Type := mkJtiStore {
  cache : C; persist_path : string; capacity : nat
}.

(** Files by path. *)
Notation Disk := (gmap string string).

Definition cache_size (n : nat) : nat := if (n =? 0)%nat then DEFAULT_JTI_CACHE_SIZE else n.

Definition jti_new (n : nat) (path : string) : JtiCacheStore :=
  mkJtiStore (lru_new (cache_size n)) path n.

Definition load_entry (now : Z) (c : C) (e : JtiEntry) : C :=
  if now <? exp_unix e then lru_put (entry_jti e) (exp_unix e) c else c.

Definition load_from_file (path : string) (n : nat) (now : Z) (disk : Disk)
  : option JtiCacheStore :=
  match disk !! path with
  | None => None
  | Some content =>
      match entries_from_str content with
      | Err _ => None
      | Ok entries =>
          Some (mkJtiStore (foldl (load_entry now) (lru_new (cache_size n)) entries) path n)
      end
  end.

Definition load_or_new_with_capacity (path : string) (n : nat) (now : Z) (disk : Disk)
  : JtiCacheStore :=
  match load_from_file path n now disk with
  | Some store => store
  | None => jti_new n path
  end.

Definition check_and_add (j : string) (e now : Z) (s : JtiCacheStore) : bool * JtiCacheStore :=
  let '(cached, c) := lru_get j (cache s) in
  if match cached with Some cached_exp => now <? cached_exp | None => false end then
    (true, mkJtiStore c (persist_path s) (capacity s))
  else (false, mkJtiStore (lru_put j e c) (persist_path s) (capacity s)).

(** [io] is the outcome of the file operations; the file is replaced by a rename, so a
    failure leaves it as it was. *)
Definition persist (now : Z) (io : result unit string) (s : JtiCacheStore) (disk : Disk)
  : result unit string * Disk :=
  let entries := map (fun p => mkJtiEntry p.1 p.2)
    (List.filter (fun p => now <? p.2) (lru_iter (cache s))) in
  match entries with
  | [] =>
      match disk !! persist_path s with
      | None => (Ok tt, disk)
      | Some _ =>
          match io with
          | Err e => (Err e, disk)
          | Ok _ => (Ok tt, delete (persist_path s) disk)
          end
      end
  | _ =>
      match io with
      | Err e => (Err e, disk)
      | Ok _ => (Ok tt, <[persist_path s := entries_to_string entries]> disk)
      end
  end.

Definition jti_clear (io : result unit string) (s : JtiCacheStore) (disk : Disk)
  : result unit string * JtiCacheStore * Disk :=
  let s := mkJtiStore (lru_clear (cache s)) (persist_path s) (capacity s) in
  match disk !! persist_path s with
  | None => (Ok tt, s, disk)
  | Some _ =>
      match io with
      | Err e => (Err e, s, disk)
      | Ok _ => (Ok tt, s, delete (persist_path s) disk)
      end
  end.

(** [Drop] persists and ignores a failure. *)
Definition jti_drop (now : Z) (io : result unit string) (s : JtiCacheStore) (disk : Disk) : Disk :=
  (persist now io s disk).2.

(** ** The key ring (key_ring.rs) *)

Record RotationMeta : Type := mkMeta {
  current_key_active_since : Z;
  last_rotation : option Z;
  pending_removal : gmap string Z;
}.

Record RotationReceipt : Type := mkReceipt {
  receipt_old_kid : string; receipt_new_kid : string; old_key_expires_at : Z;
  receipt_grace : Z
}.

Record WorkerKeyRing : Type := mkRing {
  current : SigningKey;
  current_kid : string;
  verifying_keys : gmap string VerifyingKey;
  rotation_meta : RotationMeta;
  jti_cache : C;
}.

Definition ring_new (signing_key : SigningKey) (jti_cache_size : nat) (now : Z) : WorkerKeyRing :=
  let key := verifying_key signing_key in
  let kid := derive_kid_from_verifying_key key in
  mkRing signing_key kid {[kid := key]} (mkMeta now None ∅) (lru_new (cache_size jti_cache_size)).

Definition set_keys (m : gmap string VerifyingKey) (r : WorkerKeyRing) : WorkerKeyRing :=
  mkRing (current r) (current_kid r) m (rotation_meta r) (jti_cache r).
Definition set_pending (m : gmap string Z) (r : WorkerKeyRing) : WorkerKeyRing :=
  mkRing (current r) (current_kid r) (verifying_keys r)
    (mkMeta (current_key_active_since (rotation_meta r)) (last_rotation (rotation_meta r)) m)
    (jti_cache r).
Definition set_jti_cache (c : C) (r : WorkerKeyRing) : WorkerKeyRing :=
  mkRing (current r) (current_kid r) (verifying_keys r) (rotation_meta r) c.

(** [expect] panics on [None]. *)
Definition current_verifying_key (r : WorkerKeyRing) : option VerifyingKey :=
  verifying_keys r !! current_kid r.

Definition get_verifying_key (k : string) (r : WorkerKeyRing) : option VerifyingKey :=
  verifying_keys r !! k.

Definition key_count (r : WorkerKeyRing) : nat := size (verifying_keys r).

Definition generate_token (worker_id request_id : string) (ttl_seconds now : Z)
    (r : WorkerKeyRing) : result string WorkerAuthError :=
  generate_worker_token (current r) worker_id request_id ttl_seconds now.

Definition extract_kid_from_token (token : string) : result string WorkerAuthError :=
  match Lifecycle.split_dot token with
  | [header; _; _] =>
      match b64_decode header with
      | Err e => Err (Base64Decode e)
      | Ok bytes => match kid_from_slice bytes with Ok k => Ok k | Err e => Err (JsonParse e) end
      end
  | _ => Err InvalidFormat
  end.

Definition validate_token (token : string) (expected_worker_id : option string) (now : Z)
    (r : WorkerKeyRing) : result WorkerTokenClaims WorkerAuthError * WorkerKeyRing :=
  match extract_kid_from_token token with
  | Err e => (Err e, r)
  | Ok k =>
      match verifying_keys r !! k with
      | None => (Err (UnknownKeyId k), r)
      | Some key =>
          let '(res, c) := validate_worker_token token key expected_worker_id now (jti_cache r) in
          (res, set_jti_cache c r)
      end
  end.

Definition add_verifying_key (key : VerifyingKey) (r : WorkerKeyRing) : string * WorkerKeyRing :=
  let k := derive_kid_from_verifying_key key in
  (k, set_keys (<[k := key]> (verifying_keys r)) r).

(** [new_signing_key] is the freshly generated key. *)
Definition rotate_signing_key (new_signing_key : SigningKey) (grace now : Z) (r : WorkerKeyRing)
  : RotationReceipt * WorkerKeyRing :=
  let new_verifying_key := verifying_key new_signing_key in
  let k := derive_kid_from_verifying_key new_verifying_key in
  let expiry := now + to_i64 grace in
  let old := current_kid r in
  (mkReceipt old k expiry grace,
   mkRing new_signing_key k (<[k := new_verifying_key]> (verifying_keys r))
     (mkMeta now (Some now) (<[old := expiry]> (pending_removal (rotation_meta r))))
     (jti_cache r)).

Definition expired_kids (now : Z) (r : WorkerKeyRing) : list string :=
  map fst (List.filter (fun p => p.2 <=? now) (map_to_list (pending_removal (rotation_meta r)))).

Definition remove_expired (r : WorkerKeyRing) (k : string) : WorkerKeyRing :=
  let r := if bool_decide (k <> current_kid r) then set_keys (delete k (verifying_keys r)) r
           else r in
  set_pending (delete k (pending_removal (rotation_meta r))) r.

Definition cleanup_expired_keys (now : Z) (r : WorkerKeyRing) : nat * WorkerKeyRing :=
  let expired := expired_kids now r in
  (length expired, foldl remove_expired r expired).

Definition add_verifying_key_with_grace (key : VerifyingKey) (grace now : Z) (r : WorkerKeyRing)
  : string * WorkerKeyRing :=
  let k := derive_kid_from_verifying_key key in
  let r := set_keys (<[k := key]> (verifying_keys r)) r in
  let expiry := to_i64 (now + to_i64 grace) in
  (k, set_pending (<[current_kid r := expiry]> (pending_removal (rotation_meta r))) r).

Definition has_seen_nonce (n : string) (now : Z) (r : WorkerKeyRing) : bool :=
  match lru_peek n (jti_cache r) with
  | Some expiry => now <? expiry
  | None => false
  end.

Definition record_nonce (n : string) (expiry : Z) (r : WorkerKeyRing) : WorkerKeyRing :=
  set_jti_cache (lru_put n expiry (jti_cache r)) r.

(** ** Key updates (key_update.rs, and /key/update in uds_server.rs) *)

Definition update_message (u : KeyUpdateRequest) : list byte :=
  update_json (version u) (new_public_key u) (new_kid u) (old_kid u) (grace_period_secs u)
    (issued_at u) (nonce u).

Definition update_new (old_signing_key : SigningKey) (old_kid : string)
    (new_verifying_key : VerifyingKey) (new_kid : string) (grace now : Z) (nonce_bytes : list byte)
  : KeyUpdateRequest :=
  let n := b64_encode nonce_bytes in
  let pub := b64_encode (key_bytes new_verifying_key) in
  let sig := sign old_signing_key
    (update_json KEY_UPDATE_PROTOCOL_VERSION pub new_kid old_kid grace now n) in
  mkUpdate KEY_UPDATE_PROTOCOL_VERSION pub new_kid old_kid grace now n (b64_encode sig).

Definition verify_signature (u : KeyUpdateRequest) (old_key : VerifyingKey)
  : result unit WorkerAuthError :=
  match b64_decode (signature u) with
  | Err e => Err (Base64Decode e)
  | Ok bytes =>
      if negb (length bytes =? 64)%nat then Err InvalidSignature
      else if verify old_key (update_message u) bytes then Ok tt
      else Err InvalidSignature
  end.

Definition is_valid_time (u : KeyUpdateRequest) (now : Z) : bool :=
  Z.abs (to_i64 (now - issued_at u)) <=? KEY_UPDATE_MAX_AGE_SECS.

Definition decode_new_public_key (u : KeyUpdateRequest) : result VerifyingKey WorkerAuthError :=
  match b64_decode (new_public_key u) with
  | Err e => Err (Base64Decode e)
  | Ok bytes =>
      if negb (length bytes =? 32)%nat then Err (InvalidKeyFormat "public key must be 32 bytes")
      else match key_from_bytes bytes with
           | Err e => Err (InvalidKeyFormat e)
           | Ok key => Ok key
           end
  end.

Definition response_success (k : string) (n : nat) : KeyUpdateResponse := mkResponse true (Some k) n None.
Definition response_error (m : string) (n : nat) : KeyUpdateResponse := mkResponse false None n (Some m).

(** The handler of a parsed request, under the write lock of the ring. *)
Definition handle_key_update (u : KeyUpdateRequest) (now : Z) (r : WorkerKeyRing)
  : KeyUpdateResponse * WorkerKeyRing :=
  if has_seen_nonce (nonce u) now r then (response_error "Replay detected" (key_count r), r)
  else if negb (is_valid_time u now) then (response_error "Request expired" (key_count r), r)
  else
    match get_verifying_key (old_kid u) r with
    | None => (response_error ("Unknown old key ID: " +:+ old_kid u) (key_count r), r)
    | Some old_key =>
        match verify_signature u old_key with
        | Err _ => (response_error "Signature verification failed" (key_count r), r)
        | Ok _ =>
            match decode_new_public_key u with
            | Err e =>
                (response_error ("Invalid new key: " +:+ auth_error_text e) (key_count r), r)
            | Ok new_key =>
                let '(k, r) := add_verifying_key_with_grace new_key (grace_period_secs u) now r in
                let r := record_nonce (nonce u) (to_i64 (now + KEY_UPDATE_MAX_AGE_SECS)) r in
                let '(_, r) := cleanup_expired_keys now r in
                (response_success k (key_count r), r)
            end
        end
    end.

(** ** Requests (uds_server.rs) *)

Definition bearer_token (headers : gmap string string) : result string AosError :=
  match match headers !! "Authorization" with
        | Some h => Some h
        | None => headers !! "authorization"
        end with
  | None => Err (Worker "Missing Authorization header")
  | Some h =>
      if String.prefix "Bearer " h then Ok (String.substring 7 (String.length h - 7) h)
      else Err (Worker "Invalid Authorization scheme (expected Bearer)")
  end.

Definition failed_validation (e : WorkerAuthError) : AosError :=
  Worker ("Worker token validation failed: " +:+ auth_error_text e).

Definition validate_worker_token_with_ring (headers : gmap string string) (worker_id : string)
    (now : Z) (r : WorkerKeyRing) : result unit AosError * WorkerKeyRing :=
  match bearer_token headers with
  | Err e => (Err e, r)
  | Ok token =>
      match validate_token token (Some worker_id) now r with
      | (Err e, r) => (Err (failed_validation e), r)
      | (Ok _, r) => (Ok tt, r)
      end
  end.

Definition validate_worker_token_with_store (headers : gmap string string) (key : VerifyingKey)
    (worker_id : string) (now : Z) (s : JtiCacheStore) : result unit AosError * JtiCacheStore :=
  match bearer_token headers with
  | Err e => (Err e, s)
  | Ok token =>
      let '(res, c) := validate_worker_token token key (Some worker_id) now (cache s) in
      let s := mkJtiStore c (persist_path s) (capacity s) in
      match res with
      | Err e => (Err (failed_validation e), s)
      | Ok _ => (Ok tt, s)
      end
  end.

(** ** Lists in order of use *)

Lemma without_lookup k k' l : k <> k' -> assoc k (without k' l) = assoc k l.
Proof.
  intros NE. induction l as [|[x v] l IH]; simpl; [done|].
  destruct (decide (x = k')) as [->|Hx].
  - rewrite bool_decide_true by done. simpl. rewrite (bool_decide_false (k = k')) by done. exact IH.
  - rewrite (bool_decide_false (x = k')) by done. simpl. by rewrite IH.
Qed.

Lemma without_absent k l : assoc k l = None -> without k l = l.
Proof.
  induction l as [|[x v] l IH]; simpl; [done|].
  case_bool_decide as Hx; [done|]. intros Hl. rewrite (bool_decide_false (x = k)) by congruence.
  simpl. by rewrite IH.
Qed.

Lemma without_idem k l : without k (without k l) = without k l.
Proof.
  induction l as [|[x v] l IH]; simpl; [done|].
  destruct (bool_decide (x = k)) eqn:Hx; simpl; [exact IH|]. rewrite Hx. simpl. by rewrite IH.
Qed.

Lemma assoc_take_mono k v n m l :
  (n <= m)%nat -> assoc k (take n l) = Some v -> assoc k (take m l) = Some v.
Proof.
  revert n m. induction l as [|[x w] l IH]; intros [|n] [|m] Hle; simpl; try done; try lia.
  case_bool_decide; [done|]. apply IH. lia.
Qed.

Lemma assoc_take k v n l : assoc k (take n l) = Some v -> assoc k l = Some v.
Proof.
  intros Hv. rewrite <- (firstn_all l). destruct (Nat.le_ge_cases n (length l)) as [Hle|Hge].
  - by eapply assoc_take_mono.
  - by rewrite firstn_all2 in Hv by lia; rewrite firstn_all.
Qed.

Lemma assoc_take_without k k' v n l :
  k <> k' -> assoc k (take n l) = Some v -> assoc k (take n (without k' l)) = Some v.
Proof.
  intros NE. revert n. induction l as [|[x w] l IH]; intros [|n]; simpl; try done.
  intros Hv. destruct (decide (x = k')) as [->|Hx].
  - rewrite bool_decide_false in Hv by done. rewrite bool_decide_true by done. simpl.
    apply (assoc_take_mono _ _ n); [lia|]. by apply IH.
  - rewrite (bool_decide_false (x = k')) by done. simpl. destruct (bool_decide (k = x)); [done|].
    by apply IH.
Qed.

Section Laws.
Context `{!LruLaws C}.

(** [k] is mapped to [v] among the [n] most recent entries. *)
Definition recent (k : string) (v : Z) (n : nat) (c : C) : Prop :=
  assoc k (take n (lru_iter c)) = Some v.

Lemma recent_mono k v n m c : (n <= m)%nat -> recent k v n c -> recent k v m c.
Proof. apply assoc_take_mono. Qed.

Lemma recent_found k v n c : recent k v n c -> assoc k (lru_iter c) = Some v.
Proof. apply assoc_take. Qed.

Lemma recent_get k v n c k' : (0 < n)%nat -> recent k v n c -> recent k v (S n) (lru_get k' c).2.
Proof.
  unfold recent. intros Hn Hr. rewrite iter_get. destruct (decide (k = k')) as [<-|NE].
  - rewrite (recent_found _ _ _ _ Hr). simpl. by rewrite bool_decide_true.
  - destruct (assoc k' (lru_iter c)); [|by eapply recent_mono; [|exact Hr]; lia].
    simpl. rewrite bool_decide_false by done. by apply assoc_take_without.
Qed.

Lemma recent_put k v n c k' v' :
  k <> k' -> (n < lru_cap c)%nat -> recent k v n c -> recent k v (S n) (lru_put k' v' c).
Proof.
  unfold recent. intros NE Hn Hr. rewrite iter_put, take_take.
  replace (S n `min` lru_cap c)%nat with (S n) by lia. simpl.
  rewrite bool_decide_false by done. by apply assoc_take_without.
Qed.

(** A lookup before the [put] of the same key makes no difference. *)
Lemma put_after_get k v c : lru_iter (lru_put k v (lru_get k c).2) = lru_iter (lru_put k v c).
Proof.
  rewrite !iter_put, iter_get, cap_get. destruct (assoc k (lru_iter c)); [|done].
  simpl. rewrite bool_decide_true by done. simpl. by rewrite without_idem.
Qed.

Lemma recent_just_put k v c : (0 < lru_cap c)%nat -> recent k v 1 (lru_put k v c).
Proof.
  unfold recent. intros Hc. rewrite iter_put, take_take.
  replace (1 `min` lru_cap c)%nat with 1%nat by lia. simpl. by rewrite bool_decide_true.
Qed.

(** After a [put], the key has the value or was dropped at once (capacity zero). *)
Lemma assoc_just_put k v c v' :
  assoc k (lru_iter (lru_put k v c)) = Some v' -> v' = v.
Proof.
  rewrite iter_put. destruct (lru_cap c); simpl; [done|]. rewrite bool_decide_true by done.
  by intros [= ->].
Qed.

(** ** Validation *)

(** What an accepted token has passed. *)
Lemma validate_ok token key w now c claims c' :
  validate_worker_token token key w now c = (Ok claims, c') ->
  read_claims token key = Ok claims /\ check_claims claims now = None
  /\ (forall e, assoc (jti claims) (lru_iter c) = Some e -> e <= now)
  /\ (forall x, w = Some x -> wid claims = x)
  /\ c' = lru_put (jti claims) (exp claims) (lru_get (jti claims) c).2.
Proof.
  unfold validate_worker_token. destruct (read_claims token key) as [cl|]; [|done].
  destruct (check_claims cl now) eqn:Hck; [done|]. unfold register_claims.
  pose proof (get_value (jti cl) c) as Hg. destruct (lru_get (jti cl) c) as [cached c1] eqn:Eg.
  simpl in Hg. destruct cached as [e|].
  - destruct (Z.ltb_spec now e) as [|Hle]; [done|]. intros Ev.
    assert (Hall : forall e', assoc (jti cl) (lru_iter c) = Some e' -> e' <= now).
    { intros e'. rewrite <- Hg. intros [= <-]. done. }
    destruct w as [x|]; [case_bool_decide as Hx; [done|]|]; injection Ev as <- <-.
    + rewrite Eg. repeat split; try done. intros y [= <-]. by destruct (decide (wid cl = x)).
    + rewrite Eg. by repeat split.
  - intros Ev.
    assert (Hall : forall e', assoc (jti cl) (lru_iter c) = Some e' -> e' <= now).
    { intros e'. by rewrite <- Hg. }
    destruct w as [x|]; [case_bool_decide as Hx; [done|]|]; injection Ev as <- <-.
    + rewrite Eg. repeat split; try done. intros y [= <-]. by destruct (decide (wid cl = x)).
    + rewrite Eg. by repeat split.
Qed.

(** A validation looks one id up and may record it. *)
Lemma validate_cache token key w now c :
  let c' := (validate_worker_token token key w now c).2 in
  c' = c
  \/ (exists k, c' = (lru_get k c).2 /\ exists e, assoc k (lru_iter c) = Some e /\ now < e)
  \/ exists k v, c' = lru_put k v (lru_get k c).2
       /\ forall e, assoc k (lru_iter c) = Some e -> e <= now.
Proof.
  unfold validate_worker_token. destruct (read_claims token key) as [cl|]; [|by left].
  destruct (check_claims cl now); [by left|]. unfold register_claims.
  pose proof (get_value (jti cl) c) as Hg. destruct (lru_get (jti cl) c) as [cached c1] eqn:Eg.
  simpl in Hg. right.
  destruct cached as [e|]; [destruct (Z.ltb_spec now e) as [Hlt|Hle]|].
  - left. exists (jti cl). rewrite Eg. split; [done|]. by exists e.
  - right. exists (jti cl), (exp cl). rewrite Eg, <- Hg.
    split; [by destruct w; [case_bool_decide|]|]. by intros e' [= <-].
  - right. exists (jti cl), (exp cl). rewrite Eg, <- Hg.
    split; [by destruct w; [case_bool_decide|]|]. done.
Qed.

(** ** Calls on a ring *)

Inductive RingOp :=
| Validate (token : string) (w : option string) (now : Z)
| Update (u : KeyUpdateRequest) (now : Z)
| AddKey (key : VerifyingKey)
| Cleanup (now : Z)
| Rotate (sk : SigningKey) (grace now : Z).

Definition exec (r : WorkerKeyRing) (op : RingOp) : WorkerKeyRing :=
  match op with
  | Validate token w now => (validate_token token w now r).2
  | Update u now => (handle_key_update u now r).2
  | AddKey key => (add_verifying_key key r).2
  | Cleanup now => (cleanup_expired_keys now r).2
  | Rotate sk grace now => (rotate_signing_key sk grace now r).2
  end.

(** Cleaning up drops the expired keys but never the current one. *)
Lemma remove_expired_spec l r :
  let r' := foldl remove_expired r l in
  current r' = current r /\ current_kid r' = current_kid r /\ jti_cache r' = jti_cache r
  /\ (forall k, verifying_keys r' !! k
        = if bool_decide (k ∈ l /\ k <> current_kid r) then None else verifying_keys r !! k).
Proof.
  revert r. induction l as [|x l IH]; intros r; simpl.
  { by repeat split. }
  destruct (IH (remove_expired r x)) as (A & B' & D & K). rewrite A, B', D.
  assert (Hr : current (remove_expired r x) = current r
    /\ current_kid (remove_expired r x) = current_kid r
    /\ jti_cache (remove_expired r x) = jti_cache r
    /\ forall k, verifying_keys (remove_expired r x) !! k
         = if bool_decide (k = x /\ k <> current_kid r) then None else verifying_keys r !! k).
  { unfold remove_expired. case_bool_decide as Hx; simpl; repeat split; intros k.
    - case_bool_decide as Hk; [destruct Hk as [-> _]; by rewrite lookup_delete_eq|].
      rewrite lookup_delete_ne; [done|]. intros <-. by apply Hk.
    - rewrite bool_decide_false; [done|]. intros [-> Hk]. by apply Hk. }
  destruct Hr as (-> & Ek & -> & Kr). rewrite Ek in *. repeat split. intros k. rewrite K, Kr.
  repeat case_bool_decide; try done; exfalso; set_solver.
Qed.

Lemma cleanup_spec now r :
  let r' := (cleanup_expired_keys now r).2 in
  current r' = current r /\ current_kid r' = current_kid r /\ jti_cache r' = jti_cache r
  /\ forall k, verifying_keys r' !! k
       = match pending_removal (rotation_meta r) !! k with
         | Some expiry => if bool_decide (expiry <= now /\ k <> current_kid r) then None
                          else verifying_keys r !! k
         | None => verifying_keys r !! k
         end.
Proof.
  unfold cleanup_expired_keys. simpl.
  destruct (remove_expired_spec (expired_kids now r) r) as (A & B' & D & K).
  repeat (split; [done|]). intros k. rewrite K.
  assert (Hin : k ∈ expired_kids now r
    <-> exists e, pending_removal (rotation_meta r) !! k = Some e /\ e <= now).
  { unfold expired_kids. rewrite list_elem_of_fmap. split.
    - intros ([k' e] & -> & Hp). apply list_elem_of_In, filter_In in Hp as [Hp He].
      apply list_elem_of_In, elem_of_map_to_list in Hp. exists e. split; [done|]. by apply Z.leb_le.
    - intros (e & Hp & He). exists (k, e). split; [done|].
      apply list_elem_of_In, filter_In. split; [|by apply Z.leb_le].
      by apply list_elem_of_In, elem_of_map_to_list. }
  destruct (pending_removal (rotation_meta r) !! k) as [e|] eqn:Hp.
  - repeat case_bool_decide; try done; exfalso.
    + destruct H as [(e' & [= <-] & He)%Hin Hk]. by apply H0.
    + destruct H0 as [He Hk]. apply H. split; [|done]. apply Hin. eauto.
  - rewrite bool_decide_false; [done|]. intros [(e & He & _)%Hin _]. done.
Qed.

(** An update that is not accepted changes nothing; an accepted one adds the decoded key
    under its own id, records the nonce and cleans up. *)
Definition updated (u : KeyUpdateRequest) (key : VerifyingKey) (now : Z) (r : WorkerKeyRing)
  : WorkerKeyRing :=
  record_nonce (nonce u) (to_i64 (now + KEY_UPDATE_MAX_AGE_SECS))
    (add_verifying_key_with_grace key (grace_period_secs u) now r).2.

Lemma update_outcome u now r :
  let '(resp, r') := handle_key_update u now r in
  if resp_success resp then
    has_seen_nonce (nonce u) now r = false /\ is_valid_time u now = true
    /\ (exists old, verifying_keys r !! old_kid u = Some old /\ verify_signature u old = Ok tt)
    /\ exists key, decode_new_public_key u = Ok key
       /\ r' = (cleanup_expired_keys now (updated u key now r)).2
  else r' = r.
Proof.
  unfold handle_key_update. destruct (has_seen_nonce _ _ _); [done|].
  destruct (is_valid_time u now); simpl; [|done].
  unfold get_verifying_key. destruct (verifying_keys r !! old_kid u) as [old|]; [|done].
  destruct (verify_signature u old) as [[]|] eqn:Hv; [|done].
  destruct (decode_new_public_key u) as [key|]; [|done]. simpl.
  repeat (split; [done|]). split; [by exists old|]. by exists key.
Qed.

(** *** The ring's invariant *)

Record ring_ok (r : WorkerKeyRing) : Prop := {
  ok_current : verifying_keys r !! current_kid r = Some (verifying_key (current r));
  ok_kids k key : verifying_keys r !! k = Some key -> k = derive_kid_from_verifying_key key;
}.

Lemma ring_new_ok sk n now : ring_ok (ring_new sk n now).
Proof.
  split; simpl.
  - apply lookup_singleton_eq.
  - intros k key Hk. apply lookup_singleton_Some in Hk as [<- <-]. done.
Qed.

(** A key the ring may be given: it does not displace the current one. *)
Definition not_clashing (r : WorkerKeyRing) (key : VerifyingKey) : Prop :=
  derive_kid_from_verifying_key key = current_kid r -> key = verifying_key (current r).

Lemma insert_key_ok key r r' :
  ring_ok r -> not_clashing r key ->
  current r' = current r -> current_kid r' = current_kid r ->
  verifying_keys r' = <[derive_kid_from_verifying_key key := key]> (verifying_keys r) ->
  ring_ok r'.
Proof.
  intros [Hc Hk] Hn E1 E2 E3. split.
  - rewrite E1, E2, E3. destruct (decide (derive_kid_from_verifying_key key = current_kid r)) as [Ek|Ek].
    + rewrite Ek, lookup_insert_eq. by rewrite (Hn Ek).
    + by rewrite lookup_insert_ne.
  - intros k key'. rewrite E3, lookup_insert_Some. intros [[<- <-]|[_ Hl]]; [done|]. by apply Hk.
Qed.

Lemma cleanup_ok now r : ring_ok r -> ring_ok (cleanup_expired_keys now r).2.
Proof.
  intros [Hc Hk]. destruct (cleanup_spec now r) as (A & B' & _ & K). split.
  - rewrite A, B', K. destruct (pending_removal _ !! _); [|done].
    rewrite bool_decide_false; [done|]. by intros [_ ?].
  - intros k key. rewrite K. destruct (pending_removal _ !! k); [|apply Hk].
    case_bool_decide; [done|apply Hk].
Qed.

(** The key an operation adds. *)
Definition op_key (op : RingOp) : option VerifyingKey :=
  match op with
  | AddKey key => Some key
  | Update u _ => match decode_new_public_key u with Ok key => Some key | Err _ => None end
  | _ => None
  end.

Definition worker_op (op : RingOp) : bool := match op with Rotate _ _ _ => false | _ => true end.

(** What workers do to a ring leaves its signing key alone. *)
Lemma exec_worker r op :
  ring_ok r -> worker_op op = true -> (forall key, op_key op = Some key -> not_clashing r key) ->
  ring_ok (exec r op) /\ current (exec r op) = current r /\ current_kid (exec r op) = current_kid r.
Proof.
  intros Hok Hw Hn. destruct op as [token w now|u now|key|now|];
    cbn [exec op_key worker_op] in *; [| | | |done].
  - unfold validate_token. destruct (extract_kid_from_token token) as [k|]; [|done].
    destruct (verifying_keys r !! k); [|done].
    destruct (validate_worker_token _ _ _ _ _). simpl. split; [by destruct Hok|done].
  - pose proof (update_outcome u now r) as Hu. destruct (handle_key_update u now r) as [resp r'].
    cbn [snd]. destruct (resp_success resp); [|by rewrite Hu].
    destruct Hu as (_ & _ & _ & key & Hd & ->).
    destruct (cleanup_spec now (updated u key now r)) as (A & B' & _ & _).
    rewrite A, B'. split; [|done]. apply cleanup_ok.
    eapply insert_key_ok; [exact Hok| |done..]. apply Hn. by rewrite Hd.
  - split; [|done]. eapply insert_key_ok; [exact Hok|by apply Hn|done..].
  - destruct (cleanup_spec now r) as (A & B' & _ & _). rewrite A, B'. split; [|done].
    by apply cleanup_ok.
Qed.

(** ** Single use *)

(** The clock an operation reads, where it matters for the cache. *)
Definition before (e : Z) (op : RingOp) : Prop :=
  match op with Validate _ _ now => now < e | _ => True end.

(** An update's nonce goes into the same cache as the token ids. *)
Definition nonce_is_not (j : string) (op : RingOp) : Prop :=
  match op with Update u _ => nonce u <> j | _ => True end.

Lemma cleanup_jti_cache now r : jti_cache (cleanup_expired_keys now r).2 = jti_cache r.
Proof. by destruct (cleanup_spec now r) as (_ & _ & ? & _). Qed.

Lemma exec_cap r op : lru_cap (jti_cache (exec r op)) = lru_cap (jti_cache r).
Proof.
  destruct op as [token w now|u now|key|now|]; cbn [exec]; try done.
  - unfold validate_token. destruct (extract_kid_from_token token) as [k|]; [|done].
    destruct (verifying_keys r !! k) as [key|]; [|done].
    pose proof (validate_cache token key w now (jti_cache r)) as Hc.
    destruct (validate_worker_token _ _ _ _ _) as [res c]. simpl in *.
    destruct Hc as [->|[(k' & -> & _)|(k' & v' & -> & _)]]; by rewrite ?cap_put, ?cap_get.
  - pose proof (update_outcome u now r) as Hu. destruct (handle_key_update u now r) as [resp r'].
    cbn [snd]. destruct (resp_success resp); [|by rewrite Hu].
    destruct Hu as (_ & _ & _ & key & _ & ->). rewrite cleanup_jti_cache. simpl. apply cap_put.
  - by rewrite cleanup_jti_cache.
Qed.

(** One operation ages an id that is still valid by at most one place. *)
Lemma exec_recent r op j e n :
  before e op -> nonce_is_not j op -> (0 < n < lru_cap (jti_cache r))%nat ->
  recent j e n (jti_cache r) -> recent j e (S n) (jti_cache (exec r op)).
Proof.
  intros Hb Hn Hcap Hr. assert (Hr' : recent j e (S n) (jti_cache r)).
  { eapply recent_mono; [|exact Hr]. lia. }
  destruct op as [token w now|u now|key|now|]; cbn [exec]; try done.
  - unfold validate_token. destruct (extract_kid_from_token token) as [k|]; [|done].
    destruct (verifying_keys r !! k) as [key|]; [|done].
    pose proof (validate_cache token key w now (jti_cache r)) as Hc.
    destruct (validate_worker_token _ _ _ _ _) as [res c]. simpl in *.
    destruct Hc as [->|[(k' & -> & _)|(k' & v' & -> & Hold)]]; [done|apply recent_get; [lia|done]|].
    assert (NE : j <> k').
    { intros <-. specialize (Hold e (recent_found _ _ _ _ Hr)). lia. }
    unfold recent. rewrite put_after_get. apply recent_put; [done|lia|done].
  - pose proof (update_outcome u now r) as Hu. destruct (handle_key_update u now r) as [resp r'].
    cbn [snd]. destruct (resp_success resp); [|by rewrite Hu].
    destruct Hu as (_ & _ & _ & key & _ & ->). rewrite cleanup_jti_cache. simpl.
    apply recent_put; [by apply not_eq_sym|lia|done].
  - by rewrite cleanup_jti_cache.
Qed.

Lemma exec_all_recent ops r j e n :
  Forall (before e) ops -> Forall (nonce_is_not j) ops ->
  (0 < n)%nat -> (n + length ops <= lru_cap (jti_cache r))%nat ->
  recent j e n (jti_cache r) ->
  recent j e (n + length ops) (jti_cache (foldl exec r ops)).
Proof.
  revert r n. induction ops as [|op ops IH]; intros r n Hb Hn H0 Hcap Hr; simpl in *.
  { by rewrite Nat.add_0_r. }
  inversion_clear Hb as [|? ? Hb1 Hb2]. inversion_clear Hn as [|? ? Hn1 Hn2].
  replace (n + S (length ops))%nat with (S n + length ops)%nat by lia.
  apply IH; [done|done|lia|rewrite exec_cap; lia|]. apply exec_recent; [done|done|lia|done].
Qed.

(** Validation through the ring. *)
Lemma ring_validate_ok token w now r claims r' :
  validate_token token w now r = (Ok claims, r') ->
  exists k key, extract_kid_from_token token = Ok k /\ verifying_keys r !! k = Some key
  /\ validate_worker_token token key w now (jti_cache r) = (Ok claims, jti_cache r')
  /\ r' = set_jti_cache (jti_cache r') r.
Proof.
  unfold validate_token. destruct (extract_kid_from_token token) as [k|] eqn:Hk; [|done].
  destruct (verifying_keys r !! k) as [key|] eqn:Hl; [|done].
  destruct (validate_worker_token _ _ _ _ _) as [res c] eqn:Hv. intros [= -> <-].
  by exists k, key.
Qed.

(** [C17] A token is good for one use: once a ring has accepted a token id, no token with
    that id is accepted before its expiry, whatever the ring does in between (other
    validations, key updates, rotations, clean-ups), as long as it makes fewer calls than
    the cache has places and no update's nonce equals the id. *)
Theorem token_single_use token w now r claims r1 ops token' w' now' claims' r2 :
  validate_token token w now r = (Ok claims, r1) ->
  (length ops < lru_cap (jti_cache r))%nat ->
  Forall (before (exp claims)) ops -> Forall (nonce_is_not (jti claims)) ops ->
  now' < exp claims ->
  validate_token token' w' now' (foldl exec r1 ops) = (Ok claims', r2) ->
  jti claims' <> jti claims.
Proof.
  intros Hv Hlen Hb Hn Hnow Hv'.
  apply ring_validate_ok in Hv as (k & key & _ & _ & Hv & _).
  apply validate_ok in Hv as (_ & _ & _ & _ & Hc).
  apply ring_validate_ok in Hv' as (k' & key' & _ & _ & Hv' & _).
  apply validate_ok in Hv' as (_ & _ & Hold & _ & _). intros Ej. rewrite Ej in Hold.
  enough (Hr : recent (jti claims) (exp claims) (1 + length ops)
            (jti_cache (foldl exec r1 ops))).
  { specialize (Hold _ (recent_found _ _ _ _ Hr)). lia. }
  apply exec_all_recent; [done|done|lia|..]; rewrite Hc.
  - rewrite cap_put, cap_get. lia.
  - unfold recent. rewrite put_after_get. apply recent_just_put. lia.
Qed.

(** ** Generated tokens *)

Lemma to_i64_small z : - 2 ^ 63 <= z < 2 ^ 63 -> to_i64 z = z.
Proof. intros Hz. unfold to_i64. rewrite Z.mod_small by lia. lia. Qed.

(** The three parts of a token. *)
Lemma token_parts a b c :
  Lifecycle.no_dot a -> Lifecycle.no_dot b -> Lifecycle.no_dot c ->
  Lifecycle.split_dot ((a +:+ "." +:+ b) +:+ "." +:+ c) = [a; b; c].
Proof.
  intros Ha Hb Hc.
  replace ((a +:+ "." +:+ b) +:+ "." +:+ c) with (a +:+ String "."%char (b +:+ String "."%char c)).
  - by rewrite !Lifecycle.split_dot_app, Lifecycle.split_dot_no_dot.
  - clear. induction a as [|x a IH]; [done|]. exact (f_equal (String x) IH).
Qed.

Lemma check_claims_fresh claims now :
  - 2 ^ 62 <= exp claims < 2 ^ 62 -> - 2 ^ 62 <= now < 2 ^ 62 ->
  check_claims claims now = None
  <-> now <= exp claims + 30 /\ iat claims <= now + 30
      /\ iss claims = "control-plane" /\ aud claims = "worker".
Proof.
  intros He Hn. unfold check_claims, CLOCK_SKEW_TOLERANCE_SECS. rewrite !to_i64_small by lia.
  destruct (Z.ltb_spec (exp claims + 30) now) as [|H1].
  { split; [done|]. intros (? & _). lia. }
  destruct (Z.ltb_spec (now + 30) (iat claims)) as [|H2].
  { split; [done|]. intros (_ & ? & _). lia. }
  destruct (decide (iss claims = "control-plane")) as [E1|E1].
  - rewrite bool_decide_false by (by intros ?).
    destruct (decide (aud claims = "worker")) as [E2|E2].
    + rewrite bool_decide_false by (by intros ?). done.
    + rewrite bool_decide_true by done. split; [done|]. by intros (_ & _ & _ & ?).
  - rewrite bool_decide_true by done. split; [done|]. by intros (_ & _ & ? & _).
Qed.

(** What is accepted when nothing speaks against it. *)
Lemma register_ok claims w now c :
  (forall e, assoc (jti claims) (lru_iter c) = Some e -> e <= now) ->
  (forall x, w = Some x -> wid claims = x) ->
  register_claims claims w now c
  = (Ok claims, lru_put (jti claims) (exp claims) (lru_get (jti claims) c).2).
Proof.
  intros Hold Hw. unfold register_claims. rewrite <- get_value in Hold.
  destruct (lru_get (jti claims) c) as [cached c1]. simpl in Hold.
  assert (Hc : match cached with Some e => now <? e | None => false end = false).
  { destruct cached as [e|]; [|done]. apply Z.ltb_ge. by apply Hold. }
  rewrite Hc. destruct w as [x|]; [|done]. rewrite bool_decide_false; [done|].
  intros Hx. by apply Hx, Hw.
Qed.

Context `{!Ed25519Laws E} `{!Base64Laws B64} `{!JsonLaws J}.

Lemma generated_reads sk wid_ rid ttl now token :
  generate_worker_token sk wid_ rid ttl now = Ok token ->
  extract_kid_from_token token = Ok (derive_kid_from_verifying_key (verifying_key sk))
  /\ read_claims token (verifying_key sk)
     = Ok (mkClaims "control-plane" "worker" wid_ now (to_i64 (now + to_i64 ttl)) rid).
Proof.
  unfold generate_worker_token. destruct (ttl <? _); [done|].
  destruct (validate_identifier wid_ _ _); [|done].
  destruct (validate_identifier rid _ _); [|done]. cbv zeta.
  set (claims := mkClaims _ _ _ _ _ _). set (header := mkHeader _ _ _).
  set (message := b64_encode (header_to_vec header) +:+ _). intros [= <-].
  unfold extract_kid_from_token, read_claims, message.
  rewrite token_parts by apply b64_no_dot. split.
  - by rewrite b64_decode_encode, kid_from_to.
  - rewrite b64_decode_encode, sign_length, verify_strict_sign. simpl.
    by rewrite b64_decode_encode, claims_from_to.
Qed.

(** A token the control plane generates for a worker is accepted by every ring that
    holds the signing key's public key, from 30 seconds before it was issued until 30
    seconds after it expires, with exactly the claims it was issued for, unless its id is
    in the cache and unexpired; the ring is unchanged but for the cache. *)
Theorem generated_token_accepted sk worker request ttl now0 token w now r :
  generate_worker_token sk worker request ttl now0 = Ok token ->
  verifying_keys r !! derive_kid_from_verifying_key (verifying_key sk) = Some (verifying_key sk) ->
  0 <= ttl < 2 ^ 60 -> 0 <= now0 < 2 ^ 61 -> now0 - 30 <= now <= now0 + ttl + 30 ->
  (forall e, assoc request (lru_iter (jti_cache r)) = Some e -> e <= now) ->
  (forall x, w = Some x -> worker = x) ->
  exists c, validate_token token w now r
    = (Ok (mkClaims "control-plane" "worker" worker now0 (now0 + ttl) request), set_jti_cache c r).
Proof.
  intros Hg Hk Ht Hn0 Hn Hold Hw. destruct (generated_reads _ _ _ _ _ _ Hg) as [Hkid Hread].
  rewrite (to_i64_small ttl), (to_i64_small (now0 + ttl)) in Hread by lia.
  unfold validate_token, validate_worker_token. rewrite Hkid, Hk, Hread.
  set (claims := mkClaims _ _ _ _ _ _) in *.
  rewrite (proj2 (check_claims_fresh claims now ltac:(simpl; lia) ltac:(lia)))
    by (simpl; repeat split; try done; lia).
  rewrite register_ok by (simpl; done). by eexists.
Qed.

(** Within the clock tolerance the replay defence is off: a token accepted at or after
    its expiry is accepted again and again until 30 seconds after it, because the cache
    entry it leaves counts as expired. *)
Theorem expired_token_replayable token w now now' r claims r1 :
  validate_token token w now r = (Ok claims, r1) ->
  0 <= exp claims < 2 ^ 62 -> exp claims <= now -> now <= now' <= exp claims + 30 ->
  0 <= now' < 2 ^ 62 ->
  exists r2, validate_token token w now' r1 = (Ok claims, r2).
Proof.
  intros Hv He Hexp Hnow Hr. apply ring_validate_ok in Hv as (k & key & Hk & Hl & Hv & Er).
  apply validate_ok in Hv as (Hread & Hck & _ & Hw & Hc).
  assert (Hl1 : verifying_keys r1 !! k = Some key) by (rewrite Er; done).
  apply check_claims_fresh in Hck as (H1 & H2 & H3 & H4); [|lia|lia].
  unfold validate_token, validate_worker_token. rewrite Hk, Hl1, Hread.
  rewrite (proj2 (check_claims_fresh claims now' ltac:(lia) ltac:(lia)))
    by (repeat split; try done; lia).
  rewrite register_ok; [by eexists| |done].
  intros e. rewrite Hc, put_after_get. intros ->%assoc_just_put. lia.
Qed.

(** ** Rotation *)

(** Rotation keeps the old key for its grace period: after a rotation the new key
    signs, the old one still verifies; a clean-up before the end of the grace period
    keeps the old key and one after it removes it, and the new key stays either way. *)
Theorem rotation_grace_period sk grace now r :
  ring_ok r -> 0 <= grace < 2 ^ 63 ->
  derive_kid_from_verifying_key (verifying_key sk) <> current_kid r ->
  let '(receipt, r1) := rotate_signing_key sk grace now r in
  ring_ok r1 /\ current r1 = sk /\ old_key_expires_at receipt = now + grace
  /\ get_verifying_key (receipt_old_kid receipt) r1 = Some (verifying_key (current r))
  /\ forall t, let r2 := (cleanup_expired_keys t r1).2 in
     ring_ok r2 /\ current_verifying_key r2 = Some (verifying_key sk)
     /\ get_verifying_key (receipt_old_kid receipt) r2
        = if t <? now + grace then Some (verifying_key (current r)) else None.
Proof.
  intros Hok Hg Hne. unfold rotate_signing_key. set (r1 := mkRing _ _ _ _ _).
  assert (Hok1 : ring_ok r1).
  { destruct Hok as [Hc Hk]. split; simpl; [apply lookup_insert_eq|].
    intros k key. rewrite lookup_insert_Some. intros [[<- <-]|[_ Hl]]; [done|]. by apply Hk. }
  assert (Hold : verifying_keys r1 !! current_kid r = Some (verifying_key (current r))).
  { simpl. rewrite lookup_insert_ne by done. apply (ok_current _ Hok). }
  split; [done|]. split; [done|]. simpl. rewrite to_i64_small by lia.
  split; [done|]. split; [exact Hold|]. intros t.
  destruct (cleanup_spec t r1) as (A & B' & _ & K).
  pose proof (cleanup_ok t r1 Hok1) as Hok2. split; [exact Hok2|]. split.
  - unfold current_verifying_key. pose proof (ok_current _ Hok2) as Hc. by rewrite A in Hc.
  - unfold get_verifying_key. change (foldl remove_expired r1 _) with (cleanup_expired_keys t r1).2.
    rewrite K, Hold. simpl. rewrite lookup_insert_eq, to_i64_small by lia.
    destruct (Z.ltb_spec t (now + grace)).
    + rewrite bool_decide_false; [done|]. intros [? _]. lia.
    + rewrite bool_decide_true; [done|]. split; [done|]. by apply not_eq_sym.
Qed.

Lemma exec_worker_all r ops r' :
  ring_ok r ->
  Forall (fun op => worker_op op = true
            /\ forall key, op_key op = Some key -> not_clashing r key) ops ->
  ring_ok r' -> current r' = current r -> current_kid r' = current_kid r ->
  ring_ok (foldl exec r' ops) /\ current (foldl exec r' ops) = current r.
Proof.
  intros Hok Hops. revert r'.
  induction Hops as [|op ops [Hw Hk] _ IH]; intros r' Hr' E1 E2; simpl; [done|].
  destruct (exec_worker r' op Hr' Hw) as (Hok' & E1' & E2').
  - intros key Hkey. unfold not_clashing. rewrite E1, E2. by apply Hk.
  - apply IH; congruence.
Qed.

(** On a worker the grace period never ends: key updates add keys but never change the
    ring's current key, and clean-ups spare the current key, so after any sequence of
    worker calls, at any time, a token signed with the original key is still accepted. *)
Theorem worker_keeps_old_key r ops worker request ttl now0 token w now :
  ring_ok r ->
  Forall (fun op => worker_op op = true
            /\ forall key, op_key op = Some key -> not_clashing r key) ops ->
  generate_worker_token (current r) worker request ttl now0 = Ok token ->
  0 <= ttl < 2 ^ 60 -> 0 <= now0 < 2 ^ 61 -> now0 - 30 <= now <= now0 + ttl + 30 ->
  (forall e, assoc request (lru_iter (jti_cache (foldl exec r ops))) = Some e -> e <= now) ->
  (forall x, w = Some x -> worker = x) ->
  is_ok (validate_token token w now (foldl exec r ops)).1 = true.
Proof.
  intros Hok Hops Hg Ht Hn0 Hn Hold Hw.
  pose proof (exec_worker_all r ops r Hok Hops Hok eq_refl eq_refl) as Hrun.
  destruct Hrun as [Hok' Ecur]. pose proof (ok_current _ Hok') as Hc.
  rewrite Ecur in Hc. rewrite (ok_kids _ Hok' _ _ Hc) in Hc.
  edestruct generated_token_accepted as [c ->]; try done.
Qed.

(** ** Key updates *)

(** A rotated key whose grace period is over. *)
Definition removal_due (r : WorkerKeyRing) (now : Z) (k : string) : bool :=
  negb (bool_decide (k = current_kid r))
  && match pending_removal (rotation_meta r) !! k with Some expiry => expiry <=? now | None => false end.

Lemma updated_keys u key now r k :
  verifying_keys (cleanup_expired_keys now (updated u key now r)).2 !! k
  = if removal_due r now k then None else <[derive_kid_from_verifying_key key := key]> (verifying_keys r) !! k.
Proof.
  destruct (cleanup_spec now (updated u key now r)) as (_ & _ & _ & K). rewrite K. unfold removal_due. simpl.
  destruct (decide (k = current_kid r)) as [->|Hk].
  - rewrite lookup_insert_eq, (bool_decide_true (current_kid r = _)) by done. simpl.
    by rewrite bool_decide_false by (by intros [_ ?]).
  - rewrite lookup_insert_ne, (bool_decide_false (k = _)) by done. simpl.
    destruct (pending_removal _ !! k) as [e|]; [|done].
    destruct (Z.leb_spec e now); [by rewrite bool_decide_true|]. rewrite bool_decide_false; [done|lia].
Qed.

(** [C31] Only the holder of a key in the ring can bring in another: an update changes the
    ring only if its nonce is not in use, it was issued within five minutes of now, and
    it is signed by the ring's key named in it. Then the ring has the key in the update
    under the id derived from it, every other key that it had and no more, less the rotated
    keys whose grace period is over, and the current key stays. *)
Theorem key_update_authenticated u now r :
  ring_ok r ->
  let '(resp, r') := handle_key_update u now r in
  (resp_success resp = false -> r' = r)
  /\ (resp_success resp = true ->
      has_seen_nonce (nonce u) now r = false /\ is_valid_time u now = true
      /\ (exists old, verifying_keys r !! old_kid u = Some old /\ verify_signature u old = Ok tt)
      /\ exists key, decode_new_public_key u = Ok key
         /\ (forall k, verifying_keys r' !! k
              = if removal_due r now k then None
                else <[derive_kid_from_verifying_key key := key]> (verifying_keys r) !! k)
         /\ (forall k x, verifying_keys r' !! k = Some x ->
               verifying_keys r !! k = Some x
               \/ (k = derive_kid_from_verifying_key key /\ x = key))
         /\ is_Some (current_verifying_key r') /\ current_kid r' = current_kid r).
Proof.
  intros Hok. pose proof (update_outcome u now r) as Hu.
  destruct (handle_key_update u now r) as [resp r']. destruct (resp_success resp); [|by split].
  split; [done|]. intros _. destruct Hu as (Hn & Ht & Ho & key & Hd & ->).
  repeat (split; [done|]). exists key. split; [done|].
  pose proof (updated_keys u key now r) as Hk.
  destruct (cleanup_spec now (updated u key now r)) as (_ & B' & _ & _). split; [exact Hk|].
  unfold current_verifying_key. rewrite B', Hk.
  change (current_kid (updated u key now r)) with (current_kid r). split_and!; [| |done].
  - intros k x. rewrite Hk. destruct (removal_due r now k); [done|].
    intros [[<- <-]|[_ Hl]]%lookup_insert_Some; [by right|by left].
  - unfold removal_due. rewrite bool_decide_true by done. cbn [negb andb].
    apply lookup_insert_is_Some'. right. rewrite (ok_current _ Hok). by eexists.
Qed.

(** An update that brings back a rotated key after its grace period is answered with
    success, and the key is not in the ring: the old removal of its id is carried out. *)
Theorem readded_key_removed u now r key :
  decode_new_public_key u = Ok key -> removal_due r now (derive_kid_from_verifying_key key) = true ->
  resp_success (handle_key_update u now r).1 = true ->
  verifying_keys (handle_key_update u now r).2 !! derive_kid_from_verifying_key key = None.
Proof.
  intros Hd Hr Hs. pose proof (update_outcome u now r) as Hu.
  destruct (handle_key_update u now r) as [resp r']. cbn [fst snd] in *. rewrite Hs in Hu.
  destruct Hu as (_ & _ & _ & key' & Hd' & ->). rewrite Hd in Hd'. injection Hd' as <-.
  by rewrite updated_keys, Hr.
Qed.

(** An update outlives its nonce: the nonce is remembered for five minutes from when
    the update was applied, the update is valid until five minutes after it was issued, so
    an update applied at its issue time or before it is accepted a second time. *)
Theorem key_update_replayable u now now' r resp r1 :
  ring_ok r -> handle_key_update u now r = (resp, r1) -> resp_success resp = true ->
  old_kid u = current_kid r ->
  (forall key, decode_new_public_key u = Ok key -> not_clashing r key) ->
  0 <= now < 2 ^ 62 -> 0 <= issued_at u < 2 ^ 62 ->
  now + 300 <= now' <= issued_at u + 300 ->
  resp_success (handle_key_update u now' r1).1 = true.
Proof.
  intros Hok Hu Hs Hold Hn Hnow Hiss Hnow'. pose proof (update_outcome u now r) as Ho.
  rewrite Hu, Hs in Ho. destruct Ho as (_ & Ht & (old & Hl & Hv) & key & Hd & ->).
  destruct (exec_worker r (Update u now) Hok eq_refl) as (Hok1 & Ec & Ek).
  { intros key'. simpl. rewrite Hd. intros [= <-]. by apply Hn. }
  cbn [exec] in Hok1, Ec, Ek. rewrite Hu in Hok1, Ec, Ek. cbn [snd] in Hok1, Ec, Ek.
  set (r1 := (cleanup_expired_keys now (updated u key now r)).2) in *.
  assert (Hl1 : verifying_keys r1 !! old_kid u = Some old).
  { rewrite Hold, <- Ek, (ok_current _ Hok1), Ec. rewrite Hold, (ok_current _ Hok) in Hl. done. }
  unfold handle_key_update.
  assert (Hseen : has_seen_nonce (nonce u) now' r1 = false).
  { unfold has_seen_nonce. rewrite peek_value. unfold r1. rewrite cleanup_jti_cache. simpl.
    destruct (assoc (nonce u) _) as [e|] eqn:He; [|done]. apply assoc_just_put in He as ->.
    unfold KEY_UPDATE_MAX_AGE_SECS. rewrite to_i64_small by lia. apply Z.ltb_ge. lia. }
  assert (Hvt : is_valid_time u now' = true).
  { unfold is_valid_time, KEY_UPDATE_MAX_AGE_SECS in *. rewrite to_i64_small in * by lia.
    apply Z.leb_le in Ht. apply Z.leb_le. lia. }
  rewrite Hseen, Hvt. simpl. unfold get_verifying_key. by rewrite Hl1, Hv, Hd.
Qed.

(** ** Restarts *)

Definition lru_ok (c : C) : Prop :=
  NoDup (map fst (lru_iter c)) /\ (length (lru_iter c) <= lru_cap c)%nat.

Lemma without_not_in k l : k ∉ map fst (without k l).
Proof.
  intros ([k' v] & Hk & Hin)%list_elem_of_fmap. simpl in Hk. subst k'.
  apply list_elem_of_In, filter_In in Hin as [_ Hb]. simpl in Hb.
  by rewrite bool_decide_true in Hb.
Qed.

Lemma without_sublist k l : map fst (without k l) `sublist_of` map fst l.
Proof.
  induction l as [|[x v] l IH]; simpl; [done|].
  destruct (negb _); simpl; by constructor.
Qed.

Lemma NoDup_take_prefix {A} n (l : list A) : NoDup l -> NoDup (take n l).
Proof. intros Hl. eapply sublist_NoDup; [exact Hl|]. apply sublist_take. Qed.

Lemma put_ok k v c : lru_ok c -> lru_ok (lru_put k v c).
Proof.
  intros [Hn Hl]. split.
  - rewrite iter_put, <- firstn_map. apply NoDup_take_prefix. simpl. constructor.
    + apply without_not_in.
    + by eapply sublist_NoDup; [|apply without_sublist].
  - rewrite iter_put, cap_put, length_take. lia.
Qed.

Lemma assoc_in k v l : assoc k l = Some v -> (k, v) ∈ l.
Proof.
  induction l as [|[x w] l IH]; simpl; [done|].
  case_bool_decide as Hx; [intros [= ->]; subst; by left|]. intros Hv. right. by apply IH.
Qed.

Lemma in_assoc k v l : NoDup (map fst l) -> (k, v) ∈ l -> assoc k l = Some v.
Proof.
  induction l as [|[x w] l IH]; simpl; [by intros _ ?%elem_of_nil|].
  intros [Hx Hn]%NoDup_cons [[= -> ->]|Hin]%elem_of_cons.
  - by rewrite bool_decide_true.
  - rewrite bool_decide_false; [by apply IH|]. intros <-. apply Hx.
    apply list_elem_of_fmap. by exists (k, v).
Qed.

Lemma get_ok k c : lru_ok c -> lru_ok (lru_get k c).2.
Proof.
  intros [Hn Hl]. unfold lru_ok. rewrite iter_get, cap_get.
  destruct (assoc k (lru_iter c)) as [v|] eqn:Hk; [|done]. simpl. split.
  - constructor; [apply without_not_in|]. by eapply sublist_NoDup; [|apply without_sublist].
  - apply assoc_in in Hk. apply list_elem_of_split in Hk as (l1 & l2 & E1). rewrite E1 in *.
    unfold without. rewrite List.filter_app. simpl. rewrite bool_decide_true by done. simpl.
    rewrite length_app in *. simpl in Hl.
    pose proof (filter_length_le (fun p => negb (bool_decide (p.1 = k))) l1).
    pose proof (filter_length_le (fun p => negb (bool_decide (p.1 = k))) l2). lia.
Qed.

(** Loading entries with new, distinct ids puts them in front one by one. *)
Lemma load_entries_iter now l c :
  NoDup (map fst l) -> (forall k, k ∈ map fst l -> assoc k (lru_iter c) = None) ->
  (length l + length (lru_iter c) <= lru_cap c)%nat ->
  lru_iter (foldl (load_entry now) c (map (fun p => mkJtiEntry p.1 p.2) l))
  = rev (List.filter (fun p => now <? p.2) l) ++ lru_iter c.
Proof.
  revert c. induction l as [|[k v] l IH]; intros c Hn Hf Hlen; simpl in *; [done|].
  apply NoDup_cons in Hn as [Hk Hn]. unfold load_entry at 2. simpl.
  destruct (now <? v).
  - assert (Hput : lru_iter (lru_put k v c) = (k, v) :: lru_iter c).
    { rewrite iter_put, without_absent by (apply Hf; by left).
      apply firstn_all2. simpl. lia. }
    rewrite IH; [|done|..].
    + rewrite Hput. simpl. by rewrite <- app_assoc.
    + intros k' Hk'. rewrite Hput. simpl. rewrite bool_decide_false by (by intros ->).
      apply Hf. by right.
    + rewrite Hput, cap_put. simpl. lia.
  - apply IH; [done| |lia]. intros k' Hk'. apply Hf. by right.
Qed.

(** The cache after a history of checks. *)
Definition checks (n : nat) (path : string) (adds : list (string * Z * Z)) : JtiCacheStore :=
  foldl (fun s '(j, e, now) => (check_and_add j e now s).2) (jti_new n path) adds.

Lemma checks_ok n path adds :
  let s := checks n path adds in
  lru_ok (cache s) /\ lru_cap (cache s) = cache_size n /\ persist_path s = path /\ capacity s = n.
Proof.
  unfold checks.
  assert (Hinv : forall s, lru_ok (cache s) -> lru_cap (cache s) = cache_size n ->
    persist_path s = path -> capacity s = n ->
    let s' := foldl (fun s '(j, e, now) => (check_and_add j e now s).2) s adds in
    lru_ok (cache s') /\ lru_cap (cache s') = cache_size n /\ persist_path s' = path
    /\ capacity s' = n).
  { induction adds as [|[[j e] now] adds IH]; intros s H1 H2 H3 H4; simpl; [done|].
    assert (Hc : lru_ok (cache (check_and_add j e now s).2)
      /\ lru_cap (cache (check_and_add j e now s).2) = cache_size n
      /\ persist_path (check_and_add j e now s).2 = path
      /\ capacity (check_and_add j e now s).2 = n).
    { unfold check_and_add. pose proof (get_ok j (cache s) H1) as Hg.
      pose proof (cap_get j (cache s)) as Hcap. destruct (lru_get j (cache s)) as [cached c].
      destruct (match cached with Some _ => _ | None => _ end); simpl in *.
      - by rewrite Hcap.
      - split; [by apply put_ok|]. by rewrite cap_put, Hcap. }
    destruct Hc as (? & ? & ? & ?). by apply IH. }
  apply Hinv; simpl; [|apply cap_new|done|done].
  split; rewrite iter_new; simpl; [constructor|lia].
Qed.

Lemma check_and_add_answer j e now s :
  (check_and_add j e now s).1
  = match assoc j (lru_iter (cache s)) with Some cached => now <? cached | None => false end.
Proof.
  unfold check_and_add. rewrite <- (get_value j (cache s)).
  destruct (lru_get j (cache s)) as [cached c]. simpl. by destruct (match cached with Some _ => _ | None => _ end).
Qed.

Lemma filter_later (t t' : Z) (l : list (string * Z)) :
  t <= t' ->
  List.filter (fun p => t' <? p.2) (List.filter (fun p => t <? p.2) l)
  = List.filter (fun p => t' <? p.2) l.
Proof.
  intros Ht. induction l as [|[k v] l IH]; simpl; [done|].
  destruct (Z.ltb_spec t v); simpl; destruct (Z.ltb_spec t' v); simpl; try lia; by rewrite IH.
Qed.

(** The cache a restart at [t'] finds after a shutdown at [t]. *)
Lemma restart_iter n path adds t t' disk disk' :
  let s := checks n path adds in
  t <= t' -> persist t (Ok tt) s disk = (Ok tt, disk') ->
  let s' := load_or_new_with_capacity path n t' disk' in
  lru_iter (cache s') = rev (List.filter (fun p => t' <? p.2) (lru_iter (cache s)))
  /\ lru_cap (cache s') = cache_size n.
Proof.
  intros s Ht Hp. destruct (checks_ok n path adds) as ([Hn Hl] & Hcap & Hpath & _). fold s in Hn, Hl, Hcap, Hpath.
  unfold persist in Hp. rewrite Hpath in Hp.
  set (kept := List.filter (fun p => t <? p.2) (lru_iter (cache s))) in *.
  assert (Hfilter : List.filter (fun p => t' <? p.2) (lru_iter (cache s))
                    = List.filter (fun p => t' <? p.2) kept).
  { symmetry. by apply filter_later. }
  rewrite Hfilter. unfold load_or_new_with_capacity, load_from_file.
  assert (Hsub : map fst kept `sublist_of` map fst (lru_iter (cache s))).
  { unfold kept. clear. induction (lru_iter (cache s)) as [|[k v] l IH]; simpl; [done|].
    destruct (t <? v); simpl; by constructor. }
  destruct kept as [|p kept'] eqn:Ek.
  - simpl in Hp. assert (Hd : disk' !! path = None).
    { destruct (disk !! path) eqn:Hd; injection Hp as <-; [apply lookup_delete_eq|done]. }
    rewrite Hd. simpl. split; [apply iter_new|apply cap_new].
  - injection Hp as <-. rewrite lookup_insert_eq.
    change (mkJtiEntry p.1 p.2 :: map (fun q => mkJtiEntry q.1 q.2) kept')
      with (map (fun q => mkJtiEntry q.1 q.2) (p :: kept')).
    rewrite entries_from_to. cbn [cache].
    assert (Hlen : (length (p :: kept') <= cache_size n)%nat).
    { apply sublist_length in Hsub. rewrite !length_map in Hsub. lia. }
    split.
    + rewrite load_entries_iter; rewrite ?iter_new, ?app_nil_r; try done.
      * by eapply sublist_NoDup.
      * rewrite cap_new. simpl length at 2. lia.
    + clear -LruLaws0. generalize (map (fun q => mkJtiEntry q.1 q.2) (p :: kept')). intros l.
      assert (Hc : forall c, lru_cap (foldl (load_entry t') c l) = lru_cap c).
      { induction l as [|e l IH]; intros c; simpl; [done|]. rewrite IH. unfold load_entry.
        destruct (t' <? exp_unix e); [apply cap_put|done]. }
      rewrite Hc. apply cap_new.
Qed.

(** Replay defence survives a restart: whatever ids were checked before a shutdown at
    [t], a restart at [t'] finds exactly the unexpired ones, and each of them is answered
    as a replay. They come back in reverse order of use. *)
Theorem restart_keeps_replay_defence n path adds t t' disk disk' :
  let s := checks n path adds in
  t <= t' -> persist t (Ok tt) s disk = (Ok tt, disk') ->
  let s' := load_or_new_with_capacity path n t' disk' in
  lru_iter (cache s') = rev (List.filter (fun p => t' <? p.2) (lru_iter (cache s)))
  /\ (forall j e e', assoc j (lru_iter (cache s)) = Some e -> t' < e ->
        (check_and_add j e' t' s').1 = true).
Proof.
  intros s Ht Hp s'. destruct (restart_iter n path adds t t' disk disk' Ht Hp) as [Hi _].
  fold s s' in Hi. split; [exact Hi|]. intros j e e' Hj He. rewrite check_and_add_answer, Hi.
  destruct (checks_ok n path adds) as ([Hn _] & _). fold s in Hn.
  rewrite (in_assoc j e); [exact (proj2 (Z.ltb_lt _ _) He)| |].
  - rewrite map_rev, <- Permutation_rev.
    eapply sublist_NoDup; [exact Hn|]. clear.
    induction (lru_iter (cache s)) as [|[k v] l IH]; simpl; [done|].
    destruct (t' <? v); simpl; by constructor.
  - apply list_elem_of_In. rewrite <- in_rev. apply filter_In. split; [|by apply Z.ltb_lt].
    by apply list_elem_of_In, assoc_in.
Qed.

(** A restart forgets the newest id first: with a full cache, the reversed order makes
    the most recently used id the next one to go, so a single new token after the restart
    makes the last token before it acceptable again. *)
Theorem restart_evicts_newest n path adds t disk disk' j e rest j' e' :
  let s := checks n path adds in
  lru_iter (cache s) = (j, e) :: rest -> length ((j, e) :: rest) = cache_size n ->
  Forall (fun p => t < p.2) ((j, e) :: rest) -> assoc j' ((j, e) :: rest) = None ->
  persist t (Ok tt) s disk = (Ok tt, disk') ->
  let s1 := load_or_new_with_capacity path n t disk' in
  let '(replay, s2) := check_and_add j' e' t s1 in
  replay = false /\ (check_and_add j e t s2).1 = false.
Proof.
  intros s Hs Hlen Hall Hj' Hp s1.
  destruct (restart_iter n path adds t t disk disk' (Z.le_refl t) Hp) as [Hi Hcap].
  fold s s1 in Hi, Hcap. destruct (checks_ok n path adds) as ([Hn _] & _). fold s in Hn.
  rewrite Hs in Hi, Hn.
  assert (Hf : List.filter (fun p => t <? p.2) ((j, e) :: rest) = (j, e) :: rest).
  { apply forallb_filter_id, forallb_forall. intros p Hin. apply Z.ltb_lt.
    rewrite List.Forall_forall in Hall. by apply Hall. }
  rewrite Hf in Hi. clear Hf Hall.
  assert (Hfresh : assoc j' (lru_iter (cache s1)) = None).
  { destruct (assoc j' (lru_iter (cache s1))) as [v|] eqn:Ha; [|done].
    apply assoc_in in Ha. rewrite Hi in Ha. apply list_elem_of_In in Ha. rewrite <- in_rev in Ha.
    apply list_elem_of_In in Ha. by rewrite (in_assoc j' v) in Hj'. }
  pose proof (check_and_add_answer j' e' t s1) as Hans. rewrite Hfresh in Hans.
  pose proof (get_value j' (cache s1)) as Hg. rewrite Hfresh in Hg.
  assert (Hiter : lru_iter (cache (check_and_add j' e' t s1).2) = (j', e') :: rev rest).
  { unfold check_and_add. pose proof (put_after_get j' e' (cache s1)) as Hpg.
    destruct (lru_get j' (cache s1)) as [cached c]. simpl in Hg, Hpg. subst cached. simpl.
    rewrite Hpg, iter_put, without_absent, Hcap, Hi by done. rewrite <- Hlen. simpl.
    rewrite take_app_length' by (by rewrite length_rev). done. }
  destruct (check_and_add j' e' t s1) as [replay s2]. simpl in Hans, Hiter.
  split; [done|]. rewrite check_and_add_answer, Hiter. simpl.
  destruct (bool_decide (j = j')) eqn:Ejj.
  { apply bool_decide_eq_true in Ejj as <-. simpl in Hj'. by rewrite bool_decide_true in Hj'. }
  simpl in Hn. apply NoDup_cons in Hn as [Hjn _].
  destruct (assoc j (rev rest)) as [v|] eqn:Ha; [|done]. exfalso. apply Hjn.
  apply assoc_in, list_elem_of_In in Ha. rewrite <- in_rev in Ha. apply list_elem_of_In in Ha.
  apply list_elem_of_fmap. by exists (j, v).
Qed.

End Laws.
End Auth.

(** ** Instances for examples *)

Section Examples.
#[local] Existing Instance toy_blake3.
#[local] Existing Instance hex_lower.

(** A cache as a capacity and its entries in order of use. *)
#[local] Instance list_lru : Lru (nat * list (string * Z)) := {|
  lru_new n := (n, []);
  lru_cap := fst;
  lru_iter := snd;
  lru_get k c := (assoc k c.2,
    match assoc k c.2 with Some v => (c.1, (k, v) :: without k c.2) | None => c end);
  lru_peek k c := assoc k c.2;
  lru_put k v c := (c.1, take c.1 ((k, v) :: without k c.2));
  lru_clear c := (c.1, []);
|}.
#[local] Instance list_lru_laws : LruLaws (nat * list (string * Z)).
Proof. split; try done; intros k c; simpl; by destruct (assoc k c.2). Qed.

#[local] Existing Instance toy_ed25519.
#[local] Existing Instance toy_ed25519_laws.

#[local] Instance hex_base64 : Base64 :=
  {| b64_encode := HexLower.encode; b64_decode := HexLower.decode |}.
#[local] Instance hex_base64_laws : Base64Laws hex_base64.
Proof.
  split; [apply HexLower.decode_encode|].
  assert (Hd : forall n, (n < 16)%N -> HexLower.digit n <> "."%char).
  { intros n Hn. unfold HexLower.digit. intros E. apply (f_equal N_of_ascii) in E.
    destruct (n <? 10)%N eqn:En; rewrite N_ascii_embedding in E by lia; vm_compute (N_of_ascii _) in E; lia. }
  induction l as [|b l IH]; intros x y; simpl; [by destruct x|].
  assert (Hb : (Byte.to_N b < 256)%N) by (destruct b; vm_compute; done).
  destruct x as [|c x]; simpl.
  - intros [= E _]. apply (Hd (Byte.to_N b / 16)%N); [|done]. apply N.Div0.div_lt_upper_bound. lia.
  - intros [= _ E]. destruct x as [|c' x]; simpl in E.
    + injection E as E _. apply (Hd (Byte.to_N b mod 16)%N); [|done]. by apply N.mod_lt.
    + injection E as _ E. by apply (IH x y).
Qed.

(** Texts as tagged bytes: one writer and one reader per kind of field. *)
Fixpoint put_str (s : list byte) (rest : list byte) : list byte :=
  match s with [] => x00 :: rest | b :: s => x01 :: b :: put_str s rest end.
Fixpoint get_str (l : list byte) : option (list byte * list byte) :=
  match l with
  | x00 :: rest => Some ([], rest)
  | _ :: b :: l => match get_str l with Some (s, rest) => Some (b :: s, rest) | None => None end
  | _ => None
  end.
Lemma get_put_str s rest : get_str (put_str s rest) = Some (s, rest).
Proof. induction s as [|b s IH]; simpl; [done|]. by rewrite IH. Qed.

Fixpoint put_pos (p : positive) (rest : list byte) : list byte :=
  match p with xH => x02 :: rest | xO p => x00 :: put_pos p rest | xI p => x01 :: put_pos p rest end.
Fixpoint get_pos (l : list byte) : option (positive * list byte) :=
  match l with
  | x02 :: rest => Some (xH, rest)
  | b :: l =>
      match get_pos l with
      | Some (p, rest) => Some (if Byte.eqb b x00 then xO p else xI p, rest)
      | None => None
      end
  | [] => None
  end.
Lemma get_put_pos p rest : get_pos (put_pos p rest) = Some (p, rest).
Proof. induction p as [p IH|p IH|]; simpl; rewrite ?IH; done. Qed.

Definition put_z (z : Z) (rest : list byte) : list byte :=
  match z with 0 => x00 :: rest | Zpos p => x01 :: put_pos p rest | Zneg p => x02 :: put_pos p rest end.
Definition get_z (l : list byte) : option (Z * list byte) :=
  match l with
  | x00 :: rest => Some (0, rest)
  | x01 :: l => match get_pos l with Some (p, rest) => Some (Zpos p, rest) | None => None end
  | _ :: l => match get_pos l with Some (p, rest) => Some (Zneg p, rest) | None => None end
  | [] => None
  end.
Lemma get_put_z z rest : get_z (put_z z rest) = Some (z, rest).
Proof. destruct z; simpl; by rewrite ?get_put_pos. Qed.

Definition put_text (s : string) : list byte -> list byte := put_str (as_bytes_of s).
Definition get_text (l : list byte) : option (string * list byte) :=
  match get_str l with Some (s, rest) => Some (String.string_of_list_byte s, rest) | None => None end.
Lemma get_put_text s rest : get_text (put_text s rest) = Some (s, rest).
Proof.
  unfold get_text, put_text. rewrite get_put_str. simpl.
  by rewrite String.string_of_list_byte_of_string.
Qed.

Definition put_claims (c : WorkerTokenClaims) : list byte :=
  put_text (iss c) (put_text (aud c) (put_text (wid c)
    (put_z (iat c) (put_z (exp c) (put_text (jti c) []))))).
Definition get_claims (l : list byte) : option WorkerTokenClaims :=
  '(i, l) ← get_text l; '(a, l) ← get_text l; '(w, l) ← get_text l;
  '(t, l) ← get_z l; '(e, l) ← get_z l; '(j, _) ← get_text l;
  Some (mkClaims i a w t e j).
Lemma get_put_claims c : get_claims (put_claims c) = Some c.
Proof.
  unfold get_claims, put_claims. rewrite get_put_text; simpl. rewrite get_put_text; simpl.
  rewrite get_put_text; simpl. rewrite get_put_z; simpl. rewrite get_put_z; simpl.
  rewrite get_put_text; simpl. by destruct c.
Qed.

Fixpoint put_entries (l : list JtiEntry) : list byte :=
  match l with
  | [] => []
  | e :: l => put_text (entry_jti e) (put_z (exp_unix e) (put_entries l))
  end.
(** [fuel] bounds the number of entries; the length of the text is enough. *)
Fixpoint get_entries (fuel : nat) (l : list byte) : option (list JtiEntry) :=
  match fuel, l with
  | _, [] => Some []
  | O, _ => None
  | S fuel, _ =>
      '(j, l) ← get_text l; '(e, l) ← get_z l; rest ← get_entries fuel l;
      Some (mkJtiEntry j e :: rest)
  end.
Lemma put_text_length s rest : (length rest < length (put_text s rest))%nat.
Proof. unfold put_text. induction (as_bytes_of s) as [|b l IH]; simpl; lia. Qed.
Lemma put_z_length z rest : (length rest < length (put_z z rest))%nat.
Proof.
  assert (Hp : forall p, (length rest < length (put_pos p rest))%nat)
    by (induction p; simpl; lia).
  destruct z as [|p|p]; simpl; [lia|pose proof (Hp p); lia..].
Qed.
Lemma get_put_entries l fuel :
  (length (put_entries l) <= fuel)%nat -> get_entries fuel (put_entries l) = Some l.
Proof.
  revert fuel. induction l as [|[j e] l IH]; intros fuel Hf; [by destruct fuel|].
  cbn [put_entries entry_jti exp_unix] in *.
  pose proof (put_text_length j (put_z e (put_entries l))) as Ht.
  pose proof (put_z_length e (put_entries l)) as Hz.
  destruct fuel as [|fuel]; [lia|].
  assert (Hs : get_entries (S fuel) (put_text j (put_z e (put_entries l)))
    = ('(j, l) ← get_text (put_text j (put_z e (put_entries l))); '(e, l) ← get_z l;
       rest ← get_entries fuel l; Some (mkJtiEntry j e :: rest))).
  { by destruct (put_text j (put_z e (put_entries l))) eqn:Ep; [simpl in Ht; lia|]. }
  rewrite Hs, get_put_text; simpl. rewrite get_put_z; simpl. by rewrite IH by lia.
Qed.

Definition or_malformed {A} (o : option A) : result A string :=
  match o with Some a => Ok a | None => Err "malformed" end.

#[local] Instance toy_json : Json := {|
  header_to_vec h := as_bytes_of (kid h);
  claims_to_vec := put_claims;
  kid_from_slice l := Ok (String.string_of_list_byte l);
  claims_from_slice l := or_malformed (get_claims l);
  update_json a b c d e f g :=
    put_z a (put_text b (put_text c (put_text d (put_z e (put_z f (put_text g []))))));
  entries_to_string l := String.string_of_list_byte (put_entries l);
  entries_from_str s := or_malformed (get_entries (String.length s) (as_bytes_of s));
|}.
Lemma text_length l : String.length (String.string_of_list_byte l) = length l.
Proof. induction l as [|b l IH]; [done|]. exact (f_equal S IH). Qed.

#[local] Instance toy_json_laws : JsonLaws toy_json.
Proof.
  split.
  - intros h. simpl. by rewrite String.string_of_list_byte_of_string.
  - intros c. simpl. by rewrite get_put_claims.
  - intros l. simpl. rewrite String.list_byte_of_string_of_list_byte, get_put_entries; [done|].
    by rewrite text_length.
Qed.

Definition ex_key : @SigningKey toy_ed25519 := x01.
Definition ex_key2 : @SigningKey toy_ed25519 := x02.
Definition ex_ring : WorkerKeyRing (C := nat * list (string * Z)) := ring_new ex_key 3 1000.
Definition ex_token : string :=
  match generate_token "w1" "req-1" 60 1000 ex_ring with Ok t => t | Err _ => EmptyString end.
Definition ex_token2 : string :=
  match generate_token "w1" "req-2" 60 1000 ex_ring with Ok t => t | Err _ => EmptyString end.

Lemma generated_token_accepted_witness :
  exists c, validate_token ex_token (Some "w1") 1050 ex_ring
    = (Ok (mkClaims "control-plane" "worker" "w1" 1000 1060 "req-1"), set_jti_cache c ex_ring).
Proof.
  apply (generated_token_accepted ex_key "w1" "req-1" 60 1000).
  - by vm_compute.
  - by vm_compute.
  - lia.
  - lia.
  - lia.
  - intros e. by vm_compute.
  - by intros x [= <-].
Defined.

Lemma answer_is {A B} (p : A * B) (a : A) : p.1 = a -> p = (a, p.2).
Proof. by destruct p; intros <-. Qed.

(** The ring after "req-1" was accepted. *)
#[local] Notation ex_ring1 := (validate_token ex_token (Some "w1") 1050 ex_ring).2.

Lemma token_single_use_witness :
  "req-2" <> "req-1"
  /\ is_ok (validate_token ex_token2 (Some "w1") 1052 (foldl exec ex_ring1 [Cleanup 1051])).1 = true.
Proof.
  split; [|by vm_compute].
  apply (token_single_use ex_token (Some "w1") 1050 ex_ring
    (mkClaims "control-plane" "worker" "w1" 1000 1060 "req-1") ex_ring1 [Cleanup 1051]
    ex_token2 (Some "w1") 1052 (mkClaims "control-plane" "worker" "w1" 1000 1060 "req-2")
    (validate_token ex_token2 (Some "w1") 1052 (foldl exec ex_ring1 [Cleanup 1051])).2).
  - apply answer_is. vm_compute. reflexivity.
  - vm_compute. lia.
  - by repeat constructor.
  - by repeat constructor.
  - vm_compute. reflexivity.
  - apply answer_is. vm_compute. reflexivity.
Defined.

Lemma expired_token_replayable_witness :
  exists r2, validate_token ex_token (Some "w1") 1085
    (validate_token ex_token (Some "w1") 1070 ex_ring).2
  = (Ok (mkClaims "control-plane" "worker" "w1" 1000 1060 "req-1"), r2).
Proof.
  apply (expired_token_replayable ex_token (Some "w1") 1070 1085 ex_ring).
  - apply answer_is. vm_compute. reflexivity.
  - simpl. lia.
  - simpl. lia.
  - simpl. lia.
  - lia.
Defined.

Lemma rotation_grace_period_witness :
  get_verifying_key (current_kid ex_ring)
    (cleanup_expired_keys 1299 (rotate_signing_key ex_key2 300 1000 ex_ring).2).2
  = Some (verifying_key ex_key).
Proof.
  pose proof (rotation_grace_period ex_key2 300 1000 ex_ring (ring_new_ok _ _ _)) as Hr.
  destruct (rotate_signing_key ex_key2 300 1000 ex_ring) as [receipt r1] eqn:Er.
  injection Er as <- <-. destruct Hr as (_ & _ & _ & _ & Ht); [lia|by vm_compute|].
  destruct (Ht 1299) as (_ & _ & Hk). exact Hk.
Defined.

Definition ex_update : KeyUpdateRequest :=
  update_new ex_key (current_kid ex_ring) (verifying_key ex_key2)
    (derive_kid_from_verifying_key (verifying_key ex_key2)) 300 1100 [x07].

Lemma ex_update_not_clashing :
  forall key, op_key (Update ex_update 1100) = Some key ->
  not_clashing ex_ring key.
Proof.
  assert (Hk : op_key (Update ex_update 1100) = Some ex_key2) by (vm_compute; reflexivity).
  intros key. rewrite Hk. intros [= <-] E.
  apply (f_equal (String.eqb (current_kid ex_ring))) in E. vm_compute in E. discriminate E.
Qed.

Lemma worker_keeps_old_key_witness :
  is_ok (validate_token ex_token (Some "w1") 1050
    (foldl exec ex_ring [Update ex_update 1100; Cleanup 99999])).1 = true.
Proof.
  apply (worker_keeps_old_key ex_ring [Update ex_update 1100; Cleanup 99999] "w1" "req-1" 60 1000).
  - apply ring_new_ok.
  - apply List.Forall_cons; [|apply List.Forall_cons; [|apply List.Forall_nil]].
    + split; [reflexivity|exact ex_update_not_clashing].
    + split; [reflexivity|]. intros key [=].
  - by vm_compute.
  - lia.
  - lia.
  - lia.
  - intros e. by vm_compute.
  - by intros x [= <-].
Defined.

Lemma key_update_authenticated_witness :
  let '(resp, r') := handle_key_update ex_update 1100 ex_ring in
  resp_success resp = true /\ is_Some (current_verifying_key r')
  /\ exists key, decode_new_public_key ex_update = Ok key
     /\ verifying_keys r' !! derive_kid_from_verifying_key key = Some key.
Proof.
  pose proof (key_update_authenticated ex_update 1100 ex_ring (ring_new_ok _ _ _)) as Hu.
  destruct (handle_key_update ex_update 1100 ex_ring) as [resp r'] eqn:Er.
  assert (Hs : resp_success resp = true).
  { apply (f_equal (fun p => resp_success p.1)) in Er. cbn [fst] in Er. rewrite <- Er.
    by vm_compute. }
  split; [exact Hs|]. destruct Hu as [_ Hu]. destruct (Hu Hs) as (_ & _ & _ & key & Hd & Hk & _ & Hc & _).
  split; [exact Hc|]. exists key. split; [exact Hd|]. rewrite Hk.
  unfold removal_due, ex_ring, ring_new. cbn -[derive_kid_from_verifying_key]. rewrite andb_false_r. apply lookup_insert_eq.
Defined.

(** The key was rotated out at 500 with a grace of 100 seconds, and comes back at 1100. *)
Definition rotated_ring : WorkerKeyRing (C := nat * list (string * Z)) :=
  (rotate_signing_key ex_key 100 500 (ring_new ex_key2 3 400)).2.

Lemma readded_key_removed_witness :
  resp_success (handle_key_update ex_update 1100 rotated_ring).1 = true
  /\ verifying_keys (handle_key_update ex_update 1100 rotated_ring).2
       !! derive_kid_from_verifying_key (verifying_key ex_key2) = None.
Proof.
  assert (Hs : resp_success (handle_key_update ex_update 1100 rotated_ring).1 = true) by (vm_compute; reflexivity).
  split; [exact Hs|].
  apply (readded_key_removed ex_update 1100 rotated_ring (verifying_key ex_key2));
    [vm_compute; reflexivity|vm_compute; reflexivity|exact Hs].
Defined.

Lemma key_update_replayable_witness :
  resp_success (handle_key_update ex_update 1400 (handle_key_update ex_update 1100 ex_ring).2).1 = true.
Proof.
  apply (key_update_replayable ex_update 1100 1400 ex_ring (handle_key_update ex_update 1100 ex_ring).1).
  - apply ring_new_ok.
  - by rewrite <- surjective_pairing.
  - by vm_compute.
  - reflexivity.
  - intros key Hk. apply ex_update_not_clashing. unfold op_key. rewrite Hk. reflexivity.
  - lia.
  - change (issued_at ex_update) with 1100. lia.
  - change (issued_at ex_update) with 1100. lia.
Defined.

Definition ex_checks : list (string * Z * Z) := [("a", 100, 1); ("b", 100, 2)].

Lemma restart_keeps_replay_defence_witness :
  (check_and_add "a" 100 50 (load_or_new_with_capacity "f" 2 50
     (persist 10 (Ok tt) (checks 2 "f" ex_checks) ∅).2)).1 = true.
Proof.
  destruct (restart_keeps_replay_defence 2 "f" ex_checks 10 50 ∅
    (persist 10 (Ok tt) (checks 2 "f" ex_checks) ∅).2) as [_ Hc].
  - lia.
  - by vm_compute.
  - apply (Hc "a" 100 100); [by vm_compute|lia].
Defined.

Lemma restart_evicts_newest_witness :
  let '(replay, s2) := check_and_add "c" 100 10
    (load_or_new_with_capacity "f" 2 10 (persist 10 (Ok tt) (checks 2 "f" ex_checks) ∅).2) in
  replay = false /\ (check_and_add "b" 100 10 s2).1 = false.
Proof.
  apply (restart_evicts_newest 2 "f" ex_checks 10 ∅
    (persist 10 (Ok tt) (checks 2 "f" ex_checks) ∅).2 "b" 100 [("a", 100)]).
  - by vm_compute.
  - by vm_compute.
  - by repeat constructor.
  - by vm_compute.
  - by vm_compute.
Defined.
End Examples.
End WorkerAuth.
