(* ===== verification/StopController.v ===== *)
(** * When generation stops (adapteros-lora-worker/src/stop_controller.rs)

    [StopController] decides after every sampled token whether generation ends, and the
    reason goes into the receipt; the policy and its digest are in
    adapteros-api-types/src/inference.rs, the reasons in adapteros-types/src/inference.rs.
    Also the generation loops of inference_pipeline.rs around the controller: what is
    kept, streamed, cut off and reported.

    The softmax of the logits is floating-point arithmetic over the platform's [exp]:
    the quantised probability of the end-of-sequence token is the parameter
    [eos_prob_q15]. Routing, kernels and sampling are the parameter [run_step] over an
    abstract state, the handling of a streamed token (inspection, review, callback) the
    parameter [after_token]; the tokenizer is the parameter [encode]. *)

From S2P Require Import Prelude Hashing.
Open Scope Z_scope.

Module StopController.

(** ** Reasons *)

Inductive StopReasonCode :=
| Length | BudgetMax | CompletionConfident | RepetitionGuard | StopSequence
| Cancelled | SystemError.

#[export] Instance StopReasonCode_eq_dec : EqDecision StopReasonCode.
Proof. solve_decision. Defined.

Definition reason_text (r : StopReasonCode) : string :=
  match r with
  | Length => "LENGTH"
  | BudgetMax => "BUDGET_MAX"
  | CompletionConfident => "COMPLETION_CONFIDENT"
  | RepetitionGuard => "REPETITION_GUARD"
  | StopSequence => "STOP_SEQUENCE"
  | Cancelled => "CANCELLED"
  | SystemError => "SYSTEM_ERROR"
  end.

Definition reason_from_str (s : string) : result StopReasonCode string :=
  if (s =? "LENGTH")%string then Ok Length
  else if (s =? "BUDGET_MAX")%string then Ok BudgetMax
  else if (s =? "COMPLETION_CONFIDENT")%string then Ok CompletionConfident
  else if (s =? "REPETITION_GUARD")%string then Ok RepetitionGuard
  else if (s =? "STOP_SEQUENCE")%string then Ok StopSequence
  else if (s =? "CANCELLED")%string then Ok Cancelled
  else if (s =? "SYSTEM_ERROR")%string then Ok SystemError
  else Err ("Unknown stop reason code: " +:+ s).

(** ** Policies *)

Record StopPolicySpec : Type := mkPolicy {
  output_max_tokens : Z;
  eos_token_id : option Z;
  completion_threshold_q15 : Z;
  repetition_ngram : Z;
  repetition_window : Z;
  repetition_threshold : Z;
  stop_sequences : list string;
}.

Definition default_completion_threshold_q15 : Z := 24576.
Definition default_repetition_ngram : Z := 3.
Definition default_repetition_window : Z := 32.
Definition default_repetition_threshold : Z := 1.

Definition policy_default : StopPolicySpec :=
  mkPolicy 2048 None default_completion_threshold_q15 default_repetition_ngram
    default_repetition_window default_repetition_threshold [].

Definition policy_new (output_max_tokens : Z) : StopPolicySpec :=
  let d := policy_default in
  mkPolicy output_max_tokens (eos_token_id d) (completion_threshold_q15 d) (repetition_ngram d)
    (repetition_window d) (repetition_threshold d) (stop_sequences d).

(** Lengths are cast with [as u32]; a signed 16-bit field is written in two's complement. *)
Definition sequence_bytes (s : string) : list byte :=
  le_bytes 4 (Z.of_nat (String.length s) mod u32_mod) ++ as_bytes_of s.

Definition canonical_bytes (p : StopPolicySpec) : list byte :=
  le_bytes 4 (output_max_tokens p)
  ++ le_bytes 4 (default 0 (eos_token_id p))
  ++ le_bytes 2 (completion_threshold_q15 p mod 2 ^ 16)
  ++ le_bytes 1 (repetition_ngram p)
  ++ le_bytes 2 (repetition_window p)
  ++ le_bytes 1 (repetition_threshold p)
  ++ le_bytes 4 (Z.of_nat (length (stop_sequences p)) mod u32_mod)
  ++ concat (map sequence_bytes (stop_sequences p)).

Record StopDecision : Type := mkDecision {
  reason : StopReasonCode; token_index : Z; trim_tokens : nat
}.

Section Controller.
Context {B : Blake3} {F32 : Type} (eos_prob_q15 : list F32 -> nat -> Z).

Definition digest (p : StopPolicySpec) : B3Hash := hash (canonical_bytes p).

(** ** The controller *)

Record StopController : Type := mkController {
  policy : StopPolicySpec;
  policy_digest : B3Hash;
  generated_count : Z;
  token_history : list Z;
  stop_sequences_tokens : list (list Z);
  max_stop_sequence_len : nat;
  history_window : nat;
}.

Definition new_with_stop_sequences (p : StopPolicySpec) (seqs : list (list Z)) : StopController :=
  let max_len := foldr Nat.max 0%nat (map length seqs) in
  mkController p (digest p) 0 [] seqs max_len (Nat.max (Z.to_nat (repetition_window p)) max_len).

Definition new (p : StopPolicySpec) : StopController := new_with_stop_sequences p [].

Definition from_policy_or_default_with_stop_sequences (p : option StopPolicySpec)
    (max_tokens : Z) (seqs : list (list Z)) : StopController :=
  new_with_stop_sequences (match p with Some p => p | None => policy_new max_tokens end) seqs.

Definition from_policy_or_default (p : option StopPolicySpec) (max_tokens : Z) : StopController :=
  new (match p with Some p => p | None => policy_new max_tokens end).

Definition set_progress (count : Z) (history : list Z) (c : StopController) : StopController :=
  mkController (policy c) (policy_digest c) count history (stop_sequences_tokens c)
    (max_stop_sequence_len c) (history_window c).

(** [while len > window { pop_front }]. *)
Fixpoint pop_to (window : nat) (l : list Z) : list Z :=
  match l with
  | [] => []
  | _ :: l' => if (window <? length l)%nat then pop_to window l' else l
  end.

Definition update_history (token : Z) (c : StopController) : StopController :=
  set_progress (generated_count c) (pop_to (history_window c) (token_history c ++ [token])) c.

Definition preload_token (c : StopController) (token : Z) : StopController :=
  update_history token
    (set_progress (Z.min (generated_count c + 1) u32_max) (token_history c) c).

Definition preload_tokens (tokens : list Z) (c : StopController) : StopController :=
  foldl preload_token c tokens.

Definition check_budget_max (token_index : Z) (c : StopController) : option StopReasonCode :=
  if output_max_tokens (policy c) <=? token_index then Some BudgetMax else None.

Definition effective_eos (eos : Z) (c : StopController) : Z :=
  default eos (eos_token_id (policy c)).

Definition check_completion_confident (logits : list F32) (eos : Z) (c : StopController)
  : option StopReasonCode :=
  let idx := Z.to_nat (effective_eos eos c) in
  if (length logits <=? idx)%nat then None
  else if completion_threshold_q15 (policy c) <=? eos_prob_q15 logits idx
  then Some CompletionConfident else None.

(** The n-grams of a window, in order, and how often each occurs. *)
Definition ngrams (n : nat) (window : list Z) : list (list Z) :=
  map (fun start => take n (drop start window)) (seq 0 (length window - n + 1)).

Definition count_ngrams (grams : list (list Z)) : gmap (list Z) nat :=
  foldl (fun counts g => <[g := S (default 0%nat (counts !! g))]> counts) ∅ grams.

Definition max_count (counts : gmap (list Z) nat) : nat :=
  foldr Nat.max 0%nat (map snd (map_to_list counts)).

Definition check_repetition_guard (c : StopController) : option StopReasonCode :=
  let min_ngram := Z.to_nat (repetition_ngram (policy c)) in
  let window_size := Z.to_nat (repetition_window (policy c)) in
  let threshold := Z.to_nat (repetition_threshold (policy c)) in
  let window := drop (length (token_history c) - window_size) (token_history c) in
  if (length window <? min_ngram * 2)%nat then None
  else
    let max_ngram := (length window / 2)%nat in
    if existsb (fun n => threshold <? max_count (count_ngrams (ngrams n window)))%nat
         (seq min_ngram (S max_ngram - min_ngram))
    then Some RepetitionGuard else None.

(** The first sequence, in the order given, that the history ends with. *)
Fixpoint first_match (history : list Z) (seqs : list (list Z)) : option nat :=
  match seqs with
  | [] => None
  | s :: seqs' =>
      let seq_len := length s in
      if (seq_len =? 0)%nat || (length history <? seq_len)%nat then first_match history seqs'
      else if forallb (fun '(a, b) => a =? b) (zip (drop (length history - seq_len) history) s)
      then Some (seq_len - 1)%nat
      else first_match history seqs'
  end.

Definition check_stop_sequences (c : StopController) : option nat :=
  if (length (stop_sequences_tokens c) =? 0)%nat || (max_stop_sequence_len c =? 0)%nat then None
  else first_match (token_history c) (stop_sequences_tokens c).

(** The count is a [u32]. *)
Definition check_stop (token eos : Z) (logits : list F32) (c : StopController)
  : option StopDecision * StopController :=
  let token_index := generated_count c in
  let c := set_progress ((generated_count c + 1) mod u32_mod) (token_history c) c in
  let c := update_history token c in
  (match check_budget_max token_index c with
   | Some r => Some (mkDecision r token_index 0)
   | None =>
       match check_completion_confident logits eos c with
       | Some r => Some (mkDecision r token_index 0)
       | None =>
           match check_repetition_guard c with
           | Some r => Some (mkDecision r token_index 0)
           | None =>
               match check_stop_sequences c with
               | Some trim => Some (mkDecision StopSequence token_index trim)
               | None =>
                   if token =? effective_eos eos c then Some (mkDecision Length token_index 0)
                   else None
               end
           end
       end
   end, c).

Definition reset (c : StopController) : StopController := set_progress 0 [] c.

Definition window_bytes (c : StopController) : list byte :=
  le_bytes 4 (generated_count c) ++ concat (map (le_bytes 4) (token_history c)).

Definition window_digest (c : StopController) : B3Hash := hash (window_bytes c).

(** ** The generation loops (inference_pipeline.rs) *)

Context {S : Type}.
Context (run_step : S -> list Z -> list Z -> result (Z * list F32) AosError * S).
Context (after_token : S -> Z -> result unit AosError * S).
Context (encode : string -> result (list Z) AosError).

(** The mutable variables of the loop; [streamed] is what went to the callback. *)
Record GenState : Type := mkGen {
  stop_controller : StopController;
  generated_tokens : list Z;
  current_tokens : list Z;
  streamed : list Z;
  backend : S;
}.

Inductive StepOutcome :=
| Continue (g : GenState)
| Break (r : StopReasonCode) (idx : Z) (g : GenState)
| Fail (e : AosError).

(** [for _ in 0..trim { pop() }] with [trim] at most the length. *)
Definition pop_n (n : nat) (l : list Z) : list Z := take (length l - Nat.min n (length l)) l.

Definition as_u32 (n : nat) : Z := Z.of_nat n mod u32_mod.

(** The input of a step: the prompt first, then the last generated token. *)
Definition input_ids (step : nat) (g : GenState) : result (list Z) AosError :=
  if (step =? 0)%nat then Ok (current_tokens g)
  else match last (generated_tokens g) with
       | Some t => Ok [t]
       | None => Err (Worker "Generated tokens cannot be empty")
       end.

(** The end of an iteration, from the sampled token on. [stream] distinguishes the
    streaming loop, in which the token is handed out before the length check. *)
Definition finish_step (stream : bool) (max_seq_len : nat) (eos : Z) (step : nat)
    (next_token : Z) (logits : list F32) (g : GenState) : StepOutcome :=
  let '(decision, c) := check_stop next_token eos logits (stop_controller g) in
  match decision with
  | Some d =>
      Break (reason d) (token_index d)
        (mkGen c (pop_n (trim_tokens d) (generated_tokens g)) (current_tokens g) (streamed g)
           (backend g))
  | None =>
      let g := mkGen c (generated_tokens g ++ [next_token]) (current_tokens g ++ [next_token])
                 (streamed g) (backend g) in
      let '(handed, g) :=
        if stream then
          let '(r, s) := after_token (backend g) next_token in
          (r, mkGen c (generated_tokens g) (current_tokens g) (streamed g ++ [next_token]) s)
        else (Ok tt, g) in
      match handed with
      | Err e => Fail e
      | Ok _ =>
          if (max_seq_len <=? length (current_tokens g))%nat
          then Break BudgetMax (as_u32 step) g
          else Continue g
      end
  end.

Definition generation_step (stream : bool) (max_seq_len : nat) (eos : Z) (step : nat)
    (g : GenState) : StepOutcome :=
  match input_ids step g with
  | Err e => Fail e
  | Ok ids =>
      let '(r, s) := run_step (backend g) (current_tokens g) ids in
      match r with
      | Err e => Fail e
      | Ok (next_token, logits) =>
          finish_step stream max_seq_len eos step next_token logits
            (mkGen (stop_controller g) (generated_tokens g) (current_tokens g) (streamed g) s)
      end
  end.

(** [for step in 0..max_tokens], with [n] iterations left. *)
Fixpoint generation_loop (stream : bool) (max_seq_len : nat) (eos : Z) (n step : nat)
    (g : GenState) : result (GenState * option (StopReasonCode * Z)) AosError :=
  match n with
  | O => Ok (g, None)
  | Datatypes.S n =>
      match generation_step stream max_seq_len eos step g with
      | Fail e => Err e
      | Break r idx g => Ok (g, Some (r, idx))
      | Continue g => generation_loop stream max_seq_len eos n (Datatypes.S step) g
      end
  end.

Fixpoint tokenize_sequences (seqs : list string) : result (list (list Z)) AosError :=
  match seqs with
  | [] => Ok []
  | s :: seqs' =>
      if (String.length s =? 0)%nat then tokenize_sequences seqs'
      else
        match encode s with
        | Err e => Err e
        | Ok tokens =>
            match tokenize_sequences seqs' with
            | Err e => Err e
            | Ok rest => Ok (if (length tokens =? 0)%nat then rest else tokens :: rest)
            end
        end
  end.

Record Outcome : Type := mkOutcome {
  out_tokens : list Z;
  out_streamed : list Z;
  stop_reason_code : StopReasonCode;
  stop_reason_token_index : Z;
  stop_policy_digest : B3Hash;
}.

Definition stop_or_default (g : GenState) (stop : option (StopReasonCode * Z))
  : StopReasonCode * Z :=
  match stop with Some s => s | None => (BudgetMax, as_u32 (length (generated_tokens g))) end.

(** From the tokenized prompt to the tokens and the stop reason of the response. *)
Definition infer (stream : bool) (max_seq_len : nat) (eos : Z) (max_tokens : nat)
    (stop_policy : option StopPolicySpec) (input_tokens : list Z) (s : S)
  : result Outcome AosError :=
  if (max_seq_len <? length input_tokens)%nat then
    Err (Worker ("Input too long: " +:+ pretty (length input_tokens) +:+ " tokens exceeds max "
                 +:+ pretty max_seq_len))
  else
    match match stop_policy with Some p => tokenize_sequences (stop_sequences p) | None => Ok [] end with
    | Err e => Err e
    | Ok seqs =>
        let c := from_policy_or_default_with_stop_sequences stop_policy (as_u32 max_tokens) seqs in
        match generation_loop stream max_seq_len eos max_tokens 0 (mkGen c [] input_tokens [] s) with
        | Err e => Err e
        | Ok (g, stop) =>
            let '(r, idx) := stop_or_default g stop in
            Ok (mkOutcome (generated_tokens g) (streamed g) r idx (policy_digest c))
        end
    end.

(** ** The window of the history *)

(** The last [n] elements. *)
Definition lastn {A} (n : nat) (l : list A) : list A := drop (length l - n) l.

Lemma lastn_length {A} n (l : list A) : length (lastn n l) = Nat.min n (length l).
Proof. unfold lastn. rewrite length_drop. lia. Qed.

Lemma lastn_all {A} n (l : list A) : (length l <= n)%nat -> lastn n l = l.
Proof. intros Hl. unfold lastn. replace (length l - n)%nat with 0%nat by lia. apply drop_0. Qed.

Lemma lastn_lastn {A} n m (l : list A) : (n <= m)%nat -> lastn n (lastn m l) = lastn n l.
Proof.
  intros Hnm. unfold lastn. rewrite drop_drop, length_drop. f_equal. lia.
Qed.

Lemma lastn_snoc {A} n (l : list A) x : lastn n (lastn n l ++ [x]) = lastn n (l ++ [x]).
Proof.
  unfold lastn. rewrite !length_app, length_drop. simpl.
  rewrite <- (drop_app_le l [x] (length l - n)) by lia.
  rewrite drop_drop. f_equal. lia.
Qed.

Lemma lastn_suffix {A} (s l : list A) : s `suffix_of` l <-> lastn (length s) l = s.
Proof.
  unfold lastn. split.
  - intros [k ->]. rewrite length_app, drop_app_length'; [done|lia].
  - intros <-. exists (take (length l - length s) l). by rewrite take_drop.
Qed.

Lemma lastn_suffix_of {A} (s l : list A) n :
  (length s <= n)%nat -> s `suffix_of` lastn n l <-> s `suffix_of` l.
Proof. intros Hn. by rewrite !lastn_suffix, lastn_lastn. Qed.

Lemma pop_to_lastn window l : pop_to window l = lastn window l.
Proof.
  induction l as [|x l IH]; [done|]. cbn [pop_to].
  destruct (window <? length (x :: l))%nat eqn:E; breflect.
  - rewrite IH. unfold lastn. cbn [length] in *.
    by replace (Datatypes.S (length l) - window)%nat with (Datatypes.S (length l - window)) by lia.
  - by rewrite lastn_all by lia.
Qed.

Lemma foldr_max_le (l : list nat) n : n ∈ l -> (n <= foldr Nat.max 0 l)%nat.
Proof. induction l as [|m l IH]; [by intros ?%elem_of_nil|]. intros [->|Hn]%elem_of_cons; simpl; [lia|]. specialize (IH Hn). lia. Qed.

(** What the controller remembers of a stream: its length and its last tokens. *)
Record tracks (p : StopPolicySpec) (seqs : list (list Z)) (stream : list Z)
    (c : StopController) : Prop := {
  tracks_policy : policy c = p;
  tracks_digest : policy_digest c = digest p;
  tracks_seqs : stop_sequences_tokens c = seqs;
  tracks_max : max_stop_sequence_len c = foldr Nat.max 0%nat (map length seqs);
  tracks_window : history_window c
    = Nat.max (Z.to_nat (repetition_window p)) (foldr Nat.max 0%nat (map length seqs));
  tracks_count : generated_count c = Z.of_nat (length stream);
  tracks_history : token_history c = lastn (history_window c) stream;
}.

Lemma new_tracks p seqs : tracks p seqs [] (new_with_stop_sequences p seqs).
Proof. by split. Qed.

Lemma reset_tracks p seqs stream c : tracks p seqs stream c -> tracks p seqs [] (reset c).
Proof. intros []. by split. Qed.

Lemma push_tracks p seqs stream c token n :
  tracks p seqs stream c -> n = Z.of_nat (length (stream ++ [token])) ->
  tracks p seqs (stream ++ [token])
    (update_history token (set_progress n (token_history c) c)).
Proof.
  intros [] ->. split; simpl; try done.
  by rewrite pop_to_lastn, tracks_history0, lastn_snoc.
Qed.

Lemma preload_tracks p seqs stream tokens c :
  tracks p seqs stream c -> Z.of_nat (length (stream ++ tokens)) < u32_mod ->
  tracks p seqs (stream ++ tokens) (preload_tokens tokens c).
Proof.
  revert stream c. induction tokens as [|t tokens IH]; intros stream c Hc Hlen.
  - by rewrite app_nil_r.
  - rewrite length_app in Hlen. cbn [length] in Hlen.
    change (preload_tokens (t :: tokens) c) with (preload_tokens tokens (preload_token c t)).
    change (stream ++ t :: tokens) with (stream ++ [t] ++ tokens). rewrite (assoc_L (++)). apply IH.
    + apply push_tracks; [done|]. rewrite (tracks_count _ _ _ _ Hc), length_app. simpl.
      unfold u32_max. lia.
    + rewrite !length_app. simpl. lia.
Qed.

(** ** Repetitions *)

(** How often [g] occurs in [l]. *)
Fixpoint occurrences (g l : list Z) : nat :=
  ((if bool_decide (g `prefix_of` l) then 1 else 0)
   + match l with [] => 0 | _ :: l' => occurrences g l' end)%nat.

(** The repetitions the policy forbids: in the last [repetition_window] tokens, an n-gram of
    at least the minimal length, and at most half of the tokens there, occurs more often
    than the threshold. *)
Definition repeats (p : StopPolicySpec) (stream : list Z) : Prop :=
  let w := lastn (Z.to_nat (repetition_window p)) stream in
  exists g, (Z.to_nat (repetition_ngram p) <= length g <= length w / 2)%nat
    /\ (Z.to_nat (repetition_threshold p) < occurrences g w)%nat.

Lemma take_prefix_iff (g l : list Z) : (length g <= length l)%nat ->
  take (length g) l = g <-> g `prefix_of` l.
Proof.
  intros Hl. split.
  - intros <-. apply prefix_take.
  - intros [k ->]. by rewrite take_app_length.
Qed.

Definition count_eq (g : list Z) (grams : list (list Z)) : nat :=
  length (List.filter (fun h => bool_decide (h = g)) grams).

Lemma count_ngrams_lookup grams g :
  default 0%nat (count_ngrams grams !! g) = count_eq g grams.
Proof.
  unfold count_ngrams.
  enough (Hm : forall m : gmap (list Z) nat, default 0%nat
    (foldl (fun counts g => <[g := Datatypes.S (default 0%nat (counts !! g))]> counts) m grams !! g)
    = (default 0 (m !! g) + count_eq g grams)%nat) by (by rewrite Hm).
  induction grams as [|h grams IH]; intros m; cbn [foldl count_eq List.filter length].
  - unfold count_eq. simpl. lia.
  - rewrite IH. unfold count_eq. simpl. case_bool_decide as E.
    + subst. rewrite lookup_insert_eq. simpl. lia.
    + rewrite lookup_insert_ne by done. done.
Qed.

Lemma max_count_lt (n : nat) (m : gmap (list Z) nat) :
  (n < max_count m)%nat <-> exists g, (n < default 0 (m !! g))%nat.
Proof.
  unfold max_count. split.
  - intros Hn. assert (Hx : exists v, v ∈ map snd (map_to_list m) /\ (n < v)%nat).
    { induction (map snd (map_to_list m)) as [|v l IH]; simpl in Hn; [lia|].
      destruct (decide (n < v)%nat) as [Hv|Hv]; [exists v; split; [left|done]|].
      destruct IH as (v' & Hin & Hv'); [lia|]. exists v'. split; [by right|done]. }
    destruct Hx as (v & Hin & Hv). apply list_elem_of_fmap in Hin as ([g v'] & -> & Hg).
    apply elem_of_map_to_list in Hg. exists g. by rewrite Hg.
  - intros [g Hg]. destruct (m !! g) as [v|] eqn:E; simpl in Hg; [|lia].
    eapply Nat.lt_le_trans; [exact Hg|]. apply foldr_max_le, list_elem_of_fmap.
    exists (g, v). split; [done|]. by apply elem_of_map_to_list.
Qed.

Lemma ngrams_cons n x l : (n <= length l)%nat -> ngrams n (x :: l) = take n (x :: l) :: ngrams n l.
Proof.
  intros Hn. unfold ngrams. cbn [length].
  replace (Datatypes.S (length l) - n + 1)%nat with (Datatypes.S (length l - n + 1)) by lia.
  cbn [seq map]. rewrite drop_0. f_equal. rewrite <- seq_shift, List.map_map. done.
Qed.

Lemma occurrences_short g l : (length l < length g)%nat -> occurrences g l = 0%nat.
Proof.
  induction l as [|x l IH]; intros Hl; cbn [occurrences];
    (rewrite bool_decide_false by (intros Hp%prefix_length; lia)); [done|].
  simpl in Hl. rewrite IH; lia.
Qed.

Lemma count_ngrams_occurrences g l : (length g <= length l)%nat ->
  count_eq g (ngrams (length g) l) = occurrences g l.
Proof.
  induction l as [|x l IH]; intros Hl.
  - destruct g; [done|simpl in Hl; lia].
  - cbn [occurrences]. destruct (decide (length g <= length l)%nat) as [Hg|Hg].
    + rewrite ngrams_cons by done. unfold count_eq. cbn [List.filter].
      rewrite (bool_decide_ext _ _ (take_prefix_iff g (x :: l) Hl)).
      rewrite <- IH by done. case_bool_decide; done.
    + rewrite (occurrences_short g l) by lia. cbn [length] in Hl.
      unfold ngrams. cbn [length].
      replace (Datatypes.S (length l) - length g + 1)%nat with 1%nat by lia.
      unfold count_eq. cbn [seq map List.filter]. rewrite drop_0.
      rewrite (bool_decide_ext _ _ (take_prefix_iff g (x :: l) Hl)).
      case_bool_decide; done.
Qed.

Lemma ngrams_length_in n l g : (n <= length l)%nat -> g ∈ ngrams n l -> length g = n.
Proof.
  intros Hn. unfold ngrams. intros Hg. apply list_elem_of_fmap in Hg as (i & -> & Hi).
  apply elem_of_seq in Hi. rewrite length_take, length_drop. lia.
Qed.

Lemma count_eq_pos g grams : (0 < count_eq g grams)%nat -> g ∈ grams.
Proof.
  unfold count_eq. intros Hc.
  destruct (List.filter (fun h => bool_decide (h = g)) grams) as [|h l] eqn:E; [simpl in Hc; lia|].
  assert (Hin : In h (List.filter (fun h => bool_decide (h = g)) grams)) by (rewrite E; by left).
  apply filter_In in Hin as [Hin Hh]. breflect. subst. by apply list_elem_of_In.
Qed.

Lemma repetition_guard_spec p seqs stream c :
  tracks p seqs stream c ->
  check_repetition_guard c = Some RepetitionGuard <-> repeats p stream.
Proof.
  intros Hc. unfold check_repetition_guard, repeats. rewrite (tracks_policy _ _ _ _ Hc).
  fold (lastn (Z.to_nat (repetition_window p)) (token_history c)).
  rewrite (tracks_history _ _ _ _ Hc), lastn_lastn by (rewrite (tracks_window _ _ _ _ Hc); lia).
  set (w := lastn _ stream). set (lo := Z.to_nat (repetition_ngram p)).
  set (k := Z.to_nat (repetition_threshold p)).
  pose proof (Nat.div_mod_eq (length w) 2) as Hd.
  pose proof (Nat.mod_upper_bound (length w) 2 ltac:(lia)) as Hm.
  destruct (length w <? lo * 2)%nat eqn:Es; breflect.
  { split; [done|]. intros (g & Hg & _). lia. }
  assert (Hex : existsb (fun n => k <? max_count (count_ngrams (ngrams n w)))%nat
      (seq lo (Datatypes.S (length w / 2) - lo)) = true
    <-> exists g, (lo <= length g <= length w / 2)%nat /\ (k < occurrences g w)%nat).
  { rewrite existsb_exists. split.
    - intros (n & Hn & Hk). apply in_seq in Hn. breflect. apply max_count_lt in Hk as (g & Hg).
      rewrite count_ngrams_lookup in Hg.
      assert (Hgn : length g = n) by (apply (ngrams_length_in n w); [lia|apply count_eq_pos; lia]).
      exists g. subst n. rewrite count_ngrams_occurrences in Hg by lia. split; [lia|done].
    - intros (g & Hg & Hk). exists (length g). split; [apply in_seq; lia|].
      apply Nat.ltb_lt, max_count_lt. exists g.
      by rewrite count_ngrams_lookup, count_ngrams_occurrences by lia. }
  destruct (existsb _ _); split; intros H'; try done; [by apply Hex|by apply Hex in H'].
Qed.

(** ** Verdicts *)

Definition ends_with (stream s : list Z) : Prop := s <> [] /\ s `suffix_of` stream.

Definition confident (p : StopPolicySpec) (eos : Z) (logits : list F32) : Prop :=
  let idx := Z.to_nat (default eos (eos_token_id p)) in
  (idx < length logits)%nat /\ completion_threshold_q15 p <= eos_prob_q15 logits idx.

(** The decision on [token] after [stream], from the whole stream. *)
Inductive verdict (p : StopPolicySpec) (seqs : list (list Z)) (eos : Z) (logits : list F32)
    (stream : list Z) (token : Z) : option StopDecision -> Prop :=
| Verdict_budget :
    output_max_tokens p <= Z.of_nat (length stream) ->
    verdict p seqs eos logits stream token
      (Some (mkDecision BudgetMax (Z.of_nat (length stream)) 0))
| Verdict_confident :
    Z.of_nat (length stream) < output_max_tokens p -> confident p eos logits ->
    verdict p seqs eos logits stream token
      (Some (mkDecision CompletionConfident (Z.of_nat (length stream)) 0))
| Verdict_repeats :
    Z.of_nat (length stream) < output_max_tokens p -> ~ confident p eos logits ->
    repeats p (stream ++ [token]) ->
    verdict p seqs eos logits stream token
      (Some (mkDecision RepetitionGuard (Z.of_nat (length stream)) 0))
| Verdict_sequence before s after :
    Z.of_nat (length stream) < output_max_tokens p -> ~ confident p eos logits ->
    ~ repeats p (stream ++ [token]) ->
    seqs = before ++ s :: after ->
    Forall (fun s' => ~ ends_with (stream ++ [token]) s') before ->
    ends_with (stream ++ [token]) s ->
    verdict p seqs eos logits stream token
      (Some (mkDecision StopSequence (Z.of_nat (length stream)) (length s - 1)))
| Verdict_eos :
    Z.of_nat (length stream) < output_max_tokens p -> ~ confident p eos logits ->
    ~ repeats p (stream ++ [token]) ->
    Forall (fun s => ~ ends_with (stream ++ [token]) s) seqs ->
    token = default eos (eos_token_id p) ->
    verdict p seqs eos logits stream token
      (Some (mkDecision Length (Z.of_nat (length stream)) 0))
| Verdict_continue :
    Z.of_nat (length stream) < output_max_tokens p -> ~ confident p eos logits ->
    ~ repeats p (stream ++ [token]) ->
    Forall (fun s => ~ ends_with (stream ++ [token]) s) seqs ->
    token <> default eos (eos_token_id p) ->
    verdict p seqs eos logits stream token None.

Lemma zip_all_eq (l k : list Z) : length l = length k ->
  forallb (fun '(a, b) => a =? b) (zip l k) = true <-> l = k.
Proof.
  revert k. induction l as [|x l IH]; intros [|y k] Hl; simpl in *; try done; [lia..|].
  rewrite andb_true_iff, Z.eqb_eq, IH by lia. split; [intros [-> ->]|intros [= -> ->]]; done.
Qed.

Lemma first_match_cons history s seqs :
  first_match history (s :: seqs)
  = if bool_decide (ends_with history s) then Some (length s - 1)%nat else first_match history seqs.
Proof.
  cbn [first_match]. unfold ends_with.
  destruct (length s =? 0)%nat eqn:E0; breflect.
  { destruct s; [|done]. by rewrite bool_decide_false by (by intros [? _]). }
  destruct (length history <? length s)%nat eqn:E1; breflect; cbn [orb].
  { rewrite bool_decide_false; [done|]. intros [_ Hs%suffix_length]. lia. }
  fold (lastn (length s) history).
  assert (Hs : forallb (fun '(a, b) => a =? b) (zip (lastn (length s) history) s) = true
               <-> s <> [] /\ s `suffix_of` history).
  { rewrite zip_all_eq by (rewrite lastn_length; lia). rewrite lastn_suffix.
    split; [|by intros [_ ?]]. intros ?. split; [by intros ->|done]. }
  case_bool_decide as Hb; [by rewrite (proj2 Hs Hb)|].
  destruct (forallb _ _); [|done]. by destruct Hb; apply Hs.
Qed.

Lemma first_match_some history seqs t :
  first_match history seqs = Some t ->
  exists before s after, seqs = before ++ s :: after /\ t = (length s - 1)%nat
    /\ Forall (fun s' => ~ ends_with history s') before /\ ends_with history s.
Proof.
  induction seqs as [|s seqs IH]; [done|]. rewrite first_match_cons. case_bool_decide as Hs.
  - intros [= <-]. by exists [], s, seqs.
  - intros (before & s' & after & -> & -> & Hb & Hs')%IH.
    exists (s :: before), s', after. split_and!; try done. by constructor.
Qed.

Lemma first_match_none history seqs :
  first_match history seqs = None -> Forall (fun s => ~ ends_with history s) seqs.
Proof.
  induction seqs as [|s seqs IH]; [constructor|]. rewrite first_match_cons.
  case_bool_decide; [done|]. intros Hn. constructor; auto.
Qed.

Lemma seqs_max_le (seqs : list (list Z)) s :
  s ∈ seqs -> (length s <= foldr Nat.max 0 (map length seqs))%nat.
Proof. intros Hs. apply foldr_max_le, list_elem_of_fmap. by exists s. Qed.

(** The window is long enough for every stop sequence. *)
Lemma tracks_ends_with p seqs stream c s :
  tracks p seqs stream c -> s ∈ seqs ->
  ends_with (token_history c) s <-> ends_with stream s.
Proof.
  intros Hc Hs. unfold ends_with. rewrite (tracks_history _ _ _ _ Hc), lastn_suffix_of; [done|].
  rewrite (tracks_window _ _ _ _ Hc).
  pose proof (seqs_max_le seqs s Hs). lia.
Qed.

Lemma stop_sequences_some p seqs stream c t :
  tracks p seqs stream c -> check_stop_sequences c = Some t ->
  exists before s after, seqs = before ++ s :: after /\ t = (length s - 1)%nat
    /\ Forall (fun s' => ~ ends_with stream s') before /\ ends_with stream s.
Proof.
  intros Hc. unfold check_stop_sequences. rewrite (tracks_seqs _ _ _ _ Hc).
  destruct (_ || _); [done|]. intros (before & s & after & -> & -> & Hb & Hs)%first_match_some.
  exists before, s, after. split_and!; try done.
  - rewrite Forall_forall in *. intros s' Hs'.
    rewrite <- (tracks_ends_with _ _ _ _ s' Hc); [by apply Hb|]. apply elem_of_app. by left.
  - apply (tracks_ends_with _ _ _ _ s Hc); [|done]. apply elem_of_app. right. by left.
Qed.

Lemma stop_sequences_none p seqs stream c :
  tracks p seqs stream c -> check_stop_sequences c = None ->
  Forall (fun s => ~ ends_with stream s) seqs.
Proof.
  intros Hc. unfold check_stop_sequences. rewrite (tracks_seqs _ _ _ _ Hc), (tracks_max _ _ _ _ Hc).
  destruct (length seqs =? 0)%nat eqn:E0; breflect.
  { destruct seqs; [constructor|done]. }
  destruct (foldr Nat.max 0 (map length seqs) =? 0)%nat eqn:E1; breflect; cbn [orb]; intros Hn;
    apply Forall_forall; intros s Hs.
  - pose proof (seqs_max_le seqs s Hs) as Hl.
    destruct s; [by intros [? _]|simpl in Hl; lia].
  - apply first_match_none in Hn. rewrite Forall_forall in Hn.
    rewrite <- (tracks_ends_with _ _ _ _ s Hc Hs). by apply Hn.
Qed.

Lemma completion_spec p seqs stream c eos logits :
  tracks p seqs stream c ->
  check_completion_confident logits eos c
  = if bool_decide (confident p eos logits) then Some CompletionConfident else None.
Proof.
  intros Hc. unfold check_completion_confident, effective_eos, confident.
  rewrite (tracks_policy _ _ _ _ Hc). set (idx := Z.to_nat _). cbv zeta.
  destruct (length logits <=? idx)%nat eqn:E1; breflect.
  { by rewrite bool_decide_false by lia. }
  destruct (completion_threshold_q15 p <=? eos_prob_q15 logits idx) eqn:E2; breflect.
  - by rewrite bool_decide_true by lia.
  - by rewrite bool_decide_false by lia.
Qed.

Lemma repetition_answer c :
  check_repetition_guard c = Some RepetitionGuard \/ check_repetition_guard c = None.
Proof. unfold check_repetition_guard. branch; auto. Qed.

Lemma check_stop_spec p seqs stream c token eos logits :
  tracks p seqs stream c -> Z.of_nat (length stream) + 1 < u32_mod ->
  verdict p seqs eos logits stream token (check_stop token eos logits c).1
  /\ tracks p seqs (stream ++ [token]) (check_stop token eos logits c).2.
Proof.
  intros Hc Hlen.
  assert (Hn : (generated_count c + 1) mod u32_mod = Z.of_nat (length (stream ++ [token]))).
  { rewrite (tracks_count _ _ _ _ Hc), length_app. simpl. rewrite Z.mod_small; [lia|].
    unfold u32_mod in *. lia. }
  pose proof (push_tracks _ _ _ _ token _ Hc Hn) as Hc'. unfold check_stop.
  set (c' := update_history token _) in *. cbn [fst snd]. split; [|done].
  unfold check_budget_max. rewrite (tracks_policy _ _ _ _ Hc'), (tracks_count _ _ _ _ Hc).
  destruct (output_max_tokens p <=? _) eqn:Eb; breflect; [by constructor|].
  rewrite (completion_spec _ _ _ _ eos logits Hc'). case_bool_decide as Hconf; [by constructor|].
  pose proof (repetition_guard_spec _ _ _ _ Hc') as Hr.
  destruct (repetition_answer c') as [Er|Er]; rewrite Er in *; [constructor; by try apply Hr|].
  assert (Hnr : ~ repeats p (stream ++ [token])) by (intros ?%Hr; done). clear Hr.
  destruct (check_stop_sequences c') as [t|] eqn:Es.
  - apply (stop_sequences_some _ _ _ _ _ Hc') in Es as (before & s & after & Hs & -> & ? & ?).
    by eapply Verdict_sequence.
  - apply (stop_sequences_none _ _ _ _ Hc') in Es. unfold effective_eos.
    rewrite (tracks_policy _ _ _ _ Hc').
    destruct (token =? _) eqn:Et; breflect; [by apply Verdict_eos|by apply Verdict_continue].
Qed.

(** Feeding a controller sampled tokens. *)
Definition feed_tokens (fed : list (Z * Z * list F32)) (c : StopController) : StopController :=
  foldl (fun c '(token, eos, logits) => (check_stop token eos logits c).2) c fed.

Lemma feed_tracks p seqs stream fed c :
  tracks p seqs stream c -> Z.of_nat (length stream + length fed) < u32_mod ->
  tracks p seqs (stream ++ map (fun x => x.1.1) fed) (feed_tokens fed c).
Proof.
  revert stream c. induction fed as [|[[t e] lg] fed IH]; intros stream c Hc Hlen.
  - by rewrite app_nil_r.
  - cbn [length] in Hlen. cbn [map fst].
    change (feed_tokens ((t, e, lg) :: fed) c) with (feed_tokens fed (check_stop t e lg c).2).
    change (stream ++ t :: map (fun x => x.1.1) fed) with (stream ++ [t] ++ map (fun x => x.1.1) fed).
    rewrite (assoc_L (++)). apply IH.
    + apply check_stop_spec; [done|lia].
    + rewrite length_app. simpl. lia.
Qed.

(** [C24] The decision of the controller, on every branch, is the one read off the whole
    stream of preloaded and sampled tokens: the bounded window it keeps loses nothing that
    matters, reasons are tried in their documented order, the n-gram counts are exact, and
    a stop sequence is found wherever the stream ends with one. *)
Theorem stop_verdict p seqs free fed token eos logits :
  let c := feed_tokens fed (preload_tokens free (new_with_stop_sequences p seqs)) in
  Z.of_nat (length free + length fed) + 1 < u32_mod ->
  verdict p seqs eos logits (free ++ map (fun x => x.1.1) fed) token
    (check_stop token eos logits c).1.
Proof.
  intros c Hlen. apply check_stop_spec.
  - apply feed_tracks; [|lia]. apply (preload_tracks p seqs [] free); [apply new_tracks|].
    simpl. lia.
  - rewrite length_app, length_map. lia.
Qed.

(** ** Generation *)

(** Every token of [l] was let through. *)
Definition accepted (p : StopPolicySpec) (seqs : list (list Z)) (eos : Z) (l : list Z) : Prop :=
  forall k t r, l = k ++ t :: r ->
    Z.of_nat (length k) < output_max_tokens p /\ ~ repeats p (k ++ [t])
    /\ Forall (fun s => ~ ends_with (k ++ [t]) s) seqs /\ t <> default eos (eos_token_id p).

Lemma accepted_nil p seqs eos : accepted p seqs eos [].
Proof. by intros [|? k] t r. Qed.

Lemma accepted_snoc p seqs eos logits l t :
  accepted p seqs eos l -> verdict p seqs eos logits l t None -> accepted p seqs eos (l ++ [t]).
Proof.
  intros Hl Hv k t' r E. inversion Hv; subst.
  destruct r as [|x r _] using rev_ind.
  - apply app_inj_tail in E as [-> ->]. done.
  - rewrite app_comm_cons, (assoc_L (++)) in E. apply app_inj_tail in E as [-> _].
    by apply (Hl k t' r).
Qed.

Lemma accepted_prefix p seqs eos l k :
  accepted p seqs eos (l ++ k) -> accepted p seqs eos l.
Proof.
  intros Hl k' t r ->. apply (Hl k' t (r ++ k)). by rewrite <- (assoc_L (++)).
Qed.

Lemma accepted_clean p seqs eos l :
  accepted p seqs eos l ->
  Z.of_nat (length l) <= Z.max 0 (output_max_tokens p)
  /\ default eos (eos_token_id p) ∉ l
  /\ (forall s k r, s ∈ seqs -> s <> [] -> l <> k ++ s ++ r)
  /\ (forall k r, l = k ++ r -> k <> [] -> ~ repeats p k).
Proof.
  intros Hl. split_and!.
  - destruct l as [|t l _] using rev_ind; [simpl; lia|].
    destruct (Hl l t [] eq_refl) as [Hb _]. rewrite length_app. simpl. lia.
  - intros (k & r & ->)%list_elem_of_split. by destruct (Hl k _ r eq_refl) as (_ & _ & _ & ?).
  - intros s k r Hs Hne ->. destruct s as [|t s _] using rev_ind; [done|].
    destruct (Hl (k ++ s) t r) as (_ & _ & Hf & _).
    { by rewrite <- !(assoc_L (++)). }
    rewrite Forall_forall in Hf. apply (Hf _ Hs). split; [done|].
    exists k. by rewrite (assoc_L (++)).
  - intros k r -> Hk. destruct k as [|t k _] using rev_ind; [done|].
    destruct (Hl k t r) as (_ & Hr & _); [|done]. by rewrite <- (assoc_L (++)).
Qed.

(** The state between two iterations. *)
Record running (p : StopPolicySpec) (seqs : list (list Z)) (stream : bool) (eos : Z)
    (max_seq_len : nat) (input : list Z) (step : nat) (g : GenState) : Prop := {
  run_tracks : tracks p seqs (generated_tokens g) (stop_controller g);
  run_accepted : accepted p seqs eos (generated_tokens g);
  run_current : current_tokens g = input ++ generated_tokens g;
  run_streamed : streamed g = if stream then generated_tokens g else [];
  run_step_no : length (generated_tokens g) = step;
  run_fits : step = 0%nat \/ (length (current_tokens g) < max_seq_len)%nat;
}.

(** How an iteration, or the loop, ends: [all] are the tokens let through. *)
Definition stopped (p : StopPolicySpec) (seqs : list (list Z)) (eos : Z) (max_seq_len : nat)
    (input : list Z) (all : list Z) (r : StopReasonCode) (idx : Z) (tokens : list Z) : Prop :=
  (exists token logits d, verdict p seqs eos logits all token (Some d)
     /\ r = reason d /\ idx = token_index d /\ tokens = pop_n (trim_tokens d) all)
  \/ (r = BudgetMax /\ idx = as_u32 (length all - 1) /\ tokens = all
      /\ (max_seq_len <= length input + length all)%nat).

Lemma generation_step_spec p seqs stream eos max_seq_len input step g :
  running p seqs stream eos max_seq_len input step g -> Z.of_nat step + 1 < u32_mod ->
  match generation_step stream max_seq_len eos step g with
  | Fail _ => True
  | Continue g' => running p seqs stream eos max_seq_len input (Datatypes.S step) g'
  | Break r idx g' =>
      exists all, accepted p seqs eos all /\ (step <= length all <= step + 1)%nat
        /\ (length all = step \/ step = 0 \/ length input + step < max_seq_len)%nat
        /\ streamed g' = (if stream then all else [])
        /\ stopped p seqs eos max_seq_len input all r idx (generated_tokens g')
  end.
Proof.
  intros Hg Hstep. unfold generation_step. destruct (input_ids step g) as [ids|e]; [|done].
  destruct (run_step _ _ _) as [[[t logits]|e] s]; [|done]. unfold finish_step.
  cbn [stop_controller generated_tokens current_tokens streamed backend].
  destruct Hg as [Ht Ha Hcur Hstr Hno Hfit].
  destruct (check_stop_spec _ _ _ _ t eos logits Ht) as [Hv Ht']; [lia|].
  destruct (check_stop t eos logits (stop_controller g)) as [d c] eqn:Ec.
  cbn [fst snd] in Hv, Ht'. destruct d as [d|].
  - exists (generated_tokens g). split_and!; try done; [lia|lia|by left|].
    left. by exists t, logits, d.
  - assert (Hnext : forall s' str', str' = (if stream then generated_tokens g ++ [t] else []) ->
      let g' := mkGen c (generated_tokens g ++ [t]) (current_tokens g ++ [t]) str' s' in
      match (if (max_seq_len <=? length (current_tokens g'))%nat
             then Break BudgetMax (as_u32 step) g' else Continue g') with
      | Fail _ => True
      | Continue g' => running p seqs stream eos max_seq_len input (Datatypes.S step) g'
      | Break r idx g' =>
          exists all, accepted p seqs eos all /\ (step <= length all <= step + 1)%nat
            /\ (length all = step \/ step = 0 \/ length input + step < max_seq_len)%nat
            /\ streamed g' = (if stream then all else [])
            /\ stopped p seqs eos max_seq_len input all r idx (generated_tokens g')
      end).
    { intros s' str' Hstr'. cbv zeta. cbn [current_tokens].
      pose proof (accepted_snoc _ _ _ _ _ _ Ha Hv) as Ha'.
      assert (Hlen : length (generated_tokens g ++ [t]) = Datatypes.S step)
        by (rewrite length_app; simpl; lia).
      rewrite Hcur, <- (assoc_L (++)), length_app, Hlen.
      destruct (max_seq_len <=? _)%nat eqn:E; breflect.
      - exists (generated_tokens g ++ [t]). cbn [streamed generated_tokens].
        split_and!; try done; [lia|lia| |].
        + rewrite Hcur, length_app in Hfit. lia.
        + right. split_and!; try done; [f_equal|]; lia.
      - split; cbn [stop_controller generated_tokens current_tokens streamed]; try done.
        right. rewrite length_app, Hlen. lia. }
    destruct stream; cbn [backend generated_tokens current_tokens streamed] in *.
    + destruct (after_token s t) as [[[]|e] s']; [|done]. apply Hnext. by rewrite Hstr.
    + by apply Hnext.
Qed.

Lemma generation_loop_spec p seqs stream eos max_seq_len input n step g g' stop :
  running p seqs stream eos max_seq_len input step g -> Z.of_nat (step + n) < u32_mod ->
  generation_loop stream max_seq_len eos n step g = Ok (g', stop) ->
  exists all, accepted p seqs eos all /\ (length all <= step + n)%nat
    /\ (length all <= 1 \/ length input + length all <= max_seq_len)%nat
    /\ streamed g' = (if stream then all else [])
    /\ match stop with
       | Some (r, idx) => stopped p seqs eos max_seq_len input all r idx (generated_tokens g')
       | None => generated_tokens g' = all /\ length all = (step + n)%nat
       end.
Proof.
  revert step g. induction n as [|n IH]; intros step g Hg Hn Hloop; cbn [generation_loop] in Hloop.
  - injection Hloop as <- <-. destruct Hg as [_ Ha Hcur Hstr Hno Hfit].
    rewrite Hcur, length_app in Hfit.
    exists (generated_tokens g). split_and!; try done; lia.
  - pose proof (generation_step_spec _ _ _ _ _ _ _ _ Hg ltac:(lia)) as Hstep.
    destruct (generation_step stream max_seq_len eos step g) as [g1|r idx g1|e]; [| |done].
    + destruct (IH _ _ Hstep ltac:(lia) Hloop) as (all & ? & ? & ? & ? & Hs).
      exists all. split_and!; try done; [lia|]. destruct stop as [[]|]; [done|].
      destruct Hs. split; [done|lia].
    + injection Hloop as <- <-. destruct Hstep as (all & ? & ? & Hfit & ? & ?).
      pose proof (run_fits _ _ _ _ _ _ _ _ Hg) as Hf.
      rewrite (run_current _ _ _ _ _ _ _ _ Hg), length_app, (run_step_no _ _ _ _ _ _ _ _ Hg) in Hf.
      exists all. split_and!; try done; lia.
Qed.

Lemma tokenized_nonempty seqs tokens : tokenize_sequences seqs = Ok tokens -> Forall (fun s => s <> []) tokens.
Proof.
  revert tokens. induction seqs as [|s seqs IH]; intros tokens; simpl.
  { intros [= <-]. constructor. }
  destruct (String.length s =? 0)%nat; [apply IH|]. destruct (encode s) as [ts|]; [|done].
  destruct (tokenize_sequences seqs) as [rest|]; [|done]. intros [= <-].
  destruct (length ts =? 0)%nat eqn:E; breflect; [by apply IH|]. constructor; [by intros ->|by apply IH].
Qed.

(** What the request's policy amounts to. *)
Definition effective_policy (stop_policy : option StopPolicySpec) (max_tokens : nat)
  : StopPolicySpec :=
  match stop_policy with Some p => p | None => policy_new (as_u32 max_tokens) end.

Definition tokenized (stop_policy : option StopPolicySpec) : result (list (list Z)) AosError :=
  match stop_policy with Some p => tokenize_sequences (stop_sequences p) | None => Ok [] end.

Lemma pop_n_prefix n l : exists r, l = pop_n n l ++ r.
Proof. unfold pop_n. eexists. symmetry. apply take_drop. Qed.

Lemma stopped_prefix p seqs eos max_seq_len input all r idx tokens :
  stopped p seqs eos max_seq_len input all r idx tokens -> exists k, all = tokens ++ k.
Proof.
  intros [(t & lg & d & _ & _ & _ & ->)|(_ & _ & -> & _)].
  - apply pop_n_prefix.
  - exists []. by rewrite app_nil_r.
Qed.

Lemma initial_running p seqs stream eos max_seq_len input s :
  running p seqs stream eos max_seq_len input 0
    (mkGen (new_with_stop_sequences p seqs) [] input [] s).
Proof.
  split; cbn; [apply new_tracks|apply accepted_nil|by rewrite app_nil_r|by destruct stream|done|by left].
Qed.

(** The run behind a response. *)
Lemma infer_run stream max_seq_len eos max_tokens pol input s out :
  infer stream max_seq_len eos max_tokens pol input s = Ok out ->
  Z.of_nat max_tokens < u32_mod ->
  let p := effective_policy pol max_tokens in
  exists seqs all, tokenized pol = Ok seqs /\ accepted p seqs eos all
    /\ (length all <= max_tokens)%nat
    /\ (length all <= 1 \/ length input + length all <= max_seq_len)%nat
    /\ out_streamed out = (if stream then all else [])
    /\ stop_policy_digest out = digest p
    /\ (stopped p seqs eos max_seq_len input all (stop_reason_code out)
          (stop_reason_token_index out) (out_tokens out)
        \/ (stop_reason_code out = BudgetMax /\ out_tokens out = all
            /\ stop_reason_token_index out = Z.of_nat max_tokens /\ length all = max_tokens)).
Proof.
  intros Hi Hmax p. unfold infer in Hi. fold (tokenized pol) in Hi.
  destruct (max_seq_len <? length input)%nat; [done|].
  destruct (tokenized pol) as [seqs|] eqn:Et; [|done].
  unfold from_policy_or_default_with_stop_sequences in Hi. fold (effective_policy pol max_tokens) in Hi.
  fold p in Hi. set (c := new_with_stop_sequences p seqs) in Hi.
  destruct (generation_loop _ _ _ _ _ _) as [[g stop]|] eqn:El; [|done].
  destruct (generation_loop_spec _ _ _ _ _ _ max_tokens _ _ _ _
    (initial_running _ _ _ _ _ _ _) Hmax El) as (all & Ha & Hn & Hf & Hs & Hstop).
  exists seqs, all. destruct (stop_or_default g stop) as [r idx] eqn:Es. injection Hi as <-. cbn.
  split_and!; try done.
  unfold stop_or_default in Es. destruct stop as [[r' idx']|]; injection Es as <- <-; [by left|].
  destruct Hstop as [-> Hl]. right. split_and!; try done. unfold as_u32.
  rewrite Hl, Z.mod_small; simpl; lia.
Qed.

(** [C6] The output of a run is clean, however the backend behaves: at most the requested
    and the budgeted number of tokens, at most one token unless prompt and output together
    fit the model's sequence length, no end-of-sequence token, no stop sequence anywhere in
    it, no forbidden repetition in any prefix; and the policy that was applied is the one
    whose digest is reported. *)
Theorem infer_output_clean stream max_seq_len eos max_tokens pol input s out :
  infer stream max_seq_len eos max_tokens pol input s = Ok out ->
  Z.of_nat max_tokens < u32_mod ->
  let p := effective_policy pol max_tokens in
  (length (out_tokens out) <= max_tokens)%nat
  /\ Z.of_nat (length (out_tokens out)) <= Z.max 0 (output_max_tokens p)
  /\ (length (out_tokens out) <= 1 \/ length input + length (out_tokens out) <= max_seq_len)%nat
  /\ default eos (eos_token_id p) ∉ out_tokens out
  /\ (forall seqs sq k r, tokenized pol = Ok seqs -> sq ∈ seqs -> out_tokens out <> k ++ sq ++ r)
  /\ (forall k r, out_tokens out = k ++ r -> k <> [] -> ~ repeats p k)
  /\ stop_policy_digest out = digest p.
Proof.
  intros Hi Hmax p.
  destruct (infer_run _ _ _ _ _ _ _ _ Hi Hmax) as (seqs & all & Ht & Ha & Hn & Hf & _ & Hd & Hs).
  fold p in Ha, Hd, Hs.
  assert (Hp : exists k, all = out_tokens out ++ k).
  { destruct Hs as [Hs|(_ & -> & _)]; [by eapply stopped_prefix|]. exists []. by rewrite app_nil_r. }
  destruct Hp as [k ->]. apply accepted_prefix in Ha. rewrite length_app in Hn, Hf.
  apply accepted_clean in Ha as (? & ? & Hseq & ?). split_and!; try done; [lia|lia|].
  intros seqs' sq k' r Ht' Hin. rewrite Ht in Ht'. injection Ht' as <-. apply Hseq; [done|].
  assert (Hne : Forall (fun s => s <> []) seqs).
  { unfold tokenized in Ht. destruct pol; [by eapply tokenized_nonempty|]. by injection Ht as <-. }
  rewrite Forall_forall in Hne. by apply Hne.
Qed.

Lemma pop_n_app n k r : n = length r -> pop_n n (k ++ r) = k.
Proof. intros ->. unfold pop_n. rewrite length_app. apply take_app_length'. lia. Qed.

(** A stop sequence is cut off exactly: when a streaming run stops for one, the tokens
    handed to the client are the tokens of the response followed by all but the last token
    of a stop sequence. *)
Theorem stop_sequence_cut max_seq_len eos max_tokens pol input s out :
  infer true max_seq_len eos max_tokens pol input s = Ok out ->
  Z.of_nat max_tokens < u32_mod -> stop_reason_code out = StopSequence ->
  exists seqs sq last, tokenized pol = Ok seqs /\ sq ++ [last] ∈ seqs
    /\ out_streamed out = out_tokens out ++ sq
    /\ stop_reason_token_index out = Z.of_nat (length (out_streamed out)).
Proof.
  intros Hi Hmax Hr.
  destruct (infer_run _ _ _ _ _ _ _ _ Hi Hmax) as (seqs & all & Ht & _ & _ & _ & Hst & _ & Hs).
  destruct Hs as [[(t & lg & d & Hv & Er & Ei & Et)|(E & _)]|(E & _)]; [|congruence..].
  rewrite Hr in Er. inversion Hv; subst d; simpl in *; try done.
  destruct H5 as [Hne [k Hk]]. destruct s0 as [|x sq _] using rev_ind; [done|].
  rewrite (assoc_L (++)) in Hk. apply app_inj_tail in Hk as [-> ->].
  exists seqs, sq, x. rewrite Hst, Ei, Et. split_and!; try done.
  - subst seqs. apply elem_of_app. right. by left.
  - f_equal. symmetry. apply pop_n_app. rewrite length_app. simpl. lia.
Qed.

Section Returns.
Hypothesis run_step_ok : forall s cur ids, is_ok (run_step s cur ids).1 = true.
Hypothesis after_token_ok : forall s t, is_ok (after_token s t).1 = true.

Lemma generation_step_returns p seqs stream eos max_seq_len input step g :
  running p seqs stream eos max_seq_len input step g ->
  forall e, generation_step stream max_seq_len eos step g <> Fail e.
Proof.
  intros Hg e. unfold generation_step, input_ids.
  assert (Hids : is_ok (input_ids step g) = true).
  { unfold input_ids. destruct step as [|step]; [done|]. simpl.
    pose proof (run_step_no _ _ _ _ _ _ _ _ Hg) as Hl.
    destruct (generated_tokens g) as [|t l _] using rev_ind; [done|]. by rewrite last_snoc. }
  fold (input_ids step g). destruct (input_ids step g) as [ids|]; [|done].
  pose proof (run_step_ok (backend g) (current_tokens g) ids) as Hr.
  destruct (run_step _ _ _) as [[[t lg]|] s']; [|done]. unfold finish_step.
  destruct (check_stop _ _ _ _) as [[d|] c]; [done|]. destruct stream; cbn.
  - pose proof (after_token_ok s' t) as Hh. destruct (after_token s' t) as [[[]|] s'']; [|done].
    by destruct (_ <=? _)%nat.
  - by destruct (_ <=? _)%nat.
Qed.

Lemma generation_loop_returns p seqs stream eos max_seq_len input n step g :
  running p seqs stream eos max_seq_len input step g -> Z.of_nat (step + n) < u32_mod ->
  is_ok (generation_loop stream max_seq_len eos n step g) = true.
Proof.
  revert step g. induction n as [|n IH]; intros step g Hg Hn; [done|]. cbn [generation_loop].
  pose proof (generation_step_spec _ _ _ _ _ _ _ _ Hg ltac:(lia)) as Hs.
  pose proof (generation_step_returns _ _ _ _ _ _ _ _ Hg) as Hr.
  destruct (generation_step stream max_seq_len eos step g) as [g'|r idx g'|e]; [|done|by destruct (Hr e)].
  apply IH; [done|lia].
Qed.

(** [C35] Generation always ends with a response and a stop reason: if the prompt fits, the
    stop sequences can be tokenized, and the backend and the callback do not fail, there is
    a response; the loop's own error for a missing last token cannot occur. *)
Theorem infer_returns stream max_seq_len eos max_tokens pol input s seqs :
  (length input <= max_seq_len)%nat -> tokenized pol = Ok seqs -> Z.of_nat max_tokens < u32_mod ->
  exists out, infer stream max_seq_len eos max_tokens pol input s = Ok out.
Proof.
  intros Hin Ht Hmax. unfold infer. fold (tokenized pol). rewrite Ht.
  destruct (max_seq_len <? length input)%nat eqn:E; breflect; [lia|].
  unfold from_policy_or_default_with_stop_sequences. fold (effective_policy pol max_tokens).
  set (p := effective_policy pol max_tokens). set (c := new_with_stop_sequences p seqs).
  pose proof (generation_loop_returns p seqs stream eos max_seq_len input max_tokens 0
    (mkGen c [] input [] s) (initial_running _ _ _ _ _ _ _) Hmax) as Hl.
  destruct (generation_loop _ _ _ _ _ _) as [[g stop]|]; [|done].
  destruct (stop_or_default g stop). by eexists.
Qed.
End Returns.

(** ** Digests *)

Definition policy_ok (p : StopPolicySpec) : Prop :=
  is_u32 (output_max_tokens p) /\ is_u32 (default 0 (eos_token_id p))
  /\ - 2 ^ 15 <= completion_threshold_q15 p < 2 ^ 15
  /\ 0 <= repetition_ngram p < 2 ^ 8 /\ 0 <= repetition_window p < 2 ^ 16
  /\ 0 <= repetition_threshold p < 2 ^ 8
  /\ Z.of_nat (length (stop_sequences p)) < u32_mod
  /\ Forall (fun s => Z.of_nat (String.length s) < u32_mod) (stop_sequences p).

(** A fixed-width field at the front of two equal texts. *)
Ltac next_field E F :=
  apply app_inj_1 in E as [F E]; [|by rewrite !le_bytes_length];
  apply le_bytes_inj in F; [|unfold is_u32, u32_mod in *; simpl; lia..].

Lemma u32_of_length n : Z.of_nat n < u32_mod -> Z.of_nat n mod u32_mod = Z.of_nat n.
Proof. intros Hn. rewrite Z.mod_small; [done|]. lia. Qed.

Lemma sequences_bytes_inj l k :
  length l = length k ->
  Forall (fun s => Z.of_nat (String.length s) < u32_mod) l ->
  Forall (fun s => Z.of_nat (String.length s) < u32_mod) k ->
  concat (map sequence_bytes l) = concat (map sequence_bytes k) -> l = k.
Proof.
  revert k. induction l as [|s l IH]; intros [|t k] Hlen Hl Hk E; try done.
  apply Forall_cons in Hl as [Hs Hl]. apply Forall_cons in Hk as [Ht Hk].
  cbn [map concat] in E. unfold sequence_bytes at 1 3 in E.
  rewrite <- !(assoc_L (++)), !u32_of_length in E by done. next_field E F.
  apply app_inj_1 in E as [E1 E2].
  - apply as_bytes_of_inj in E1 as ->. f_equal. apply IH; [simpl in Hlen; lia|done..].
  - assert (Hb : forall x, length (as_bytes_of x) = String.length x).
    { induction x as [|? x IHx]; [done|]. exact (f_equal Datatypes.S IHx). }
    rewrite !Hb. lia.
Qed.

Lemma canonical_bytes_inj p p' :
  policy_ok p -> policy_ok p' -> canonical_bytes p = canonical_bytes p' ->
  output_max_tokens p = output_max_tokens p'
  /\ default 0 (eos_token_id p) = default 0 (eos_token_id p')
  /\ completion_threshold_q15 p = completion_threshold_q15 p'
  /\ repetition_ngram p = repetition_ngram p' /\ repetition_window p = repetition_window p'
  /\ repetition_threshold p = repetition_threshold p' /\ stop_sequences p = stop_sequences p'.
Proof.
  intros (A1 & A2 & A3 & A4 & A5 & A6 & A7 & A8) (B1 & B2 & B3 & B4 & B5 & B6 & B7 & B8) E.
  unfold canonical_bytes in E. rewrite !u32_of_length in E by done.
  pose proof (Z.mod_pos_bound (completion_threshold_q15 p) (2 ^ 16) ltac:(lia)).
  pose proof (Z.mod_pos_bound (completion_threshold_q15 p') (2 ^ 16) ltac:(lia)).
  next_field E F1. next_field E F2. next_field E F3. next_field E F4. next_field E F5.
  next_field E F6. next_field E F7. split_and!; try done.
  - pose proof (Z.div_mod (completion_threshold_q15 p) (2 ^ 16) ltac:(lia)).
    pose proof (Z.div_mod (completion_threshold_q15 p') (2 ^ 16) ltac:(lia)). lia.
  - apply sequences_bytes_inj; try done. lia.
Qed.

(** The policy digest in a receipt commits to the policy: two policies with one digest,
    when the hash does not collide on their texts, agree in every field, the explicit
    end-of-sequence token up to the confusion of none with token 0. *)
Theorem policy_digest_commits p p' :
  policy_ok p -> policy_ok p' ->
  collision_free [canonical_bytes p; canonical_bytes p'] -> digest p = digest p' ->
  p' = mkPolicy (output_max_tokens p) (eos_token_id p') (completion_threshold_q15 p)
         (repetition_ngram p) (repetition_window p) (repetition_threshold p) (stop_sequences p)
  /\ default 0 (eos_token_id p') = default 0 (eos_token_id p).
Proof.
  intros Hp Hp' Hc Hd. eapply (collision_free_inj _ (canonical_bytes p) (canonical_bytes p')) in Hd.
  - destruct (canonical_bytes_inj p p' Hp Hp' Hd) as (-> & -> & -> & -> & -> & -> & ->).
    by destruct p'.
  - exact Hc.
  - by left.
  - right. by left.
Qed.

(** The digest does not tell a policy without an explicit end-of-sequence token from one
    that names token 0, although the two decide differently: under the first the model's
    own token ends generation, under the second it does not. *)
Theorem eos_zero_not_committed p eos :
  eos_token_id p = None -> eos <> 0 ->
  let p' := mkPolicy (output_max_tokens p) (Some 0) (completion_threshold_q15 p)
              (repetition_ngram p) (repetition_window p) (repetition_threshold p)
              (stop_sequences p) in
  digest p' = digest p
  /\ (0 < output_max_tokens p -> ~ repeats p [eos] ->
      (check_stop eos eos [] (new p)).1 = Some (mkDecision Length 0 0)
      /\ (check_stop eos eos [] (new p')).1 = None).
Proof.
  intros He Hz p'. split.
  { unfold digest, canonical_bytes. simpl. by rewrite He. }
  intros Hb Hr.
  destruct (check_stop_spec p [] [] (new p) eos eos [] (new_tracks _ _) ltac:(done)) as [Hv _].
  destruct (check_stop_spec p' [] [] (new p') eos eos [] (new_tracks _ _) ltac:(done)) as [Hv' _].
  assert (Hnc : forall q, ~ confident q eos []) by (intros q [Hq _]; simpl in Hq; lia).
  split; [inversion Hv|inversion Hv']; subst; simpl in *; try lia; try done.
  all: try by destruct before.
  - by destruct (Hnc p).
  - rewrite He in *. done.
  - by destruct (Hnc p').
Qed.

Lemma tokens_bytes_inj l k :
  Forall is_u32 l -> Forall is_u32 k ->
  concat (map (le_bytes 4) l) = concat (map (le_bytes 4) k) -> l = k.
Proof.
  revert k. induction l as [|x l IH]; intros [|y k] Hl Hk E; try done.
  apply Forall_cons in Hl as [Hx Hl]. apply Forall_cons in Hk as [Hy Hk].
  cbn [map concat] in E. next_field E F. subst. f_equal. by apply IH.
Qed.

(** The window digest commits to the number of generated tokens and to the tokens the
    repetition guard and the stop sequences were matched against. *)
Theorem window_digest_commits c c' :
  is_u32 (generated_count c) -> is_u32 (generated_count c') ->
  Forall is_u32 (token_history c) -> Forall is_u32 (token_history c') ->
  collision_free [window_bytes c; window_bytes c'] -> window_digest c = window_digest c' ->
  generated_count c = generated_count c' /\ token_history c = token_history c'.
Proof.
  intros H1 H2 H3 H4 Hc Hd.
  eapply (collision_free_inj _ (window_bytes c) (window_bytes c')) in Hd; [|exact Hc|by left|right; by left].
  unfold window_bytes in Hd. next_field Hd F. split; [done|]. by apply tokens_bytes_inj.
Qed.

End Controller.

Lemma reason_round_trip r : reason_from_str (reason_text r) = Ok r.
Proof. by destruct r. Qed.

(** ** Examples *)

Section Examples.
#[local] Existing Instance toy_blake3.

(** A backend that plays a script, without logits; stop sequences by character code. *)
Definition ex_run (s : list Z) (cur ids : list Z) : result (Z * list unit) AosError * list Z :=
  match s with t :: s => (Ok (t, []), s) | [] => (Ok (0, []), []) end.
Definition ex_after (s : list Z) (t : Z) : result unit AosError * list Z := (Ok tt, s).
Definition ex_encode (s : string) : result (list Z) AosError :=
  Ok (map (fun c => Z.of_N (Ascii.N_of_ascii c)) (String.list_ascii_of_string s)).
Definition ex_prob (logits : list unit) (i : nat) : Z := 0.

Definition ex_policy : StopPolicySpec :=
  mkPolicy 10 (Some 2) 24576 3 32 1 ["xyz"%string].

(** 120, 121, 122 spell the stop sequence. *)
Definition ex_script : list Z := [5; 6; 120; 7; 120; 121; 122; 9].

#[local] Notation ex_out :=
  (infer ex_prob ex_run ex_after ex_encode true 100 1 20 (Some ex_policy) [1; 3] ex_script).

Lemma ex_out_is : exists out, ex_out = Ok out
  /\ out_tokens out = [5; 6; 120; 7] /\ out_streamed out = [5; 6; 120; 7; 120; 121]
  /\ stop_reason_code out = StopSequence /\ stop_reason_token_index out = 6.
Proof. vm_compute. by eexists. Qed.

Lemma stop_verdict_witness :
  verdict ex_prob ex_policy [[120; 121; 122]] 1 [] ([4] ++ [120; 121]) 122
    (check_stop ex_prob 122 1 [] (feed_tokens ex_prob [(120, 1, []); (121, 1, [])]
       (preload_tokens [4] (new_with_stop_sequences ex_policy [[120; 121; 122]])))).1.
Proof.
  apply (stop_verdict ex_prob ex_policy [[120; 121; 122]] [4] [(120, 1, []); (121, 1, [])] 122 1 []).
  done.
Defined.

Lemma infer_output_clean_witness :
  exists out, ex_out = Ok out /\ (length (out_tokens out) <= 20)%nat.
Proof.
  destruct ex_out as [out|] eqn:E; [|by vm_compute in E]. exists out. split; [done|].
  by destruct (infer_output_clean ex_prob ex_run ex_after ex_encode true 100 1 20 (Some ex_policy)
    [1; 3] ex_script out E) as [Hl _].
Defined.

Lemma stop_sequence_cut_witness :
  exists out, ex_out = Ok out
  /\ exists sq last, sq ++ [last] ∈ [[120; 121; 122]] /\ out_streamed out = out_tokens out ++ sq.
Proof.
  destruct ex_out as [out|] eqn:E; [|by vm_compute in E]. exists out. split; [done|].
  destruct (stop_sequence_cut ex_prob ex_run ex_after ex_encode 100 1 20 (Some ex_policy)
    [1; 3] ex_script out E) as (seqs & sq & l & Ht & Hs & Hst & _); [done| |].
  - vm_compute in E. by injection E as <-.
  - exists sq, l. split; [|done]. vm_compute in Ht. by injection Ht as <-.
Defined.

Lemma infer_returns_witness :
  exists out, infer ex_prob ex_run ex_after ex_encode false 100 1 20 (Some ex_policy) [1; 3] ex_script
    = Ok out.
Proof.
  apply (infer_returns ex_prob ex_run ex_after ex_encode) with (seqs := [[120; 121; 122]]).
  - intros s cur ids. by destruct s.
  - by intros s t.
  - simpl. lia.
  - done.
  - done.
Defined.

Lemma ex_policy_ok : policy_ok ex_policy.
Proof.
  unfold policy_ok, is_u32, u32_mod. simpl. split_and!; try lia. constructor; [simpl; lia|constructor].
Qed.

Lemma policy_digest_commits_witness :
  ex_policy = mkPolicy 10 (Some 2) 24576 3 32 1 ["xyz"%string].
Proof.
  apply (policy_digest_commits ex_policy ex_policy).
  - exact ex_policy_ok.
  - exact ex_policy_ok.
  - apply collision_freeb_sound. vm_compute. reflexivity.
  - done.
Defined.

Lemma eos_zero_not_committed_witness :
  digest (mkPolicy 2048 (Some 0) 24576 3 32 1 []) = digest policy_default.
Proof. by apply (eos_zero_not_committed ex_prob policy_default 7). Defined.

Definition ex_controller : StopController :=
  preload_tokens [4; 5] (new policy_default).

Lemma window_digest_commits_witness : token_history ex_controller = [4; 5].
Proof.
  apply (window_digest_commits ex_controller (set_progress 2 [4; 5] ex_controller)).
  - by vm_compute.
  - by vm_compute.
  - by repeat constructor.
  - by repeat constructor.
  - apply collision_freeb_sound. vm_compute. reflexivity.
  - by vm_compute.
Defined.
End Examples.
End StopController.
