(* ===== verification/Limiter.v ===== *)
(** * Resource limits of the worker (adapteros-lora-worker/src/limiter.rs)

    [ResourceLimiter] admits requests: a rate limit, file descriptors, the thread pool, a
    semaphore per kind of work and a memory estimate. Every counter is an atomic, so the
    model has two layers: one function per method, for methods that run undisturbed, and a
    step relation in which threads interleave at each atomic access. Tokio's semaphore is
    the class [Semaphore] with its documented laws. What the code reads from outside is an
    argument: [elapsed], the seconds between [Instant::now()] and the [elapsed()] call on
    the same instant, [now_ms], [open_fds]. The floating-point comparison of the
    descriptor ratio is the parameter [fd_over]. Settings from the environment and the
    jittered retry hint are left out. *)

From S2P Require Import Prelude.
Open Scope Z_scope.

Module Limiter.

(** ** Configuration *)

Inductive WorkloadType := Inference | Training.

(** The semaphore an acquisition goes through: the general one or that of a workload. *)
Inductive Pool := General | Typed (w : WorkloadType).

#[export] Instance WorkloadType_eq_dec : EqDecision WorkloadType.
Proof. solve_decision. Defined.
#[export] Instance Pool_eq_dec : EqDecision Pool.
Proof. solve_decision. Defined.

(** Without the descriptor percentage, which is a float. *)
Record ResourceLimits : Type := mkLimits {
  max_concurrent_requests : nat;
  max_concurrent_inference : nat;
  max_concurrent_training : nat;
  max_tokens_per_second : Z;
  max_memory_per_request : Z;
  max_total_memory : Z;
  max_cpu_time_per_request : Z;
  max_requests_per_minute : Z;
  max_thread_queue_depth : Z;
  thread_pool_size : Z;
}.

(** [available] is what [available_parallelism] answers. *)
Definition default_limits (available : option Z) : ResourceLimits :=
  mkLimits 10 8 2 1000 (50 * 1024 * 1024) 0 300000 100 100
    (match available with Some n => n * 4 | None => 16 end).

Definition positive (parameter : string) : AosError :=
  InvalidRateLimitConfig parameter "0" "must be greater than 0".

(** [fd_ok]: the percentage is in range; [fd_text]: its text. *)
Definition validate (fd_ok : bool) (fd_text : string) (l : ResourceLimits)
  : result unit AosError :=
  if (max_concurrent_requests l =? 0)%nat then Err (positive "max_concurrent_requests")
  else if (max_concurrent_inference l =? 0)%nat then Err (positive "max_concurrent_inference")
  else if (max_concurrent_training l =? 0)%nat then Err (positive "max_concurrent_training")
  else if max_tokens_per_second l =? 0 then Err (positive "max_tokens_per_second")
  else if max_requests_per_minute l =? 0 then Err (positive "max_requests_per_minute")
  else if negb fd_ok then
    Err (InvalidRateLimitConfig "max_fd_usage_percent" fd_text "must be in range (0.0, 100.0]")
  else if thread_pool_size l =? 0 then Err (positive "thread_pool_size")
  else Ok tt.

(** ** Rate limiters

    [TokenRateLimiter] and [RequestRateLimiter] are the same code over seconds and
    minutes and with another message. *)

Record RateLimiter : Type := mkRate { max_rate : Z; remaining : Z; last_reset : Z }.

Definition rate_new (max elapsed : Z) : RateLimiter := mkRate max max elapsed.

Definition rate_check (message : string) (now : Z) (r : RateLimiter)
  : result unit AosError * RateLimiter :=
  let r := if last_reset r <? now then mkRate (max_rate r) (max_rate r) now else r in
  if remaining r =? 0 then (Err (Worker message), r)
  else (Ok tt, mkRate (max_rate r) (u64_wrapping_sub (remaining r) 1) (last_reset r)).

Definition token_check_rate (elapsed : Z) : RateLimiter -> result unit AosError * RateLimiter :=
  rate_check "Token rate limit exceeded" elapsed.

Definition request_check_rate (elapsed : Z) : RateLimiter -> result unit AosError * RateLimiter :=
  rate_check "Request rate limit exceeded" (elapsed / 60).

(** ** Trackers *)

Record MemoryTracker : Type := mkMemory {
  mem_max : Z; current_usage : Z; active_requests : Z
}.
Definition memory_new (max : Z) : MemoryTracker := mkMemory max 0 0.

(** The test on values of the two counters. *)
Definition exceeds (max current active : Z) : bool :=
  u64_wrapping_mul max 2 <? u64_saturating_add current (u64_saturating_mul active max).

Definition would_exceed_limit (m : MemoryTracker) : bool :=
  exceeds (mem_max m) (current_usage m) (active_requests m).

Definition add_active (m : MemoryTracker) : MemoryTracker :=
  mkMemory (mem_max m) (current_usage m) (u64_wrapping_add (active_requests m) 1).
Definition add_usage (m : MemoryTracker) : MemoryTracker :=
  mkMemory (mem_max m) (u64_wrapping_add (current_usage m) 1) (active_requests m).
Definition sub_active (m : MemoryTracker) : MemoryTracker :=
  mkMemory (mem_max m) (current_usage m) (u64_wrapping_sub (active_requests m) 1).
Definition sub_usage (m : MemoryTracker) : MemoryTracker :=
  mkMemory (mem_max m) (u64_wrapping_sub (current_usage m) 1) (active_requests m).

Definition memory_acquire (m : MemoryTracker) : MemoryTracker := add_usage (add_active m).
Definition memory_release (m : MemoryTracker) : MemoryTracker := sub_usage (sub_active m).

Record CpuTracker : Type := mkCpu { total_cpu_time : Z; request_count : Z }.
Definition cpu_new : CpuTracker := mkCpu 0 0.
Definition record_usage (duration_ms : Z) (c : CpuTracker) : CpuTracker :=
  mkCpu (u64_wrapping_add (total_cpu_time c) duration_ms) (u64_wrapping_add (request_count c) 1).

Record FileDescriptorTracker : Type := mkFd { fd_limit : Z; last_check : Z }.
(** [limit] is what [getrlimit] answers. *)
Definition fd_new (limit : option Z) : FileDescriptorTracker :=
  mkFd (match limit with Some n => n | None => 1024 end) 0.

Record ThreadPoolTracker : Type := mkPool {
  pool_size : Z; max_queue_depth : Z; active_threads : Z; queued_tasks : Z
}.
Definition pool_new (size depth : Z) : ThreadPoolTracker := mkPool size depth 0 0.

Definition pool_check_limit (t : ThreadPoolTracker) : result unit AosError :=
  if (pool_size t <=? active_threads t) && (max_queue_depth t <=? queued_tasks t) then
    Err (ThreadPoolSaturated (active_threads t) (pool_size t) (queued_tasks t)
           (u64_wrapping_mul (queued_tasks t) 50))
  else Ok tt.

Definition record_task_queued (t : ThreadPoolTracker) : ThreadPoolTracker :=
  mkPool (pool_size t) (max_queue_depth t) (active_threads t) (u64_wrapping_add (queued_tasks t) 1).
Definition record_task_started (t : ThreadPoolTracker) : ThreadPoolTracker :=
  mkPool (pool_size t) (max_queue_depth t) (u64_wrapping_add (active_threads t) 1)
    (saturating_sub (queued_tasks t) 1).
Definition record_task_completed (t : ThreadPoolTracker) : ThreadPoolTracker :=
  mkPool (pool_size t) (max_queue_depth t) (saturating_sub (active_threads t) 1) (queued_tasks t).

(** ** Semaphores (tokio) *)

Class Semaphore (P : Type) : Type := {
  sem_new : nat -> P;
  available_permits : P -> nat;
  (** [None] while the caller waits. *)
  sem_acquire : P -> option P;
  (** Dropping a permit. *)
  sem_release : P -> P;
}.

Class SemaphoreLaws (P : Type) `{Semaphore P} : Prop := {
  available_new n : available_permits (sem_new n) = n;
  acquire_waits s : sem_acquire s = None <-> available_permits s = 0%nat;
  acquire_takes s s' : sem_acquire s = Some s' -> S (available_permits s') = available_permits s;
  release_returns s : available_permits (sem_release s) = S (available_permits s);
}.

Section Limiter.
Context {P : Type} `{Semaphore P} (fd_over : Z -> Z -> bool).

Definition fd_check_limit (now_ms open_fds : Z) (f : FileDescriptorTracker)
  : result unit AosError * FileDescriptorTracker :=
  if saturating_sub now_ms (last_check f) <? 500 then (Ok tt, f)
  else
    let f := mkFd (fd_limit f) now_ms in
    if fd_limit f =? 0 then (Ok tt, f)
    else if fd_over open_fds (fd_limit f) then
      (Err (FileDescriptorExhausted open_fds (fd_limit f)
              "Close idle connections or increase ulimit -n"), f)
    else (Ok tt, f).

(** ** The limiter *)

Record ResourceLimiter : Type := mkLimiter {
  limits : ResourceLimits;
  semaphores : Pool -> P;
  token_rate_limiter : RateLimiter;
  memory_tracker : MemoryTracker;
  cpu_tracker : CpuTracker;
  request_rate_limiter : RateLimiter;
  fd_tracker : FileDescriptorTracker;
  thread_tracker : ThreadPoolTracker;
}.

Definition pool_limit (l : ResourceLimits) (k : Pool) : nat :=
  match k with
  | General => max_concurrent_requests l
  | Typed Inference => max_concurrent_inference l
  | Typed Training => max_concurrent_training l
  end.

(** [elapsed] and [elapsed'] are the readings of the two rate limiters. *)
Definition new (l : ResourceLimits) (elapsed elapsed' : Z) (fds : option Z) : ResourceLimiter :=
  mkLimiter l (fun k => sem_new (pool_limit l k)) (rate_new (max_tokens_per_second l) elapsed)
    (memory_new (max_memory_per_request l)) cpu_new
    (rate_new (max_requests_per_minute l) (elapsed' / 60)) (fd_new fds)
    (pool_new (thread_pool_size l) (max_thread_queue_depth l)).

Definition set_semaphore (k : Pool) (s : P) (l : ResourceLimiter) : ResourceLimiter :=
  mkLimiter (limits l) (fun k' => if decide (k' = k) then s else semaphores l k')
    (token_rate_limiter l) (memory_tracker l) (cpu_tracker l) (request_rate_limiter l)
    (fd_tracker l) (thread_tracker l).
Definition set_tokens (r : RateLimiter) (l : ResourceLimiter) : ResourceLimiter :=
  mkLimiter (limits l) (semaphores l) r (memory_tracker l) (cpu_tracker l)
    (request_rate_limiter l) (fd_tracker l) (thread_tracker l).
Definition set_memory (m : MemoryTracker) (l : ResourceLimiter) : ResourceLimiter :=
  mkLimiter (limits l) (semaphores l) (token_rate_limiter l) m (cpu_tracker l)
    (request_rate_limiter l) (fd_tracker l) (thread_tracker l).
Definition set_cpu (c : CpuTracker) (l : ResourceLimiter) : ResourceLimiter :=
  mkLimiter (limits l) (semaphores l) (token_rate_limiter l) (memory_tracker l) c
    (request_rate_limiter l) (fd_tracker l) (thread_tracker l).
Definition set_requests (r : RateLimiter) (l : ResourceLimiter) : ResourceLimiter :=
  mkLimiter (limits l) (semaphores l) (token_rate_limiter l) (memory_tracker l) (cpu_tracker l)
    r (fd_tracker l) (thread_tracker l).
Definition set_fd (f : FileDescriptorTracker) (l : ResourceLimiter) : ResourceLimiter :=
  mkLimiter (limits l) (semaphores l) (token_rate_limiter l) (memory_tracker l) (cpu_tracker l)
    (request_rate_limiter l) f (thread_tracker l).
Definition set_threads (t : ThreadPoolTracker) (l : ResourceLimiter) : ResourceLimiter :=
  mkLimiter (limits l) (semaphores l) (token_rate_limiter l) (memory_tracker l) (cpu_tracker l)
    (request_rate_limiter l) (fd_tracker l) t.

(** What one acquisition reads from outside. *)
Record Input : Type := mkInput { elapsed : Z; now_ms : Z; open_fds : Z }.

Inductive Answer := Granted | Refused (e : AosError) | Waiting.

(** [acquire_request], [acquire_inference] and [acquire_training], undisturbed. *)
Definition acquire (k : Pool) (i : Input) (l : ResourceLimiter) : Answer * ResourceLimiter :=
  let '(r, rate) := request_check_rate (elapsed i) (request_rate_limiter l) in
  let l := set_requests rate l in
  match r with
  | Err e => (Refused e, l)
  | Ok _ =>
      let '(r, fd) := fd_check_limit (now_ms i) (open_fds i) (fd_tracker l) in
      let l := set_fd fd l in
      match r with
      | Err e => (Refused e, l)
      | Ok _ =>
          match pool_check_limit (thread_tracker l) with
          | Err e => (Refused e, l)
          | Ok _ =>
              match sem_acquire (semaphores l k) with
              | None => (Waiting, l)
              | Some s =>
                  let l := set_semaphore k s l in
                  if would_exceed_limit (memory_tracker l) then
                    (Refused (MemoryPressure "Memory limit would be exceeded"),
                     set_semaphore k (sem_release (semaphores l k)) l)
                  else
                    let l := set_memory (memory_acquire (memory_tracker l)) l in
                    (Granted, set_threads (record_task_queued (thread_tracker l)) l)
              end
          end
      end
  end.

Definition mark_started (l : ResourceLimiter) : ResourceLimiter :=
  set_threads (record_task_started (thread_tracker l)) l.

(** [ResourceGuard::drop], then the permit. *)
Definition drop_guard (k : Pool) (duration_ms : Z) (l : ResourceLimiter) : ResourceLimiter :=
  let l := set_memory (memory_release (memory_tracker l)) l in
  let l := set_cpu (record_usage duration_ms (cpu_tracker l)) l in
  let l := set_threads (record_task_completed (thread_tracker l)) l in
  set_semaphore k (sem_release (semaphores l k)) l.

Definition check_token_rate (elapsed : Z) (l : ResourceLimiter)
  : result unit AosError * ResourceLimiter :=
  let '(r, rate) := token_check_rate elapsed (token_rate_limiter l) in (r, set_tokens rate l).

(** [get_concurrent_requests], [active_inference_count], [active_training_count]. *)
Definition active_count (k : Pool) (l : ResourceLimiter) : Z :=
  u64_wrapping_sub (Z.of_nat (pool_limit (limits l) k))
    (Z.of_nat (available_permits (semaphores l k))).

(** ** Threads

    An acquisition as its atomic accesses. The checks of descriptors and of the pool, and
    the two updates of a task that starts, are one step each. *)

Inductive Pc :=
| RateLoad
| RateCas (seen now : Z)
| RateStore
| RateRead
| RateTake
| FdCheck
| PoolCheck
| Permit
| MemLoad
| MemLoadActive (usage : Z)
| MemReject
| MemAddActive
| MemAddUsage
| Enqueue
| Held
| Running
| DropActive (duration_ms : Z)
| DropUsage (duration_ms : Z)
| DropCpu (duration_ms : Z)
| DropTask
| DropPermit
| Finished
| Failed (e : AosError).

Inductive Act := Go (i : Input) | Mark | Release (duration_ms : Z).

Definition set_remaining (z : Z) (l : ResourceLimiter) : ResourceLimiter :=
  let r := request_rate_limiter l in set_requests (mkRate (max_rate r) z (last_reset r)) l.

Definition thread_step (a : Act) (k : Pool) (pc : Pc) (l : ResourceLimiter)
  : option (Pc * ResourceLimiter) :=
  let r := request_rate_limiter l in
  match pc, a with
  | RateLoad, Go i =>
      let now := elapsed i / 60 in
      Some (if last_reset r <? now then RateCas (last_reset r) now else RateRead, l)
  | RateCas seen now, Go _ =>
      Some (if last_reset r =? seen
            then (RateStore, set_requests (mkRate (max_rate r) (remaining r) now) l)
            else (RateRead, l))
  | RateStore, Go _ => Some (RateRead, set_remaining (max_rate r) l)
  | RateRead, Go _ =>
      Some (if remaining r =? 0 then Failed (Worker "Request rate limit exceeded") else RateTake, l)
  | RateTake, Go _ => Some (FdCheck, set_remaining (u64_wrapping_sub (remaining r) 1) l)
  | FdCheck, Go i =>
      let '(res, fd) := fd_check_limit (now_ms i) (open_fds i) (fd_tracker l) in
      Some (match res with Ok _ => PoolCheck | Err e => Failed e end, set_fd fd l)
  | PoolCheck, Go _ =>
      Some (match pool_check_limit (thread_tracker l) with Ok _ => Permit | Err e => Failed e end, l)
  | Permit, Go _ =>
      match sem_acquire (semaphores l k) with
      | None => None
      | Some s => Some (MemLoad, set_semaphore k s l)
      end
  | MemLoad, Go _ => Some (MemLoadActive (current_usage (memory_tracker l)), l)
  | MemLoadActive usage, Go _ =>
      Some (if exceeds (mem_max (memory_tracker l)) usage (active_requests (memory_tracker l))
            then MemReject else MemAddActive, l)
  | MemReject, Go _ =>
      Some (Failed (MemoryPressure "Memory limit would be exceeded"),
            set_semaphore k (sem_release (semaphores l k)) l)
  | MemAddActive, Go _ => Some (MemAddUsage, set_memory (add_active (memory_tracker l)) l)
  | MemAddUsage, Go _ => Some (Enqueue, set_memory (add_usage (memory_tracker l)) l)
  | Enqueue, Go _ => Some (Held, set_threads (record_task_queued (thread_tracker l)) l)
  | Held, Mark => Some (Running, mark_started l)
  | (Held | Running), Release d => Some (DropActive d, l)
  | DropActive d, Go _ => Some (DropUsage d, set_memory (sub_active (memory_tracker l)) l)
  | DropUsage d, Go _ => Some (DropCpu d, set_memory (sub_usage (memory_tracker l)) l)
  | DropCpu d, Go _ => Some (DropTask, set_cpu (record_usage d (cpu_tracker l)) l)
  | DropTask, Go _ => Some (DropPermit, set_threads (record_task_completed (thread_tracker l)) l)
  | DropPermit, Go _ => Some (Finished, set_semaphore k (sem_release (semaphores l k)) l)
  | _, _ => None
  end.

Record System : Type := mkSystem { shared : ResourceLimiter; threads : list (Pool * Pc) }.

Inductive sys_step : System -> System -> Prop :=
| Spawn l ts k : sys_step (mkSystem l ts) (mkSystem l (ts ++ [(k, RateLoad)]))
| Step l ts n k pc a pc' l' :
    ts !! n = Some (k, pc) -> thread_step a k pc l = Some (pc', l') ->
    sys_step (mkSystem l ts) (mkSystem l' (<[n := (k, pc')]> ts)).

(** A thread that runs alone. *)
Fixpoint run_thread (fuel : nat) (i : Input) (k : Pool) (pc : Pc) (l : ResourceLimiter)
  : Pc * ResourceLimiter :=
  match fuel with
  | O => (pc, l)
  | S fuel =>
      match thread_step (Go i) k pc l with
      | None => (pc, l)
      | Some (pc, l) => run_thread fuel i k pc l
      end
  end.

Lemma set_requests_twice r r' l : set_requests r (set_requests r' l) = set_requests r l.
Proof. done. Qed.

Lemma set_requests_same l : set_requests (request_rate_limiter l) l = l.
Proof. by destruct l. Qed.

(** The rate check of a thread that runs alone. *)
Lemma rate_alone fuel i k l :
  run_thread (5 + fuel) i k RateLoad l
  = let '(r, rate) := request_check_rate (elapsed i) (request_rate_limiter l) in
    match r with
    | Err e => (Failed e, set_requests rate l)
    | Ok _ => run_thread (if last_reset (request_rate_limiter l) <? elapsed i / 60
                          then fuel else 2 + fuel) i k FdCheck (set_requests rate l)
    end.
Proof.
  unfold request_check_rate, rate_check. cbn [Nat.add run_thread thread_step].
  set (now := elapsed i / 60). destruct (request_rate_limiter l) as [mx rem lr] eqn:Er.
  cbn [last_reset max_rate remaining]. destruct (lr <? now) eqn:E1.
  - cbn [thread_step]. rewrite Er. cbn [last_reset max_rate remaining].
    rewrite Z.eqb_refl. cbn [thread_step set_requests request_rate_limiter set_remaining
      last_reset max_rate remaining].
    destruct (mx =? 0); [by destruct fuel|]. done.
  - cbn [thread_step]. rewrite Er. cbn [remaining].
    assert (Es : set_requests (mkRate mx rem lr) l = l) by (rewrite <- Er; apply set_requests_same).
    destruct (rem =? 0) eqn:E2; [by rewrite Es|]. cbn [thread_step]. rewrite Er.
    unfold set_remaining. rewrite Er. done.
Qed.

(** The atomic accesses of a thread that nobody disturbs amount to the whole method:
    from the start, fourteen steps bring it to the guard, to the error or to the wait for
    a permit that [acquire] answers, with the same state. *)
Theorem acquire_alone i k l :
  run_thread 14 i k RateLoad l
  = match acquire k i l with
    | (Granted, l') => (Held, l')
    | (Refused e, l') => (Failed e, l')
    | (Waiting, l') => (Permit, l')
    end.
Proof.
  assert (Hrest : forall fuel l, run_thread (9 + fuel) i k FdCheck l
    = let '(r, fd) := fd_check_limit (now_ms i) (open_fds i) (fd_tracker l) in
      let l := set_fd fd l in
      match r with
      | Err e => (Failed e, l)
      | Ok _ =>
          match pool_check_limit (thread_tracker l) with
          | Err e => (Failed e, l)
          | Ok _ =>
              match sem_acquire (semaphores l k) with
              | None => (Permit, l)
              | Some s =>
                  let l := set_semaphore k s l in
                  if would_exceed_limit (memory_tracker l) then
                    (Failed (MemoryPressure "Memory limit would be exceeded"),
                     set_semaphore k (sem_release (semaphores l k)) l)
                  else
                    let l := set_memory (memory_acquire (memory_tracker l)) l in
                    (Held, set_threads (record_task_queued (thread_tracker l)) l)
              end
          end
      end).
  { clear l. intros fuel l. cbn [Nat.add run_thread thread_step].
    destruct (fd_check_limit _ _ _) as [[[]|e] fd]; [|done]. cbn [run_thread thread_step].
    destruct (pool_check_limit _) as [[]|e]; [|done]. cbn [run_thread thread_step].
    destruct (sem_acquire _) as [s|]; [|done]. cbn [run_thread thread_step].
    unfold would_exceed_limit. set (l1 := set_semaphore k s (set_fd fd l)).
    destruct (exceeds _ _ _); done. }
  change 14%nat with (5 + 9)%nat. rewrite rate_alone. unfold acquire.
  destruct (request_check_rate (elapsed i) (request_rate_limiter l)) as [[[]|e] rate]; [|done].
  set (l1 := set_requests rate l).
  destruct (last_reset _ <? _); [rewrite (Hrest 0%nat)|rewrite (Hrest 2%nat)];
    (destruct (fd_check_limit _ _ _) as [[[]|e] fd]; [|done]; cbv zeta;
     destruct (pool_check_limit _) as [[]|e]; [|done];
     destruct (sem_acquire _) as [s|]; [|done]; by destruct (would_exceed_limit _)).
Qed.

(** ** Counting threads *)

Definition holds_permit (pc : Pc) : bool :=
  match pc with
  | MemLoad | MemLoadActive _ | MemReject | MemAddActive | MemAddUsage | Enqueue | Held | Running
  | DropActive _ | DropUsage _ | DropCpu _ | DropTask | DropPermit => true
  | _ => false
  end.

Definition counts_active (pc : Pc) : bool :=
  match pc with MemAddUsage | Enqueue | Held | Running | DropActive _ => true | _ => false end.

Definition counts_usage (pc : Pc) : bool :=
  match pc with Enqueue | Held | Running | DropActive _ | DropUsage _ => true | _ => false end.

Definition count (f : Pool * Pc -> bool) (ts : list (Pool * Pc)) : nat := length (List.filter f ts).

Definition holders (k : Pool) : list (Pool * Pc) -> nat :=
  count (fun '(k', pc) => bool_decide (k' = k) && holds_permit pc).
Definition active_threads_of : list (Pool * Pc) -> nat := count (fun '(_, pc) => counts_active pc).
Definition usage_threads_of : list (Pool * Pc) -> nat := count (fun '(_, pc) => counts_usage pc).

Lemma count_app f ts ts' : count f (ts ++ ts') = (count f ts + count f ts')%nat.
Proof. unfold count. by rewrite List.filter_app, length_app. Qed.

Lemma count_insert f ts n x y :
  ts !! n = Some x ->
  (count f (<[n := y]> ts) + (if f x then 1 else 0) = count f ts + (if f y then 1 else 0))%nat.
Proof.
  unfold count. revert n. induction ts as [|z ts IH]; intros [|n] Hn; simpl in *; try done.
  - injection Hn as ->. destruct (f x), (f y); simpl; lia.
  - specialize (IH n Hn). destruct (f z); simpl; lia.
Qed.

Context {SL : SemaphoreLaws P}.

(** Permits and memory counters say exactly which threads hold what. *)
Definition balanced (lim : ResourceLimits) (s : System) : Prop :=
  limits (shared s) = lim
  /\ (forall k, (available_permits (semaphores (shared s) k) + holders k (threads s)
                 = pool_limit lim k)%nat)
  /\ active_requests (memory_tracker (shared s))
     = Z.of_nat (active_threads_of (threads s)) mod u64_mod
  /\ current_usage (memory_tracker (shared s))
     = Z.of_nat (usage_threads_of (threads s)) mod u64_mod.

Lemma wrap_add a n : u64_wrapping_add (Z.of_nat n mod u64_mod) a = (Z.of_nat n + a) mod u64_mod.
Proof. unfold u64_wrapping_add. by rewrite Zplus_mod_idemp_l. Qed.
Lemma wrap_sub a n : u64_wrapping_sub (Z.of_nat n mod u64_mod) a = (Z.of_nat n - a) mod u64_mod.
Proof. unfold u64_wrapping_sub. by rewrite Zminus_mod_idemp_l. Qed.

(** What one step does to permits and memory counters. *)
Definition moves (k : Pool) (pc pc' : Pc) (l l' : ResourceLimiter) : Prop :=
  limits l' = limits l
  /\ (forall k', k' <> k -> semaphores l' k' = semaphores l k')
  /\ (available_permits (semaphores l' k) + (if holds_permit pc' then 1 else 0)
      = available_permits (semaphores l k) + (if holds_permit pc then 1 else 0))%nat
  /\ active_requests (memory_tracker l')
     = (if counts_active pc then
          if counts_active pc' then active_requests (memory_tracker l)
          else u64_wrapping_sub (active_requests (memory_tracker l)) 1
        else if counts_active pc' then u64_wrapping_add (active_requests (memory_tracker l)) 1
        else active_requests (memory_tracker l))
  /\ current_usage (memory_tracker l')
     = (if counts_usage pc then
          if counts_usage pc' then current_usage (memory_tracker l)
          else u64_wrapping_sub (current_usage (memory_tracker l)) 1
        else if counts_usage pc' then u64_wrapping_add (current_usage (memory_tracker l)) 1
        else current_usage (memory_tracker l)).

Lemma moves_same k pc pc' l l' :
  limits l' = limits l -> semaphores l' = semaphores l -> memory_tracker l' = memory_tracker l ->
  holds_permit pc' = holds_permit pc -> counts_active pc' = counts_active pc ->
  counts_usage pc' = counts_usage pc -> moves k pc pc' l l'.
Proof.
  intros E1 E2 E3 E4 E5 E6. unfold moves. rewrite E1, E2, E3, E4, E5, E6.
  split_and!; try done; by repeat case_match.
Qed.

Lemma semaphore_set k k' s l :
  semaphores (set_semaphore k s l) k' = if decide (k' = k) then s else semaphores l k'.
Proof. done. Qed.

Lemma moves_semaphore k pc pc' l s :
  (available_permits s + (if holds_permit pc' then 1 else 0)
   = available_permits (semaphores l k) + (if holds_permit pc then 1 else 0))%nat ->
  counts_active pc' = counts_active pc -> counts_usage pc' = counts_usage pc ->
  moves k pc pc' l (set_semaphore k s l).
Proof.
  intros Hs E1 E2. unfold moves. rewrite E1, E2. split_and!; try done.
  - intros k' Hk. rewrite semaphore_set. by destruct (decide _).
  - rewrite semaphore_set. by destruct (decide _).
  - cbn. by repeat case_match.
  - cbn. by repeat case_match.
Qed.

Lemma thread_step_moves a k pc l pc' l' :
  thread_step a k pc l = Some (pc', l') -> moves k pc pc' l l'.
Proof.
  destruct pc, a; cbn [thread_step]; intros E; try discriminate E;
    try (injection E as <- <-; first [by apply moves_same | unfold moves; by split_and!]).
  - injection E as <- <-. destruct (_ <? _); by apply moves_same.
  - destruct (_ =? _); injection E as <- <-; by apply moves_same.
  - injection E as <- <-. destruct (_ =? _); by apply moves_same.
  - destruct (fd_check_limit _ _ _) as [[[]|e] fd]; injection E as <- <-; by apply moves_same.
  - injection E as <- <-. destruct (pool_check_limit _); by apply moves_same.
  - destruct (sem_acquire _) as [s|] eqn:Es; [|done]. injection E as <- <-.
    apply acquire_takes in Es. apply moves_semaphore; cbn [holds_permit]; [lia|done|done].
  - injection E as <- <-. destruct (exceeds _ _ _); by apply moves_same.
  - injection E as <- <-. apply moves_semaphore; cbn [holds_permit]; [|done|done].
    rewrite release_returns. lia.
  - injection E as <- <-. apply moves_semaphore; cbn [holds_permit]; [|done|done].
    rewrite release_returns. lia.
Qed.

Lemma balanced_step lim s s' : balanced lim s -> sys_step s s' -> balanced lim s'.
Proof.
  intros (Hl & Hp & Ha & Hu) Hs. destruct Hs as [l ts k|l ts n k pc a pc' l' Hn Hs];
    cbn [shared threads] in *.
  - split_and!; [done| | |]; cbn [shared threads].
    + intros k'. rewrite <- Hp. unfold holders. rewrite count_app.
      unfold count at 2. simpl. rewrite andb_false_r. simpl. lia.
    + rewrite Ha. unfold active_threads_of. rewrite count_app. unfold count at 3. simpl.
      by rewrite Nat.add_0_r.
    + rewrite Hu. unfold usage_threads_of. rewrite count_app. unfold count at 3. simpl.
      by rewrite Nat.add_0_r.
  - apply thread_step_moves in Hs as (M1 & M2 & M3 & M4 & M5).
    split_and!; cbn [shared threads]; [congruence| | |].
    + intros k'. rewrite <- Hp.
      pose proof (count_insert (fun '(k0, pc) => bool_decide (k0 = k') && holds_permit pc)
        ts n (k, pc) (k, pc') Hn) as Hc. cbv beta iota in Hc.
      fold (holders k' ts) (holders k' (<[n := (k, pc')]> ts)) in Hc.
      destruct (decide (k = k')) as [<-|Hne].
      * rewrite bool_decide_true in Hc by done. cbn [andb] in Hc. lia.
      * rewrite bool_decide_false in Hc by done. cbn [andb] in Hc. rewrite M2 by done. lia.
    + pose proof (count_insert (fun '(_, pc) => counts_active pc) ts n (k, pc) (k, pc') Hn) as Hc.
      cbv beta iota in Hc. fold (active_threads_of ts) (active_threads_of (<[n := (k, pc')]> ts)) in Hc.
      rewrite M4, Ha. destruct (counts_active pc), (counts_active pc');
        rewrite ?wrap_add, ?wrap_sub; f_equal; lia.
    + pose proof (count_insert (fun '(_, pc) => counts_usage pc) ts n (k, pc) (k, pc') Hn) as Hc.
      cbv beta iota in Hc. fold (usage_threads_of ts) (usage_threads_of (<[n := (k, pc')]> ts)) in Hc.
      rewrite M5, Hu. destruct (counts_usage pc), (counts_usage pc');
        rewrite ?wrap_add, ?wrap_sub; f_equal; lia.
Qed.

(** [C19] In every interleaving of any number of threads, a pool never has more holders than
    its limit, the reported count is the number of holders, and what threads hold is given
    back whatever way they end: once none holds a permit, all permits are available and the
    memory counters are zero. *)
Theorem permits_exact lim e e' fds s :
  rtc sys_step (mkSystem (new lim e e' fds) []) s ->
  (forall k, (holders k (threads s) <= pool_limit lim k)%nat
     /\ (Z.of_nat (pool_limit lim k) < u64_mod ->
         active_count k (shared s) = Z.of_nat (holders k (threads s))))
  /\ (Forall (fun '(_, pc) => holds_permit pc = false) (threads s) ->
      (forall k, available_permits (semaphores (shared s) k) = pool_limit lim k)
      /\ active_requests (memory_tracker (shared s)) = 0
      /\ current_usage (memory_tracker (shared s)) = 0).
Proof.
  intros Hr. assert (Hb : balanced lim s).
  { eapply rtc_invariant; [apply balanced_step| |exact Hr].
    unfold balanced. cbn. split_and!; try done. intros k. rewrite available_new. apply Nat.add_0_r. }
  destruct Hb as (Hl & Hp & Ha & Hu). split.
  - intros k. specialize (Hp k). split; [lia|]. intros Hk. unfold active_count. rewrite Hl.
    rewrite u64_wrapping_sub_small; lia.
  - intros Hf. assert (Hz : forall f, (forall k pc, f (k, pc) = true -> holds_permit pc = true) ->
      count f (threads s) = 0%nat).
    { intros f Hi. unfold count. clear Hp Ha Hu. induction Hf as [|[k pc] ts Hpc _ IH]; [done|]. simpl.
      destruct (f (k, pc)) eqn:Ef; [|exact IH]. apply Hi in Ef. congruence. }
    rewrite Ha, Hu. unfold active_threads_of, usage_threads_of.
    rewrite !Hz by (intros k pc; by destruct pc). split_and!; try done.
    intros k. specialize (Hp k). unfold holders in Hp. rewrite Hz in Hp; [lia|].
    intros k' pc. by intros [_ ?]%andb_true_iff.
Qed.

(** The limiter reads the budget and takes from it in two accesses: with a budget of one
    request, two threads that both read before either takes are both let through, and the
    budget wraps around to 2^64 - 1. *)
Theorem rate_limit_race lim e fds :
  max_requests_per_minute lim = 1 ->
  exists s, rtc sys_step (mkSystem (new lim e 0 fds) []) s
    /\ threads s = [(General, FdCheck); (General, FdCheck)]
    /\ remaining (request_rate_limiter (shared s)) = u64_max.
Proof.
  intros Hm. destruct lim; cbn in Hm; subst. set (go := Go (mkInput 0 0 0)).
  eexists. split_and!.
  - eapply rtc_l; [apply (Spawn _ [] General)|]. eapply rtc_l; [apply (Spawn _ [_] General)|].
    cbn [app].
    do 3 (eapply rtc_l; [eapply (Step _ _ 0 General _ go); reflexivity|cbn];
          eapply rtc_l; [eapply (Step _ _ 1 General _ go); reflexivity|cbn]).
    apply rtc_refl.
  - done.
  - done.
Qed.

(** ** Rate limits over time *)

(** The answers of a limiter to checks at given readings of the clock, one after the other. *)
Fixpoint rate_run (message : string) (readings : list Z) (r : RateLimiter) : list bool :=
  match readings with
  | [] => []
  | now :: readings =>
      let '(answer, r) := rate_check message now r in is_ok answer :: rate_run message readings r
  end.

(** How many checks at reading [now] were let through. *)
Definition passed (now : Z) (readings : list Z) (answers : list bool) : Z :=
  Z.of_nat (length (List.filter (fun '(t, a) => (t =? now) && a) (zip readings answers))).

Lemma passed_cons now t readings a answers :
  passed now (t :: readings) (a :: answers)
  = (if (t =? now) && a then 1 else 0) + passed now readings answers.
Proof. unfold passed. simpl. destruct ((t =? now) && a); simpl; lia. Qed.

(** A check at a reading, when [seen] earlier ones in the window were let through. *)
Lemma rate_check_window message now r :
  0 <= remaining r <= max_rate r -> max_rate r < u64_mod -> last_reset r <= now ->
  let before := if last_reset r =? now then max_rate r - remaining r else 0 in
  let '(answer, r') := rate_check message now r in
  is_ok answer = (before <? max_rate r)
  /\ max_rate r' = max_rate r /\ last_reset r' = now /\ 0 <= remaining r' <= max_rate r'
  /\ max_rate r' - remaining r' = before + (if is_ok answer then 1 else 0).
Proof.
  intros Hrem Hmax Hnow before. unfold rate_check, before.
  destruct r as [mx rem lr]; cbn [max_rate remaining last_reset] in *.
  destruct (Z.ltb_spec lr now) as [Hlt|Hge]; cbn [max_rate remaining last_reset].
  - replace (lr =? now) with false by (symmetry; apply Z.eqb_neq; lia).
    destruct (Z.eqb_spec mx 0) as [->|Hne]; cbn; [split_and!; try done; lia|].
    replace (0 <? mx) with true by (symmetry; apply Z.ltb_lt; lia).
    rewrite u64_wrapping_sub_small by lia. split_and!; try done; lia.
  - assert (lr = now) as -> by lia. rewrite Z.eqb_refl.
    destruct (Z.eqb_spec rem 0) as [->|Hne]; cbn.
    + replace (mx - 0 <? mx) with false by (symmetry; apply Z.ltb_ge; lia). split_and!; try done; lia.
    + replace (mx - rem <? mx) with true by (symmetry; apply Z.ltb_lt; lia).
      rewrite u64_wrapping_sub_small by lia. split_and!; try done; lia.
Qed.

Lemma rate_run_window message readings r now :
  0 <= remaining r <= max_rate r -> max_rate r < u64_mod ->
  StronglySorted Z.le (last_reset r :: readings) ->
  let before := if last_reset r =? now then max_rate r - remaining r else 0 in
  before + passed now readings (rate_run message readings r) <= max_rate r.
Proof.
  revert r. induction readings as [|t readings IH]; intros r Hrem Hmax Hs before.
  { unfold passed. simpl. unfold before. destruct (_ =? _); lia. }
  apply StronglySorted_inv in Hs as [Hs Hall]. apply Forall_cons in Hall as [Ht Hall].
  pose proof (rate_check_window message t r Hrem Hmax Ht) as Hc. cbv zeta in Hc.
  cbn [rate_run]. destruct (rate_check message t r) as [answer r'].
  destruct Hc as (Ha & Em & El & Hr' & Hd).
  assert (Hmax' : max_rate r' < u64_mod) by lia.
  specialize (IH r' Hr' Hmax'). rewrite El in IH. specialize (IH Hs). cbv zeta in IH.
  rewrite passed_cons. unfold before.
  destruct (Z.eqb_spec t now) as [->|Hne]; cbn [andb].
  - rewrite Em in IH, Hd. destruct (is_ok answer); lia.
  - destruct (Z.eqb_spec (last_reset r) now) as [El'|]; [|lia].
    assert (Hz : forall ts answers, Forall (Z.le t) ts -> passed now ts answers = 0).
    { intros ts. induction ts as [|x ts IHts]; intros [|b answers] Hts; try done.
      apply Forall_cons in Hts as [Hx Hts]. rewrite passed_cons, IHts by done.
      by replace (x =? now) with false by (symmetry; apply Z.eqb_neq; lia). }
    apply StronglySorted_inv in Hs as [_ Hall']. rewrite Hz by done. lia.
Qed.

(** A refused check found its window used up. *)
Lemma rate_run_refusal message readings now r :
  0 <= remaining r <= max_rate r -> max_rate r < u64_mod ->
  StronglySorted Z.le (last_reset r :: readings ++ [now]) ->
  last (rate_run message (readings ++ [now]) r) = Some false ->
  (if last_reset r =? now then max_rate r - remaining r else 0)
  + passed now readings (rate_run message (readings ++ [now]) r) = max_rate r.
Proof.
  revert r. induction readings as [|t readings IH]; intros r Hrem Hmax Hs Hl.
  - apply StronglySorted_inv in Hs as [_ Hall]. apply Forall_cons in Hall as [Ht _].
    pose proof (rate_check_window message now r Hrem Hmax Ht) as Hc. cbv zeta in Hc.
    cbn [app rate_run] in *. destruct (rate_check message now r) as [answer r'].
    destruct Hc as (Ha & _). injection Hl as Hl. rewrite Hl in Ha.
    symmetry in Ha. apply Z.ltb_ge in Ha. unfold passed. cbn [zip List.filter length].
    destruct (_ =? _); lia.
  - cbn [app] in *. apply StronglySorted_inv in Hs as [Hs Hall]. apply Forall_cons in Hall as [Ht Hall].
    pose proof (rate_check_window message t r Hrem Hmax Ht) as Hc. cbv zeta in Hc.
    cbn [rate_run] in *. destruct (rate_check message t r) as [answer r'].
    destruct Hc as (Ha & Em & El & Hr' & Hd).
    assert (Hl' : last (rate_run message (readings ++ [now]) r') = Some false).
    { destruct readings; cbn [app rate_run] in *; by destruct (rate_check _ _ r'). }
    assert (Hmax' : max_rate r' < u64_mod) by lia.
    specialize (IH r' Hr' Hmax'). rewrite El in IH. specialize (IH Hs Hl').
    rewrite passed_cons. destruct (Z.eqb_spec t now) as [->|Hne]; cbn [andb].
    + destruct (is_ok answer); lia.
    + destruct (Z.eqb_spec (last_reset r) now) as [El'|]; [|lia]. exfalso.
      apply StronglySorted_inv in Hs as [_ Hall']. apply Forall_app in Hall' as [_ Hn].
      apply Forall_cons in Hn as [Hn _]. lia.
Qed.

(** With a clock that moves forward, a rate limiter lets through at most its maximum in
    every window, and refuses a check only when that many were let through in its window. *)
Theorem rate_limited_per_window message max start readings now :
  0 <= max < u64_mod -> StronglySorted Z.le (start :: readings ++ [now]) ->
  let answers := rate_run message (readings ++ [now]) (rate_new max start) in
  (forall w, passed w (readings ++ [now]) answers <= max)
  /\ (last answers = Some false -> passed now readings answers = max).
Proof.
  intros Hmax Hs answers. split.
  - intros w. pose proof (rate_run_window message (readings ++ [now]) (rate_new max start) w) as Hw.
    cbv zeta in Hw. cbn [rate_new last_reset max_rate remaining] in Hw.
    specialize (Hw ltac:(lia) ltac:(lia) Hs). fold answers in Hw. destruct (start =? w); lia.
  - intros Hl. pose proof (rate_run_refusal message readings now (rate_new max start)) as Hr.
    cbn [rate_new last_reset max_rate remaining] in Hr.
    specialize (Hr ltac:(lia) ltac:(lia) Hs Hl). fold answers in Hr. destruct (start =? now); lia.
Qed.

(** ** Undisturbed operations *)

Inductive Op :=
| Acquire (k : Pool) (i : Input)
| MarkStarted
| DropGuard (n : nat) (duration_ms : Z)
| CheckToken (elapsed : Z).

(** The limiter, the guards that are alive, and how many were ever granted. *)
Record Session : Type := mkSession {
  limiter : ResourceLimiter; guards : list Pool; granted : nat
}.

Definition exec (s : Session) (op : Op) : Session :=
  match op with
  | Acquire k i =>
      match acquire k i (limiter s) with
      | (Granted, l) => mkSession l (k :: guards s) (S (granted s))
      | (_, l) => mkSession l (guards s) (granted s)
      end
  | MarkStarted => mkSession (mark_started (limiter s)) (guards s) (granted s)
  | DropGuard n d =>
      match guards s !! n with
      | Some k => mkSession (drop_guard k d (limiter s)) (delete n (guards s)) (granted s)
      | None => s
      end
  | CheckToken e => mkSession (check_token_rate e (limiter s)).2 (guards s) (granted s)
  end.

Definition session (lim : ResourceLimits) (e e' : Z) (fds : option Z) (ops : list Op) : Session :=
  foldl exec (mkSession (new lim e e' fds) [] 0) ops.

(** What [acquire] leaves behind. *)
Lemma acquire_effects k i l :
  let '(a, l') := acquire k i l in
  limits l' = limits l
  /\ request_rate_limiter l' = (request_check_rate (elapsed i) (request_rate_limiter l)).2
  /\ match a with
     | Granted => would_exceed_limit (memory_tracker l) = false
         /\ memory_tracker l' = memory_acquire (memory_tracker l)
         /\ thread_tracker l' = record_task_queued (thread_tracker l)
     | _ => memory_tracker l' = memory_tracker l /\ thread_tracker l' = thread_tracker l
     end.
Proof.
  unfold acquire. destruct (request_check_rate _ _) as [[[]|e] rate]; [|done].
  destruct (fd_check_limit _ _ _) as [[[]|e] fd]; [|done].
  destruct (pool_check_limit _) as [[]|e]; [|done].
  destruct (sem_acquire _) as [s|]; [|done]. by destruct (would_exceed_limit _) eqn:E.
Qed.

Lemma check_token_effects e l :
  let l' := (check_token_rate e l).2 in
  limits l' = limits l /\ request_rate_limiter l' = request_rate_limiter l
  /\ memory_tracker l' = memory_tracker l /\ thread_tracker l' = thread_tracker l.
Proof. unfold check_token_rate. by destruct (token_check_rate _ _). Qed.

(** Readings of less than a minute, as those of an instant that was just taken. *)
Definition quick (op : Op) : Prop :=
  match op with Acquire _ i => 0 <= elapsed i < 60 | _ => True end.

Definition is_acquire (op : Op) : bool := match op with Acquire _ _ => true | _ => false end.

Lemma quick_minutes e : 0 <= e < 60 -> e / 60 = 0.
Proof. apply Z.div_small. Qed.

Lemma session_requests lim e e' fds ops :
  0 <= max_requests_per_minute lim < u64_mod -> 0 <= e' < 60 -> Forall quick ops ->
  request_rate_limiter (limiter (session lim e e' fds ops))
  = mkRate (max_requests_per_minute lim)
      (Z.max 0 (max_requests_per_minute lim - Z.of_nat (length (List.filter is_acquire ops)))) 0.
Proof.
  intros Hm He. induction ops as [|op ops IH] using rev_ind; intros Hq.
  - cbn. rewrite (quick_minutes e') by done. unfold rate_new. f_equal. lia.
  - apply Forall_app in Hq as [Hq Hop]. apply Forall_cons in Hop as [Hop _]. specialize (IH Hq).
    unfold session in *. rewrite foldl_app. cbn [foldl].
    set (s := foldl exec _ ops) in *. rewrite List.filter_app, length_app.
    destruct op as [k i| |n d|t]; cbn [exec List.filter is_acquire length].
    + pose proof (acquire_effects k i (limiter s)) as Ha.
      destruct (acquire k i (limiter s)) as [a l']. destruct Ha as (_ & Hr & _).
      assert (E : request_rate_limiter l' = mkRate (max_requests_per_minute lim)
        (Z.max 0 (max_requests_per_minute lim - Z.of_nat (length (List.filter is_acquire ops) + 1))) 0).
      { rewrite Hr, IH. unfold request_check_rate, rate_check. cbn [max_rate remaining last_reset].
        rewrite (quick_minutes (elapsed i)) by done. cbn.
        destruct (Z.eqb_spec (Z.max 0 (max_requests_per_minute lim
          - Z.of_nat (length (List.filter is_acquire ops)))) 0) as [Ez|Ez]; cbn [snd].
        - f_equal. lia.
        - f_equal. rewrite u64_wrapping_sub_small by lia. lia. }
      by destruct a.
    + rewrite Nat.add_0_r. exact IH.
    + rewrite Nat.add_0_r. destruct (guards s !! n); exact IH.
    + rewrite Nat.add_0_r. cbn [limiter].
      destruct (check_token_effects t (limiter s)) as (_ & -> & _). exact IH.
Qed.

(** The request budget never refills: [Instant::now().elapsed()] reads the age of an
    instant that was just taken, so as long as every reading is under a minute, after
    [max_requests_per_minute] acquisitions, granted or not, every later one is refused,
    however much time passes in between. *)
Theorem request_budget_never_refills lim e e' fds ops k i :
  0 <= max_requests_per_minute lim < u64_mod -> 0 <= e' < 60 -> Forall quick ops ->
  0 <= elapsed i < 60 ->
  max_requests_per_minute lim <= Z.of_nat (length (List.filter is_acquire ops)) ->
  (acquire k i (limiter (session lim e e' fds ops))).1
  = Refused (Worker "Request rate limit exceeded").
Proof.
  intros Hm He Hq Hi Hn. unfold acquire, request_check_rate, rate_check.
  rewrite (session_requests lim e e' fds ops Hm He Hq). cbn [max_rate remaining last_reset].
  rewrite (quick_minutes (elapsed i)) by done. rewrite Z.max_l by lia. done.
Qed.

Lemma session_memory lim e e' fds ops :
  0 < max_memory_per_request lim < 2 ^ 63 ->
  let s := session lim e e' fds ops in
  memory_tracker (limiter s) = mkMemory (max_memory_per_request lim)
    (Z.of_nat (length (guards s))) (Z.of_nat (length (guards s)))
  /\ (length (guards s) <= 2)%nat.
Proof.
  intros Hm. induction ops as [|op ops IH] using rev_ind; [cbn; split; [done|lia]|].
  unfold session in *. rewrite foldl_app. cbn [foldl].
  set (s := foldl exec _ ops) in *. cbv zeta in IH. destruct IH as [IHm IHl].
  destruct op as [k i| |n d|t]; cbn [exec].
  - pose proof (acquire_effects k i (limiter s)) as Ha.
    destruct (acquire k i (limiter s)) as [a l']. destruct Ha as (_ & _ & Ha).
    destruct a; cbn [limiter guards]; [|destruct Ha as [-> _]; done..].
    destruct Ha as (Hx & -> & _). rewrite IHm in *.
    unfold would_exceed_limit, exceeds, u64_wrapping_mul, u64_saturating_add, u64_saturating_mul,
      u64_max, u64_mod in Hx. cbn [mem_max current_usage active_requests] in Hx.
    rewrite Z.mod_small in Hx by lia. breflect.
    assert (Hlen : (length (guards s) <= 1)%nat) by nia.
    unfold memory_acquire, add_usage, add_active. cbn [mem_max current_usage active_requests length].
    rewrite u64_wrapping_add_small by (unfold u64_mod; lia). split; [f_equal; lia|lia].
  - done.
  - destruct (guards s !! n) as [k|] eqn:En; [|done]. cbn [limiter guards drop_guard set_memory
      set_cpu set_threads set_semaphore memory_tracker]. rewrite IHm.
    pose proof (length_delete (guards s) n (mk_is_Some _ _ En)) as Hd.
    pose proof (lookup_lt_Some _ _ _ En). unfold memory_release, sub_usage, sub_active.
    cbn [mem_max current_usage active_requests].
    rewrite u64_wrapping_sub_small by (unfold u64_mod; lia). rewrite Hd. split; [f_equal; lia|lia].
  - cbn [limiter guards]. by destruct (check_token_effects t (limiter s)) as (_ & _ & -> & _).
Qed.

(** The memory estimate admits two requests: it projects one maximal request per running
    one against twice the maximum, so whatever the concurrency limits, no more than two
    guards are ever alive when acquisitions do not overlap, and a third is refused. *)
Theorem memory_admits_two lim e e' fds ops :
  0 < max_memory_per_request lim < 2 ^ 63 ->
  let s := session lim e e' fds ops in
  (length (guards s) <= 2)%nat
  /\ (length (guards s) = 2%nat -> forall k i, (acquire k i (limiter s)).1 <> Granted).
Proof.
  intros Hm s. destruct (session_memory lim e e' fds ops Hm) as [Hs Hl]. fold s in Hs, Hl.
  split; [done|]. intros H2 k i. pose proof (acquire_effects k i (limiter s)) as Ha.
  destruct (acquire k i (limiter s)) as [[] l']; cbn [fst]; try done.
  destruct Ha as (_ & _ & Hx & _). rewrite Hs, H2 in Hx.
  unfold would_exceed_limit, exceeds, u64_wrapping_mul, u64_saturating_add, u64_saturating_mul,
    u64_max, u64_mod in Hx. cbn [mem_max current_usage active_requests] in Hx.
  rewrite Z.mod_small in Hx by lia. apply Z.ltb_ge in Hx. lia.
Qed.

(** A guard that is dropped without [mark_started], as those of the worker are, stays
    queued for ever: the queue length counts every guard ever granted. *)
Theorem abandoned_tasks_stay_queued lim e e' fds ops :
  Forall (fun op => op <> MarkStarted) ops -> Z.of_nat (length ops) < u64_mod ->
  let s := session lim e e' fds ops in
  queued_tasks (thread_tracker (limiter s)) = Z.of_nat (granted s)
  /\ active_threads (thread_tracker (limiter s)) = 0.
Proof.
  intros Hops Hlen.
  enough (Hs : let s := session lim e e' fds ops in
    queued_tasks (thread_tracker (limiter s)) = Z.of_nat (granted s)
    /\ active_threads (thread_tracker (limiter s)) = 0 /\ (granted s <= length ops)%nat)
    by (cbv zeta in *; destruct Hs as (? & ? & ?); done).
  induction ops as [|op ops IH] using rev_ind; [done|].
  rewrite length_app in *. cbn [length] in *. apply Forall_app in Hops as [Hops Hop].
  apply Forall_cons in Hop as [Hop _]. specialize (IH Hops ltac:(lia)). cbv zeta in *.
  unfold session in *. rewrite foldl_app. cbn [foldl].
  set (s := foldl exec _ ops) in *. destruct IH as (IHq & IHa & IHg).
  destruct op as [k i| |n d|t]; cbn [exec].
  - pose proof (acquire_effects k i (limiter s)) as Ha.
    destruct (acquire k i (limiter s)) as [a l']. destruct Ha as (_ & _ & Ha).
    destruct a; cbn [limiter granted].
    + destruct Ha as (_ & _ & ->). cbn [record_task_queued queued_tasks active_threads].
      rewrite IHq, u64_wrapping_add_small by lia. split_and!; [lia|done|lia].
    + destruct Ha as [_ ->]. split_and!; [done|done|lia].
    + destruct Ha as [_ ->]. split_and!; [done|done|lia].
  - done.
  - destruct (guards s !! n) as [k|]; [|split_and!; [done|done|lia]].
    cbn [limiter granted drop_guard set_memory set_cpu set_threads set_semaphore thread_tracker
      record_task_completed queued_tasks active_threads]. rewrite IHa. split_and!; [done|done|lia].
  - cbn [limiter granted]. destruct (check_token_effects t (limiter s)) as (_ & _ & _ & ->).
    split_and!; [done|done|lia].
Qed.

End Limiter.

(** ** Examples *)

Section Examples.

(** A semaphore as the number of its permits. *)
#[local] Instance nat_semaphore : Semaphore nat := {|
  sem_new n := n;
  available_permits n := n;
  sem_acquire n := match n with O => None | S n => Some n end;
  sem_release n := S n;
|}.
#[local] Instance nat_semaphore_laws : SemaphoreLaws nat.
Proof. split; try done; intros [|n]; try done. by intros s' [= ->]. Qed.

Definition ex_limits : ResourceLimits := default_limits (Some 8).
Definition ex_over (open limit : Z) : bool := false.
Definition ex_input : Input := mkInput 0 0 10.

Lemma permits_exact_witness :
  exists s : System (P := nat),
    rtc (sys_step ex_over) (mkSystem (new ex_limits 0 0 None) []) s
    /\ threads s = [(General, RateRead)] /\ active_count General (shared s) = 0.
Proof.
  eexists. assert (Hr : rtc (sys_step ex_over) (mkSystem (new ex_limits 0 0 None) [])
    (mkSystem (new (P := nat) ex_limits 0 0 None) [(General, RateRead)])).
  { eapply rtc_l; [apply (Spawn _ _ [] General)|]. cbn [app].
    eapply rtc_l; [eapply (Step _ _ _ 0 General _ (Go ex_input)); reflexivity|]. apply rtc_refl. }
  split; [exact Hr|]. split; [reflexivity|].
  destruct (permits_exact ex_over ex_limits 0 0 None _ Hr) as [Hp _].
  destruct (Hp General) as [_ Hc]. apply Hc. reflexivity.
Defined.

Lemma rate_limit_race_witness :
  exists s : System (P := nat),
    rtc (sys_step ex_over) (mkSystem (new (mkLimits 10 8 2 1000 100 0 300 1 100 4) 0 0 None) []) s
    /\ threads s = [(General, FdCheck); (General, FdCheck)]
    /\ remaining (request_rate_limiter (shared s)) = u64_max.
Proof. apply (rate_limit_race ex_over (mkLimits 10 8 2 1000 100 0 300 1 100 4) 0 None). reflexivity. Defined.

Lemma rate_limited_per_window_witness :
  passed 1 [1; 1; 1] (rate_run "x" [1; 1; 1] (rate_new 2 0)) = 2.
Proof.
  destruct (rate_limited_per_window "x" 2 0 [1; 1] 1) as [_ Hr].
  - unfold u64_mod. lia.
  - repeat constructor; lia.
  - rewrite <- Hr by reflexivity. reflexivity.
Defined.

Lemma request_budget_never_refills_witness :
  (acquire ex_over General ex_input (limiter (session ex_over ex_limits 0 0 None
     (replicate 100 (Acquire General ex_input))))).1
  = Refused (Worker "Request rate limit exceeded").
Proof.
  apply (request_budget_never_refills (P := nat) ex_over ex_limits 0 0 None).
  - unfold u64_mod. simpl. lia.
  - lia.
  - apply Forall_replicate. cbn. lia.
  - cbn. lia.
  - vm_compute. discriminate.
Defined.

Lemma memory_admits_two_witness :
  length (guards (session (P := nat) ex_over ex_limits 0 0 None
    (replicate 5 (Acquire (Typed Inference) ex_input)))) = 2%nat
  /\ (acquire ex_over General ex_input (limiter (session (P := nat) ex_over ex_limits 0 0 None
       (replicate 5 (Acquire (Typed Inference) ex_input))))).1 <> Granted.
Proof.
  split; [reflexivity|].
  apply (memory_admits_two (P := nat) ex_over ex_limits 0 0 None); [simpl; lia|reflexivity].
Defined.

Lemma abandoned_tasks_stay_queued_witness :
  queued_tasks (thread_tracker (limiter (session (P := nat) ex_over ex_limits 0 0 None
    [Acquire General ex_input; DropGuard 0 5; Acquire General ex_input; DropGuard 0 5]))) = 2.
Proof.
  destruct (abandoned_tasks_stay_queued (P := nat) ex_over ex_limits 0 0 None
    [Acquire General ex_input; DropGuard 0 5; Acquire General ex_input; DropGuard 0 5]) as [Hq _].
  - repeat constructor; discriminate.
  - reflexivity.
  - exact Hq.
Defined.
End Examples.
End Limiter.
