(* ===== verification/RoutePolicy.v ===== *)
(** * Routing under policy

    What a routing policy does to the adapters of a request: the mask it gives the router
    and its digest (adapteros-lora-router/src/policy_mask.rs), the filtering of the
    router's decision, the fallbacks and the bound on transitions in the generation loop
    (adapteros-lora-worker/src/inference_pipeline.rs), and the ring that carries the
    decision to the kernels (adapteros-lora-worker/src/router_bridge.rs and
    adapteros-lora-kernel-api/src/lib.rs, as compiled for release).

    Scores, entropies and decision hashes are opaque ([F32], [DH]). The normalisation of
    two or more gates is floating-point code: the parameter [normalize], of which the
    theorems use that it keeps the number of gates; the scaling of a gate by a strength
    is the parameter [scale]. *)

From Stdlib Require Import Ascii.
From S2P Require Import Prelude Hashing.
Open Scope Z_scope.

Module RoutePolicy.

(** ** Masks (policy_mask.rs) *)

Record PolicyOverrideFlags : Type := mkFlags {
  allow_list : bool; deny_list : bool; trust_state : bool
}.
Definition no_flags : PolicyOverrideFlags := mkFlags false false false.

Record PolicyMask : Type := mkMask {
  allowed : list bool; digest : B3Hash; overrides_applied : PolicyOverrideFlags
}.

(** The position of each id; of equal ids, the last. *)
Definition id_to_index (ids : list string) : gmap string nat :=
  foldl (fun m '(i, id) => <[id := i]> m) ∅ (zip (seq 0 (length ids)) ids).

(** [if let Some(slot) = allowed.get_mut(idx) { *slot = b }]. *)
Definition set_bit (b : bool) (bits : list bool) (idx : nat) : list bool := <[idx := b]> bits.

Definition set_bit_of (index : gmap string nat) (b : bool) (bits : list bool) (id : string)
  : list bool :=
  match index !! id with Some idx => set_bit b bits idx | None => bits end.

Section Masks.
Context `{Blake3}.

Definition bit_byte (b : bool) : byte := if b then x01 else x00.

Definition mask_bytes (context : option B3Hash) (ids : list string) (bits : list bool)
  : list byte :=
  as_bytes (default zero context)
  ++ concat (map (fun id => as_bytes_of id ++ [x00]) ids) ++ map bit_byte bits.

Definition compute_policy_mask_digest (context : option B3Hash) (ids : list string)
    (bits : list bool) : B3Hash := hash (mask_bytes context ids bits).

Definition allow_all (ids : list string) (context : option B3Hash) : PolicyMask :=
  let bits := replicate (length ids) true in
  mkMask bits (compute_policy_mask_digest context ids bits) no_flags.

Definition deny_all (ids : list string) (context : option B3Hash) : PolicyMask :=
  let bits := replicate (length ids) false in
  mkMask bits (compute_policy_mask_digest context ids bits) no_flags.

(** Sets of indices are iterated in no particular order: any list of their elements. *)
Definition build (ids : list string) (allow deny : option (list string))
    (gate : option (gset nat)) (blocked : option (list nat)) (context : option B3Hash)
  : PolicyMask :=
  let bits := match gate with
    | Some indices => map (fun i => bool_decide (i ∈ indices)) (seq 0 (length ids))
    | None => replicate (length ids) true
    end in
  let index := id_to_index ids in
  let bits := match allow with
    | Some allow_ids =>
        foldl (set_bit_of index true) (replicate (length bits) false) allow_ids
    | None => bits
    end in
  let bits := match deny with
    | Some deny_ids => foldl (set_bit_of index false) bits deny_ids
    | None => bits
    end in
  let bits := match blocked with
    | Some idxs => foldl (set_bit false) bits idxs
    | None => bits
    end in
  mkMask bits (compute_policy_mask_digest context ids bits)
    (mkFlags (bool_decide (is_Some gate) || bool_decide (is_Some allow))
       (bool_decide (is_Some deny)) (bool_decide (is_Some blocked))).
End Masks.

(** ** Decisions *)

Definition ROUTER_GATE_Q15_MAX : Z := 32767.

(** The fields of [RoutingPolicy] routing looks at. *)
Record RoutingPolicy : Type := mkRouting {
  allowed_adapter_ids : option (list string);
  denied_adapter_ids : option (list string);
  max_adapters_per_token : option nat;
  allowed_clusters : option (list string);
  denied_clusters : option (list string);
  max_reasoning_depth : option Z;
  cluster_fallback : string;
}.

Section Decisions.
Context {F32 DH : Type} (f32_zero : F32) (normalize : list Z -> list Z).

Record DecisionCandidate : Type := mkCandidate {
  adapter_idx : nat; raw_score : F32; gate_q15 : Z
}.

Record Decision : Type := mkDecision {
  indices : list nat;
  gates_q15 : list Z;
  entropy : F32;
  candidates : list DecisionCandidate;
  decision_hash : option DH;
  policy_mask_digest_b3 : option B3Hash;
  policy_overrides_applied : option PolicyOverrideFlags;
}.

Definition renormalize_gates_q15 (gates : list Z) : list Z :=
  match gates with
  | [] => []
  | [_] => [ROUTER_GATE_Q15_MAX]
  | _ => normalize gates
  end.

Inductive Verdict := Keep | Skip | SkipCluster.

(** The tests on one adapter, in the order of the loop. *)
Definition judge (p : RoutingPolicy) (id : string) (cluster : option string) : Verdict :=
  if match allowed_adapter_ids p with Some l => negb (bool_decide (id ∈ l)) | None => false end
  then Skip
  else if match denied_adapter_ids p with Some l => bool_decide (id ∈ l) | None => false end
  then Skip
  else if match allowed_clusters p with
          | Some l => match cluster with Some c => negb (bool_decide (c ∈ l)) | None => true end
          | None => false
          end
  then SkipCluster
  else if match denied_clusters p with
          | Some l => match cluster with Some c => bool_decide (c ∈ l) | None => false end
          | None => false
          end
  then SkipCluster
  else Keep.

(** What the loop has kept: indices, gates, candidates, and the number of adapters
    dropped for their cluster. *)
Record Filtered : Type := mkFiltered {
  kept_indices : list nat;
  kept_gates : list Z;
  kept_candidates : list DecisionCandidate;
  cluster_filtered : nat;
}.

Definition filter_step (p : RoutingPolicy) (ids : list string) (clusters : list (option string))
    (d : Decision) (f : result Filtered AosError) (x : nat * (nat * Z))
  : result Filtered AosError :=
  let '(i, (idx, gate)) := x in
  match f with
  | Err e => Err e
  | Ok f =>
      match ids !! idx with
      | None =>
          Err (PolicyViolation ("RoutingPolicy adapter index " +:+ pretty idx +:+ " out of bounds"))
      | Some id =>
          match judge p id (mjoin (clusters !! idx)) with
          | Skip => Ok f
          | SkipCluster =>
              Ok (mkFiltered (kept_indices f) (kept_gates f) (kept_candidates f)
                    (S (cluster_filtered f)))
          | Keep =>
              Ok (mkFiltered (kept_indices f ++ [idx]) (kept_gates f ++ [gate])
                    (kept_candidates f ++ option_list (candidates d !! i)) (cluster_filtered f))
          end
      end
  end.

Definition filter_loop (p : RoutingPolicy) (ids : list string) (clusters : list (option string))
    (d : Decision) : result Filtered AosError :=
  let pairs := zip (indices d) (gates_q15 d) in
  foldl (filter_step p ids clusters d) (Ok (mkFiltered [] [] [] 0))
    (zip (seq 0 (length pairs)) pairs).

Definition filter_decision_by_policy (d : Decision) (ids : list string)
    (clusters : list (option string)) (policy : option RoutingPolicy)
  : result Decision AosError :=
  if negb (length ids =? length clusters)%nat then
    Err (PolicyViolation "RoutingPolicy adapter ids/clusters length mismatch")
  else
    match policy with
    | None => Ok d
    | Some p =>
        match filter_loop p ids clusters d with
        | Err e => Err e
        | Ok f =>
            match max_adapters_per_token p with
            | Some O =>
                Err (PolicyViolation
                       "Routing policy rejected all adapters (max_adapters_per_token=0)")
            | limit =>
                let cut {A} (l : list A) : list A :=
                  match limit with Some max => take max l | None => l end in
                let kept := cut (kept_indices f) in
                if (length kept =? 0)%nat then
                  Err (PolicyViolation
                         (if (0 <? cluster_filtered f)%nat
                          then "Routing policy denied all adapters for this token (clusters)"
                          else "Routing policy denied all adapters for this token"))
                else
                  Ok (mkDecision kept
                        (if (length kept <? length (indices d))%nat
                         then renormalize_gates_q15 (cut (kept_gates f))
                         else cut (kept_gates f))
                        (entropy d) (if (match limit with Some max => max <? length (kept_indices f)
                                         | None => false end)%nat
                                     then cut (kept_candidates f) else kept_candidates f)
                        (decision_hash d) (policy_mask_digest_b3 d) (policy_overrides_applied d))
            end
        end
    end.

(** ** Fallbacks and transitions (inference_pipeline.rs) *)

Definition first_adapter : Decision :=
  mkDecision [0%nat] [ROUTER_GATE_Q15_MAX] f32_zero [] None None None.

Definition fallback_decision (previous : option Decision) (adapter_count : nat) (mode : string)
  : Decision :=
  if (adapter_count =? 0)%nat then mkDecision [] [] f32_zero [] None None None
  else if (mode =? "fallback_to_base")%string then first_adapter
  else match previous with Some d => d | None => first_adapter end.

(** [id.split(['-', '_', '.']).next()], unless it is empty. *)
Fixpoint up_to_separator (s : string) : string :=
  match s with
  | EmptyString => EmptyString
  | String c s' =>
      if bool_decide (c = "-"%char) || bool_decide (c = "_"%char) || bool_decide (c = "."%char)
      then EmptyString else String c (up_to_separator s')
  end.

Definition derive_cluster_from_id (id : string) : option string :=
  let c := up_to_separator id in if (String.length c =? 0)%nat then None else Some c.

(** The adapters are given by their ids. *)
Definition apply_allowlist {A} (allowlist : option (list string)) (ids : list string)
    (priors : list A) : result (list string * list A) AosError :=
  if negb (length ids =? length priors)%nat then
    Err (PolicyViolation "adapter_info and priors length mismatch")
  else
    match allowlist with
    | None => Ok (ids, priors)
    | Some l =>
        let kept := List.filter (fun '(id, _) => bool_decide (id ∈ l)) (zip ids priors) in
        if (length kept =? 0)%nat then
          Err (PolicyViolation "No adapters allowed by routing policy")
        else Ok (map fst kept, map snd kept)
    end.

Definition enforce_routing_policy_on_decision (d : Decision) (ids : list string)
    (clusters : list (option string)) (policy : option RoutingPolicy)
  : result Decision AosError := filter_decision_by_policy d ids clusters policy.

(** The variables of the loop that routing changes. *)
Record RouteState : Type := mkRoute {
  previous_decision : option Decision; transition_count : Z
}.

Definition depth_of (policy : option RoutingPolicy) : Z :=
  match policy with Some p => default u64_max (max_reasoning_depth p) | None => u64_max end.
Definition mode_of (policy : option RoutingPolicy) : string :=
  match policy with Some p => cluster_fallback p | None => "stay_on_current" end.

(** One iteration, from the router's decision to the one that is used; [abstain] is the
    error of pending abstain events. *)
Definition route_step (admin_override : bool) (ids : list string)
    (clusters : list (option string)) (policy : option RoutingPolicy)
    (routed : Decision) (abstain : option AosError) (s : RouteState)
  : result (Decision * RouteState) AosError :=
  let fallback := fallback_decision (previous_decision s) (length ids) (mode_of policy) in
  match
    match enforce_routing_policy_on_decision routed ids clusters policy with
    | Ok d => Ok d
    | Err e =>
        if admin_override then Ok fallback
        else match policy with Some _ => Ok fallback | None => Err e end
    end
  with
  | Err e => Err e
  | Ok d =>
      match abstain with
      | Some e => Err e
      | None =>
          let count :=
            match previous_decision s with
            | Some prev =>
                if bool_decide (indices prev = indices d) then transition_count s
                else u64_saturating_add (transition_count s) 1
            | None => transition_count s
            end in
          let '(d, count) :=
            if negb admin_override && (depth_of policy <? count)
            then (fallback, depth_of policy) else (d, count) in
          Ok (d, mkRoute (Some d) count)
      end
  end.

(** ** Rings (adapteros-lora-kernel-api/src/lib.rs, release build)

    Without the two dropout fields, which this code leaves at zero. *)

Record RouterRing : Type := mkRing {
  ring_indices : list Z;
  ring_gates : list Z;
  position : Z;
  ring_k : nat;
}.

Definition ring_new (k : nat) : RouterRing :=
  mkRing (replicate 8 0) (replicate 8 0) 0 (Nat.min k 8).

Definition set_with_max_adapter (idxs gates : list Z) (max_adapter : Z) (r : RouterRing)
  : RouterRing :=
  if negb (length idxs =? length gates)%nat
     || existsb (fun idx => max_adapter <=? idx) idxs
  then mkRing (replicate 8 0) (replicate 8 0) (position r) 0
  else
    let k := Nat.min (length idxs) 8 in
    mkRing (take k idxs ++ replicate (8 - k) 0) (take k gates ++ replicate (8 - k) 0)
      (position r) k.

Definition active_indices (r : RouterRing) : list Z := take (ring_k r) (ring_indices r).
Definition active_gates (r : RouterRing) : list Z := take (ring_k r) (ring_gates r).

(** The first index out of bounds, with its position. *)
Fixpoint out_of_bounds (max_adapter_count : Z) (pos : nat) (idxs : list Z) : option (nat * Z) :=
  match idxs with
  | [] => None
  | idx :: idxs =>
      if max_adapter_count <=? idx then Some (pos, idx)
      else out_of_bounds max_adapter_count (S pos) idxs
  end.

(** [None] when an assertion panics. *)
Definition decision_to_router_ring (d : Decision) (max_adapter_count : Z)
  : option (result RouterRing AosError) :=
  let idxs := map Z.of_nat (indices d) in
  let k := length idxs in
  if (8 <? k)%nat then
    Some (Err (Routing ("Decision K > 8 (got " +:+ pretty k
                        +:+ "), violates SmallVec<[_; 8]> invariant")))
  else
    match out_of_bounds max_adapter_count 0 idxs with
    | Some (pos, idx) =>
        Some (Err (Routing ("Router decision index " +:+ pretty idx +:+ " at position " +:+ pretty pos
                            +:+ " exceeds active adapter count " +:+ pretty max_adapter_count)))
    | None =>
        if negb (length idxs =? length (gates_q15 d))%nat then None
        else
          let ring := set_with_max_adapter idxs (gates_q15 d) max_adapter_count (ring_new k) in
          if (ring_k ring =? k)%nat then Some (Ok ring) else None
    end.

(** ids of the active adapters for the indices of a decision *)
Fixpoint map_active (active : list Z) (idxs : list nat) : result (list Z) AosError :=
  match idxs with
  | [] => Ok []
  | idx :: idxs =>
      match active !! idx with
      | None => Err (Routing ("Router decision index " +:+ pretty idx +:+ " not in active set (len="
                              +:+ pretty (length active) +:+ ")"))
      | Some id =>
          match map_active active idxs with Err e => Err e | Ok rest => Ok (id :: rest) end
      end
  end.

Definition clamp (lo hi z : Z) : Z := Z.max lo (Z.min hi z).

(** [scale g s] is the gate [g] times the strength [s] clamped to [0, 1], rounded;
    [f32_one] the default strength. [None] when a slot is outside the ring. *)
Context (f32_one : F32) (scale : Z -> F32 -> Z).

Fixpoint apply_strengths (strengths : list F32) (slot : nat) (idxs : list nat) (gates : list Z)
  : option (list Z) :=
  match idxs with
  | [] => Some gates
  | idx :: idxs =>
      match gates !! slot with
      | None => None
      | Some g =>
          let strength := default f32_one (strengths !! idx) in
          let scaled := clamp (- ROUTER_GATE_Q15_MAX) ROUTER_GATE_Q15_MAX (scale g strength) in
          apply_strengths strengths (S slot) idxs (<[slot := scaled]> gates)
      end
  end.

Definition decision_to_router_ring_with_active_ids_and_strengths (d : Decision)
    (active : list Z) (strengths : option (list F32)) (pos : Z)
  : option (result RouterRing AosError) :=
  match map_active active (indices d) with
  | Err e => Some (Err e)
  | Ok mapped =>
      let r := ring_new (length mapped) in
      let r := set_with_max_adapter mapped (gates_q15 d) (2 ^ 16 - 1)
        (mkRing (ring_indices r) (ring_gates r) pos (ring_k r)) in
      match strengths with
      | None => Some (Ok r)
      | Some s =>
          if negb (length s =? length active)%nat then
            Some (Err (Routing ("Strengths length " +:+ pretty (length s)
                                +:+ " does not match active adapters " +:+ pretty (length active))))
          else
            match apply_strengths s 0 (indices d) (ring_gates r) with
            | None => None
            | Some gates => Some (Ok (mkRing (ring_indices r) gates (position r) (ring_k r)))
            end
      end
  end.

Definition decision_to_router_ring_with_active_ids (d : Decision) (active : list Z) (pos : Z)
  : option (result RouterRing AosError) :=
  decision_to_router_ring_with_active_ids_and_strengths d active None pos.

(** ** What a policy permits *)

Definition permits (p : RoutingPolicy) (ids : list string) (clusters : list (option string))
    (idx : nat) : bool :=
  match ids !! idx with
  | Some id => match judge p id (mjoin (clusters !! idx)) with Keep => true | _ => false end
  | None => false
  end.

(** The same, said without the code: the adapter exists, is on the allowlists of ids and of
    clusters and on none of the denylists. *)
Definition permitted (p : RoutingPolicy) (ids : list string) (clusters : list (option string))
    (idx : nat) : Prop :=
  exists id, ids !! idx = Some id
    /\ (forall l, allowed_adapter_ids p = Some l -> id ∈ l)
    /\ (forall l, denied_adapter_ids p = Some l -> id ∉ l)
    /\ (forall l, allowed_clusters p = Some l -> exists c, mjoin (clusters !! idx) = Some c /\ c ∈ l)
    /\ (forall l c, denied_clusters p = Some l -> mjoin (clusters !! idx) = Some c -> c ∉ l).

Lemma permits_permitted p ids clusters idx :
  permits p ids clusters idx = true <-> permitted p ids clusters idx.
Proof.
  unfold permits, permitted, judge. destruct (ids !! idx) as [id|]; [|naive_solver].
  assert (Hone : (exists id', Some id = Some id' /\ (forall l, allowed_adapter_ids p = Some l -> id' ∈ l)
    /\ (forall l, denied_adapter_ids p = Some l -> id' ∉ l)
    /\ (forall l, allowed_clusters p = Some l -> exists c, mjoin (clusters !! idx) = Some c /\ c ∈ l)
    /\ (forall l c, denied_clusters p = Some l -> mjoin (clusters !! idx) = Some c -> c ∉ l))
    <-> ((forall l, allowed_adapter_ids p = Some l -> id ∈ l)
    /\ (forall l, denied_adapter_ids p = Some l -> id ∉ l)
    /\ (forall l, allowed_clusters p = Some l -> exists c, mjoin (clusters !! idx) = Some c /\ c ∈ l)
    /\ (forall l c, denied_clusters p = Some l -> mjoin (clusters !! idx) = Some c -> c ∉ l)))
    by naive_solver.
  rewrite Hone. clear Hone. set (cl := mjoin (clusters !! idx)).
  set (b1 := match allowed_adapter_ids p with Some _ => _ | None => _ end).
  set (b2 := match denied_adapter_ids p with Some _ => _ | None => _ end).
  set (b3 := match allowed_clusters p with Some _ => _ | None => _ end).
  set (b4 := match denied_clusters p with Some _ => _ | None => _ end).
  assert (H1 : b1 = false <-> (forall l, allowed_adapter_ids p = Some l -> id ∈ l)).
  { unfold b1. destruct (allowed_adapter_ids p); [|naive_solver].
    rewrite negb_false_iff, bool_decide_eq_true. naive_solver. }
  assert (H2 : b2 = false <-> (forall l, denied_adapter_ids p = Some l -> id ∉ l)).
  { unfold b2. destruct (denied_adapter_ids p); [|naive_solver].
    rewrite bool_decide_eq_false. naive_solver. }
  assert (H3 : b3 = false <-> (forall l, allowed_clusters p = Some l -> exists c, cl = Some c /\ c ∈ l)).
  { unfold b3. destruct (allowed_clusters p); [|naive_solver]. destruct cl; [|naive_solver].
    rewrite negb_false_iff, bool_decide_eq_true. naive_solver. }
  assert (H4 : b4 = false <-> (forall l c, denied_clusters p = Some l -> cl = Some c -> c ∉ l)).
  { unfold b4. destruct (denied_clusters p); [|naive_solver]. destruct cl; [|naive_solver].
    rewrite bool_decide_eq_false. naive_solver. }
  rewrite <- H1, <- H2, <- H3, <- H4. clear. destruct b1, b2, b3, b4; naive_solver.
Qed.

Definition cut {A} (limit : option nat) (l : list A) : list A :=
  match limit with Some max => take max l | None => l end.

(** The filtering loop, entered with [f]. *)
Lemma filter_steps p ids clusters d l f f' :
  foldl (filter_step p ids clusters d) (Ok f) l = Ok f' ->
  kept_indices f' = kept_indices f ++ List.filter (permits p ids clusters) (map (fun x => x.2.1) l)
  /\ kept_gates f'
     = kept_gates f ++ map snd (List.filter (fun y => permits p ids clusters y.1) (map snd l)).
Proof.
  revert f. induction l as [|[i [idx gate]] l IH]; intros f Hf; cbn [foldl map List.filter] in *.
  { injection Hf as <-. by rewrite !app_nil_r. }
  cbn [filter_step snd fst] in *.
  assert (Ep : permits p ids clusters idx
    = match ids !! idx with
      | Some id => match judge p id (mjoin (clusters !! idx)) with Keep => true | _ => false end
      | None => false
      end) by done.
  rewrite Ep. clear Ep. destruct (ids !! idx) as [id|].
  - destruct (judge p id (mjoin (clusters !! idx))); apply IH in Hf as [Hi Hg];
      cbn [kept_indices kept_gates map snd] in *; rewrite Hi, Hg; [|done..].
    by rewrite <- !(assoc_L (++)).
  - exfalso. clear IH. induction l as [|x l IHl]; cbn [foldl filter_step] in Hf; [done|].
    destruct x as [? []]. by apply IHl.
Qed.

Lemma zip_seq_snd {A} (l : list A) n : map snd (zip (seq n (length l)) l) = l.
Proof. revert n. induction l as [|x l IH]; intros n; simpl; [done|]. by rewrite IH. Qed.

Lemma filter_loop_kept p ids clusters d f :
  filter_loop p ids clusters d = Ok f -> length (indices d) = length (gates_q15 d) ->
  kept_indices f = List.filter (permits p ids clusters) (indices d)
  /\ length (kept_gates f) = length (kept_indices f)
  /\ (forallb (permits p ids clusters) (indices d) = true -> kept_gates f = gates_q15 d).
Proof.
  unfold filter_loop. set (pairs := zip (indices d) (gates_q15 d)). intros Hf Hlen.
  apply filter_steps in Hf as [Hi Hg]. cbn [kept_indices kept_gates app] in Hi, Hg.
  rewrite zip_seq_snd in Hg.
  assert (Hp : map fst pairs = indices d) by (unfold pairs; apply fst_zip; lia).
  assert (Hx : map (fun x : nat * (nat * Z) => x.2.1) (zip (seq 0 (length pairs)) pairs) = indices d).
  { rewrite <- (List.map_map snd fst), zip_seq_snd. done. }
  rewrite Hx in Hi. split_and!; [done| |].
  - rewrite Hg, Hi, length_map, <- Hp. clear.
    induction pairs as [|[i g] l IH]; simpl; [done|]. destruct (permits p ids clusters i); simpl; lia.
  - intros Hall. rewrite Hg.
    assert (Hs : map snd pairs = gates_q15 d) by (unfold pairs; apply snd_zip; lia).
    rewrite <- Hs. f_equal. rewrite <- Hp in Hall. clear -Hall.
    induction pairs as [|[i g] l IH]; [done|]. cbn [map forallb fst List.filter] in *.
    apply andb_true_iff in Hall as [-> Hall]. by rewrite IH.
Qed.

(** What a decision that passed the policy looks like. *)
Lemma filter_decision_ok d ids clusters p d' :
  filter_decision_by_policy d ids clusters (Some p) = Ok d' ->
  exists f, filter_loop p ids clusters d = Ok f
    /\ max_adapters_per_token p <> Some 0%nat
    /\ indices d' = cut (max_adapters_per_token p) (kept_indices f) /\ indices d' <> []
    /\ gates_q15 d' = (if (length (indices d') <? length (indices d))%nat
                       then renormalize_gates_q15 (cut (max_adapters_per_token p) (kept_gates f))
                       else cut (max_adapters_per_token p) (kept_gates f)).
Proof.
  unfold filter_decision_by_policy. destruct (negb _); [done|].
  destruct (filter_loop p ids clusters d) as [f|] eqn:Ef; [|done].
  intros Hd. exists f. split; [done|].
  assert (Hm : max_adapters_per_token p <> Some 0%nat) by (intros Em; by rewrite Em in Hd).
  assert (Hcut : forall k, (if (length k =? 0)%nat then false else true) = true -> k <> ([] : list nat))
    by (by intros []).
  destruct (max_adapters_per_token p) as [[|max]|]; [done| |]; cbv zeta in Hd; unfold cut;
    (destruct (length _ =? 0)%nat eqn:El; [done|]; injection Hd as <-; cbn [indices gates_q15];
     split_and!; try done; intros E; rewrite E in El; done).
Qed.

Lemma filter_permitted d ids clusters p d' :
  length (indices d) = length (gates_q15 d) ->
  filter_decision_by_policy d ids clusters (Some p) = Ok d' ->
  Forall (permitted p ids clusters) (indices d').
Proof.
  intros Hlen Hd. apply filter_decision_ok in Hd as (f & Ef & _ & Hi & _).
  destruct (filter_loop_kept _ _ _ _ _ Ef Hlen) as (Hk & _). rewrite Hi, Hk. unfold cut.
  assert (Hf : Forall (permitted p ids clusters)
    (List.filter (permits p ids clusters) (indices d)))
    by (apply List.Forall_forall; by intros x [_ Hx%permits_permitted]%filter_In).
  destruct (max_adapters_per_token p); [by apply Forall_take|done].
Qed.

Hypothesis normalize_length : forall l, length (normalize l) = length l.

Lemma renormalize_length l : length (renormalize_gates_q15 l) = length l.
Proof using normalize_length. destruct l as [|a [|b l]]; [done|done|]. apply normalize_length. Qed.

(** [C36] A decision that passes a policy keeps to it: its adapters are exactly the permitted
    ones of the router's choice, in the router's order, cut to the policy's maximum; there
    is at least one; every adapter has a gate; and a choice that the policy leaves alone is
    kept with its gates unchanged. *)
Theorem filter_respects_policy d ids clusters p d' :
  length (indices d) = length (gates_q15 d) ->
  filter_decision_by_policy d ids clusters (Some p) = Ok d' ->
  indices d' = cut (max_adapters_per_token p) (List.filter (permits p ids clusters) (indices d))
  /\ (forall idx, permits p ids clusters idx = true <-> permitted p ids clusters idx)
  /\ indices d' <> [] /\ Forall (permitted p ids clusters) (indices d')
  /\ (forall max, max_adapters_per_token p = Some max -> (length (indices d') <= max)%nat)
  /\ length (gates_q15 d') = length (indices d')
  /\ (indices d' = indices d -> gates_q15 d' = gates_q15 d).
Proof using normalize_length.
  intros Hlen Hd. pose proof (filter_permitted _ _ _ _ _ Hlen Hd) as Hp.
  apply filter_decision_ok in Hd as (f & Ef & Hm & Hi & Hne & Hg).
  destruct (filter_loop_kept _ _ _ _ _ Ef Hlen) as (Hk & Hkg & Hall).
  assert (Hcut : forall A B (l : list A) (k : list B), length l = length k ->
    length (cut (max_adapters_per_token p) l) = length (cut (max_adapters_per_token p) k)).
  { intros A B l k E. unfold cut. destruct (max_adapters_per_token p); [|done].
    rewrite !length_take. lia. }
  split_and!.
  - by rewrite Hi, Hk.
  - apply permits_permitted.
  - done.
  - done.
  - intros max Em. rewrite Hi, Em. cbn [cut]. rewrite length_take. lia.
  - rewrite Hg. destruct (length (indices d') <? length (indices d))%nat;
      rewrite ?renormalize_length, Hi; by apply Hcut.
  - intros E. rewrite Hg, E, Nat.ltb_irrefl.
    assert (Hkeep : List.filter (permits p ids clusters) (indices d) = indices d
      /\ (forall max, max_adapters_per_token p = Some max -> (length (indices d) <= max)%nat)).
    { rewrite Hi, Hk in E.
      pose proof (filter_length_le (permits p ids clusters) (indices d)) as Hle.
      assert (El : length (cut (max_adapters_per_token p)
        (List.filter (permits p ids clusters) (indices d))) = length (indices d)) by (by rewrite E).
      unfold cut in E, El. destruct (max_adapters_per_token p) as [max|]; [|done].
      rewrite length_take in El. split; [|intros ? [= <-]; lia].
      rewrite <- E at 2. by rewrite take_ge by lia. }
    destruct Hkeep as [Hkeep Hmax]. rewrite Hall.
    + unfold cut. destruct (max_adapters_per_token p) as [max|]; [|done].
      apply take_ge. rewrite <- Hlen. by apply Hmax.
    + apply forallb_forall. intros x Hx. rewrite <- Hkeep in Hx. by apply filter_In in Hx as [_ Hx].
Qed.

(** ** Runs of the generation loop *)

Section Runs.
Context (admin_override : bool) (ids : list string) (clusters : list (option string)).

(** The decisions used for the router's decisions, one per token. *)
Fixpoint run_routes (policy : option RoutingPolicy) (routed : list Decision) (s : RouteState)
  : result (list Decision) AosError :=
  match routed with
  | [] => Ok []
  | d :: routed =>
      match route_step admin_override ids clusters policy d None s with
      | Err e => Err e
      | Ok (used, s) =>
          match run_routes policy routed s with Err e => Err e | Ok rest => Ok (used :: rest) end
      end
  end.

Definition start : RouteState := mkRoute None 0.

(** The decision of an iteration before the bound on transitions. *)
Definition enforced (policy : option RoutingPolicy) (d : Decision) (s : RouteState)
  : result Decision AosError :=
  match enforce_routing_policy_on_decision d ids clusters policy with
  | Ok d => Ok d
  | Err e =>
      if admin_override || bool_decide (is_Some policy)
      then Ok (fallback_decision (previous_decision s) (length ids) (mode_of policy))
      else Err e
  end.

Definition counted (d : Decision) (s : RouteState) : Z :=
  match previous_decision s with
  | Some prev =>
      if bool_decide (indices prev = indices d) then transition_count s
      else u64_saturating_add (transition_count s) 1
  | None => transition_count s
  end.

Lemma route_step_eq policy d s :
  route_step admin_override ids clusters policy d None s
  = match enforced policy d s with
    | Err e => Err e
    | Ok d' =>
        if negb admin_override && (depth_of policy <? counted d' s)
        then let u := fallback_decision (previous_decision s) (length ids) (mode_of policy) in
             Ok (u, mkRoute (Some u) (depth_of policy))
        else Ok (d', mkRoute (Some d') (counted d' s))
    end.
Proof.
  unfold route_step, enforced, counted.
  destruct (enforce_routing_policy_on_decision d ids clusters policy) as [d'|e].
  - by destruct (_ && _).
  - destruct admin_override; cbn [orb negb andb]; [done|].
    destruct policy; cbn [bool_decide]; [|done].
    rewrite bool_decide_true by (by eexists). by destruct (depth_of _ <? _).
Qed.

(** Adapters a run may use: those the policy permits, or the first one alone. *)
Definition usable (p : RoutingPolicy) (d : Decision) : Prop :=
  Forall (permitted p ids clusters) (indices d) \/ indices d = [0%nat].

Context (ids_nonempty : ids <> []).

Lemma fallback_cases previous mode :
  fallback_decision previous (length ids) mode = first_adapter
  \/ (mode <> "fallback_to_base"
      /\ previous = Some (fallback_decision previous (length ids) mode)).
Proof using ids_nonempty.
  unfold fallback_decision. destruct ids as [|id l]; [done|]. cbn [length Nat.eqb].
  destruct (String.eqb_spec mode "fallback_to_base"); [by left|].
  destruct previous; [by right|by left].
Qed.

Lemma fallback_usable p previous mode :
  (forall d, previous = Some d -> usable p d) ->
  usable p (fallback_decision previous (length ids) mode).
Proof using ids_nonempty.
  intros Hp. destruct (fallback_cases previous mode) as [->|[_ E]]; [by right|].
  by apply Hp.
Qed.

Lemma route_step_usable p d s used s' :
  length (indices d) = length (gates_q15 d) ->
  (forall d, previous_decision s = Some d -> usable p d) ->
  route_step admin_override ids clusters (Some p) d None s = Ok (used, s') ->
  usable p used /\ previous_decision s' = Some used.
Proof using ids_nonempty.
  intros Hlen Hprev. rewrite route_step_eq.
  assert (He : forall d', enforced (Some p) d s = Ok d' -> usable p d').
  { unfold enforced, enforce_routing_policy_on_decision.
    destruct (filter_decision_by_policy d ids clusters (Some p)) as [d1|e] eqn:Ef.
    - intros d' [= <-]. left.
      by apply (filter_permitted d).
    - destruct (_ || _); [|done]. intros d' [= <-]. by apply fallback_usable. }
  destruct (enforced (Some p) d s) as [d'|]; [|done].
  destruct (_ && _); intros [= <- <-]; cbn [previous_decision]; split; try done.
  - by apply fallback_usable.
  - by apply He.
Qed.

Lemma run_routes_usable p routed s used :
  Forall (fun d => length (indices d) = length (gates_q15 d)) routed ->
  (forall d, previous_decision s = Some d -> usable p d) ->
  run_routes (Some p) routed s = Ok used -> Forall (usable p) used.
Proof using ids_nonempty.
  revert s used. induction routed as [|d routed IH]; intros s used Hl Hs Hr; cbn [run_routes] in Hr.
  { by injection Hr as <-. }
  apply Forall_cons in Hl as [Hd Hl].
  destruct (route_step _ _ _ _ _ _ _) as [[u s']|] eqn:Eu; [|done].
  apply route_step_usable in Eu as [Hu Es]; [|done..].
  destruct (run_routes (Some p) routed s') as [rest|] eqn:Er; [|done]. injection Hr as <-.
  constructor; [done|]. eapply IH; [done| |exact Er]. rewrite Es. by intros ? [= <-].
Qed.

(** Every decision of a run under a policy uses only adapters the policy permits, or
    else the first adapter alone. *)
Theorem used_decisions_permitted p routed used :
  Forall (fun d => length (indices d) = length (gates_q15 d)) routed ->
  run_routes (Some p) routed start = Ok used -> Forall (usable p) used.
Proof using ids_nonempty. intros Hl. by apply run_routes_usable. Qed.

(** How often the set of adapters changes. *)
Fixpoint changes (previous : option Decision) (used : list Decision) : Z :=
  match used with
  | [] => 0
  | d :: used =>
      (match previous with
       | Some prev => if bool_decide (indices prev = indices d) then 0 else 1
       | None => 0
       end) + changes (Some d) used
  end.

(** The counter of transitions against the changes made so far. *)
Definition tallied (policy : option RoutingPolicy) (made : Z) (s : RouteState) : Prop :=
  (made = transition_count s /\ transition_count s <= depth_of policy)
  \/ (mode_of policy = "fallback_to_base" /\ made = depth_of policy + 1
      /\ transition_count s = depth_of policy
      /\ exists d, previous_decision s = Some d /\ indices d = [0%nat]).

Lemma route_step_tallied policy made d s used s' :
  admin_override = false -> 0 <= depth_of policy < u64_max -> 0 <= transition_count s ->
  (previous_decision s = None -> transition_count s = 0) ->
  tallied policy made s ->
  route_step admin_override ids clusters policy d None s = Ok (used, s') ->
  tallied policy (made + changes (previous_decision s) [used]) s'
  /\ 0 <= transition_count s' /\ previous_decision s' = Some used.
Proof using ids_nonempty.
  unfold tallied. intros Ha Hd Hc Hnone Ht. rewrite route_step_eq, Ha. cbn [negb andb].
  destruct (enforced policy d s) as [d'|]; [|done]. cbn [changes]. rewrite Z.add_0_r.
  pose proof (fallback_cases (previous_decision s) (mode_of policy)) as Hf.
  set (fb := fallback_decision _ _ _) in *. unfold counted.
  destruct (previous_decision s) as [prev|] eqn:Ep.
  2:{ assert (Ht' : made = 0).
      { specialize (Hnone eq_refl). destruct Ht as [[? ?]|(_ & _ & _ & ? & ? & _)]; [lia|done]. }
      rewrite Hnone by done. replace (depth_of policy <? 0) with false by lia.
      intros [= <- <-]. split_and!; try done. left. cbn. lia. }
  case_bool_decide as Es.
  - replace (depth_of policy <? transition_count s) with false
      by (destruct Ht as [?|(_ & _ & ? & _)]; lia).
    intros [= <- <-]. cbn [transition_count previous_decision]. rewrite bool_decide_true by done.
    rewrite Z.add_0_r. split_and!; try done. destruct Ht as [?|(H1 & H2 & H3 & pd & H4 & H5)]; [by left|].
    right. split_and!; try done. exists d'. injection H4 as ->. by rewrite <- Es.
  - unfold u64_saturating_add. destruct (Z.ltb_spec (depth_of policy)
      (Z.min (transition_count s + 1) u64_max)) as [Hlt|Hge].
    + intros [= <- <-]. cbn [transition_count previous_decision]. split_and!; [|lia|done].
      destruct Hf as [Ef|[Hm [= Ef]]].
      * rewrite Ef. cbn [indices first_adapter].
        destruct Ht as [[? ?]|(H1 & H2 & H3 & pd & H4 & H5)].
        -- case_bool_decide; [left; lia|].
           destruct (String.eqb_spec (mode_of policy) "fallback_to_base") as [Em|Em].
           ++ right. split_and!; [done|lia|done|]. by exists first_adapter.
           ++ exfalso. unfold fb, fallback_decision in Ef. destruct ids; [done|].
              cbn [length Nat.eqb] in Ef. apply String.eqb_neq in Em. rewrite Em in Ef.
              by rewrite Ef in *.
        -- injection H4 as <-. rewrite H5, bool_decide_true by done.
           right. split_and!; [done|lia|done|]. by exists first_adapter.
      * rewrite <- Ef. rewrite bool_decide_true by done. rewrite Z.add_0_r.
        destruct Ht as [[? ?]|(H1 & _)]; [left; cbn; lia|done].
    + intros [= <- <-]. cbn [transition_count previous_decision].
      rewrite bool_decide_false by done. split_and!; [|lia|done].
      left. destruct Ht as [[? ?]|(_ & _ & H3 & _)]; cbn; lia.
Qed.

Lemma changes_cons previous d used :
  changes previous (d :: used) = changes previous [d] + changes (Some d) used.
Proof. cbn [changes]. lia. Qed.

Lemma run_routes_tallied policy routed made s used :
  admin_override = false -> 0 <= depth_of policy < u64_max -> 0 <= transition_count s ->
  (previous_decision s = None -> transition_count s = 0) ->
  tallied policy made s -> run_routes policy routed s = Ok used ->
  made + changes (previous_decision s) used <= depth_of policy
    + (if (mode_of policy =? "fallback_to_base")%string then 1 else 0).
Proof using ids_nonempty.
  intros Ha Hd. revert made s used.
  induction routed as [|d routed IH]; intros made s used Hc Hn Ht Hr; cbn [run_routes] in Hr.
  - injection Hr as <-. cbn [changes]. destruct Ht as [[? ?]|(-> & ? & _)].
    + destruct (_ =? _)%string; lia.
    + cbn. lia.
  - destruct (route_step _ _ _ _ _ _ _) as [[u s']|] eqn:Eu; [|done].
    destruct (route_step_tallied _ _ _ _ _ _ Ha Hd Hc Hn Ht Eu) as (Ht' & Hc' & Ep).
    destruct (run_routes policy routed s') as [rest|] eqn:Er; [|done]. injection Hr as <-.
    assert (Hn' : previous_decision s' = None -> transition_count s' = 0) by (by rewrite Ep).
    specialize (IH _ _ _ Hc' Hn' Ht' Er). rewrite Ep in IH. rewrite changes_cons. lia.
Qed.

(** The bound on transitions holds over a whole run: without an override, the adapters
    change at most [max_reasoning_depth] times, and once more if the policy falls back to
    the base. *)
Theorem transitions_within_depth policy routed used :
  admin_override = false -> 0 <= depth_of policy < u64_max ->
  run_routes policy routed start = Ok used ->
  changes None used <= depth_of policy
    + (if (mode_of policy =? "fallback_to_base")%string then 1 else 0).
Proof using ids_nonempty.
  intros Ha Hd Hr. apply (run_routes_tallied policy routed 0 start used); try done.
  left. cbn. lia.
Qed.

(** A policy that denies every adapter the router chose does not stop the request: the
    first token is routed to the first adapter with full weight, also when the policy denies
    that very adapter and whatever its fallback mode is. *)
Theorem denied_adapter_used p d :
  max_adapters_per_token p <> Some 0%nat -> 0 <= depth_of (Some p) ->
  length ids = length clusters ->
  (forall idx, idx ∈ indices d -> (idx < length ids)%nat /\ ~ permitted p ids clusters idx) ->
  ~ permitted p ids clusters 0 ->
  route_step admin_override ids clusters (Some p) d None start
  = Ok (first_adapter, mkRoute (Some first_adapter) 0).
Proof using ids_nonempty.
  intros Hm Hd Hlen Hall H0. rewrite route_step_eq.
  assert (He : forall d', enforce_routing_policy_on_decision d ids clusters (Some p) <> Ok d').
  { intros d' Hd'. unfold enforce_routing_policy_on_decision in Hd'.
    apply filter_decision_ok in Hd' as (f & Ef & _ & Hi & Hne & _). apply Hne. rewrite Hi.
    unfold filter_loop in Ef. apply filter_steps in Ef as [Hk _]. cbn [kept_indices app] in Hk.
    assert (Hnil : kept_indices f = []).
    { rewrite Hk. destruct (List.filter _ _) as [|x l] eqn:El; [done|]. exfalso.
      assert (Hx : In x (x :: l)) by by left. rewrite <- El in Hx.
      apply filter_In in Hx as [Hin Hp]. rewrite <- (List.map_map snd fst), zip_seq_snd in Hin.
      apply in_map_iff in Hin as ([i g] & <- & Hin). apply in_combine_l in Hin.
      cbn [fst] in Hp. apply list_elem_of_In in Hin. destruct (Hall i Hin) as [_ Hno]. by apply Hno, permits_permitted. }
    rewrite Hnil. unfold cut. destruct (max_adapters_per_token p); [by rewrite take_nil|done]. }
  assert (Ee : enforced (Some p) d start = Ok first_adapter).
  { unfold enforced. destruct (enforce_routing_policy_on_decision d ids clusters (Some p)) as [d'|e].
    - by destruct (He d').
    - rewrite bool_decide_true by (by eexists). rewrite orb_true_r. f_equal.
      by destruct (fallback_cases (previous_decision start) (mode_of (Some p))) as [?|[_ ?]]. }
  rewrite Ee. cbn [counted start previous_decision transition_count].
  replace (depth_of (Some p) <? 0) with false by lia. by rewrite andb_false_r.
Qed.
End Runs.

(** ** Rings *)

Lemma out_of_bounds_none max pos idxs :
  out_of_bounds max pos idxs = None <-> existsb (fun idx => max <=? idx) idxs = false.
Proof.
  revert pos. induction idxs as [|x l IH]; intros pos; cbn [out_of_bounds existsb]; [done|].
  destruct (max <=? x); [done|]. apply IH.
Qed.

Lemma set_ring_ok idxs gates max r :
  length idxs = length gates -> (length idxs <= 8)%nat ->
  existsb (fun idx => max <=? idx) idxs = false ->
  set_with_max_adapter idxs gates max r
  = mkRing (idxs ++ replicate (8 - length idxs) 0) (gates ++ replicate (8 - length idxs) 0)
      (position r) (length idxs).
Proof.
  intros Hl H8 Hb. unfold set_with_max_adapter. rewrite Hb, Hl, Nat.eqb_refl. cbn [negb orb].
  rewrite <- Hl, Nat.min_l by done. by rewrite !take_ge by lia.
Qed.

Definition zero_padded (l : list Z) (r : list Z) : Prop :=
  r = l ++ replicate (8 - length l) 0 /\ length r = 8%nat.

(** The ring carries the decision: a decision with a gate per adapter never panics; it
    is refused exactly when it has more than eight adapters or one out of range, and
    otherwise the kernels see its adapters and gates in its order, padded with zeros to
    eight slots. *)
Theorem ring_carries_decision d max :
  length (indices d) = length (gates_q15 d) ->
  match decision_to_router_ring d max with
  | Some (Ok r) =>
      (length (indices d) <= 8)%nat /\ Forall (fun idx => Z.of_nat idx < max) (indices d)
      /\ active_indices r = map Z.of_nat (indices d) /\ active_gates r = gates_q15 d
      /\ zero_padded (map Z.of_nat (indices d)) (ring_indices r)
      /\ zero_padded (gates_q15 d) (ring_gates r)
  | Some (Err _) =>
      (8 < length (indices d))%nat \/ Exists (fun idx => max <= Z.of_nat idx) (indices d)
  | None => False
  end.
Proof.
  intros Hlen. unfold decision_to_router_ring. cbv zeta. rewrite length_map.
  destruct (8 <? length (indices d))%nat eqn:E8; breflect; [by left|].
  destruct (out_of_bounds max 0 (map Z.of_nat (indices d))) as [[pos idx]|] eqn:Eo.
  - right. destruct (existsb (fun idx => max <=? idx) (map Z.of_nat (indices d))) eqn:Ex.
    + apply existsb_exists in Ex as (x & Hx & Hm). apply in_map_iff in Hx as (i & <- & Hi).
      breflect. apply Exists_exists. exists i. split; [by apply list_elem_of_In|done].
    + apply (out_of_bounds_none _ 0) in Ex. congruence.
  - apply out_of_bounds_none in Eo. rewrite Hlen, Nat.eqb_refl. cbn [negb].
    rewrite set_ring_ok by (rewrite ?length_map; done). cbn [ring_k]. rewrite length_map, <- Hlen, Nat.eqb_refl.
    unfold active_indices, active_gates, zero_padded. cbn [ring_k ring_indices ring_gates].
    rewrite !length_app, !length_replicate, length_map, Hlen.
    split_and!; try done; try lia.
    + apply Forall_forall. intros x Hx. rewrite <- not_true_iff_false in Eo.
      destruct (Z.ltb_spec (Z.of_nat x) max); [done|]. exfalso. apply Eo, existsb_exists.
      exists (Z.of_nat x). split; [by apply in_map, list_elem_of_In|]. by apply Z.leb_le.
    + apply take_app_length'. by rewrite length_map.
    + by apply take_app_length'.
Qed.

(** Ids of active adapters are hashed to sixteen bits, and the ring takes the largest one
    for out of range: a decision that involves an adapter with id 65535 is given to the
    kernels as no adapters at all, without an error. *)
Theorem largest_id_drops_all d active mapped pos :
  map_active active (indices d) = Ok mapped -> 2 ^ 16 - 1 ∈ mapped ->
  exists r, decision_to_router_ring_with_active_ids d active pos = Some (Ok r)
    /\ active_indices r = [] /\ ring_gates r = replicate 8 0.
Proof.
  intros Hm Hin. unfold decision_to_router_ring_with_active_ids,
    decision_to_router_ring_with_active_ids_and_strengths. rewrite Hm.
  unfold set_with_max_adapter.
  replace (existsb (fun idx => 2 ^ 16 - 1 <=? idx) mapped) with true.
  { rewrite orb_true_r. eexists. by split_and!. }
  symmetry. apply existsb_exists. exists (2 ^ 16 - 1). split; [by apply list_elem_of_In|].
  by apply Z.leb_le.
Qed.
End Decisions.

(** ** Masks, bit by bit *)

Lemma zip_seq_snoc (l : list string) x :
  zip (seq 0 (length (l ++ [x]))) (l ++ [x]) = zip (seq 0 (length l)) l ++ [(length l, x)].
Proof.
  rewrite length_app, Nat.add_1_r, seq_S, zip_with_app by (by rewrite length_seq). done.
Qed.

Lemma id_to_index_lookup ids id i : NoDup ids ->
  id_to_index ids !! id = Some i <-> ids !! i = Some id.
Proof.
  unfold id_to_index. induction ids as [|x ids IH] using rev_ind; intros Hn.
  { cbn. rewrite lookup_empty. by split. }
  apply NoDup_app in Hn as (Hn & Hx & _). specialize (IH Hn).
  rewrite zip_seq_snoc, foldl_app. cbn [foldl]. rewrite lookup_insert_Some, IH.
  rewrite lookup_snoc_Some. split.
  - intros [[-> <-]|[Hne Hi]]; [by right|left]. split; [by eapply lookup_lt_Some|done].
  - intros [[Hi Hl]|[-> ->]]; [|by left]. right. split; [|done].
    intros <-. apply (Hx x); [by eapply list_elem_of_lookup_2|by left].
Qed.

Lemma set_bit_of_all ids b xs bits i id v : NoDup ids ->
  ids !! i = Some id -> bits !! i = Some v ->
  foldl (set_bit_of (id_to_index ids) b) bits xs !! i
  = Some (if bool_decide (id ∈ xs) then b else v).
Proof.
  intros Hn Hi. revert bits v. induction xs as [|x xs IH]; intros bits v Hv; cbn [foldl].
  { by rewrite bool_decide_false by (by intros ?%elem_of_nil). }
  assert (Hb : set_bit_of (id_to_index ids) b bits x !! i
    = Some (if bool_decide (id = x) then b else v)).
  { unfold set_bit_of, set_bit. destruct (id_to_index ids !! x) as [j|] eqn:Ej.
    - apply (id_to_index_lookup ids x j Hn) in Ej.
      destruct (bool_decide (id = x)) eqn:E; breflect.
      + subst x. pose proof (NoDup_lookup ids j i id Hn Ej Hi) as ->.
        apply list_lookup_insert_eq. by eapply lookup_lt_Some.
      + rewrite list_lookup_insert_ne; [done|]. intros ->. congruence.
    - destruct (bool_decide (id = x)) eqn:E; breflect; [|done]. subst.
      apply (id_to_index_lookup ids x i Hn) in Hi. congruence. }
  rewrite (IH _ _ Hb). f_equal.
  destruct (bool_decide (id ∈ xs)) eqn:E1, (bool_decide (id = x)) eqn:E2,
    (bool_decide (id ∈ x :: xs)) eqn:E3; breflect; set_solver.
Qed.

Lemma set_bit_all b idxs bits i v : bits !! i = Some v ->
  foldl (set_bit b) bits idxs !! i = Some (if bool_decide (i ∈ idxs) then b else v).
Proof.
  revert bits v. induction idxs as [|x idxs IH]; intros bits v Hv; cbn [foldl].
  { by rewrite bool_decide_false by (by intros ?%elem_of_nil). }
  assert (Hb : set_bit b bits x !! i = Some (if bool_decide (i = x) then b else v)).
  { unfold set_bit. destruct (bool_decide (i = x)) eqn:E; breflect.
    - subst. apply list_lookup_insert_eq. by eapply lookup_lt_Some.
    - by rewrite list_lookup_insert_ne. }
  rewrite (IH _ _ Hb). f_equal.
  destruct (bool_decide (i ∈ idxs)) eqn:E1, (bool_decide (i = x)) eqn:E2,
    (bool_decide (i ∈ x :: idxs)) eqn:E3; breflect; set_solver.
Qed.

Section MaskTheorems.
Context `{Blake3}.

Definition listed {A} `{EqDecision A} (x : A) (l : option (list A)) : bool :=
  match l with Some l => bool_decide (x ∈ l) | None => false end.

Lemma mask_bit ids allow deny gate blocked context i id :
  NoDup ids -> ids !! i = Some id ->
  allowed (build ids allow deny gate blocked context) !! i
  = Some (match allow with
          | Some l => bool_decide (id ∈ l)
          | None => match gate with Some g => bool_decide (i ∈ g) | None => true end
          end && negb (listed id deny) && negb (listed i blocked)).
Proof.
  intros Hn Hi. unfold build. cbn [allowed].
  assert (Hlt : (i < length ids)%nat) by (by eapply lookup_lt_Some).
  set (gated := match gate with Some _ => _ | None => _ end).
  assert (Hg : gated !! i = Some (match gate with Some g => bool_decide (i ∈ g) | None => true end)).
  { unfold gated. destruct gate; [|by apply lookup_replicate_2].
    rewrite list_lookup_fmap, lookup_seq_lt by done. done. }
  assert (Hlen : length gated = length ids).
  { unfold gated. destruct gate; [by rewrite length_map, length_seq|by rewrite length_replicate]. }
  set (listed_bits := match allow with Some _ => _ | None => _ end).
  assert (Ha : listed_bits !! i = Some (match allow with
    | Some l => bool_decide (id ∈ l)
    | None => match gate with Some g => bool_decide (i ∈ g) | None => true end end)).
  { unfold listed_bits. destruct allow as [l|]; [|done].
    rewrite (set_bit_of_all ids true l _ i id false Hn Hi).
    - f_equal. by destruct (bool_decide _).
    - apply lookup_replicate_2. lia. }
  clearbody listed_bits. match type of Ha with _ = Some ?x => set (v := x) in * end.
  clearbody v.
  set (denied_bits := match deny with Some _ => _ | None => _ end).
  assert (Hd : denied_bits !! i = Some (v && negb (listed id deny))).
  { unfold denied_bits, listed. destruct deny as [l|]; [|by rewrite andb_true_r].
    rewrite (set_bit_of_all ids false l _ i id v Hn Hi Ha). f_equal.
    destruct (bool_decide _); cbn; by rewrite ?andb_false_r, ?andb_true_r. }
  clearbody denied_bits. destruct blocked as [l|]; cbn [listed]; [|by rewrite andb_true_r].
  rewrite (set_bit_all false l _ i _ Hd). f_equal.
  destruct (bool_decide (i ∈ l)); cbn; by rewrite ?andb_false_r, ?andb_true_r.
Qed.

(** The mask is exact, bit by bit: an adapter is allowed if and only if it is on the
    allowlist (or, without one, let through by the index gate), not on the denylist and
    not blocked for its trust state; denials win over allowances. *)
Theorem mask_exact ids allow deny gate blocked context i id :
  NoDup ids -> ids !! i = Some id ->
  allowed (build ids allow deny gate blocked context) !! i = Some true
  <-> (match allow with
       | Some l => id ∈ l
       | None => match gate with Some g => i ∈ g | None => True end
       end)
      /\ (forall l, deny = Some l -> id ∉ l) /\ (forall l, blocked = Some l -> i ∉ l).
Proof.
  intros Hn Hi. rewrite (mask_bit ids allow deny gate blocked context i id Hn Hi).
  assert (Hdeny : negb (listed id deny) = true <-> (forall l, deny = Some l -> id ∉ l)).
  { unfold listed. destruct deny; [|naive_solver].
    rewrite negb_true_iff, bool_decide_eq_false. naive_solver. }
  assert (Hblock : negb (listed i blocked) = true <-> (forall l, blocked = Some l -> i ∉ l)).
  { unfold listed. destruct blocked; [|naive_solver].
    rewrite negb_true_iff, bool_decide_eq_false. naive_solver. }
  rewrite <- Hdeny, <- Hblock.
  split.
  - intros [= E]. apply andb_true_iff in E as [E ?]. apply andb_true_iff in E as [E ?].
    split_and!; try done. destruct allow; [by apply bool_decide_eq_true in E|].
    destruct gate; [by apply bool_decide_eq_true in E|done].
  - intros (E & -> & ->). rewrite !andb_true_r. f_equal.
    destruct allow; [by apply bool_decide_eq_true|]. destruct gate; [by apply bool_decide_eq_true|done].
Qed.

(** An allowlist switches the index gate off: an adapter the gate keeps out, for being
    outside the active stack say, is allowed again if the allowlist names it. *)
Theorem allowlist_overrides_gate ids l g context i id :
  NoDup ids -> ids !! i = Some id -> id ∈ l -> i ∉ g ->
  allowed (build ids (Some l) None (Some g) None context) !! i = Some true
  /\ allowed (build ids None None (Some g) None context) !! i = Some false.
Proof.
  intros Hn Hi Hl Hg. rewrite !(mask_bit _ _ _ _ _ _ i id Hn Hi). cbn [listed negb].
  rewrite bool_decide_true, bool_decide_false by done. done.
Qed.

(** Ids that contain no zero byte. *)
Definition nul_free (s : string) : Prop := x00 ∉ as_bytes_of s.

Lemma split_at_nul (a b l k : list byte) :
  x00 ∉ a -> x00 ∉ b -> a ++ x00 :: l = b ++ x00 :: k -> a = b /\ l = k.
Proof.
  revert b. induction a as [|x a IH]; intros [|y b] Ha Hb E; simpl in E.
  - by injection E as ->.
  - injection E as <- _. exfalso. apply Hb. by left.
  - injection E as -> _. exfalso. apply Ha. by left.
  - injection E as -> E. rewrite not_elem_of_cons in Ha, Hb.
    destruct Ha as [_ Ha], Hb as [_ Hb]. by destruct (IH _ Ha Hb E) as [-> ->].
Qed.

Lemma ids_then_bits_inj ids ids' bits bits' n :
  Forall nul_free ids -> Forall nul_free ids' ->
  (length ids + n)%nat = length bits -> (length ids' + n)%nat = length bits' ->
  concat (map (fun id => as_bytes_of id ++ [x00]) ids) ++ map bit_byte bits
  = concat (map (fun id => as_bytes_of id ++ [x00]) ids') ++ map bit_byte bits' ->
  ids = ids' /\ bits = bits'.
Proof.
  intros Hi. revert ids' n.
  assert (Hbits : forall l k, map bit_byte l = map bit_byte k -> l = k).
  { induction l as [|x l IH]; intros [|y k] E; try done. cbn [map] in E.
    injection E as E1 E2. f_equal; [by destruct x, y|by apply IH]. }
  induction Hi as [|id ids Hid Hi IH]; intros ids' n Hi' Hl Hl' E.
  - destruct ids' as [|id' ids']; [split; [done|by apply Hbits]|]. exfalso.
    apply (f_equal length) in E. cbn [map concat] in E.
    rewrite !length_app, !length_map in E. cbn [length] in *. lia.
  - destruct ids' as [|id' ids'].
    + exfalso. apply (f_equal length) in E. cbn [map concat] in E.
      rewrite !length_app, !length_map in E. cbn [length] in *. lia.
    + apply Forall_cons in Hi' as [Hid' Hi']. cbn [map concat] in E.
      rewrite <- !(assoc_L (++)) in E. cbn [app] in E. apply split_at_nul in E as [E1 E2]; [|done..].
      apply as_bytes_of_inj in E1 as ->.
      cbn [length] in *. destruct (IH ids' (S n) Hi') as [-> ->]; [lia|lia|done|done].
Qed.

(** The mask digest commits to the adapters and their bits: masks with one digest, when
    the hash does not collide on their texts and no id contains a zero byte, were built for
    the same ids with the same bits, under the same policy digest up to the confusion of
    none with the zero digest. *)
Theorem mask_digest_commits ids ids' allow allow' deny deny' gate gate' blocked blocked' context context' :
  let m := build ids allow deny gate blocked context in
  let m' := build ids' allow' deny' gate' blocked' context' in
  Forall nul_free ids -> Forall nul_free ids' ->
  collision_free [mask_bytes context ids (allowed m); mask_bytes context' ids' (allowed m')] ->
  digest m = digest m' ->
  ids = ids' /\ allowed m = allowed m' /\ default zero context = default zero context'.
Proof.
  intros m m' Hi Hi' Hc Hd.
  assert (Hlen : forall ids allow deny gate blocked context,
    length (allowed (build ids allow deny gate blocked context)) = length ids).
  { clear. intros. unfold build. cbn [allowed].
    assert (H1 : forall index b xs bits, length (foldl (set_bit_of index b) bits xs) = length bits).
    { intros index b xs. induction xs as [|x xs IH]; intros bits; cbn [foldl]; [done|].
      rewrite IH. unfold set_bit_of, set_bit. destruct (index !! x); [apply length_insert|done]. }
    assert (H2 : forall b xs bits, length (foldl (set_bit b) bits xs) = length bits).
    { intros b xs. induction xs as [|x xs IH]; intros bits; cbn [foldl]; [done|].
      rewrite IH. apply length_insert. }
    destruct blocked, deny, allow, gate; rewrite ?H2, ?H1, ?length_replicate, ?length_map, ?length_seq; done. }
  assert (E : mask_bytes context ids (allowed m) = mask_bytes context' ids' (allowed m')).
  { eapply (collision_free_inj _ _ _ Hc); [by left|right; by left|exact Hd]. }
  unfold mask_bytes in E. apply app_inj_1 in E as [E1 E2]; [|by rewrite !as_bytes_length].
  apply as_bytes_inj in E1. split; [|split; [|done]];
    apply (ids_then_bits_inj ids ids' _ _ 0) in E2 as [? ?]; try done; unfold m, m'; rewrite Hlen; lia.
Qed.
End MaskTheorems.

(** ** Examples *)

Section Examples.
#[local] Existing Instance toy_blake3.

(** Gates of equal weight; scores are integers. *)
Definition ex_normalize (l : list Z) : list Z :=
  map (fun _ => ROUTER_GATE_Q15_MAX / Z.of_nat (length l)) l.
Lemma ex_normalize_length l : length (ex_normalize l) = length l.
Proof. apply length_map. Qed.

Definition ex_ids : list string := ["code-a"; "code-b"; "law-c"].
Definition ex_clusters : list (option string) := map derive_cluster_from_id ex_ids.
Definition ex_policy : RoutingPolicy :=
  mkRouting None (Some ["code-b"]) (Some 2%nat) None None (Some 1) "stay_on_current".
Definition ex_deny_code : RoutingPolicy :=
  mkRouting None None None None (Some ["code"]) None "fallback_to_base".
Definition ex_decision (l : list nat) : Decision (F32 := Z) (DH := unit) :=
  mkDecision l (map (fun _ => 100) l) 7 [] None None None.

Lemma filter_respects_policy_witness :
  exists d', filter_decision_by_policy ex_normalize (ex_decision [1; 2; 0]%nat) ex_ids ex_clusters
    (Some ex_policy) = Ok d' /\ indices d' = [2; 0]%nat.
Proof.
  destruct (filter_decision_by_policy ex_normalize (ex_decision [1; 2; 0]%nat) ex_ids ex_clusters
    (Some ex_policy)) as [d'|e] eqn:E; [|by vm_compute in E].
  exists d'. split; [done|].
  destruct (filter_respects_policy ex_normalize ex_normalize_length (ex_decision [1; 2; 0]%nat)
    ex_ids ex_clusters ex_policy d' eq_refl E) as [-> _]. reflexivity.
Defined.

Definition ex_routed : list (Decision (F32 := Z) (DH := unit)) :=
  map ex_decision [[0]; [2]; [1]; [0; 2]]%nat.

Lemma ex_routed_gates : Forall (fun d => length (indices d) = length (gates_q15 d)) ex_routed.
Proof. by repeat constructor. Qed.

Lemma used_decisions_permitted_witness :
  exists used, run_routes 0 ex_normalize false ex_ids ex_clusters (Some ex_policy) ex_routed start = Ok used
    /\ Forall (usable ex_ids ex_clusters ex_policy) used.
Proof.
  destruct (run_routes 0 ex_normalize false ex_ids ex_clusters (Some ex_policy) ex_routed start)
    as [used|e] eqn:E; [|by vm_compute in E].
  exists used. split; [done|].
  apply (used_decisions_permitted 0 ex_normalize false ex_ids ex_clusters ltac:(done) ex_policy ex_routed).
  - exact ex_routed_gates.
  - exact E.
Defined.

Lemma transitions_within_depth_witness :
  exists used, run_routes 0 ex_normalize false ex_ids ex_clusters (Some ex_policy) ex_routed start = Ok used
    /\ map indices used = [[0]; [2]; [2]; [2]]%nat /\ changes None used <= 1.
Proof.
  destruct (run_routes 0 ex_normalize false ex_ids ex_clusters (Some ex_policy) ex_routed start)
    as [used|e] eqn:E; [|by vm_compute in E].
  exists used. split; [done|]. split; [vm_compute in E; by injection E as <-|].
  apply (transitions_within_depth 0 ex_normalize false ex_ids ex_clusters ltac:(done)
    (Some ex_policy) ex_routed used eq_refl); [vm_compute; by split|exact E].
Defined.

Lemma denied_adapter_used_witness :
  ~ permitted ex_deny_code ex_ids ex_clusters 0
  /\ route_step 0 ex_normalize false ex_ids ex_clusters (Some ex_deny_code) (ex_decision [1]%nat) None start
     = Ok (first_adapter 0, mkRoute (Some (first_adapter 0)) 0).
Proof.
  assert (H01 : forall i, i = 0%nat \/ i = 1%nat -> ~ permitted ex_deny_code ex_ids ex_clusters i).
  { intros i Hi Hp. apply permits_permitted in Hp. by destruct Hi as [-> | ->]. }
  split; [by apply H01; left|].
  apply (denied_adapter_used 0 ex_normalize false ex_ids ex_clusters ltac:(done) ex_deny_code).
  - done.
  - by vm_compute.
  - reflexivity.
  - intros idx [->|[]%elem_of_nil]%elem_of_cons. split; [cbn; lia|]. apply H01. by right.
  - apply H01. by left.
Defined.

Lemma ring_carries_decision_witness :
  exists r, decision_to_router_ring (ex_decision [1; 2]%nat) 3 = Some (Ok r)
    /\ active_indices r = [1; 2].
Proof.
  pose proof (ring_carries_decision (ex_decision [1; 2]%nat) 3 eq_refl) as Hr.
  destruct (decision_to_router_ring (ex_decision [1; 2]%nat) 3) as [[r|e]|] eqn:E;
    [|by vm_compute in E|done].
  exists r. split; [done|]. by destruct Hr as (_ & _ & Hi & _).
Defined.

Lemma largest_id_drops_all_witness :
  exists r, decision_to_router_ring_with_active_ids 1 (fun g _ => g) (ex_decision [0; 1]%nat)
    [12; 65535] 0 = Some (Ok r) /\ active_indices r = [] /\ ring_gates r = replicate 8 0.
Proof.
  apply (largest_id_drops_all 1 (fun g _ => g) (ex_decision [0; 1]%nat) [12; 65535] [12; 65535] 0).
  - reflexivity.
  - right. by left.
Defined.

Lemma ex_ids_nodup : NoDup ex_ids.
Proof. apply (bool_decide_unpack (NoDup ex_ids)). by vm_compute. Qed.

Lemma mask_exact_witness :
  allowed (build ex_ids (Some ["code-a"; "law-c"]) (Some ["law-c"]) None None None) !! 0%nat = Some true.
Proof.
  apply (mask_exact ex_ids (Some ["code-a"; "law-c"]) (Some ["law-c"]) None None None 0 "code-a").
  - exact ex_ids_nodup.
  - reflexivity.
  - split_and!.
    + by left.
    + by intros l [= <-] [=]%list_elem_of_singleton.
    + by intros l [=].
Defined.

Lemma allowlist_overrides_gate_witness :
  allowed (build ex_ids (Some ["law-c"]) None (Some {[0%nat]}) None None) !! 2%nat = Some true
  /\ allowed (build ex_ids None None (Some {[0%nat]}) None None) !! 2%nat = Some false.
Proof.
  apply (allowlist_overrides_gate ex_ids ["law-c"] {[0%nat]} None 2 "law-c").
  - exact ex_ids_nodup.
  - reflexivity.
  - by left.
  - set_solver.
Defined.

Lemma mask_digest_commits_witness :
  allowed (build ex_ids (Some ["law-c"]) None None None None)
  = allowed (build ex_ids None (Some ["code-a"; "code-b"]) None None None).
Proof.
  apply (mask_digest_commits ex_ids ex_ids (Some ["law-c"]) None None (Some ["code-a"; "code-b"])
    None None None None None None).
  - apply (bool_decide_unpack (Forall nul_free ex_ids)). by vm_compute.
  - apply (bool_decide_unpack (Forall nul_free ex_ids)). by vm_compute.
  - apply collision_freeb_sound. vm_compute. reflexivity.
  - vm_compute. reflexivity.
Defined.
End Examples.
End RoutePolicy.
