(* ===== verification/ModelKey.v ===== *)
(** * Identities of cached models (adapteros-lora-worker/src/model_key.rs, the key of the
    prefix cache in adapteros-core/src/prefix_kv_key.rs)

    [ModelKey] is what the model cache is keyed by, with the order that breaks ties of
    evictions; [ModelCacheIdentityV2] is what receipts and keys of prefixes commit to, as
    canonical bytes. The version of the build is an argument. *)

From S2P Require Import Prelude Hashing Ordering.

Local Open Scope Z.
Local Open Scope aos.

Module ModelKey.

(** ** Modes *)

Inductive BackendType : Type := CoreML | Metal | MLX | Mock.

Inductive QuantizationMode : Type :=
| Fp16Bf16 | ModelQuantized | Q4 | Q8 | MockQuantization | CustomQuantization.

Definition quantization_to_u8 (self : QuantizationMode) : Z :=
  match self with
  | Fp16Bf16 => 0 | ModelQuantized => 1 | Q4 => 2 | Q8 => 3 | MockQuantization => 4
  | CustomQuantization => 255
  end.

Definition quantization_from_u8 (value : Z) : QuantizationMode :=
  match value with
  | 0 => Fp16Bf16 | 1 => ModelQuantized | 2 => Q4 | 3 => Q8 | 4 => MockQuantization
  | _ => CustomQuantization
  end.

Definition quantization_for_backend (b : BackendType) : QuantizationMode :=
  match b with Metal | CoreML => Fp16Bf16 | MLX => ModelQuantized | Mock => MockQuantization end.

Definition quantization_as_str (self : QuantizationMode) : string :=
  match self with
  | Fp16Bf16 => "fp16_bf16_backend" | ModelQuantized => "model_quantized" | Q4 => "q4" | Q8 => "q8"
  | MockQuantization => "mock" | CustomQuantization => "custom"
  end.

Definition quantization_from_str (s : string) : QuantizationMode :=
  if ((s =? "fp16_bf16_backend") || (s =? "fp16") || (s =? "bf16"))%string then Fp16Bf16
  else if (s =? "model_quantized")%string then ModelQuantized
  else if ((s =? "q4") || (s =? "int4"))%string then Q4
  else if ((s =? "q8") || (s =? "int8"))%string then Q8
  else if (s =? "mock")%string then MockQuantization
  else CustomQuantization.

Inductive FusionMode : Type := PerRequest | PerToken | PerSegment | CustomFusion.

Definition fusion_to_u8 (self : FusionMode) : Z :=
  match self with PerRequest => 0 | PerToken => 1 | PerSegment => 2 | CustomFusion => 255 end.

Definition fusion_from_u8 (value : Z) : FusionMode :=
  match value with 0 => PerRequest | 1 => PerToken | 2 => PerSegment | _ => CustomFusion end.

(** [FusionInterval::default_mode] is [PerRequest]. *)
Definition default_mode : FusionMode := PerRequest.

Definition fusion_as_str (self : FusionMode) : string :=
  match self with
  | PerRequest => "per_request" | PerToken => "per_token" | PerSegment => "per_segment"
  | CustomFusion => "custom"
  end.

Definition fusion_from_str (s : string) : FusionMode :=
  if (s =? "per_request")%string then PerRequest
  else if (s =? "per_token")%string then PerToken
  else if (s =? "per_segment")%string then PerSegment
  else CustomFusion.

(** ** Keys of the model cache *)

Record ModelCacheIdentity : Type := mkIdentity {
  kernel_version_id : string;
  quantization_mode : string;
  fusion_mode : string;
  build_id : option string;
  adapter_dir_hash : option B3Hash;
}.

Definition identity_new (kernel quantization fusion : string) : ModelCacheIdentity :=
  mkIdentity kernel quantization fusion None None.
Definition with_build_id (b : string) (self : ModelCacheIdentity) := self <| build_id := Some b |>.
Definition with_adapter_dir_hash (h : B3Hash) (self : ModelCacheIdentity) :=
  self <| adapter_dir_hash := Some h |>.

Definition quantization_tag_for_backend (b : BackendType) : string :=
  match b with
  | Metal | CoreML => "fp16_bf16_backend" | MLX => "model_quantized" | Mock => "mock"
  end.

Definition default_fusion_tag : string := "per_request".

Definition for_backend (version : string) (b : BackendType) : ModelCacheIdentity :=
  with_build_id version (identity_new version (quantization_tag_for_backend b) default_fusion_tag).

Record ModelKey : Type := mkModelKey {
  backend_type : BackendType;
  manifest_hash : B3Hash;
  identity : ModelCacheIdentity;
}.

Definition backend_type_str (b : BackendType) : string :=
  match b with Metal => "metal" | MLX => "mlx" | CoreML => "coreml" | Mock => "mock" end.

Definition short_hex `{Hex} (self : ModelKey) : string :=
  backend_type_str (backend_type self) +:+ ":" +:+ String.substring 0 12 (to_hex (manifest_hash self))
  +:+ ":" +:+ kernel_version_id (identity self) +:+ ":" +:+ quantization_mode (identity self)
  +:+ ":" +:+ fusion_mode (identity self).

Definition key_display `{Hex} (self : ModelKey) : string :=
  backend_type_str (backend_type self) +:+ ":" +:+ to_hex (manifest_hash self)
  +:+ ":" +:+ kernel_version_id (identity self) +:+ ":" +:+ quantization_mode (identity self)
  +:+ ":" +:+ fusion_mode (identity self).

(** *** Equality and order *)

#[export] Instance BackendType_eq_dec : EqDecision BackendType.
Proof. solve_decision. Defined.
#[export] Instance QuantizationMode_eq_dec : EqDecision QuantizationMode.
Proof. solve_decision. Defined.
#[export] Instance FusionMode_eq_dec : EqDecision FusionMode.
Proof. solve_decision. Defined.
#[export] Instance ModelCacheIdentity_eq_dec : EqDecision ModelCacheIdentity.
Proof. solve_decision. Defined.
#[export] Instance ModelKey_eq_dec : EqDecision ModelKey.
Proof. solve_decision. Defined.

(** The variants of [BackendType] in order. *)
Definition backend_rank (b : BackendType) : Z :=
  match b with CoreML => 0 | Metal => 1 | MLX => 2 | Mock => 3 end.

(** The fields [derive(Ord)] compares, in order. *)
Definition key_fields (k : ModelKey) :=
  let i := identity k in
  (backend_rank (backend_type k), (manifest_hash k,
    (kernel_version_id i, (quantization_mode i, (fusion_mode i, (build_id i, adapter_dir_hash i)))))).

#[export] Instance backend_rank_inj : Inj (=) (=) backend_rank.
Proof. by intros [] []. Qed.

#[export] Instance key_fields_inj : Inj (=) (=) key_fields.
Proof.
  intros [b h [k q f i a]] [b' h' [k' q' f' i' a']] E. unfold key_fields in E. simpl in E.
  injection E as Eb -> -> -> -> -> ->. apply (inj backend_rank) in Eb as ->. done.
Qed.

#[export] Instance ModelKey_cmp : Cmp ModelKey := view_cmp key_fields.
#[export] Instance ModelKey_cmp_laws : CmpLaws ModelKey_cmp.
Proof. apply view_cmp_laws, _. Qed.

Definition backend_of_rank (z : Z) : BackendType :=
  match z with 0 => CoreML | 1 => Metal | 2 => MLX | _ => Mock end.

#[export] Instance ModelKey_countable : Countable ModelKey.
Proof.
  apply (inj_countable' key_fields (fun '(b, (h, (k, (q, (f, (i, a)))))) =>
    mkModelKey (backend_of_rank b) h (mkIdentity k q f i a))).
  by intros [[] h []].
Defined.

(** ** The identity that receipts and prefix keys commit to *)

Record ModelCacheIdentityV2 : Type := mkIdentityV2 {
  v2_kernel_version_id : string;
  v2_quantization_mode : QuantizationMode;
  v2_fusion_mode : FusionMode;
  v2_build_id : option string;
  v2_adapter_dir_hash : option B3Hash;
  tokenizer_hash_b3 : B3Hash;
  tokenizer_cfg_hash_b3 : B3Hash;
  tenant_id : string;
  worker_id : Z;
}.

Definition BUILD_ID_UNKNOWN : string := "unknown".
Definition SCHEMA_VERSION : Z := 2.

Definition from_legacy (v1 : ModelCacheIdentity) (tok cfg : B3Hash) (tenant : string) (worker : Z)
    : ModelCacheIdentityV2 :=
  mkIdentityV2 (kernel_version_id v1) (quantization_from_str (quantization_mode v1))
    (fusion_from_str (fusion_mode v1)) (build_id v1) (adapter_dir_hash v1) tok cfg tenant worker.

Definition for_backend_with_tokenizer (version : string) (b : BackendType) (tok cfg : B3Hash)
    (tenant : string) (worker : Z) : ModelCacheIdentityV2 :=
  mkIdentityV2 version (quantization_for_backend b) default_mode (Some version) None tok cfg tenant worker.

Definition validate_strict (self : ModelCacheIdentityV2) : result unit AosError :=
  if (v2_kernel_version_id self =? EmptyString)%string
  then Err (Validation "ModelCacheIdentityV2: kernel_version_id is required")
  else if (tenant_id self =? EmptyString)%string
  then Err (Validation "ModelCacheIdentityV2: tenant_id is required")
  else Ok tt.

Definition effective_build_id (self : ModelCacheIdentityV2) : string :=
  default BUILD_ID_UNKNOWN (v2_build_id self).

Definition identity_slices (self : ModelCacheIdentityV2) : list (list byte) :=
  le_bytes 1 SCHEMA_VERSION
  :: len_le (as_bytes_of (v2_kernel_version_id self)) :: as_bytes_of (v2_kernel_version_id self)
  :: le_bytes 1 (quantization_to_u8 (v2_quantization_mode self))
  :: le_bytes 1 (fusion_to_u8 (v2_fusion_mode self))
  :: optional_slices (as_bytes_of <$> v2_build_id self)
  ++ marked (v2_adapter_dir_hash self)
  :: as_bytes (tokenizer_hash_b3 self) :: as_bytes (tokenizer_cfg_hash_b3 self)
  :: len_le (as_bytes_of (tenant_id self)) :: as_bytes_of (tenant_id self)
  :: [le_bytes 4 (worker_id self)].

Definition canonical_bytes (self : ModelCacheIdentityV2) : list byte := concat (identity_slices self).

Definition v2_display `{Hex} (self : ModelCacheIdentityV2) : string :=
  "v2:" +:+ v2_kernel_version_id self +:+ ":" +:+ quantization_as_str (v2_quantization_mode self)
  +:+ ":" +:+ fusion_as_str (v2_fusion_mode self)
  +:+ ":tok:" +:+ String.substring 0 12 (to_hex (tokenizer_hash_b3 self))
  +:+ ":cfg:" +:+ String.substring 0 12 (to_hex (tokenizer_cfg_hash_b3 self))
  +:+ ":t:" +:+ tenant_id self +:+ ":w:" +:+ pretty (worker_id self).

(** ** Keys of prefixes *)

Definition encode_prefix_tokens (tokens : list Z) : list byte := counted (le_bytes 4) tokens.

Section Keys.
Context `{Blake3}.

Definition identity_digest (self : ModelCacheIdentityV2) : B3Hash := Hashing.hash (canonical_bytes self).

Definition prefix_text (ctx : B3Hash) (tokens : list Z) (tok : B3Hash) (model : list byte) : list byte :=
  concat [as_bytes ctx; encode_prefix_tokens tokens; as_bytes tok; model].

Definition compute_prefix_kv_key (ctx : B3Hash) (tokens : list Z) (tok : B3Hash) (model : list byte)
    : B3Hash :=
  Hashing.hash (prefix_text ctx tokens tok model).

Definition compute_tokenizer_manifest_hash (tok cfg : B3Hash) : B3Hash :=
  hash_multi [as_bytes tok; as_bytes cfg].

Record PrefixKvKeyBuilder : Type := mkKeyBuilder {
  context_digest : option B3Hash;
  prefix_token_ids : option (list Z);
  tokenizer_manifest_hash : option B3Hash;
  model_cache_identity_bytes : option (list byte);
}.

Definition builder_new : PrefixKvKeyBuilder := mkKeyBuilder None None None None.
Definition set_context_digest (d : B3Hash) (self : PrefixKvKeyBuilder) :=
  self <| context_digest := Some d |>.
Definition set_prefix_tokens (ts : list Z) (self : PrefixKvKeyBuilder) :=
  self <| prefix_token_ids := Some ts |>.
Definition set_tokenizer_manifest_hash (h : B3Hash) (self : PrefixKvKeyBuilder) :=
  self <| tokenizer_manifest_hash := Some h |>.
Definition set_tokenizer_hashes (tok cfg : B3Hash) (self : PrefixKvKeyBuilder) :=
  self <| tokenizer_manifest_hash := Some (compute_tokenizer_manifest_hash tok cfg) |>.
Definition set_model_cache_identity_bytes (bs : list byte) (self : PrefixKvKeyBuilder) :=
  self <| model_cache_identity_bytes := Some bs |>.

Definition required {T} (o : option T) (field : string) : result T AosError :=
  match o with
  | Some x => Ok x
  | None => Err (Validation (field +:+ " is required for prefix KV key"))
  end.

Definition build (self : PrefixKvKeyBuilder) : result B3Hash AosError :=
  ctx <-? required (context_digest self) "context_digest" ;;
  tokens <-? required (prefix_token_ids self) "prefix_token_ids" ;;
  tok <-? required (tokenizer_manifest_hash self) "tokenizer_manifest_hash" ;;
  model <-? required (model_cache_identity_bytes self) "model_cache_identity_bytes" ;;
  Ok (compute_prefix_kv_key ctx tokens tok model).

Definition try_build (self : PrefixKvKeyBuilder) : option B3Hash :=
  ctx ← context_digest self; tokens ← prefix_token_ids self;
  tok ← tokenizer_manifest_hash self; model ← model_cache_identity_bytes self;
  Some (compute_prefix_kv_key ctx tokens tok model).

Definition build_result (self : PrefixKvKeyBuilder) : result B3Hash AosError := build self.
End Keys.

(** ** Round trips of modes *)

(** The modes survive their numbers and their texts. *)
Theorem modes_round_trip q f :
  quantization_from_u8 (quantization_to_u8 q) = q /\ quantization_from_str (quantization_as_str q) = q
  /\ fusion_from_u8 (fusion_to_u8 f) = f /\ fusion_from_str (fusion_as_str f) = f.
Proof. by destruct q, f. Qed.

Lemma quantization_u8_inj : Inj (=) (=) quantization_to_u8.
Proof. by intros [] []. Qed.
Lemma fusion_u8_inj : Inj (=) (=) fusion_to_u8.
Proof. by intros [] []. Qed.

(** ** What the identity bytes commit to *)

Record identity_ok (i : ModelCacheIdentityV2) : Prop := {
  ok_kernel : Z.of_nat (length (as_bytes_of (v2_kernel_version_id i))) < u32_mod;
  ok_build : Z.of_nat (length (default [] (as_bytes_of <$> v2_build_id i))) < u32_mod;
  ok_tenant : Z.of_nat (length (as_bytes_of (tenant_id i))) < u32_mod;
  ok_worker : is_u32 (worker_id i);
}.

Lemma quantization_u8_range q : 0 <= quantization_to_u8 q < 256 ^ Z.of_nat 1.
Proof. by destruct q. Qed.
Lemma fusion_u8_range f : 0 <= fusion_to_u8 f < 256 ^ Z.of_nat 1.
Proof. by destruct f. Qed.

Lemma identity_delimits : delimits identity_ok identity_slices id.
Proof.
  eapply delimits_view; [|unfold identity_slices;
    eapply (delimits_fixed _ 1 (fun _ => le_bytes 1 SCHEMA_VERSION)); [done|];
    eapply (delimits_string _ v2_kernel_version_id); [by intros ? []|];
    eapply (delimits_unsigned _ 1 (fun i => quantization_to_u8 (v2_quantization_mode i)));
      [intros; apply quantization_u8_range|];
    eapply (delimits_unsigned _ 1 (fun i => fusion_to_u8 (v2_fusion_mode i)));
      [intros; apply fusion_u8_range|];
    eapply (delimits_optional _ (fun i => as_bytes_of <$> v2_build_id i)); [by intros ? []|];
    eapply (delimits_marked _ v2_adapter_dir_hash); eapply (delimits_digest _ tokenizer_hash_b3);
    eapply (delimits_digest _ tokenizer_cfg_hash_b3);
    eapply (delimits_string _ tenant_id); [by intros ? []|];
    eapply (delimits_unsigned _ 4 worker_id); [by intros ? []|apply delimits_nil]].
  intros [k q f b a t c n w] [k' q' f' b' a' t' c' n' w'] _ _ E. cbn in E.
  injection E as -> Eq Ef Eb -> -> -> -> ->.
  apply quantization_u8_inj in Eq as ->. apply fusion_u8_inj in Ef as ->.
  unfold id. f_equal. destruct b, b'; cbn in Eb; try done. injection Eb as Eb. f_equal.
  by apply as_bytes_of_inj.
Qed.

Lemma canonical_bytes_agree i j :
  identity_ok i -> identity_ok j -> canonical_bytes i = canonical_bytes j -> i = j.
Proof. apply (delimits_text _ _ _ _ _ identity_delimits). Qed.

Section Commit.
Context `{Blake3}.

(** The digest of an identity commits to all of it: the tenant, the worker, the kernel,
    the modes, the build and the tokenizer of a cache entry. *)
Theorem identity_digest_commits i j :
  identity_ok i -> identity_ok j -> collision_free [canonical_bytes i; canonical_bytes j] ->
  (identity_digest i = identity_digest j <-> i = j).
Proof.
  intros Hi Hj Hc. split; [|by intros ->]. intros E.
  apply (collision_free_inj _ _ _ Hc) in E; [|by left|right; by left]. by apply canonical_bytes_agree.
Qed.

(** A request as the prefix cache sees it. *)
Record PrefixRequest : Type := mkRequest {
  q_context : B3Hash;
  q_tokens : list Z;
  q_tokenizer : B3Hash * B3Hash;
  q_model : ModelCacheIdentityV2;
}.

Definition request_builder (q : PrefixRequest) : PrefixKvKeyBuilder :=
  set_model_cache_identity_bytes (canonical_bytes (q_model q))
  (set_tokenizer_hashes (q_tokenizer q).1 (q_tokenizer q).2
  (set_prefix_tokens (q_tokens q) (set_context_digest (q_context q) builder_new))).

Definition request_texts (q : PrefixRequest) : list (list byte) :=
  [concat [as_bytes (q_tokenizer q).1; as_bytes (q_tokenizer q).2];
   prefix_text (q_context q) (q_tokens q)
     (compute_tokenizer_manifest_hash (q_tokenizer q).1 (q_tokenizer q).2) (canonical_bytes (q_model q))].

Record request_ok (q : PrefixRequest) : Prop := {
  ok_tokens : Forall is_u32 (q_tokens q);
  ok_count : Z.of_nat (length (q_tokens q)) < u32_mod;
  ok_model : identity_ok (q_model q);
}.

Lemma tokenizer_text_inj (t u : B3Hash * B3Hash) :
  concat [as_bytes t.1; as_bytes t.2] = concat [as_bytes u.1; as_bytes u.2] -> t = u.
Proof.
  cbn [concat]. rewrite !app_nil_r. intros [E1 E2]%as_bytes_app_inj. destruct t, u. simpl in *. congruence.
Qed.

(** [C15] Two requests are served from one entry of the prefix cache only if they agree in
    context, tokens, tokenizer, tenant, worker and model. *)
Theorem prefix_key_exact q r :
  request_ok q -> request_ok r -> collision_free (request_texts q ++ request_texts r) ->
  (build (request_builder q) = build (request_builder r) <-> q = r).
Proof.
  intros [Tq Nq Mq] [Tr Nr Mr] Hc. split; [|by intros ->]. intros E.
  assert (E' : Hashing.hash (prefix_text (q_context q) (q_tokens q)
     (compute_tokenizer_manifest_hash (q_tokenizer q).1 (q_tokenizer q).2) (canonical_bytes (q_model q)))
   = Hashing.hash (prefix_text (q_context r) (q_tokens r)
     (compute_tokenizer_manifest_hash (q_tokenizer r).1 (q_tokenizer r).2) (canonical_bytes (q_model r)))).
  { apply (f_equal (fun x => match x with Ok h => h | Err _ => zero end)) in E. exact E. }
  clear E. apply (collision_free_inj _ _ _ Hc) in E'; [|unfold request_texts; set_solver..].
  unfold prefix_text in E'. cbn [concat] in E'. rewrite !app_nil_r in E'.
  apply app_inj_1 in E' as [Ec E]; [|by rewrite !as_bytes_length]. apply as_bytes_inj in Ec.
  apply (counted_split _ _ u32_delimits) in E as [Et E]; [|done..].
  apply app_inj_1 in E as [Ek E]; [|by rewrite !as_bytes_length]. apply as_bytes_inj in Ek.
  apply canonical_bytes_agree in E; [|done..].
  apply (collision_free_inj _ (concat [as_bytes (q_tokenizer q).1; as_bytes (q_tokenizer q).2])
    (concat [as_bytes (q_tokenizer r).1; as_bytes (q_tokenizer r).2]) Hc) in Ek;
    [|unfold request_texts; set_solver..].
  apply tokenizer_text_inj in Ek. destruct q, r. simpl in *. congruence.
Qed.

(** The three ways to finish a builder agree, and name the first missing field. *)
Theorem build_reports_missing b :
  build_result b = build b
  /\ try_build b = match build b with Ok h => Some h | Err _ => None end
  /\ forall e, build b = Err e ->
       exists field, e = Validation (field +:+ " is required for prefix KV key")
         /\ (context_digest b = None /\ field = "context_digest"
             \/ prefix_token_ids b = None /\ field = "prefix_token_ids"
             \/ tokenizer_manifest_hash b = None /\ field = "tokenizer_manifest_hash"
             \/ model_cache_identity_bytes b = None /\ field = "model_cache_identity_bytes").
Proof.
  destruct b as [c p t m]. split; [done|].
  destruct c, p, t, m; (split; [done|]); intros e E;
    first [discriminate E|injection E as <-; eexists; (split; [reflexivity|]); tauto].
Qed.
End Commit.

(** The order of keys is total and tells different keys apart, so that evictions do not
    depend on the iteration order of the map. *)
Theorem key_order_total (a b c : ModelKey) :
  (cmp_leb a b = true \/ cmp_leb b a = true)
  /\ (cmp_leb a b = true -> cmp_leb b a = true -> a = b)
  /\ (cmp_leb a b = true -> cmp_leb b c = true -> cmp_leb a c = true).
Proof.
  split_and!; [|apply cmp_leb_antisym|apply cmp_leb_trans].
  destruct (cmp_leb a b) eqn:E; [by left|right; by apply cmp_leb_total].
Qed.

(** ** Examples *)

Section Examples.
#[local] Existing Instance toy_blake3.

Definition sample_identity (tenant : string) : ModelCacheIdentityV2 :=
  for_backend_with_tokenizer "0.14.1" MLX (Hashing.hash [x01]) (Hashing.hash [x02]) tenant 42.

Lemma sample_identity_ok tenant :
  Z.of_nat (length (as_bytes_of tenant)) < u32_mod -> identity_ok (sample_identity tenant).
Proof. intros. constructor; [by vm_compute|by vm_compute|done|by vm_compute]. Qed.

Lemma identity_digest_commits_witness :
  identity_digest (sample_identity "tenant-123") <> identity_digest (sample_identity "tenant-456").
Proof.
  intros E. apply (identity_digest_commits (sample_identity "tenant-123") (sample_identity "tenant-456")) in E;
    [discriminate E|by apply sample_identity_ok|by apply sample_identity_ok|].
  apply collision_freeb_sound. vm_compute. reflexivity.
Defined.

Definition sample_request (tokens : list Z) : PrefixRequest :=
  mkRequest (Hashing.hash [x03]) tokens (Hashing.hash [x01], Hashing.hash [x02]) (sample_identity "tenant-123").

Lemma prefix_key_exact_witness :
  build (request_builder (sample_request [1; 2])) <> build (request_builder (sample_request [1; 2; 3])).
Proof.
  intros E. apply (prefix_key_exact (sample_request [1; 2]) (sample_request [1; 2; 3])) in E;
    [discriminate E| | |].
  - constructor; [repeat constructor; vm_compute; done|by vm_compute|by apply sample_identity_ok].
  - constructor; [repeat constructor; vm_compute; done|by vm_compute|by apply sample_identity_ok].
  - apply collision_freeb_sound. vm_compute. reflexivity.
Defined.
End Examples.
End ModelKey.
