(* ===== verification/ModelCache.v ===== *)
(** * The model handle cache (adapteros-lora-worker/src/model_handle_cache.rs)

    One cache per worker of loaded models. Entries are protected from eviction by pins,
    limited in number and collected when stale, and by the counts of guards in use; loads
    evict oldest first until the byte budget holds. Listeners are told of loads, reuses,
    evictions and errors: the model keeps what they were told, in order. Clock readings are
    arguments. Where a method lets go of its locks, what other threads do to the cache
    meanwhile is an argument, made of the critical sections [section]; metrics, logging and the lock file between processes have no
    effect on the state. *)

From S2P Require Import Prelude Hashing Ordering ModelKey.
Import ModelKey.

Local Open Scope Z.
Local Open Scope aos.

Module ModelCache.

(** ** Data *)

(** An [Arc<MLXFFIModel>] is its address. *)
Inductive ModelHandle : Type :=
| MetalHandle (bytes : list byte)
| MlxHandle (model : Z)
| CoreMLHandle.

Definition as_metal_bytes (self : ModelHandle) : result (list byte) AosError :=
  match self with
  | MetalHandle bytes => Ok bytes
  | MlxHandle _ => Err (Internal "Expected Metal handle, got MLX")
  | CoreMLHandle => Err (Internal "Expected Metal handle, got CoreML")
  end.

Definition as_mlx_model (self : ModelHandle) : result Z AosError :=
  match self with
  | MlxHandle model => Ok model
  | MetalHandle _ => Err (Internal "Expected MLX handle, got Metal")
  | CoreMLHandle => Err (Internal "Expected MLX handle, got CoreML")
  end.

Definition is_coreml (self : ModelHandle) : bool :=
  match self with CoreMLHandle => true | _ => false end.

Definition variant_name (self : ModelHandle) : string :=
  match self with MetalHandle _ => "Metal" | MlxHandle _ => "Mlx" | CoreMLHandle => "CoreML" end.

Record CachedModelEntry : Type := mkEntry {
  handle : ModelHandle;
  loaded_at : Z;
  access_count : Z;
  memory_bytes : Z;
}.

Record CacheStats : Type := mkStats {
  hits : Z;
  misses : Z;
  evictions : Z;
  total_memory_bytes : Z;
  eviction_skip_pinned_count : Z;
  eviction_skip_active_count : Z;
  stale_pin_gc_count : Z;
}.

Inductive PinConflictMode : Type := Shadow | Enforce.

Record BaseModelPinState : Type := mkPinState {
  enabled : bool;
  budget_bytes : option Z;
  model_id : option string;
  base_model_key : option ModelKey;
  load_count : Z;
  evict_count : Z;
  conflict_mode : PinConflictMode;
}.

(** What a [CacheEventListener] is told. *)
Inductive CacheEvent : Type :=
| on_load (key : ModelKey) (memory_bytes : Z)
| on_reuse (key : ModelKey)
| on_evict (key : ModelKey)
| on_error (key : ModelKey) (error : AosError).

(** [listeners] holds the keys with a listener, [events] what the listeners were told. *)
Record ModelHandleCache : Type := mkCache {
  cache : gmap ModelKey CachedModelEntry;
  active_counts : gmap ModelKey Z;
  max_memory_bytes : Z;
  stats : CacheStats;
  pinned_keys : gset ModelKey;
  pinned_timestamps : gmap ModelKey Z;
  listeners : gset ModelKey;
  max_pinned_entries : nat;
  base_model_pin : BaseModelPinState;
  events : list CacheEvent;
}.

Definition set_cache m (c : ModelHandleCache) := mkCache m (active_counts c) (max_memory_bytes c)
  (stats c) (pinned_keys c) (pinned_timestamps c) (listeners c) (max_pinned_entries c) (base_model_pin c) (events c).
Definition set_active a (c : ModelHandleCache) := mkCache (cache c) a (max_memory_bytes c)
  (stats c) (pinned_keys c) (pinned_timestamps c) (listeners c) (max_pinned_entries c) (base_model_pin c) (events c).
Definition set_stats s (c : ModelHandleCache) := mkCache (cache c) (active_counts c) (max_memory_bytes c)
  s (pinned_keys c) (pinned_timestamps c) (listeners c) (max_pinned_entries c) (base_model_pin c) (events c).
Definition set_pins p t (c : ModelHandleCache) := mkCache (cache c) (active_counts c) (max_memory_bytes c)
  (stats c) p t (listeners c) (max_pinned_entries c) (base_model_pin c) (events c).
Definition set_listeners l (c : ModelHandleCache) := mkCache (cache c) (active_counts c) (max_memory_bytes c)
  (stats c) (pinned_keys c) (pinned_timestamps c) l (max_pinned_entries c) (base_model_pin c) (events c).
Definition set_max_pinned n (c : ModelHandleCache) := mkCache (cache c) (active_counts c) (max_memory_bytes c)
  (stats c) (pinned_keys c) (pinned_timestamps c) (listeners c) n (base_model_pin c) (events c).
Definition set_base b (c : ModelHandleCache) := mkCache (cache c) (active_counts c) (max_memory_bytes c)
  (stats c) (pinned_keys c) (pinned_timestamps c) (listeners c) (max_pinned_entries c) b (events c).
Definition tell e (c : ModelHandleCache) := mkCache (cache c) (active_counts c) (max_memory_bytes c)
  (stats c) (pinned_keys c) (pinned_timestamps c) (listeners c) (max_pinned_entries c) (base_model_pin c)
  (events c ++ [e]).

Definition DEFAULT_MAX_PINNED_ENTRIES : nat := 16.
Definition DEFAULT_STALE_PIN_TIMEOUT : Z := 3600.

Definition stats_default : CacheStats := mkStats 0 0 0 0 0 0 0.
Definition pin_state_default : BaseModelPinState := mkPinState false None None None 0 0 Shadow.

Definition new (max : Z) : ModelHandleCache :=
  mkCache ∅ ∅ max stats_default ∅ ∅ ∅ DEFAULT_MAX_PINNED_ENTRIES pin_state_default [].

Definition with_max_pinned_entries (limit : nat) (self : ModelHandleCache) : ModelHandleCache :=
  set_max_pinned limit self.

Definition register_listener (key : ModelKey) (self : ModelHandleCache) : ModelHandleCache :=
  set_listeners ({[key]} ∪ listeners self) self.
Definition remove_listener (key : ModelKey) (self : ModelHandleCache) : ModelHandleCache :=
  set_listeners (listeners self ∖ {[key]}) self.

Definition configure_base_model_pinning (on : bool) (budget : option Z) (model : option string)
    (mode : PinConflictMode) (self : ModelHandleCache) : ModelHandleCache :=
  set_base (mkPinState on budget model None 0 0 mode) self.

Definition set_base_model_key (key : ModelKey) (self : ModelHandleCache) : ModelHandleCache :=
  let s := base_model_pin self in
  if bool_decide (base_model_key s = Some key) then self
  else set_base (mkPinState (enabled s) (budget_bytes s) (model_id s) (Some key) 0 0 (conflict_mode s)) self.

(** ** Notifications *)

Definition record_base_model_load (key : ModelKey) (self : ModelHandleCache) : ModelHandleCache :=
  let s := base_model_pin self in
  if bool_decide (base_model_key s = Some key)
  then set_base (mkPinState (enabled s) (budget_bytes s) (model_id s) (base_model_key s)
         (u64_wrapping_add (load_count s) 1) (evict_count s) (conflict_mode s)) self
  else self.

Definition record_base_model_evict (key : ModelKey) (self : ModelHandleCache) : ModelHandleCache :=
  let s := base_model_pin self in
  if bool_decide (base_model_key s = Some key)
  then set_base (mkPinState (enabled s) (budget_bytes s) (model_id s) (base_model_key s)
         (load_count s) (u64_wrapping_add (evict_count s) 1) (conflict_mode s)) self
  else self.

Definition notify (key : ModelKey) (e : CacheEvent) (self : ModelHandleCache) : ModelHandleCache :=
  if bool_decide (key ∈ listeners self) then tell e self else self.

Definition notify_load (key : ModelKey) (bytes : Z) (self : ModelHandleCache) : ModelHandleCache :=
  record_base_model_load key (notify key (on_load key bytes) self).
Definition notify_reuse (key : ModelKey) (self : ModelHandleCache) : ModelHandleCache :=
  notify key (on_reuse key) self.
Definition notify_evict (key : ModelKey) (self : ModelHandleCache) : ModelHandleCache :=
  record_base_model_evict key (notify key (on_evict key) self).
Definition notify_error (key : ModelKey) (e : AosError) (self : ModelHandleCache) : ModelHandleCache :=
  notify key (on_error key e) self.

(** ** Guards *)

Definition contains (key : ModelKey) (self : ModelHandleCache) : bool :=
  bool_decide (is_Some (cache self !! key)).

Definition active_of (key : ModelKey) (self : ModelHandleCache) : Z :=
  default 0 (active_counts self !! key).

(** [mark_active] looks at the entries, lets go of them, and then counts. *)
Definition count_active (key : ModelKey) (self : ModelHandleCache) : ModelHandleCache :=
  set_active (<[key := u64_wrapping_add (active_of key self) 1]> (active_counts self)) self.

Definition mark_active (key : ModelKey) (self : ModelHandleCache) : bool * ModelHandleCache :=
  if contains key self then (true, count_active key self) else (false, self).

Definition mark_inactive (key : ModelKey) (self : ModelHandleCache) : bool * ModelHandleCache :=
  match active_counts self !! key with
  | Some count =>
      if 1 <? count then (true, set_active (<[key := count - 1]> (active_counts self)) self)
      else (true, set_active (delete key (active_counts self)) self)
  | None => (false, self)
  end.

Definition is_active (key : ModelKey) (self : ModelHandleCache) : bool := 0 <? active_of key self.

(** The guard of [begin_use] is the key it releases. *)
Definition begin_use (key : ModelKey) (self : ModelHandleCache) : option ModelKey * ModelHandleCache :=
  match mark_active key self with
  | (true, self) => (Some key, self)
  | (false, self) => (None, self)
  end.

Definition guard_drop (released : bool) (key : ModelKey) (self : ModelHandleCache) : ModelHandleCache :=
  if negb released then (mark_inactive key self).2 else self.

(** ** Pins *)

Definition is_pinned (key : ModelKey) (self : ModelHandleCache) : bool := bool_decide (key ∈ pinned_keys self).
Definition pinned_count (self : ModelHandleCache) : nat := size (pinned_keys self).

Definition insert_pin (now : Z) (key : ModelKey) (self : ModelHandleCache) : ModelHandleCache :=
  set_pins ({[key]} ∪ pinned_keys self) (<[key := now]> (pinned_timestamps self)) self.

(** [pin] looks at the entries, lets go of them, and then pins. *)
Definition pin_locked (now : Z) (key : ModelKey) (self : ModelHandleCache) : bool * ModelHandleCache :=
  if is_pinned key self then (true, self)
  else if (max_pinned_entries self <=? pinned_count self)%nat then (false, self)
  else (true, insert_pin now key self).

Definition pin (now : Z) (key : ModelKey) (self : ModelHandleCache) : bool * ModelHandleCache :=
  if contains key self then pin_locked now key self else (false, self).

Definition unpin (key : ModelKey) (self : ModelHandleCache) : bool * ModelHandleCache :=
  if is_pinned key self
  then (true, set_pins (pinned_keys self ∖ {[key]}) (delete key (pinned_timestamps self)) self)
  else (false, self).

Definition sum_memory (m : gmap ModelKey CachedModelEntry) : Z :=
  sumZ (map (fun p => memory_bytes p.2) (map_to_list m)).

(** [iter().sum()] of [u64]s. *)
Definition memory_usage (self : ModelHandleCache) : Z := sum_memory (cache self) mod u64_mod.

Definition pinned_memory_bytes (self : ModelHandleCache) : Z :=
  sum_memory (filter (fun p => p.1 ∈ pinned_keys self) (cache self)) mod u64_mod.

Definition stale_pinned_entries (now threshold : Z) (self : ModelHandleCache) : list (ModelKey * Z) :=
  omap (fun p => let age := saturating_sub now p.2 in if threshold <? age then Some (p.1, age) else None)
    (map_to_list (pinned_timestamps self)).

Fixpoint gc_loop (keys : list ModelKey) (count : Z) (self : ModelHandleCache) : Z * ModelHandleCache :=
  match keys with
  | [] => (count, self)
  | key :: keys =>
      let '(removed, self) := unpin key self in
      gc_loop keys (if removed then count + 1 else count) self
  end.

Definition count_collected (count : Z) (self : ModelHandleCache) : ModelHandleCache :=
  let s := stats self in
  set_stats (mkStats (hits s) (misses s) (evictions s) (total_memory_bytes s)
    (eviction_skip_pinned_count s) (eviction_skip_active_count s)
    (u64_wrapping_add (stale_pin_gc_count s) count)) self.

Definition gc_stale_pins (now timeout : Z) (self : ModelHandleCache) : Z * ModelHandleCache :=
  let stale := map fst (stale_pinned_entries now timeout self) in
  let '(count, self) := gc_loop stale 0 self in
  if 0 <? count then (count, count_collected count self) else (count, self).

Definition unpin_all (self : ModelHandleCache) : nat * ModelHandleCache :=
  let count := pinned_count self in
  if (0 <? count)%nat then (count, set_pins ∅ (pinned_timestamps self) self) else (count, self).

(** ** Eviction *)

(** Remove an entry: the guards' count, the listener and the statistics go with it. *)
Definition evict_one (key : ModelKey) (bytes : Z) (self : ModelHandleCache) : ModelHandleCache :=
  let self := set_cache (delete key (cache self)) self in
  let self := set_active (delete key (active_counts self)) self in
  let self := notify_evict key self in
  let self := remove_listener key self in
  let s := stats self in
  set_stats (mkStats (hits s) (misses s) (u64_wrapping_add (evictions s) 1)
    (saturating_sub (total_memory_bytes s) bytes) (eviction_skip_pinned_count s)
    (eviction_skip_active_count s) (stale_pin_gc_count s)) self.

(** What [sort_by] compares: the time of loading, the accesses, the key. *)
Definition eviction_rank (p : ModelKey * CachedModelEntry) : Z * (Z * ModelKey) :=
  (loaded_at p.2, (access_count p.2, p.1)).

Definition evictable (self : ModelHandleCache) (p : ModelKey * CachedModelEntry) : bool :=
  negb (is_pinned p.1 self) && (active_of p.1 self =? 0).

Definition eviction_candidates (self : ModelHandleCache) : list (ModelKey * CachedModelEntry) :=
  stable_sort (fun a b => cmp_leb (eviction_rank a) (eviction_rank b))
    (List.filter (evictable self) (map_to_list (cache self))).

(** [meanwhile] is what other threads do to pins and guards before each candidate is
    looked at again. *)
Fixpoint evict_loop (target : Z) (entries : list (ModelKey * CachedModelEntry))
    (meanwhile : list (ModelHandleCache -> ModelHandleCache)) (freed : Z) (self : ModelHandleCache)
    : Z * ModelHandleCache :=
  match entries with
  | [] => (freed, self)
  | (key, e) :: entries =>
      if target <=? freed then (freed, self)
      else
        let self := default id (head meanwhile) self in
        if is_active key self || is_pinned key self
        then evict_loop target entries (tail meanwhile) freed self
        else evict_loop target entries (tail meanwhile) (u64_wrapping_add freed (memory_bytes e))
               (evict_one key (memory_bytes e) self)
  end.

Definition count_keys (p : ModelKey -> bool) (self : ModelHandleCache) : nat :=
  length (List.filter p (map fst (map_to_list (cache self)))).

Definition BYTES_PER_MB : Z := 1024 * 1024.

Section Loads.
Context `{Hex}.

Definition evict_for_size_locked (needed : Z) (model_key : option ModelKey)
    (meanwhile : list (ModelHandleCache -> ModelHandleCache)) (self : ModelHandleCache)
    : result unit AosError * ModelHandleCache :=
  let current := memory_usage self in
  if u64_wrapping_add current needed <=? max_memory_bytes self then (Ok tt, self)
  else
    let pinned_in_cache := count_keys (fun k => is_pinned k self) self in
    let active_in_cache := count_keys (fun k => is_active k self) self in
    let target := u64_wrapping_sub (u64_wrapping_add current needed) (max_memory_bytes self) in
    let '(freed, self) := evict_loop target (eviction_candidates self) meanwhile 0 self in
    let s := stats self in
    let self := set_stats (mkStats (hits s) (misses s) (evictions s) (total_memory_bytes s)
      (if (0 <? target) && (0 <? pinned_in_cache)%nat
       then u64_wrapping_add (eviction_skip_pinned_count s) (Z.of_nat pinned_in_cache)
       else eviction_skip_pinned_count s)
      (if (0 <? target) && (0 <? active_in_cache)%nat
       then u64_wrapping_add (eviction_skip_active_count s) (Z.of_nat active_in_cache)
       else eviction_skip_active_count s)
      (stale_pin_gc_count s)) self in
    if freed <? target then
      (Err (CacheBudgetExceeded (needed / BYTES_PER_MB) (freed / BYTES_PER_MB) pinned_in_cache
         active_in_cache (max_memory_bytes self / BYTES_PER_MB)
         ((fun k => String.substring 0 12 (to_hex (manifest_hash k))) <$> model_key)), self)
    else (Ok tt, self).

(** ** Loads *)

Definition add_hit (self : ModelHandleCache) : ModelHandleCache :=
  let s := stats self in
  set_stats (mkStats (u64_wrapping_add (hits s) 1) (misses s) (evictions s) (total_memory_bytes s)
    (eviction_skip_pinned_count s) (eviction_skip_active_count s) (stale_pin_gc_count s)) self.

Definition cache_hit (key : ModelKey) (e : CachedModelEntry) (self : ModelHandleCache)
    : ModelHandle * ModelHandleCache :=
  (handle e, notify_reuse key (add_hit self)).

(** The part of a load under the write lock: look again, make room, insert. *)
Definition insert_loaded (now : Z) (key : ModelKey) (h : ModelHandle) (bytes : Z)
    (meanwhile : list (ModelHandleCache -> ModelHandleCache)) (self : ModelHandleCache)
    : result ModelHandle string * ModelHandleCache :=
  match cache self !! key with
  | Some existing => (Ok (handle existing), self)
  | None =>
      match evict_for_size_locked bytes (Some key) meanwhile self with
      | (Err e, self) => (Err (error_text e), self)
      | (Ok _, self) =>
          let self := set_cache (<[key := mkEntry h now 1 bytes]> (cache self)) self in
          let s := stats self in
          let self := set_stats (mkStats (hits s) (u64_wrapping_add (misses s) 1) (evictions s)
            (u64_wrapping_add (total_memory_bytes s) bytes) (eviction_skip_pinned_count s)
            (eviction_skip_active_count s) (stale_pin_gc_count s)) self in
          (Ok h, notify_load key bytes self)
      end
  end.

(** A loader is its result; [during] is what other threads do while it runs. *)
Record LoadEnv : Type := mkEnv {
  now_at : Z;
  before : ModelHandleCache -> ModelHandleCache;
  during : ModelHandleCache -> ModelHandleCache;
  meanwhile_evicting : list (ModelHandleCache -> ModelHandleCache);
}.

Definition load_and_cache_model (env : LoadEnv) (key : ModelKey)
    (loader : result (ModelHandle * Z) AosError) (self : ModelHandleCache)
    : result ModelHandle string * ModelHandleCache :=
  match cache self !! key with
  | Some e => (Ok (handle e), add_hit self)
  | None =>
      let self := during env self in
      match loader with
      | Err e => (Err (error_text e), notify_error key e self)
      | Ok (h, bytes) => insert_loaded (now_at env) key h bytes (meanwhile_evicting env) self
      end
  end.

(** [get_or_load] of a caller that finds the entry or leads the single flight; one that
    waits gets the leader's result. *)
Definition get_or_load (env : LoadEnv) (key : ModelKey) (loader : result (ModelHandle * Z) AosError)
    (self : ModelHandleCache) : result ModelHandle AosError * ModelHandleCache :=
  match cache self !! key with
  | Some e => let '(h, self) := cache_hit key e self in (Ok h, self)
  | None =>
      match load_and_cache_model env key loader (before env self) with
      | (Ok h, self) => (Ok h, self)
      | (Err m, self) => (Err (Worker m), self)
      end
  end.

(** ** Unloading and transitions *)

Definition unload (key : ModelKey) (self : ModelHandleCache) : result unit AosError * ModelHandleCache :=
  if is_pinned key self
  then (Err (CacheEntryPinned (short_hex key) "Cannot unload pinned model. Call unpin() first."), self)
  else if is_active key self
  then (Err (CacheEntryActive (short_hex key)
         "Cannot unload model with active references. Wait for in-flight requests to complete."), self)
  else
    match cache self !! key with
    | None => (Err (CacheEntryNotFound (short_hex key)), self)
    | Some e => (Ok tt, evict_one key (memory_bytes e) self)
    end.

Definition transition_model (env : LoadEnv) (from to : ModelKey)
    (loader : result (ModelHandle * Z) AosError) (self : ModelHandleCache)
    : result ModelHandle AosError * ModelHandleCache :=
  match get_or_load env to loader self with
  | (Err e, self) => (Err e, self)
  | (Ok h, self) =>
      let self := (unpin from self).2 in
      let self := (mark_inactive from self).2 in
      (Ok h, self)
  end.

Fixpoint cleanup_loop (keys : list ModelKey) (self : ModelHandleCache) : ModelHandleCache :=
  match keys with
  | [] => self
  | key :: keys =>
      match cache self !! key with
      | None => cleanup_loop keys self
      | Some e =>
          let active := active_counts self in
          cleanup_loop keys (set_active active (evict_one key (memory_bytes e) self))
      end
  end.

Definition cleanup_all (self : ModelHandleCache) : ModelHandleCache :=
  let self := (unpin_all self).2 in
  let self := set_active ∅ self in
  cleanup_loop (map fst (map_to_list (cache self))) self.

(** ** Base models *)

Definition displacement_rank (p : ModelKey * option Z) : bool * (option Z * ModelKey) :=
  (match p.2 with None => true | Some _ => false end, (p.2, p.1)).

Definition displaceable (incoming : ModelKey) (self : ModelHandleCache) (key : ModelKey) : bool :=
  negb (bool_decide (key = incoming)) && contains key self && (active_of key self =? 0).

Definition displacement_candidates (incoming : ModelKey) (self : ModelHandleCache)
    : list (ModelKey * option Z) :=
  stable_sort (fun a b => cmp_leb (displacement_rank a) (displacement_rank b))
    (map (fun k => (k, pinned_timestamps self !! k))
      (List.filter (displaceable incoming self) (elements (pinned_keys self)))).

Definition select_pin_displacement_candidate (incoming : ModelKey) (self : ModelHandleCache) : option ModelKey :=
  fst <$> head (displacement_candidates incoming self).

Definition pin_displacement_block_reason (incoming : ModelKey) (self : ModelHandleCache) : string :=
  let others := List.filter (fun k => negb (bool_decide (k = incoming))) (elements (pinned_keys self)) in
  let cached := List.filter (fun k => contains k self) others in
  if bool_decide (pinned_keys self = ∅) then "no_pinned_entries"
  else if existsb (fun k => active_of k self =? 0) cached then "evictable_candidate_available"
  else if bool_decide (others = []) then "only_incoming_model_pinned"
  else if bool_decide (cached = []) then "other_pinned_entries_not_cached"
  else "all_other_pinned_entries_active".

Definition no_evictable_pin : string :=
  "Pin conflict mode is enforce and no evictable pinned entries are available".

Definition displace_and_pin (now : Z) (key : ModelKey) (h : ModelHandle) (self : ModelHandleCache)
    : result ModelHandle AosError * ModelHandleCache :=
  match select_pin_displacement_candidate key self with
  | None =>
      (Err (CacheEntryPinned (short_hex key)
        (no_evictable_pin +:+ " (reason: " +:+ pin_displacement_block_reason key self +:+ ")")), self)
  | Some displaced =>
      let '(unpinned, self) := unpin displaced self in
      if negb unpinned then
        (Err (CacheEntryPinned (short_hex key) (no_evictable_pin +:+ " (displacement candidate "
           +:+ short_hex displaced +:+ " could not be unpinned)")), self)
      else
        match unload displaced self with
        | (Err err, self) =>
            let self := if contains displaced self then (pin now displaced self).2 else self in
            (Err (CacheEntryPinned (short_hex key) (no_evictable_pin
               +:+ " after displacement attempt for " +:+ short_hex displaced +:+ ": " +:+ error_text err)), self)
        | (Ok _, self) =>
            let '(pinned, self) := pin now key self in
            if negb pinned then
              (Err (CacheEntryPinned (short_hex key) (no_evictable_pin +:+ " after displacement")), self)
            else (Ok h, self)
        end
  end.

Definition get_or_load_base_model (env : LoadEnv) (key : ModelKey)
    (loader : result (ModelHandle * Z) AosError) (self : ModelHandleCache)
    : result ModelHandle AosError * ModelHandleCache :=
  match get_or_load env key loader (set_base_model_key key self) with
  | (Err e, self) => (Err e, self)
  | (Ok h, self) =>
      if is_pinned key self then (Ok h, self)
      else if (max_pinned_entries self <=? pinned_count self)%nat then
        match conflict_mode (base_model_pin self) with
        | Shadow => (Ok h, self)
        | Enforce => displace_and_pin (now_at env) key h self
        end
      else (Ok h, insert_pin (now_at env) key self)
  end.

(** ** Reports *)

(** [hit_ratio] is the quotient of the last two numbers. *)
Record CacheStatus : Type := mkStatus {
  loaded_model_keys : list string;
  status_pinned_count : nat;
  cache_memory_bytes : Z;
  active_count : nat;
  evictable_count : nat;
  hit_ratio : Z * Z;
}.

Definition get_cache_status (self : ModelHandleCache) : CacheStatus :=
  mkStatus (map (fun p => short_hex p.1) (map_to_list (cache self))) (pinned_count self)
    (memory_usage self)
    (length (List.filter (fun p => 0 <? p.2) (map_to_list (active_counts self))))
    (length (List.filter (evictable self) (map_to_list (cache self))))
    (hits (stats self), u64_wrapping_add (hits (stats self)) (misses (stats self))).
End Loads.
(** ** Entries and their sizes *)

Lemma sum_memory_insert k e m :
  m !! k = None -> sum_memory (<[k := e]> m) = memory_bytes e + sum_memory m.
Proof. intros Hk. unfold sum_memory. by rewrite (map_to_list_insert m k e Hk). Qed.

Lemma sum_memory_delete k e m :
  m !! k = Some e -> sum_memory m = memory_bytes e + sum_memory (delete k m).
Proof.
  intros Hk. rewrite <- (insert_delete_id m k e Hk) at 1. apply sum_memory_insert, lookup_delete_eq.
Qed.

Definition sized (m : gmap ModelKey CachedModelEntry) : Prop :=
  map_Forall (fun _ e => 0 <= memory_bytes e) m.

Lemma sum_memory_nonneg m : sized m -> 0 <= sum_memory m.
Proof.
  intros Hm. apply sumZ_map_nonneg. intros [k e] Hin%list_elem_of_In%elem_of_map_to_list.
  exact (Hm k e Hin).
Qed.

(** Everything that leaves the entries, their total and the limits alone: pins and guards
    of other threads, notifications, counters. *)
Record quiet (c d : ModelHandleCache) : Prop := {
  quiet_cache : cache d = cache c;
  quiet_total : total_memory_bytes (stats d) = total_memory_bytes (stats c);
  quiet_max : max_memory_bytes d = max_memory_bytes c;
  quiet_limit : max_pinned_entries d = max_pinned_entries c;
  quiet_pins : (pinned_count c <= max_pinned_entries c)%nat -> (pinned_count d <= max_pinned_entries c)%nat;
}.

#[export] Instance quiet_preorder : PreOrder quiet.
Proof.
  split; [done|]. intros c d e [C1 T1 M1 L1 P1] [C2 T2 M2 L2 P2]. split; try congruence.
  intros Hc. rewrite <- L1. apply P2. rewrite L1. auto.
Qed.

Ltac quietly := split; try done.

Lemma notify_quiet k e c : quiet c (notify k e c).
Proof. unfold notify. case_bool_decide; quietly. Qed.
Lemma load_quiet k c : quiet c (record_base_model_load k c).
Proof. unfold record_base_model_load. case_bool_decide; quietly. Qed.
Lemma evict_quiet k c : quiet c (record_base_model_evict k c).
Proof. unfold record_base_model_evict. case_bool_decide; quietly. Qed.
Lemma notify_load_quiet k n c : quiet c (notify_load k n c).
Proof. etransitivity; [apply notify_quiet|apply load_quiet]. Qed.
Lemma add_hit_quiet c : quiet c (add_hit c).
Proof. quietly. Qed.

Lemma unpin_quiet k c : quiet c (unpin k c).2.
Proof.
  unfold unpin. destruct (is_pinned k c) eqn:E; [|done]. quietly. unfold pinned_count. cbn. intros Hc.
  etransitivity; [|exact Hc]. apply subseteq_size. set_solver.
Qed.

Lemma insert_pin_quiet now k c :
  (pinned_count c < max_pinned_entries c)%nat -> quiet c (insert_pin now k c).
Proof.
  intros Hc. quietly. intros _. unfold pinned_count, insert_pin in *. cbn.
  pose proof (size_union_alt {[k]} (pinned_keys c)) as E. rewrite size_singleton in E.
  assert (S : pinned_keys c ∖ {[k]} ⊆ pinned_keys c) by set_solver. apply subseteq_size in S. lia.
Qed.

Lemma pin_locked_quiet now k c : quiet c (pin_locked now k c).2.
Proof.
  unfold pin_locked. destruct (is_pinned k c); [done|].
  destruct (Nat.leb_spec (max_pinned_entries c) (pinned_count c)); [done|]. by apply insert_pin_quiet.
Qed.

Lemma count_active_quiet k c : quiet c (count_active k c).
Proof. quietly. Qed.
Lemma mark_inactive_quiet k c : quiet c (mark_inactive k c).2.
Proof. unfold mark_inactive. destruct (active_counts c !! k); [|done]. destruct (1 <? z); quietly. Qed.

Lemma gc_loop_quiet ks n c : quiet c (gc_loop ks n c).2.
Proof.
  revert n c. induction ks as [|k ks IH]; intros n c; simpl; [done|].
  pose proof (unpin_quiet k c) as Hu. destruct (unpin k c) as [r d]. etransitivity; [exact Hu|apply IH].
Qed.

Lemma unpin_all_quiet c : quiet c (unpin_all c).2.
Proof. unfold unpin_all. destruct (0 <? pinned_count c)%nat; quietly. unfold pinned_count. cbn. rewrite size_empty. lia. Qed.
Lemma set_base_key_quiet k c : quiet c (set_base_model_key k c).
Proof. unfold set_base_model_key. case_bool_decide; quietly. Qed.

(** What a thread does between taking a lock and letting go of it, the entries and their
    sizes apart. [pin] and the pin of a base model look first and then run [pin_locked]. *)
Inductive section (c : ModelHandleCache) : ModelHandleCache -> Prop :=
| s_pin now k : section c (pin_locked now k c).2
| s_unpin k : section c (unpin k c).2
| s_unpin_all : section c (unpin_all c).2
| s_collected n : section c (count_collected n c)
| s_mark_active k : section c (count_active k c)
| s_mark_inactive k : section c (mark_inactive k c).2
| s_forget_active : section c (set_active ∅ c)
| s_hit : section c (add_hit c)
| s_notify k e : section c (notify k e c)
| s_base_load k : section c (record_base_model_load k c)
| s_base_evict k : section c (record_base_model_evict k c)
| s_register k : section c (register_listener k c)
| s_unregister k : section c (remove_listener k c)
| s_configure on budget model mode : section c (configure_base_model_pinning on budget model mode c)
| s_base_key k : section c (set_base_model_key k c).

(** The limit on pins holds because [pin_locked] looks at it. *)
Lemma section_quiet c d : section c d -> quiet c d.
Proof.
  intros [].
  - apply pin_locked_quiet.
  - apply unpin_quiet.
  - apply unpin_all_quiet.
  - quietly.
  - apply count_active_quiet.
  - apply mark_inactive_quiet.
  - quietly.
  - apply add_hit_quiet.
  - apply notify_quiet.
  - apply load_quiet.
  - apply evict_quiet.
  - quietly.
  - quietly.
  - quietly.
  - apply set_base_key_quiet.
Qed.

Lemma sections_quiet c d : rtc section c d -> quiet c d.
Proof. induction 1 as [|c d e Hs _ IH]; [done|]. etransitivity; [by apply section_quiet|exact IH]. Qed.

Lemma pin_sections now k c : rtc section c (pin now k c).2.
Proof. unfold pin. destruct (contains k c); [apply rtc_once, s_pin|done]. Qed.

Lemma insert_pin_locked now k c :
  is_pinned k c = false -> (pinned_count c < max_pinned_entries c)%nat ->
  insert_pin now k c = (pin_locked now k c).2.
Proof. intros Hp Hc. unfold pin_locked. by rewrite Hp, (proj2 (Nat.leb_gt _ _) Hc). Qed.

Lemma gc_loop_sections ks n c : rtc section c (gc_loop ks n c).2.
Proof.
  revert n c. induction ks as [|k ks IH]; intros n c; simpl; [done|].
  pose proof (s_unpin c k) as Hu. destruct (unpin k c) as [r d]. eapply rtc_l; [exact Hu|apply IH].
Qed.

Lemma gc_sections now timeout c : rtc section c (gc_stale_pins now timeout c).2.
Proof.
  unfold gc_stale_pins. pose proof (gc_loop_sections (map fst (stale_pinned_entries now timeout c)) 0 c) as Hg.
  destruct (gc_loop _ 0 c) as [n d]. destruct (0 <? n); [|exact Hg]. eapply rtc_r; [exact Hg|apply s_collected].
Qed.

(** ** The budget *)

Record budget_ok (c : ModelHandleCache) : Prop := {
  ok_max : is_u64 (max_memory_bytes c);
  ok_sizes : sized (cache c);
  ok_sum : sum_memory (cache c) <= max_memory_bytes c;
  ok_total : total_memory_bytes (stats c) = sum_memory (cache c);
  ok_access : map_Forall (fun _ e => access_count e = 1) (cache c);
  ok_pins : (pinned_count c <= max_pinned_entries c)%nat;
}.

Lemma quiet_budget c d : quiet c d -> budget_ok c -> budget_ok d.
Proof.
  intros [C T M L P] [B1 B2 B3 B4 B5 B6]. split; rewrite ?C, ?T, ?M, ?L; auto.
Qed.

Lemma memory_usage_eq c : budget_ok c -> memory_usage c = sum_memory (cache c).
Proof.
  intros [B1 B2 B3 B4 B5 B6]. apply Z.mod_small. pose proof (sum_memory_nonneg _ B2). solve_range.
Qed.

Lemma evict_one_fields k n c :
  cache (evict_one k n c) = delete k (cache c)
  /\ total_memory_bytes (stats (evict_one k n c)) = saturating_sub (total_memory_bytes (stats c)) n
  /\ max_memory_bytes (evict_one k n c) = max_memory_bytes c
  /\ max_pinned_entries (evict_one k n c) = max_pinned_entries c
  /\ pinned_keys (evict_one k n c) = pinned_keys c
  /\ active_counts (evict_one k n c) = delete k (active_counts c).
Proof.
  unfold evict_one, notify_evict, record_base_model_evict, notify. cbn -[delete].
  by repeat case_bool_decide.
Qed.

Lemma evict_one_budget k e c :
  budget_ok c -> cache c !! k = Some e -> budget_ok (evict_one k (memory_bytes e) c).
Proof.
  intros [B1 B2 B3 B4 B5 B6] Hk.
  destruct (evict_one_fields k (memory_bytes e) c) as (E1 & E2 & E3 & E4 & E5 & E6).
  pose proof (sum_memory_delete k e _ Hk) as Es. pose proof (B2 k e Hk) as Hn. simpl in Hn.
  assert (Hd : sized (delete k (cache c))) by by apply map_Forall_delete.
  pose proof (sum_memory_nonneg _ Hd) as Hp.
  split; rewrite ?E1, ?E2, ?E3, ?E4; auto; unfold saturating_sub, pinned_count in *.
  - lia.
  - lia.
  - by apply map_Forall_delete.
  - by rewrite E5.
Qed.

(** Candidates are entries, each once. *)
Definition listed (l : list (ModelKey * CachedModelEntry)) (c : ModelHandleCache) : Prop :=
  NoDup (map fst l) /\ Forall (fun p => cache c !! p.1 = Some p.2) l.

Lemma listed_sum l c : listed l c -> sized (cache c) ->
  sumZ (map (fun p => memory_bytes p.2) l) <= sum_memory (cache c).
Proof.
  intros [Hn Hl] Hs. revert Hn Hl. generalize dependent (cache c). intros m. revert m.
  induction l as [|[k e] l IH]; intros m Hs Hn Hl; simpl; [by apply sum_memory_nonneg|].
  apply NoDup_cons in Hn as [Hk Hn]. apply Forall_cons in Hl as [He Hl]. simpl in *.
  rewrite (sum_memory_delete k e m He).
  enough (sumZ (map (fun p => memory_bytes p.2) l) <= sum_memory (delete k m)) by lia.
  apply IH; [by apply map_Forall_delete|done|]. apply Forall_forall. intros [k' e'] Hin. simpl.
  rewrite lookup_delete_ne; [exact (proj1 (Forall_forall _ _) Hl _ Hin)|].
  intros ->. apply Hk. apply list_elem_of_fmap. by exists (k', e').
Qed.

Lemma listed_quiet l c d : quiet c d -> listed l c -> listed l d.
Proof. intros [C _ _ _ _] [Hn Hl]. split; [done|]. by rewrite C. Qed.

Lemma listed_evict k e l c : listed ((k, e) :: l) c -> listed l (evict_one k (memory_bytes e) c).
Proof.
  intros [Hn Hl]. simpl in Hn. apply NoDup_cons in Hn as [Hk Hn]. apply Forall_cons in Hl as [_ Hl].
  split; [done|]. apply Forall_forall. intros [k' e'] Hin.
  rewrite (proj1 (evict_one_fields k (memory_bytes e) c)). simpl.
  rewrite lookup_delete_ne; [exact (proj1 (Forall_forall _ _) Hl _ Hin)|].
  intros ->. apply Hk. apply list_elem_of_fmap. by exists (k', e').
Qed.

Definition quiet_step (f : ModelHandleCache -> ModelHandleCache) : Prop := forall c, rtc section c (f c).

(** Whatever other threads do to pins and guards, the loop frees what it says. *)
Lemma evict_loop_budget target l : forall mw freed c freed' c',
  evict_loop target l mw freed c = (freed', c') ->
  Forall quiet_step mw -> budget_ok c -> listed l c -> 0 <= freed ->
  freed + sumZ (map (fun p => memory_bytes p.2) l) < u64_mod ->
  budget_ok c' /\ freed <= freed' /\ sum_memory (cache c') = sum_memory (cache c) - (freed' - freed)
  /\ max_memory_bytes c' = max_memory_bytes c /\ cache c' ⊆ cache c.
Proof.
  induction l as [|[k e] l IH]; intros mw freed c freed' c' E Hq Hb Hl Hf Hr; cbn [evict_loop] in E.
  { injection E as <- <-. split_and!; [done|lia..|done]. }
  destruct (target <=? freed). { injection E as <- <-. split_and!; [done|lia..|done]. }
  set (d := default id (head mw) c) in *.
  assert (Hd : quiet c d).
  { subst d. destruct mw as [|f mw]; [done|]. apply Forall_cons in Hq as [Hf' _]. apply sections_quiet, Hf'. }
  assert (Hq' : Forall quiet_step (tail mw)) by (destruct mw; [done|]; by apply Forall_cons in Hq as [_ ?]).
  apply (quiet_budget c d Hd) in Hb as Hbd. apply (listed_quiet _ c d Hd) in Hl.
  destruct Hd as [Dc _ Dm _ _]. cbn [map sumZ] in Hr.
  destruct Hl as [Hn Hl]. pose proof Hl as Hl'. apply Forall_cons in Hl' as [He _]. simpl in He.
  pose proof (ok_sizes _ Hbd k e He) as Hpos. simpl in Hpos.
  destruct (is_active k d || is_pinned k d).
  - apply IH in E; [|done|done| |done|simpl in Hr; lia].
    + rewrite <- Dc, <- Dm. exact E.
    + split; [by apply NoDup_cons in Hn as [_ ?]|by apply Forall_cons in Hl as [_ ?]].
  - simpl in Hr.
    assert (0 <= sumZ (map (fun p => memory_bytes p.2) l)).
    { apply sumZ_map_nonneg. intros [k' e'] Hin%list_elem_of_In. apply Forall_cons in Hl as [_ Hl].
      exact (ok_sizes _ Hbd k' e' (proj1 (Forall_forall _ _) Hl _ Hin)). }
    rewrite u64_wrapping_add_small in E by lia.
    apply IH in E; [|done|by apply evict_one_budget|apply listed_evict; by split|lia|lia].
    destruct E as (Hb' & Hle & Hs & Hm & Hsub).
    destruct (evict_one_fields k (memory_bytes e) d) as (F1 & _ & F3 & _).
    pose proof (sum_memory_delete k e _ He) as Hdel.
    split_and!; [done|lia| | |].
    + rewrite Hs, F1, <- Dc. lia.
    + by rewrite Hm, F3.
    + etransitivity; [exact Hsub|]. rewrite F1, Dc. apply delete_subseteq.
Qed.

Lemma candidates_perm c : eviction_candidates c ≡ₚ List.filter (evictable c) (map_to_list (cache c)).
Proof. apply stable_sort_perm. Qed.

Lemma elem_candidates p c :
  p ∈ eviction_candidates c <-> cache c !! p.1 = Some p.2 /\ evictable c p = true.
Proof.
  rewrite candidates_perm, list_elem_of_In, List.filter_In, <- list_elem_of_In.
  destruct p as [k e]. by rewrite elem_of_map_to_list.
Qed.

Lemma filter_keys_nodup {A B} (p : A * B -> bool) l : NoDup (map fst l) -> NoDup (map fst (List.filter p l)).
Proof.
  induction l as [|x l IH]; simpl; [done|]. intros [Hx Hn]%NoDup_cons. destruct (p x); simpl; [|auto].
  apply NoDup_cons. split; [|auto]. intros Hin. apply Hx. apply list_elem_of_In, List.in_map_iff in Hin as (y & <- & Hy).
  apply List.filter_In in Hy as [Hy _]. by apply list_elem_of_In, List.in_map.
Qed.

Lemma candidates_listed c : listed (eviction_candidates c) c.
Proof.
  split.
  - rewrite (Permutation_map fst (candidates_perm c)). apply filter_keys_nodup.
    apply (NoDup_fst_map_to_list (cache c)).
  - apply Forall_forall. intros p Hp. by apply elem_candidates in Hp as [? _].
Qed.

Section Steps.
Context `{Hex}.

Lemma evict_for_size_budget needed k mw c :
  Forall quiet_step mw -> budget_ok c -> 0 <= needed -> sum_memory (cache c) + needed < u64_mod ->
  let '(r, d) := evict_for_size_locked needed k mw c in
  budget_ok d /\ cache d ⊆ cache c /\ max_memory_bytes d = max_memory_bytes c
  /\ (r = Ok tt -> sum_memory (cache d) + needed <= max_memory_bytes d).
Proof.
  intros Hq Hb Hn Hr. unfold evict_for_size_locked. rewrite (memory_usage_eq c Hb).
  pose proof (sum_memory_nonneg _ (ok_sizes _ Hb)) as Hp. pose proof (ok_max _ Hb) as Hmax.
  pose proof (ok_sum _ Hb) as Hsum.
  rewrite u64_wrapping_add_small by lia.
  destruct (Z.leb_spec (sum_memory (cache c) + needed) (max_memory_bytes c)); [done|].
  rewrite u64_wrapping_sub_small by solve_range.
  destruct (evict_loop _ _ _ _ _) as [freed d] eqn:E.
  apply evict_loop_budget in E; [|done|done|apply candidates_listed|lia|].
  2: { pose proof (listed_sum _ _ (candidates_listed c) (ok_sizes _ Hb)). solve_range. }
  destruct E as (Hb' & Hle & Hs & Hm & Hsub).
  match goal with |- context [set_stats ?s d] => assert (Hd : quiet d (set_stats s d)) by done end.
  apply (quiet_budget _ _ Hd) in Hb'. clear Hd.
  destruct (Z.ltb_spec freed (sum_memory (cache c) + needed - max_memory_bytes c)); split_and!; try done.
  intros _. cbn. lia.
Qed.

Lemma insert_loaded_budget now k h bytes mw c :
  Forall quiet_step mw -> budget_ok c -> 0 <= bytes -> sum_memory (cache c) + bytes < u64_mod ->
  budget_ok (insert_loaded now k h bytes mw c).2.
Proof.
  intros Hq Hb Hn Hr. unfold insert_loaded. destruct (cache c !! k) as [e|] eqn:Ek; [done|].
  pose proof (evict_for_size_budget bytes (Some k) mw c Hq Hb Hn Hr) as Hev.
  destruct (evict_for_size_locked _ _ _ _) as [[[]|e] d]; destruct Hev as (Hd & Hsub & Hm & Hok); [|done].
  specialize (Hok eq_refl).
  assert (Hnone : cache d !! k = None) by by eapply lookup_weaken_None.
  destruct Hd as [B1 B2 B3 B4 B5 B6]. pose proof (sum_memory_nonneg _ B2).
  pose proof (sum_memory_insert k (mkEntry h now 1 bytes) _ Hnone) as Es.
  simpl. eapply quiet_budget; [apply notify_load_quiet|].
  split; cbn; rewrite ?Es; auto.
  - by apply map_Forall_insert_2.
  - simpl. lia.
  - simpl. rewrite u64_wrapping_add_small; [lia|solve_range].
  - by apply map_Forall_insert_2.
Qed.

(** What the threads of a worker do to the cache, one critical section at a time:
    removals (an unload, or a clean-up, which leaves the counts; whatever the marks say by
    then), insertions of loaded models and the sections that leave the entries alone. *)
Inductive step (c : ModelHandleCache) : ModelHandleCache -> Prop :=
| step_section d : section c d -> step c d
| step_remove k e : cache c !! k = Some e -> step c (evict_one k (memory_bytes e) c)
| step_clean k e : cache c !! k = Some e ->
    step c (set_active (active_counts c) (evict_one k (memory_bytes e) c))
| step_insert now k h bytes mw :
    Forall quiet_step mw -> 0 <= bytes -> sum_memory (cache c) + bytes < u64_mod ->
    step c (insert_loaded now k h bytes mw c).2.

Lemma step_budget c d : budget_ok c -> step c d -> budget_ok d.
Proof.
  intros Hb [d' Hq|k e Hk|k e Hk|now k h bytes mw Hq Hn Hr].
  - eapply quiet_budget; [by apply section_quiet|done].
  - by apply evict_one_budget.
  - eapply (quiet_budget (evict_one k (memory_bytes e) c)); [quietly|by apply evict_one_budget].
  - by apply insert_loaded_budget.
Qed.

Lemma new_budget max limit : is_u64 max -> budget_ok (with_max_pinned_entries limit (new max)).
Proof.
  intros Hm. split; cbn; try done; [|unfold pinned_count; cbn; rewrite size_empty; lia].
  unfold sum_memory. rewrite map_to_list_empty. simpl. solve_range.
Qed.

(** [C11] In every interleaving of the worker's threads, their pins, guards, notifications and
    clean-ups among them, the cached models fit the byte budget, the statistics say how many
    bytes they are, and no more entries are pinned than the limit allows. *)
Theorem models_within_budget max limit c :
  is_u64 max -> rtc step (with_max_pinned_entries limit (new max)) c ->
  memory_usage c <= max_memory_bytes c
  /\ total_memory_bytes (stats c) = memory_usage c
  /\ (pinned_count c <= max_pinned_entries c)%nat.
Proof.
  intros Hm Hr. assert (Hb : budget_ok c).
  { eapply (rtc_invariant step); [|by apply new_budget|exact Hr]. intros. by eapply step_budget. }
  rewrite (memory_usage_eq c Hb). by destruct Hb.
Qed.

(** *** The methods are made of these steps *)

Definition reaches (f : ModelHandleCache -> ModelHandleCache) : Prop := forall c, rtc step c (f c).

(** A load that leaves room in 64 bits when it inserts. *)
Definition fits (loader : result (ModelHandle * Z) AosError) (c : ModelHandleCache) : Prop :=
  match loader with
  | Ok (_, bytes) => 0 <= bytes /\ sum_memory (cache c) + bytes < u64_mod
  | Err _ => True
  end.

Lemma sections_steps c d : rtc section c d -> rtc step c d.
Proof. apply rtc_subrel. intros. by apply step_section. Qed.

Lemma section_steps c d : section c d -> rtc step c d.
Proof. intros. by apply rtc_once, step_section. Qed.

Lemma get_or_load_steps env k loader c :
  reaches (before env) -> reaches (during env) -> Forall quiet_step (meanwhile_evicting env) ->
  fits loader (during env (before env c)) -> rtc step c (get_or_load env k loader c).2.
Proof.
  intros Hbf Hdu Hq Hfit. unfold get_or_load. destruct (cache c !! k) as [e|] eqn:Ek.
  { simpl. etransitivity; [apply section_steps, s_hit|apply section_steps, s_notify]. }
  set (b := before env c) in *.
  assert (rtc step b (load_and_cache_model env k loader b).2).
  { unfold load_and_cache_model. destruct (cache b !! k) as [e|]; [apply section_steps, s_hit|].
    etransitivity; [apply Hdu|]. destruct loader as [[h bytes]|e]; [|apply section_steps, s_notify].
    by apply rtc_once, step_insert; destruct Hfit. }
  etransitivity; [apply Hbf|]. by destruct (load_and_cache_model env k loader b) as [[]].
Qed.

Lemma unload_steps k c : rtc step c (unload k c).2.
Proof.
  unfold unload. destruct (is_pinned k c), (is_active k c); try done.
  destruct (cache c !! k) eqn:E; [by apply rtc_once, step_remove|done].
Qed.

Lemma cleanup_loop_steps ks c : rtc step c (cleanup_loop ks c).
Proof.
  revert c. induction ks as [|k ks IH]; intros c; simpl; [done|].
  destruct (cache c !! k) as [e|] eqn:E; [|apply IH]. eapply rtc_l; [by apply step_clean|apply IH].
Qed.

Lemma cleanup_all_steps c : rtc step c (cleanup_all c).
Proof.
  etransitivity; [apply section_steps, s_unpin_all|].
  etransitivity; [apply section_steps, s_forget_active|apply cleanup_loop_steps].
Qed.

Lemma displace_steps now k h c : rtc step c (displace_and_pin now k h c).2.
Proof.
  unfold displace_and_pin. destruct (select_pin_displacement_candidate k c) as [x|]; [|done].
  pose proof (section_steps _ _ (s_unpin c x)) as Hu.
  destruct (unpin x c) as [[] d]; simpl in *; [|done]. etransitivity; [exact Hu|].
  pose proof (unload_steps x d) as Hl.
  destruct (unload x d) as [[[]|err] d']; simpl in *; (etransitivity; [exact Hl|]).
  - pose proof (sections_steps _ _ (pin_sections now k d')) as Hp. by destruct (pin now k d') as [[] d''].
  - destruct (contains x d'); [apply sections_steps, pin_sections|done].
Qed.

Lemma base_load_steps env k loader c :
  reaches (before env) -> reaches (during env) -> Forall quiet_step (meanwhile_evicting env) ->
  fits loader (during env (before env (set_base_model_key k c))) ->
  rtc step c (get_or_load_base_model env k loader c).2.
Proof.
  intros Hb Hd Hq Hf. unfold get_or_load_base_model.
  etransitivity; [apply section_steps, (s_base_key _ k)|].
  pose proof (get_or_load_steps env k loader _ Hb Hd Hq Hf) as Hl.
  destruct (get_or_load _ _ _ _) as [[h|e] d]; simpl in *; [|done]. etransitivity; [exact Hl|].
  destruct (is_pinned k d) eqn:Hp; [done|].
  destruct (Nat.leb_spec (max_pinned_entries d) (pinned_count d)).
  - destruct (conflict_mode _); [done|apply displace_steps].
  - cbn [snd]. rewrite insert_pin_locked by done. apply section_steps, s_pin.
Qed.

Lemma transition_steps env from to loader c :
  reaches (before env) -> reaches (during env) -> Forall quiet_step (meanwhile_evicting env) ->
  fits loader (during env (before env c)) -> rtc step c (transition_model env from to loader c).2.
Proof.
  intros Hb Hd Hq Hf. unfold transition_model.
  pose proof (get_or_load_steps env to loader c Hb Hd Hq Hf) as Hl.
  destruct (get_or_load _ _ _ _) as [[h|e] d]; simpl in *; [|done]. etransitivity; [exact Hl|].
  etransitivity; [apply section_steps, (s_unpin _ from)|apply section_steps, s_mark_inactive].
Qed.

(** Loads, base model loads, transitions, unloads, pins, collections and clean-ups are
    sequences of the steps above, so the budget holds for them however they are interleaved. *)
Theorem methods_refine_steps env k from loader c :
  reaches (before env) -> reaches (during env) -> Forall quiet_step (meanwhile_evicting env) ->
  fits loader (during env (before env c)) ->
  fits loader (during env (before env (set_base_model_key k c))) ->
  rtc step c (get_or_load env k loader c).2
  /\ rtc step c (get_or_load_base_model env k loader c).2
  /\ rtc step c (transition_model env from k loader c).2
  /\ rtc step c (unload k c).2 /\ rtc step c (cleanup_all c)
  /\ (forall now, rtc step c (pin now k c).2)
  /\ (forall now timeout, rtc step c (gc_stale_pins now timeout c).2).
Proof.
  intros Hb Hd Hq Hf Hf'. split_and!.
  - by apply get_or_load_steps.
  - by apply base_load_steps.
  - by apply transition_steps.
  - apply unload_steps.
  - apply cleanup_all_steps.
  - intros now. apply sections_steps, pin_sections.
  - intros now timeout. apply sections_steps, gc_sections.
Qed.
End Steps.

(** ** Models in use and pinned models *)

Definition protected (k : ModelKey) (c : ModelHandleCache) : bool := is_active k c || is_pinned k c.

(** From [c] to [d] pins and counts are as they were, up to counts of nothing, and no
    protected entry is lost. *)
Record spares (c d : ModelHandleCache) : Prop := {
  spares_pins : pinned_keys d = pinned_keys c;
  spares_counts : forall k, active_counts d !! k = active_counts c !! k
                            \/ active_of k c <= 0 /\ active_counts d !! k = None;
  spares_entries : forall k, protected k c = true -> is_Some (cache c !! k) -> is_Some (cache d !! k);
}.

Lemma spares_protected c d k : spares c d -> protected k d = protected k c.
Proof.
  intros [P A _]. unfold protected, is_active, is_pinned, active_of in *. rewrite P. f_equal.
  destruct (A k) as [->|[Hle ->]]; [done|]. simpl. symmetry. by apply Z.ltb_ge.
Qed.

#[export] Instance spares_preorder : PreOrder spares.
Proof.
  split.
  - intros c. split; [done|by left|done].
  - intros c d e Hcd Hde. pose proof (fun k => spares_protected c d k Hcd) as Hp.
    destruct Hcd as [P1 A1 E1], Hde as [P2 A2 E2]. split; [congruence| |].
    + intros k. destruct (A1 k) as [H1|[H1 H1']], (A2 k) as [H2|[H2 H2']].
      * left. congruence.
      * right. unfold active_of in *. by rewrite H1 in H2.
      * right. split; congruence.
      * by right.
    + intros k Hk Hs. apply E2; [by rewrite Hp|auto].
Qed.

Lemma evict_one_spares k n c : protected k c = false -> spares c (evict_one k n c).
Proof.
  intros Hk. destruct (evict_one_fields k n c) as (E1 & _ & _ & _ & E5 & E6).
  unfold protected in Hk. apply orb_false_iff in Hk as [Ha Hp]. unfold is_active in Ha. apply Z.ltb_ge in Ha.
  split; [done| |]; intros x; rewrite ?E1, ?E6.
  - destruct (decide (x = k)) as [->|]; [right|left; by rewrite lookup_delete_ne].
    split; [done|by rewrite lookup_delete_eq].
  - intros Hx. rewrite lookup_delete_ne; [done|]. intros ->. unfold protected, is_active in Hx.
    rewrite Hp in Hx. rewrite orb_false_r in Hx. apply Z.ltb_lt in Hx. lia.
Qed.

Lemma eviction_spares target l : forall freed c, spares c (evict_loop target l [] freed c).2.
Proof.
  induction l as [|[k e] l IH]; intros freed c; cbn [evict_loop]; [done|].
  destruct (target <=? freed); [done|]. cbn [head tail default id].
  destruct (is_active k c || is_pinned k c) eqn:E; [apply IH|].
  etransitivity; [by apply evict_one_spares|apply IH].
Qed.

(** Notifications and counters. *)
Lemma notify_spares k e c : spares c (notify k e c).
Proof. unfold notify. case_bool_decide; (split; [done|by left|done]). Qed.
Lemma base_load_spares k c : spares c (record_base_model_load k c).
Proof. unfold record_base_model_load. case_bool_decide; (split; [done|by left|done]). Qed.
Lemma stats_spares s c : spares c (set_stats s c).
Proof. split; [done|by left|done]. Qed.

Section Use.
Context `{Hex}.

Lemma evict_for_size_spares needed k c : spares c (evict_for_size_locked needed k [] c).2.
Proof.
  unfold evict_for_size_locked. destruct (u64_wrapping_add _ _ <=? _); [done|].
  match goal with |- context [evict_loop ?t ?l [] 0 c] =>
    pose proof (eviction_spares t l 0 c) as Hs; destruct (evict_loop t l [] 0 c) as [freed d] end.
  simpl in Hs. destruct (freed <? _); cbn [snd]; (etransitivity; [exact Hs|apply stats_spares]).
Qed.

Lemma insert_loaded_spares now k h bytes c : spares c (insert_loaded now k h bytes [] c).2.
Proof.
  unfold insert_loaded. destruct (cache c !! k); [done|].
  pose proof (evict_for_size_spares bytes (Some k) c) as Hs.
  destruct (evict_for_size_locked _ _ _ _) as [[[]|e] d]; [|done]. simpl in Hs.
  etransitivity; [exact Hs|]. cbn [snd]. unfold notify_load.
  etransitivity; [|apply base_load_spares]. etransitivity; [|apply notify_spares].
  split; [done|by left|]. intros x _ Hx. cbn. apply lookup_insert_is_Some.
  destruct (decide (k = x)); [by left|by right].
Qed.

Lemma unload_spares k c : spares c (unload k c).2.
Proof.
  unfold unload. destruct (is_pinned k c) eqn:Hp; [done|]. destruct (is_active k c) eqn:Ha; [done|].
  destruct (cache c !! k); [|done]. cbn [snd]. apply evict_one_spares. unfold protected. by rewrite Ha, Hp.
Qed.

(** A worker: the cache, and the guards that requests hold. *)
Record WorkerState : Type := mkWorker { models : ModelHandleCache; guards : list ModelKey }.

Definition uses (k : ModelKey) (gs : list ModelKey) : Z :=
  Z.of_nat (List.count_occ (fun a b => decide (a = b)) gs k).

(** The methods of the cache, each without interruption. A load is a hit, or the look
    before it, the failure of the loader or the insertion after it; a load of a base model
    sets its key, loads and pins; a transition loads, unpins and takes a mark back; a
    [mark_active] is a guard that nothing drops. What [held], a model, is spared: a mark of
    it taken back by someone who does not hold one, and the clean-up of everything. *)
Inductive method (held : ModelKey) (w : WorkerState) : WorkerState -> Prop :=
| m_begin_use k c : begin_use k (models w) = (Some k, c) -> Z.of_nat (length (guards w)) < u64_max ->
    method held w (mkWorker c (k :: guards w))
| m_drop_guard k gs : guards w ≡ₚ k :: gs -> method held w (mkWorker (guard_drop false k (models w)) gs)
| m_mark_inactive k : k <> held -> method held w (mkWorker (mark_inactive k (models w)).2 (guards w))
| m_register k : method held w (mkWorker (register_listener k (models w)) (guards w))
| m_unregister k : method held w (mkWorker (remove_listener k (models w)) (guards w))
| m_configure on budget model mode :
    method held w (mkWorker (configure_base_model_pinning on budget model mode (models w)) (guards w))
| m_base_key k : method held w (mkWorker (set_base_model_key k (models w)) (guards w))
| m_pin now k : method held w (mkWorker (pin now k (models w)).2 (guards w))
| m_unpin k : method held w (mkWorker (unpin k (models w)).2 (guards w))
| m_unpin_all : method held w (mkWorker (unpin_all (models w)).2 (guards w))
| m_gc now timeout : method held w (mkWorker (gc_stale_pins now timeout (models w)).2 (guards w))
| m_hit k e : cache (models w) !! k = Some e -> method held w (mkWorker (cache_hit k e (models w)).2 (guards w))
| m_recheck : method held w (mkWorker (add_hit (models w)) (guards w))
| m_load_failed k e : method held w (mkWorker (notify_error k e (models w)) (guards w))
| m_loaded now k h bytes : method held w (mkWorker (insert_loaded now k h bytes [] (models w)).2 (guards w))
| m_unload k : method held w (mkWorker (unload k (models w)).2 (guards w))
| m_base_pinned now k : contains k (models w) = true -> is_pinned k (models w) = false ->
    (pinned_count (models w) < max_pinned_entries (models w))%nat ->
    method held w (mkWorker (insert_pin now k (models w)) (guards w))
| m_base_displaces now k h : contains k (models w) = true ->
    method held w (mkWorker (displace_and_pin now k h (models w)).2 (guards w)).

Record worker_ok (held : ModelKey) (w : WorkerState) : Prop := {
  counts_guards : active_of held (models w) = uses held (guards w);
  guarded_cached : held ∈ guards w -> is_Some (cache (models w) !! held);
  pinned_cached : held ∈ pinned_keys (models w) -> is_Some (cache (models w) !! held);
}.

Lemma uses_pos k gs : k ∈ gs <-> 0 < uses k gs.
Proof.
  unfold uses. rewrite list_elem_of_In, (List.count_occ_In (fun a b => decide (a = b))). lia.
Qed.

Lemma uses_cons k x gs : uses k (x :: gs) = (if decide (x = k) then 1 else 0) + uses k gs.
Proof. unfold uses. simpl. destruct (decide (x = k)); lia. Qed.

Lemma uses_perm k gs gs' : gs ≡ₚ gs' -> uses k gs = uses k gs'.
Proof. intros Hp. unfold uses. f_equal. by apply Permutation_count_occ. Qed.

Lemma uses_bound k gs : 0 <= uses k gs <= Z.of_nat (length gs).
Proof.
  unfold uses. pose proof (List.count_occ_bound (fun a b => decide (a = b)) k gs). lia.
Qed.

Lemma spares_ok held c d gs : spares c d -> worker_ok held (mkWorker c gs) -> worker_ok held (mkWorker d gs).
Proof.
  intros [Sp Sa Se] [Hc Hg Hp]. cbn in *. split; cbn.
  - rewrite <- Hc. unfold active_of. destruct (Sa held) as [->|[Hle ->]]; [done|].
    rewrite Hc in Hle. pose proof (uses_bound held gs). simpl. fold (active_of held c). rewrite Hc. lia.
  - intros Hk. apply Se; [|auto]. unfold protected, is_active. rewrite Hc.
    apply uses_pos, Z.ltb_lt in Hk. by rewrite Hk.
  - intros Hk. rewrite Sp in Hk. apply Se; [|auto]. unfold protected, is_pinned.
    rewrite (bool_decide_true (held ∈ _)) by done. apply orb_true_r.
Qed.

Lemma begin_use_ok held k c d gs :
  begin_use k c = (Some k, d) -> Z.of_nat (length gs) < u64_max ->
  worker_ok held (mkWorker c gs) -> worker_ok held (mkWorker d (k :: gs)).
Proof.
  unfold begin_use, mark_active. destruct (contains k c) eqn:Hk; intros E Hl [Hc Hg Hp]; [|done].
  injection E as <-. unfold contains in Hk. breflect. cbn in *. split; cbn.
  - rewrite uses_cons. unfold active_of at 1. cbn. pose proof (uses_bound k gs).
    destruct (decide (k = held)) as [<-|]; [rewrite lookup_insert_eq|rewrite lookup_insert_ne by done; apply Hc].
    simpl. rewrite Hc, u64_wrapping_add_small; [lia|]. unfold u64_max in Hl. lia.
  - intros [->|Hx]%elem_of_cons; auto.
  - auto.
Qed.

Lemma mark_inactive_fields k c :
  cache (mark_inactive k c).2 = cache c /\ pinned_keys (mark_inactive k c).2 = pinned_keys c
  /\ (forall x, x <> k -> active_of x (mark_inactive k c).2 = active_of x c)
  /\ (0 < active_of k c -> active_of k (mark_inactive k c).2 = active_of k c - 1).
Proof.
  unfold mark_inactive, active_of. destruct (active_counts c !! k) as [n|] eqn:En; cbn; [|split_and!; [done..|lia]].
  destruct (Z.ltb_spec 1 n); cbn; split_and!; try done.
  - intros x Hx. by rewrite lookup_insert_ne.
  - by rewrite lookup_insert_eq.
  - intros x Hx. by rewrite lookup_delete_ne.
  - rewrite lookup_delete_eq. simpl. lia.
Qed.

Lemma mark_inactive_ok held k c gs :
  k <> held -> worker_ok held (mkWorker c gs) -> worker_ok held (mkWorker (mark_inactive k c).2 gs).
Proof.
  intros Hk [Hc Hg Hp]. destruct (mark_inactive_fields k c) as (E1 & E2 & E3 & _). cbn in *.
  split; cbn; rewrite ?E1, ?E2, ?E3 by done; done.
Qed.

Lemma guard_drop_ok held k c gs gs' :
  gs ≡ₚ k :: gs' -> worker_ok held (mkWorker c gs) -> worker_ok held (mkWorker (guard_drop false k c) gs').
Proof.
  intros Hgs [Hc Hg Hp]. destruct (mark_inactive_fields k c) as (E1 & E2 & E3 & E4).
  unfold guard_drop. cbn -[mark_inactive] in *.
  rewrite (uses_perm held _ _ Hgs), uses_cons in Hc. pose proof (uses_bound held gs').
  split; cbn -[mark_inactive]; rewrite ?E1, ?E2; [|intros Hin; apply Hg; rewrite Hgs; by right|done].
  destruct (decide (k = held)) as [<-|]; [rewrite E4; lia|rewrite E3 by done; lia].
Qed.

Lemma pins_ok held c d gs :
  cache d = cache c -> active_counts d = active_counts c ->
  (held ∈ pinned_keys d -> held ∈ pinned_keys c \/ contains held c = true) ->
  worker_ok held (mkWorker c gs) -> worker_ok held (mkWorker d gs).
Proof.
  intros Ec Ea Hk [Hc Hg Hp]. cbn in *. split; cbn.
  - unfold active_of. rewrite Ea. apply Hc.
  - intros Hin. rewrite Ec. auto.
  - intros Hin. rewrite Ec. apply Hk in Hin as [Hin|Hin]; [auto|]. unfold contains in Hin. by breflect.
Qed.

Lemma unpin_fields k c :
  cache (unpin k c).2 = cache c /\ active_counts (unpin k c).2 = active_counts c
  /\ pinned_keys (unpin k c).2 ⊆ pinned_keys c.
Proof. unfold unpin. destruct (is_pinned k c); cbn; split_and!; try done. set_solver. Qed.

Lemma gc_loop_fields ks n c :
  cache (gc_loop ks n c).2 = cache c /\ active_counts (gc_loop ks n c).2 = active_counts c
  /\ pinned_keys (gc_loop ks n c).2 ⊆ pinned_keys c.
Proof.
  revert n c. induction ks as [|k ks IH]; intros n c; simpl; [done|].
  destruct (unpin_fields k c) as (U1 & U2 & U3). destruct (unpin k c) as [r d]. simpl in *.
  destruct (IH (if r then n + 1 else n) d) as (I1 & I2 & I3). split_and!; [congruence..|set_solver].
Qed.

Lemma unpin_ok held k c gs :
  worker_ok held (mkWorker c gs) -> worker_ok held (mkWorker (unpin k c).2 gs).
Proof. destruct (unpin_fields k c) as (? & ? & ?). apply pins_ok; [done..|set_solver]. Qed.

Lemma pin_ok held now k c gs :
  worker_ok held (mkWorker c gs) -> worker_ok held (mkWorker (pin now k c).2 gs).
Proof.
  apply pins_ok; unfold pin, pin_locked; destruct (contains k c) eqn:Ek; try done; destruct (is_pinned k c); try done;
    destruct (max_pinned_entries c <=? pinned_count c)%nat; try done; cbn; [..|set_solver].
  all: auto. set_solver.
Qed.

Lemma gc_ok held now t c gs :
  worker_ok held (mkWorker c gs) -> worker_ok held (mkWorker (gc_stale_pins now t c).2 gs).
Proof.
  unfold gc_stale_pins. destruct (gc_loop_fields (map fst (stale_pinned_entries now t c)) 0 c) as (? & ? & ?).
  destruct (gc_loop _ 0 c) as [n d]. apply pins_ok; destruct (0 <? n); cbn in *; set_solver.
Qed.

Lemma displace_ok held now k h c gs :
  worker_ok held (mkWorker c gs) -> worker_ok held (mkWorker (displace_and_pin now k h c).2 gs).
Proof.
  intros Hw. unfold displace_and_pin. destruct (select_pin_displacement_candidate k c) as [x|]; [|done].
  pose proof (unpin_ok held x c gs Hw) as Hu. destruct (unpin x c) as [[] d]; simpl in *; [|done].
  pose proof (spares_ok held _ _ gs (unload_spares x d) Hu) as Hl. destruct (unload x d) as [[[]|err] d']; simpl in *.
  - pose proof (pin_ok held now k d' gs Hl) as Hp. by destruct (pin now k d') as [[] d''].
  - destruct (contains x d'); [by apply pin_ok|done].
Qed.

Lemma method_ok held w w' : worker_ok held w -> method held w w' -> worker_ok held w'.
Proof.
  destruct w as [c gs]. intros Hw Hm. destruct Hm; cbn in *.
  - by eapply begin_use_ok.
  - by eapply guard_drop_ok.
  - by apply mark_inactive_ok.
  - by eapply pins_ok; [..|exact Hw]; auto.
  - by eapply pins_ok; [..|exact Hw]; auto.
  - by eapply pins_ok; [..|exact Hw]; auto.
  - unfold set_base_model_key. case_bool_decide; [done|]. by eapply pins_ok; [..|exact Hw]; auto.
  - by apply pin_ok.
  - by apply unpin_ok.
  - unfold unpin_all. destruct (0 <? pinned_count c)%nat; cbn; [|done]. by eapply pins_ok; [..|exact Hw].
  - by apply gc_ok.
  - eapply spares_ok; [|exact Hw]. transitivity (add_hit c); [apply stats_spares|apply notify_spares].
  - eapply spares_ok; [apply stats_spares|exact Hw].
  - eapply spares_ok; [apply notify_spares|exact Hw].
  - eapply spares_ok; [apply insert_loaded_spares|exact Hw].
  - eapply spares_ok; [apply unload_spares|exact Hw].
  - eapply pins_ok; [..|exact Hw]; [done..|]. cbn. set_solver.
  - by apply displace_ok.
Qed.

Lemma new_worker_ok held max limit : worker_ok held (mkWorker (with_max_pinned_entries limit (new max)) []).
Proof. split; cbn; [done|set_solver|set_solver]. Qed.

Lemma worker_reachable_ok held max limit w :
  rtc (method held) (mkWorker (with_max_pinned_entries limit (new max)) []) w -> worker_ok held w.
Proof.
  intros Hr. eapply (rtc_invariant (method held)); [|apply new_worker_ok|exact Hr]. intros. by eapply method_ok.
Qed.

(** [C12] A model that a request uses, and a model that is pinned, stays in the cache, and its
    count is the number of guards held, whatever methods are called one after the other, as
    long as nobody cleans up everything and nobody takes back a mark of the model that is
    not theirs, as a transition away from it does. *)
Theorem guarded_models_stay max limit w k :
  rtc (method k) (mkWorker (with_max_pinned_entries limit (new max)) []) w ->
  active_of k (models w) = uses k (guards w)
  /\ (k ∈ guards w \/ k ∈ pinned_keys (models w) -> is_Some (cache (models w) !! k)).
Proof. intros [Hc Hg Hp]%worker_reachable_ok. split; [done|]. intros []; auto. Qed.

(** A load that no other thread disturbs. *)
Definition calm (env : LoadEnv) : Prop :=
  before env = id /\ during env = id /\ meanwhile_evicting env = [].

Lemma load_methods held env k loader c gs :
  calm env -> rtc (method held) (mkWorker c gs) (mkWorker (get_or_load env k loader c).2 gs).
Proof.
  intros (Hb & Hd & Hm). unfold get_or_load. destruct (cache c !! k) as [e|] eqn:Ek.
  { by apply rtc_once, (m_hit held (mkWorker c gs) k e). }
  unfold load_and_cache_model. rewrite Hb, Hd, Hm. cbn [id]. rewrite Ek.
  destruct loader as [[h bytes]|x]; [|by apply rtc_once, (m_load_failed held (mkWorker c gs))].
  pose proof (m_loaded held (mkWorker c gs) (now_at env) k h bytes) as Hs. cbn in Hs.
  apply rtc_once. by destruct (insert_loaded _ _ _ _ _ _) as [[] d].
Qed.
Lemma transition_tail held from c gs gs' :
  from <> held /\ gs' = gs \/ gs ≡ₚ from :: gs' ->
  rtc (method held) (mkWorker c gs) (mkWorker (mark_inactive from (unpin from c).2).2 gs').
Proof.
  intros Hf. apply (rtc_l _ _ (mkWorker (unpin from c).2 gs)); [apply m_unpin|]. apply rtc_once.
  destruct Hf as [[Hne ->]|Hgs].
  - by apply (m_mark_inactive held (mkWorker (unpin from c).2 gs)).
  - by apply (m_drop_guard held (mkWorker (unpin from c).2 gs)).
Qed.

(** A transition away from another model, or by the holder of a mark, is made of the
    methods that spare [held]. *)
Theorem transition_methods held env from to loader c gs gs' h d :
  calm env -> from <> held /\ gs' = gs \/ gs ≡ₚ from :: gs' ->
  transition_model env from to loader c = (Ok h, d) -> rtc (method held) (mkWorker c gs) (mkWorker d gs').
Proof.
  intros Hc Hf. unfold transition_model. pose proof (load_methods held env to loader c gs Hc) as Hl.
  destruct (get_or_load env to loader c) as [[h'|e] b]; [|done]. intros [= -> <-].
  etransitivity; [exact Hl|by apply transition_tail].
Qed.
End Use.

(** ** What is evicted *)

(** The shortest front of a list of entries that frees [target] bytes. *)
Fixpoint victims (target : Z) (l : list (ModelKey * CachedModelEntry)) : list (ModelKey * CachedModelEntry) :=
  match l with
  | [] => []
  | p :: l => if target <=? 0 then [] else p :: victims (target - memory_bytes p.2) l
  end.

Definition freed_by (l : list (ModelKey * CachedModelEntry)) : Z := sumZ (map (fun p => memory_bytes p.2) l).

Lemma victims_prefix target l : exists rest, l = victims target l ++ rest.
Proof.
  revert target. induction l as [|p l IH]; intros target; simpl; [by exists []|].
  destruct (target <=? 0); [by exists (p :: l)|]. destruct (IH (target - memory_bytes p.2)) as [rest E].
  exists rest. simpl. by f_equal.
Qed.

(** No shorter front would do, and the whole list is used up only if it must be. *)
Lemma victims_minimal target l p q :
  victims target l = p ++ q -> q <> [] -> freed_by p < target.
Proof.
  revert target p. induction l as [|x l IH]; intros target p E Hq; simpl in E.
  { by destruct p, q. }
  destruct (Z.leb_spec target 0); [by destruct p, q|].
  destruct p as [|y p]; [unfold freed_by; simpl; lia|]. injection E as <- E. apply IH in E; [|done]. unfold freed_by in *. simpl. lia.
Qed.

Lemma freed_by_nonneg l : Forall (fun p => 0 <= memory_bytes p.2) l -> 0 <= freed_by l.
Proof. intros Hl. apply sumZ_nonneg, Forall_map, Hl. Qed.

Lemma victims_enough target l :
  Forall (fun p => 0 <= memory_bytes p.2) l -> target <= freed_by (victims target l) <-> target <= freed_by l.
Proof.
  intros Hl. revert target. induction Hl as [|x l Hx Hl IH]; intros target; simpl; [done|].
  pose proof (freed_by_nonneg l Hl). simpl in Hx.
  destruct (Z.leb_spec target 0); [|specialize (IH (target - memory_bytes x.2))]; unfold freed_by in *; simpl; lia.
Qed.

Definition evict_all (l : list (ModelKey * CachedModelEntry)) (c : ModelHandleCache) : ModelHandleCache :=
  foldl (fun c p => evict_one p.1 (memory_bytes p.2) c) c l.

Lemma evict_all_cons k e l c : evict_all ((k, e) :: l) c = evict_all l (evict_one k (memory_bytes e) c).
Proof. done. Qed.

Lemma evictable_kept k n c p : p.1 <> k -> evictable (evict_one k n c) p = evictable c p.
Proof.
  intros Hp. destruct (evict_one_fields k n c) as (_ & _ & _ & _ & E5 & E6).
  unfold evictable, is_pinned, active_of. by rewrite E5, E6, lookup_delete_ne.
Qed.

Lemma evict_all_cache l c k :
  cache (evict_all l c) !! k = if decide (k ∈ map fst l) then None else cache c !! k.
Proof.
  revert c. induction l as [|[x e] l IH]; intros c; [done|].
  rewrite evict_all_cons, IH. cbn [map fst].
  rewrite (proj1 (evict_one_fields x (memory_bytes e) c)). simpl.
  destruct (decide (k ∈ map fst l)) as [Hin|Hin].
  - by rewrite decide_True by by right.
  - destruct (decide (k = x)) as [->|Hx]; [rewrite lookup_delete_eq, decide_True; [done|by left]|].
    rewrite lookup_delete_ne, decide_False; [done| |done]. by intros [|]%elem_of_cons.
Qed.

(** Undisturbed, the loop evicts exactly the victims. *)
Lemma evict_loop_exact target l : forall freed c,
  Forall (fun p => evictable c p = true /\ 0 <= memory_bytes p.2) l -> NoDup (map fst l) ->
  0 <= freed -> freed + freed_by l < u64_mod ->
  evict_loop target l [] freed c
  = (freed + freed_by (victims (target - freed) l), evict_all (victims (target - freed) l) c).
Proof.
  induction l as [|[k e] l IH]; intros freed c Hl Hn Hf Hr; cbn [evict_loop victims].
  { unfold freed_by. simpl. by rewrite Z.add_0_r. }
  apply Forall_cons in Hl as [[Hk He] Hl]. apply NoDup_cons in Hn as [Hnk Hn]. simpl in He, Hnk.
  assert (Hpos : 0 <= freed_by l) by (apply freed_by_nonneg; eapply Forall_impl; [exact Hl|]; by intros ? []).
  unfold freed_by in Hr, Hpos. simpl in Hr.
  destruct (Z.leb_spec target freed), (Z.leb_spec (target - freed) 0); try lia.
  { unfold freed_by. simpl. by rewrite Z.add_0_r. }
  cbn [head tail default id]. unfold evictable in Hk. simpl in Hk. breflect.
  assert (Ha : is_active k c = false) by (unfold is_active; apply Z.ltb_ge; lia).
  rewrite Ha, H1. cbn [orb].
  rewrite u64_wrapping_add_small by lia. rewrite IH; [|..|done|lia|unfold freed_by; lia].
  - cbn [snd]. replace (target - (freed + memory_bytes e)) with (target - freed - memory_bytes e) by lia.
    unfold freed_by. cbn [map sumZ snd]. f_equal. lia.
  - apply Forall_forall. intros x Hin. apply (proj1 (Forall_forall _ _) Hl) in Hin as Hx.
    rewrite evictable_kept; [done|]. intros <-. apply Hnk, list_elem_of_fmap. by exists x.
Qed.

Section Evictions.
Context `{Hex}.

Lemma candidates_ok c : budget_ok c ->
  Forall (fun p => evictable c p = true /\ 0 <= memory_bytes p.2) (eviction_candidates c).
Proof.
  intros Hb. apply Forall_forall. intros [k e] Hp. apply elem_candidates in Hp as [Hk He]. simpl in *.
  split; [done|]. exact (ok_sizes _ Hb k e Hk).
Qed.

Lemma evict_for_size_outcome needed k c :
  budget_ok c -> 0 <= needed -> sum_memory (cache c) + needed < u64_mod ->
  let target := sum_memory (cache c) + needed - max_memory_bytes c in
  let vs := victims target (eviction_candidates c) in
  cache (evict_for_size_locked needed k [] c).2 = cache (evict_all vs c)
  /\ ((evict_for_size_locked needed k [] c).1 = Ok tt <-> target <= freed_by vs).
Proof.
  intros Hb Hn Hr target vs. unfold evict_for_size_locked. rewrite (memory_usage_eq c Hb).
  pose proof (sum_memory_nonneg _ (ok_sizes _ Hb)) as Hp. pose proof (ok_max _ Hb) as Hmax.
  pose proof (ok_sum _ Hb) as Hsum. pose proof (candidates_ok c Hb) as Hc.
  pose proof (listed_sum _ _ (candidates_listed c) (ok_sizes _ Hb)) as Hl.
  rewrite u64_wrapping_add_small by lia.
  destruct (Z.leb_spec (sum_memory (cache c) + needed) (max_memory_bytes c)) as [Hle|Hgt].
  - assert (vs = []) as ->.
    { subst vs target. destruct (eviction_candidates c); [done|]. simpl.
      by destruct (Z.leb_spec (sum_memory (cache c) + needed - max_memory_bytes c) 0); [|lia]. }
    split; [done|]. unfold freed_by. simpl. split; [subst target; lia|done].
  - rewrite u64_wrapping_sub_small by solve_range. fold target.
    rewrite evict_loop_exact; [|done|apply candidates_listed|lia|unfold freed_by; solve_range].
    rewrite Z.sub_0_r. fold vs. rewrite Z.add_0_l.
    destruct (Z.ltb_spec (freed_by vs) target); (split; [done|]); split; intros E; try done; lia.
Qed.

(** Making room: the victims are the entries loaded first, then least used, then smallest
    in the order of keys, among those neither pinned nor in use; they are no more than
    needed; the load is refused exactly if all of them together are too few, and all of
    them are gone then. *)
Theorem eviction_exact needed k c :
  budget_ok c -> 0 <= needed -> sum_memory (cache c) + needed < u64_mod ->
  let target := sum_memory (cache c) + needed - max_memory_bytes c in
  let vs := victims target (eviction_candidates c) in
  let d := (evict_for_size_locked needed k [] c).2 in
  (forall x, cache d !! x = if decide (x ∈ map fst vs) then None else cache c !! x)
  /\ ((evict_for_size_locked needed k [] c).1 = Ok tt <-> target <= freed_by (eviction_candidates c))
  /\ (forall p q, vs = p ++ q -> q <> [] -> freed_by p < target)
  /\ StronglySorted (fun a b => cmp_leb (eviction_rank a) (eviction_rank b) = true) (eviction_candidates c)
  /\ (forall p, p ∈ eviction_candidates c <-> cache c !! p.1 = Some p.2 /\ evictable c p = true).
Proof.
  intros Hb Hn Hr target vs d. destruct (evict_for_size_outcome needed k c Hb Hn Hr) as [Ec Eo].
  fold target in Ec, Eo. fold vs in Ec, Eo. split_and!.
  - intros x. subst d. rewrite Ec. apply evict_all_cache.
  - rewrite Eo. apply victims_enough. eapply Forall_impl; [by apply candidates_ok|]. by intros ? [].
  - apply victims_minimal.
  - apply stable_sort_sorted; intros *; [apply cmp_leb_total|apply cmp_leb_trans].
  - intros p. apply elem_candidates.
Qed.
End Evictions.

(** ** What the methods answer *)

Section Answers.
Context `{Hex}.

(** [error_text] of the errors of a load. *)
Lemma insert_loaded_answer now k h bytes mw c :
  match insert_loaded now k h bytes mw c with
  | (Ok h', d) => exists e, cache d !! k = Some e /\ handle e = h'
  | (Err m, d) => exists x, (evict_for_size_locked bytes (Some k) mw c).1 = Err x /\ m = error_text x
  end.
Proof.
  unfold insert_loaded. destruct (cache c !! k) as [e|] eqn:E; [by exists e|].
  destruct (evict_for_size_locked _ _ _ _) as [[[]|x] d]; [|by exists x].
  exists (mkEntry h now 1 bytes). split; [|done].
  rewrite (quiet_cache _ _ (notify_load_quiet k bytes _)). cbn. apply lookup_insert_eq.
Qed.

(** Whatever other threads do meanwhile, the handle that a load returns is the one in the
    cache, a cached model is returned without calling the loader, and a load fails only as
    its loader does or for want of room. *)
Theorem load_answer env k loader c :
  match get_or_load env k loader c with
  | (Ok h, d) => (exists e, cache d !! k = Some e /\ handle e = h)
                 /\ (forall e, cache c !! k = Some e -> h = handle e /\ cache d = cache c)
  | (Err err, d) => cache c !! k = None /\ exists m, err = Worker m
      /\ ((exists x, loader = Err x /\ m = error_text x)
          \/ exists h bytes x, loader = Ok (h, bytes) /\ m = error_text x
               /\ (evict_for_size_locked bytes (Some k) (meanwhile_evicting env)
                     (during env (before env c))).1 = Err x)
  end.
Proof.
  unfold get_or_load. destruct (cache c !! k) as [e|] eqn:Ek.
  { simpl. pose proof (quiet_cache _ _ (notify_quiet k (on_reuse k) (add_hit c))) as Ec.
    change (cache (notify_reuse k (add_hit c)) = cache c) in Ec.
    rewrite Ec. split; [by exists e|]. by intros ? [= <-]. }
  unfold load_and_cache_model. destruct (cache (before env c) !! k) as [e|] eqn:Eb.
  { split; [by exists e|done]. }
  destruct loader as [[h bytes]|x]; [|split; [done|]; eexists; split; [done|]; left; by exists x].
  pose proof (insert_loaded_answer (now_at env) k h bytes (meanwhile_evicting env) (during env (before env c))) as Ha.
  destruct (insert_loaded _ _ _ _ _ _) as [[h'|m] d]; [by split|].
  destruct Ha as (x & Hx & ->). split; [done|]. eexists. split; [done|]. right. by exists h, bytes, x.
Qed.

(** [unload] removes exactly the one model if it is cached and neither pinned nor in use,
    and otherwise changes nothing. *)
Theorem unload_exact k c :
  match unload k c with
  | (Ok _, d) => protected k c = false /\ exists e, cache c !! k = Some e /\ cache d = delete k (cache c)
      /\ total_memory_bytes (stats d) = saturating_sub (total_memory_bytes (stats c)) (memory_bytes e)
  | (Err _, d) => d = c /\ (protected k c = true \/ cache c !! k = None)
  end.
Proof.
  unfold unload, protected. destruct (is_pinned k c), (is_active k c); try (split; [done|by left]).
  destruct (cache c !! k) as [e|]; [|split; [done|by right]]. split; [done|]. exists e.
  destruct (evict_one_fields k (memory_bytes e) c) as (E1 & E2 & _). done.
Qed.

(** *** Stale pins *)

Lemma gc_loop_exact ks : forall n c,
  let '(n', d) := gc_loop ks n c in
  (forall k, k ∈ pinned_keys d <-> k ∈ pinned_keys c /\ k ∉ ks)
  /\ n' = n + (Z.of_nat (pinned_count c) - Z.of_nat (pinned_count d)).
Proof.
  induction ks as [|k ks IH]; intros n c; simpl; [split; [set_solver|lia]|].
  unfold unpin. unfold is_pinned at 1. case_bool_decide as Hk.
  - match goal with |- context [set_pins ?p ?t c] => specialize (IH (n + 1) (set_pins p t c)) end.
    destruct (gc_loop _ _ _) as [n' d]. destruct IH as [Hp Hn]. split; [cbn in Hp; set_solver|].
    rewrite Hn. unfold pinned_count. cbn.
    rewrite size_difference, size_singleton by set_solver.
    assert (size (pinned_keys c) <> 0%nat) by (apply size_non_empty_iff; set_solver). lia.
  - specialize (IH n c). destruct (gc_loop _ _ _) as [n' d]. destruct IH as [Hp Hn]. split; [set_solver|done].
Qed.

(** The collector removes exactly the pins older than the timeout and answers how many. *)
Theorem gc_exact now timeout c :
  let '(n, d) := gc_stale_pins now timeout c in
  (forall k, k ∈ pinned_keys d <-> k ∈ pinned_keys c
     /\ ~ exists at_, pinned_timestamps c !! k = Some at_ /\ timeout < saturating_sub now at_)
  /\ n = Z.of_nat (pinned_count c) - Z.of_nat (pinned_count d) /\ cache d = cache c.
Proof.
  unfold gc_stale_pins.
  pose proof (gc_loop_exact (map fst (stale_pinned_entries now timeout c)) 0 c) as Hg.
  pose proof (gc_loop_quiet (map fst (stale_pinned_entries now timeout c)) 0 c) as Hq.
  destruct (gc_loop _ 0 c) as [n d]. destruct Hg as [Hp Hn], Hq as [Hc _ _ _ _].
  assert (Hs : forall k, k ∈ map fst (stale_pinned_entries now timeout c)
    <-> exists at_, pinned_timestamps c !! k = Some at_ /\ timeout < saturating_sub now at_).
  { intros k. unfold stale_pinned_entries. rewrite list_elem_of_fmap. split.
    - intros ([k' age] & -> & Hin). apply list_elem_of_omap in Hin as ([x at_] & Hx & E). cbv zeta in E.
      simpl in E. destruct (Z.ltb_spec timeout (saturating_sub now at_)); [|done]. injection E as <- <-.
      exists at_. by rewrite <- elem_of_map_to_list.
    - intros (at_ & Hk & Hlt). exists (k, saturating_sub now at_). split; [done|].
      apply list_elem_of_omap. exists (k, at_). rewrite elem_of_map_to_list. split; [done|]. cbv zeta. simpl.
      by apply Z.ltb_lt in Hlt as ->. }
  destruct (0 <? n); cbn; (split_and!; [intros k; by rewrite Hp, Hs|exact Hn|exact Hc]).
Qed.

(** *** Displaced base models *)

Lemma displaceable_spec k x c :
  displaceable k c x = true <-> x <> k /\ is_Some (cache c !! x) /\ active_of x c = 0.
Proof.
  unfold displaceable, contains. rewrite !andb_true_iff, negb_true_iff, bool_decide_eq_false,
    bool_decide_eq_true, Z.eqb_eq. tauto.
Qed.

Lemma elem_displacement k p c :
  p ∈ displacement_candidates k c
  <-> p.1 ∈ pinned_keys c /\ displaceable k c p.1 = true /\ p.2 = pinned_timestamps c !! p.1.
Proof.
  unfold displacement_candidates. rewrite stable_sort_perm, list_elem_of_fmap. split.
  - intros (x & -> & Hx). apply list_elem_of_In, List.filter_In in Hx as [Hx Hd].
    apply list_elem_of_In, elem_of_elements in Hx. done.
  - intros (Hp & Hd & Ht). exists p.1. split; [by destruct p; simpl in *; subst|].
    apply list_elem_of_In, List.filter_In. rewrite <- list_elem_of_In, elem_of_elements. done.
Qed.

(** The displaced model is the one pinned longest ago among the others that are cached and
    not in use; there is none only if no such model is pinned. *)
Lemma displacement_candidate_exact k c :
  match select_pin_displacement_candidate k c with
  | Some x => x ∈ pinned_keys c /\ displaceable k c x = true
      /\ forall y, y ∈ pinned_keys c -> displaceable k c y = true ->
           cmp_leb (displacement_rank (x, pinned_timestamps c !! x))
                   (displacement_rank (y, pinned_timestamps c !! y)) = true
  | None => forall y, y ∈ pinned_keys c -> displaceable k c y = false
  end.
Proof.
  pose proof (fun p => elem_displacement k p c) as Hel. unfold select_pin_displacement_candidate.
  assert (Hs : StronglySorted (fun a b => cmp_leb (displacement_rank a) (displacement_rank b) = true)
    (displacement_candidates k c)).
  { apply stable_sort_sorted; intros *; [apply cmp_leb_total|apply cmp_leb_trans]. }
  destruct (displacement_candidates k c) as [|[x t] l]; simpl.
  - intros y Hy. destruct (displaceable k c y) eqn:E; [|done].
    exfalso. by apply (not_elem_of_nil (y, pinned_timestamps c !! y)), Hel.
  - destruct (proj1 (Hel (x, t))) as (Hx & Hd & Ht); [by left|]. simpl in *. subst t. split_and!; [done..|].
    intros y Hy Hdy. assert (Hin : (y, pinned_timestamps c !! y) ∈ (x, pinned_timestamps c !! x) :: l) by by apply Hel.
    apply elem_of_cons in Hin as [->|Hin]; [apply cmp_leb_refl|].
    apply StronglySorted_inv in Hs as [_ Hs]. exact (proj1 (Forall_forall _ _) Hs _ Hin).
Qed.
End Answers.

(** At the pin limit, enforcing displaces exactly the model pinned longest ago that is not
    in use, unloads it and pins the incoming one; if there is none, nothing changes. *)
Theorem displacement_exact `{Hex} now k h c :
  contains k c = true -> is_pinned k c = false -> max_pinned_entries c = pinned_count c ->
  match select_pin_displacement_candidate k c with
  | None => exists reason, displace_and_pin now k h c = (Err (CacheEntryPinned (short_hex k) reason), c)
      /\ forall y, y ∈ pinned_keys c -> displaceable k c y = false
  | Some x => exists d, displace_and_pin now k h c = (Ok h, d)
      /\ pinned_keys d = {[k]} ∪ pinned_keys c ∖ {[x]} /\ cache d = delete x (cache c)
      /\ x ∈ pinned_keys c /\ displaceable k c x = true
      /\ forall y, y ∈ pinned_keys c -> displaceable k c y = true ->
           cmp_leb (displacement_rank (x, pinned_timestamps c !! x))
                   (displacement_rank (y, pinned_timestamps c !! y)) = true
  end.
Proof.
  intros Hk Hp Hm. pose proof (displacement_candidate_exact k c) as Hs. unfold displace_and_pin.
  destruct (select_pin_displacement_candidate k c) as [x|]; [|by eexists].
  destruct Hs as (Hx & Hd & Hold). pose proof Hd as Hd'. apply displaceable_spec in Hd' as (Hne & [e He] & Ha).
  unfold unpin, is_pinned at 1. rewrite bool_decide_true by done. cbn [negb].
  unfold unload, is_pinned at 1, is_active, active_of. cbn -[delete]. fold (active_of x c).
  rewrite bool_decide_false by set_solver. rewrite Ha, He. cbn [Z.ltb Z.compare].
  match goal with |- context [evict_one x ?n ?c'] =>
    destruct (evict_one_fields x n c') as (E1 & _ & _ & E4 & E5 & _); revert E1 E4 E5;
    generalize (evict_one x n c') end.
  intros d E1 E4 E5. cbn -[delete] in E1, E4, E5.
  unfold pin, contains. rewrite bool_decide_true.
  2: { rewrite E1, lookup_delete_ne by done. unfold contains in Hk. by breflect. }
  unfold is_pinned in Hp. breflect.
  unfold pin_locked, is_pinned. rewrite E5, bool_decide_false by set_solver.
  unfold pinned_count at 1. rewrite E4, E5, Hm.
  assert (size (pinned_keys c) <> 0%nat) by (apply size_non_empty_iff; set_solver).
  rewrite (proj2 (Nat.leb_gt _ _)).
  2: { unfold pinned_count. rewrite size_difference, size_singleton by set_solver. lia. }
  cbn [negb]. eexists. split; [done|]. cbn -[delete]. by rewrite E5, E1.
Qed.

(** ** Deviations *)

Section Deviations.
Context `{Hex}.

(** A clean-up evicts every model, those that requests use among them. *)
Theorem cleanup_frees_models_in_use c : cache (cleanup_all c) = ∅.
Proof.
  unfold cleanup_all. set (d := set_active ∅ (unpin_all c).2).
  assert (Hl : forall ks d, (forall k, is_Some (cache d !! k) -> k ∈ ks) -> cache (cleanup_loop ks d) = ∅).
  { intros ks. induction ks as [|k ks IH]; intros b Hb; simpl.
    { apply map_empty. intros i. apply eq_None_not_Some. intros Hi. by apply Hb, elem_of_nil in Hi. }
    destruct (cache b !! k) as [e|] eqn:Ek; apply IH; intros i Hi.
    - change (is_Some (cache (evict_one k (memory_bytes e) b) !! i)) in Hi.
      rewrite (proj1 (evict_one_fields k (memory_bytes e) b)) in Hi.
      destruct (decide (i = k)) as [->|Hne]; [rewrite lookup_delete_eq in Hi; by destruct Hi|].
      rewrite lookup_delete_ne in Hi by done. by apply Hb, elem_of_cons in Hi as [].
    - apply Hb in Hi as Hin. apply elem_of_cons in Hin as [->|]; [|done]. rewrite Ek in Hi. by destruct Hi. }
  apply Hl. intros k [e He]. apply list_elem_of_fmap. exists (k, e). split; [done|]. by apply elem_of_map_to_list.
Qed.

Lemma get_or_load_spares env k loader c : calm env -> spares c (get_or_load env k loader c).2.
Proof.
  intros (Hb & Hd & Hm). unfold get_or_load. destruct (cache c !! k) as [e|] eqn:Ek.
  { transitivity (add_hit c); [apply stats_spares|apply notify_spares]. }
  unfold load_and_cache_model. rewrite Hb, Hd, Hm. cbn [id]. rewrite Ek.
  destruct loader as [[h bytes]|x]; [|apply notify_spares].
  pose proof (insert_loaded_spares (now_at env) k h bytes c) as Hs.
  by destruct (insert_loaded _ _ _ _ _ _) as [[] d].
Qed.

(** [transition_model] takes the mark of the old model away from the request that holds
    it: with one guard in use the model counts as idle and can be unloaded. *)
Theorem transition_frees_model_in_use env from to loader c d h :
  calm env -> is_Some (cache c !! from) -> active_counts c !! from = Some 1 ->
  transition_model env from to loader c = (Ok h, d) ->
  is_Some (cache d !! from) /\ (unload from d).1 = Ok tt.
Proof.
  intros Hcalm Hc Ha. unfold transition_model.
  pose proof (get_or_load_spares env to loader c Hcalm) as [Hp Hs He].
  destruct (get_or_load env to loader c) as [[h'|e] b]; cbn [snd] in *; [|done]. intros [= -> <-].
  assert (Hab : active_counts b !! from = Some 1).
  { destruct (Hs from) as [->|[Hle _]]; [done|]. unfold active_of in Hle. rewrite Ha in Hle. simpl in Hle. lia. }
  assert (Hcb : is_Some (cache b !! from)).
  { apply He; [|done]. unfold protected, is_active, active_of. by rewrite Ha. }
  destruct (unpin_fields from b) as (U1 & U2 & U3).
  assert (Hup : from ∉ pinned_keys (unpin from b).2).
  { unfold unpin, is_pinned. case_bool_decide; cbn; set_solver. }
  revert U1 U2 Hup. generalize (unpin from b).2. intros u U1 U2 Hup.
  unfold mark_inactive. rewrite U2, Hab. cbn -[delete]. rewrite U1. split; [done|].
  unfold unload, is_pinned, is_active, active_of. cbn -[delete]. rewrite bool_decide_false by done.
  rewrite lookup_delete_eq, U1. cbn -[delete]. by destruct Hcb as [e ->].
Qed.

(** [unpin_all] forgets the pins but not when they were made: they go on being reported as
    stale, and the collector never removes them. *)
Theorem unpinned_still_reported now timeout c :
  let d := (unpin_all c).2 in
  pinned_count d = 0%nat
  /\ stale_pinned_entries now timeout d = stale_pinned_entries now timeout c
  /\ gc_stale_pins now timeout d = (0, d).
Proof.
  intros d. assert (Hp : pinned_keys d = ∅ /\ pinned_timestamps d = pinned_timestamps c).
  { subst d. unfold unpin_all. destruct (Nat.ltb_spec 0 (pinned_count c)); [done|]. split; [|done].
    apply leibniz_equiv, size_empty_inv. unfold pinned_count in *. cbn. lia. }
  destruct Hp as [Hp Ht]. split_and!.
  - unfold pinned_count. by rewrite Hp.
  - unfold stale_pinned_entries. by rewrite Ht.
  - unfold gc_stale_pins. assert (Hg : forall ks n, gc_loop ks n d = (n, d)).
    { intros ks. induction ks as [|k ks IH]; intros n; [done|]. cbn [gc_loop]. unfold unpin, is_pinned.
      rewrite Hp, bool_decide_false by set_solver. apply IH. }
    by rewrite Hg.
Qed.

(** The eviction order is that of loading: a hit changes neither the time nor the number
    of accesses of an entry, which is 1 for all entries of every run. *)
Theorem eviction_ignores_use max limit c k e :
  is_u64 max -> rtc step (with_max_pinned_entries limit (new max)) c ->
  eviction_candidates (cache_hit k e c).2 = eviction_candidates c
  /\ map_Forall (fun _ e => access_count e = 1) (cache c).
Proof.
  intros Hm Hr. split.
  - cbn [cache_hit snd]. unfold notify_reuse, notify. by case_bool_decide.
  - refine (ok_access c _). eapply (rtc_invariant step); [|by apply (new_budget max limit)|exact Hr].
    intros. by eapply step_budget.
Qed.

(** [pin] lets go of the entries between its look and its mark. An unload in between
    leaves a pin of a model that is not there, which takes up one of the pins allowed. *)
Theorem pin_races_with_unload now k c :
  contains k c = true -> protected k c = false -> (pinned_count c < max_pinned_entries c)%nat ->
  let d := (unload k c).2 in
  (unload k c).1 = Ok tt
  /\ let '(ok, f) := pin_locked now k d in
     ok = true /\ is_pinned k f = true /\ contains k f = false /\ pinned_count f = S (pinned_count c).
Proof.
  intros Hk Hp Hm. unfold protected in Hp. apply orb_false_iff in Hp as [Ha Hp].
  unfold unload. rewrite Hp, Ha. unfold contains in Hk. breflect. destruct Hk as [e He]. rewrite He.
  cbn [fst snd]. split; [done|].
  destruct (evict_one_fields k (memory_bytes e) c) as (E1 & _ & _ & E4 & E5 & _).
  revert E1 E4 E5. generalize (evict_one k (memory_bytes e) c). intros d E1 E4 E5.
  unfold pin_locked, is_pinned, pinned_count in *. rewrite E5, E4. unfold is_pinned in Hp. rewrite Hp.
  breflect. rewrite (proj2 (Nat.leb_gt _ _)) by done. cbn -[delete]. split_and!; [done| | |].
  - rewrite bool_decide_true; [done|set_solver].
  - unfold contains. cbn -[delete]. rewrite E1, lookup_delete_eq. by rewrite bool_decide_false by by intros [].
  - rewrite E5, size_union, size_singleton by set_solver. done.
Qed.
End Deviations.

(** ** Examples *)

Section Examples.
#[local] Existing Instance toy_blake3.
#[local] Existing Instance hex_lower.

Definition sample_key (b : byte) : ModelKey :=
  ModelKey.mkModelKey MLX (Hashing.hash [b]) (for_backend "0.14.1" MLX).

Definition calm_env (now : Z) : LoadEnv := mkEnv now id id [].

Definition load (now : Z) (b : byte) (bytes : Z) (c : ModelHandleCache) : ModelHandleCache :=
  (get_or_load (calm_env now) (sample_key b) (Ok (MlxHandle now, bytes)) c).2.

(** Two models of 40 and 50 bytes in a cache of 100, at most one pin. *)
Definition two_models : ModelHandleCache :=
  load 2 x02 50 (load 1 x01 40 (with_max_pinned_entries 1 (new 100))).

Lemma id_reaches : reaches id.
Proof. intros c. apply rtc_refl. Qed.

Lemma load_steps now b bytes c :
  0 <= bytes /\ sum_memory (cache c) + bytes < u64_mod -> rtc step c (load now b bytes c).
Proof. intros Hf. by apply get_or_load_steps; [apply id_reaches..|apply Forall_nil|]. Qed.

Lemma two_models_reached : rtc step (with_max_pinned_entries 1 (new 100)) two_models.
Proof.
  transitivity (load 1 x01 40 (with_max_pinned_entries 1 (new 100)));
    (apply load_steps; split; [lia|by vm_compute]).
Qed.

Lemma models_within_budget_witness :
  memory_usage two_models = 90 /\ memory_usage two_models <= max_memory_bytes two_models.
Proof.
  split; [vm_compute; reflexivity|].
  destruct (models_within_budget 100 1 two_models) as [B _]; [solve_range|apply two_models_reached|exact B].
Defined.

Lemma two_models_budget : budget_ok two_models.
Proof.
  eapply (rtc_invariant step); [|apply (new_budget 100 1); solve_range|apply two_models_reached].
  intros. by eapply step_budget.
Qed.

Lemma methods_refine_steps_witness : rtc step two_models (cleanup_all two_models).
Proof.
  refine (proj1 (proj2 (proj2 (proj2 (proj2 (methods_refine_steps (calm_env 3) (sample_key x03) (sample_key x01)
    (Ok (CoreMLHandle, 30)) two_models _ _ _ _ _)))))).
  - apply id_reaches.
  - apply id_reaches.
  - by apply Forall_nil.
  - vm_compute. done.
  - vm_compute. done.
Defined.

(** A third model of 30 bytes evicts the older of the two. *)
Lemma eviction_exact_witness :
  cache (evict_for_size_locked 30 None [] two_models).2 !! sample_key x01 = None
  /\ (evict_for_size_locked 30 None [] two_models).1 = Ok tt.
Proof.
  destruct (eviction_exact 30 None two_models) as (E1 & E2 & _);
    [apply two_models_budget|lia|vm_compute; reflexivity|].
  split; [rewrite E1; vm_compute; reflexivity|apply E2; vm_compute; discriminate].
Defined.

Definition one_loaded : ModelHandleCache :=
  (insert_loaded 1 (sample_key x01) (MlxHandle 1) 40 [] (with_max_pinned_entries 1 (new 100))).2.

Definition one_guard : WorkerState :=
  mkWorker (begin_use (sample_key x01) one_loaded).2 [sample_key x01].

Lemma begin_use_some k c : contains k c = true -> begin_use k c = (Some k, (begin_use k c).2).
Proof. unfold begin_use, mark_active. by intros ->. Qed.

Lemma one_guard_reached : rtc (method (sample_key x01)) (mkWorker (with_max_pinned_entries 1 (new 100)) []) one_guard.
Proof.
  apply (rtc_l _ _ (mkWorker one_loaded [])); [by apply m_loaded|]. apply rtc_once.
  apply (m_begin_use _ (mkWorker one_loaded [])); [|by vm_compute]. apply begin_use_some. by vm_compute.
Qed.

Lemma guarded_models_stay_witness : is_Some (cache (models one_guard) !! sample_key x01).
Proof.
  apply (guarded_models_stay 100 1 one_guard (sample_key x01)); [apply one_guard_reached|].
  left. apply list_elem_of_singleton. reflexivity.
Defined.

Definition first_pinned : ModelHandleCache := (pin 5 (sample_key x01) two_models).2.

Lemma displacement_exact_witness :
  select_pin_displacement_candidate (sample_key x02) first_pinned = Some (sample_key x01)
  /\ exists d, displace_and_pin 9 (sample_key x02) (MlxHandle 2) first_pinned = (Ok (MlxHandle 2), d).
Proof.
  assert (E : select_pin_displacement_candidate (sample_key x02) first_pinned = Some (sample_key x01))
    by (vm_compute; reflexivity).
  split; [exact E|].
  pose proof (displacement_exact 9 (sample_key x02) (MlxHandle 2) first_pinned) as D. rewrite E in D.
  destruct D as (d & Hd & _); [vm_compute; reflexivity..|]. by exists d.
Defined.

Lemma pair_fst {A B} (p : A * B) x : p.1 = x -> p = (x, p.2).
Proof. by destruct p; intros <-. Qed.

Definition transitioned : result ModelHandle AosError * ModelHandleCache :=
  transition_model (calm_env 3) (sample_key x01) (sample_key x02) (Ok (CoreMLHandle, 10)) (models one_guard).

Lemma transition_frees_model_in_use_witness : (unload (sample_key x01) transitioned.2).1 = Ok tt.
Proof.
  destruct (transition_frees_model_in_use (calm_env 3) (sample_key x01) (sample_key x02)
    (Ok (CoreMLHandle, 10)) (models one_guard) transitioned.2 CoreMLHandle) as [_ U]; [done| | | |exact U].
  - apply (proj1 (bool_decide_eq_true (is_Some (cache (models one_guard) !! sample_key x01)))).
    vm_compute. reflexivity.
  - vm_compute. reflexivity.
  - apply (pair_fst transitioned). vm_compute. reflexivity.
Defined.

Lemma eviction_ignores_use_witness :
  eviction_candidates (cache_hit (sample_key x01) (mkEntry (MlxHandle 1) 1 1 40) two_models).2
  = eviction_candidates two_models.
Proof.
  apply (eviction_ignores_use 100 1 two_models); [solve_range|apply two_models_reached].
Defined.

Lemma pin_races_with_unload_witness : (unload (sample_key x01) two_models).1 = Ok tt.
Proof.
  destruct (pin_races_with_unload 7 (sample_key x01) two_models) as [U _]; [| | |exact U].
  - vm_compute. reflexivity.
  - vm_compute. reflexivity.
  - apply Nat.ltb_lt. vm_compute. reflexivity.
Defined.
End Examples.
End ModelCache.
