(* ===== verification/ReceiptDigest.v ===== *)
(** * Receipt digests (adapteros-core/src/receipt_digest.rs)

    The digest of an inference receipt, in its eight schema versions, and the digests of
    the things a receipt refers to: the output tokens, the decision of one token, the run
    head that chains the decisions, the blobs a decision is hashed from.

    The slices that [hash_multi] gets are written in the order of the source; a run of
    slices that several versions share is a definition of its own. Arrays [[u8; 32]] are
    digests. [canonical v i] is the specification: the input that keeps of [i] what a
    receipt of version [v] binds, with absent options replaced by their sentinels. The
    digest of version [v] is proved to determine it, and to depend on nothing else. *)

From S2P Require Import Prelude Hashing.

Local Open Scope Z.
Local Open Scope aos.

(** ** Schema versions *)

Definition RECEIPT_SCHEMA_V1 : Z := 1.
Definition RECEIPT_SCHEMA_V2 : Z := 2.
Definition RECEIPT_SCHEMA_V3 : Z := 3.
Definition RECEIPT_SCHEMA_V4 : Z := 4.
Definition RECEIPT_SCHEMA_V5 : Z := 5.
Definition RECEIPT_SCHEMA_V6 : Z := 6.
Definition RECEIPT_SCHEMA_V7 : Z := 7.
Definition RECEIPT_SCHEMA_V8 : Z := 8.
Definition RECEIPT_SCHEMA_CURRENT : Z := RECEIPT_SCHEMA_V8.

(** ** The input of a digest *)

Record ReceiptDigestInput : Type := mkInput {
  context_digest : B3Hash;
  run_head_hash : B3Hash;
  output_digest : B3Hash;
  logical_prompt_tokens : Z;
  prefix_cached_token_count : Z;
  billed_input_tokens : Z;
  logical_output_tokens : Z;
  billed_output_tokens : Z;
  (* V2+: backend identity *)
  backend_used : option string;
  backend_attestation_b3 : option B3Hash;
  (* V3+: seed lineage *)
  root_seed_digest : option B3Hash;
  seed_mode : option string;
  has_manifest_binding : option bool;
  (* V4: stop controller *)
  stop_reason_code : option string;
  stop_reason_token_index : option Z;
  stop_policy_digest_b3 : option B3Hash;
  (* V4: KV quota and residency *)
  tenant_kv_quota_bytes : Z;
  tenant_kv_bytes_used : Z;
  kv_evictions : Z;
  kv_residency_policy_id : option string;
  kv_quota_enforced : bool;
  (* V4: prefix KV cache *)
  prefix_kv_key_b3 : option B3Hash;
  prefix_cache_hit : bool;
  prefix_kv_bytes : Z;
  (* V4: model cache identity *)
  model_cache_identity_v2_digest_b3 : option B3Hash;
  (* V5: equipment profile and citations *)
  equipment_profile_digest_b3 : option B3Hash;
  processor_id : option string;
  mlx_version : option string;
  ane_version : option string;
  citations_merkle_root_b3 : option B3Hash;
  citation_count : Z;
  (* V6: cross-run lineage *)
  previous_receipt_digest : option B3Hash;
  session_sequence : Z;
  (* V7 *)
  tokenizer_hash_b3 : option B3Hash;
  tokenizer_version : option string;
  tokenizer_normalization : option string;
  model_build_hash_b3 : option B3Hash;
  adapter_build_hash_b3 : option B3Hash;
  decode_algo : option string;
  temperature_q15 : option Z;
  top_p_q15 : option Z;
  top_k : option Z;
  seed_digest_b3 : option B3Hash;
  sampling_backend : option string;
  thread_count : option Z;
  reduction_strategy : option string;
  stop_eos_q15 : option Z;
  stop_window_digest_b3 : option B3Hash;
  cache_scope : option string;
  cached_prefix_digest_b3 : option B3Hash;
  cached_prefix_len : option Z;
  cache_key_b3 : option B3Hash;
  retrieval_merkle_root_b3 : option B3Hash;
  retrieval_order_digest_b3 : option B3Hash;
  tool_call_inputs_digest_b3 : option B3Hash;
  tool_call_outputs_digest_b3 : option B3Hash;
  disclosure_level : option string;
  (* V8: adapter version binding *)
  adapter_version_bindings_digest_b3 : option B3Hash;
}.

(** [..Default::default()]: [None], [0] and [false]. *)
Definition new (ctx head out : B3Hash) (prompt cached billed_in output billed_out : Z)
    : ReceiptDigestInput :=
  mkInput ctx head out prompt cached billed_in output billed_out
    None None None None None None None None 0 0 0 None false None false 0 None
    None None None None None 0 None 0
    None None None None None None None None None None None None None None None
    None None None None None None None None None None.

Definition with_stop_controller code index policy (self : ReceiptDigestInput) :=
  self <| stop_reason_code := code |> <| stop_reason_token_index := index |>
    <| stop_policy_digest_b3 := policy |>.

Definition with_kv_quota quota used evictions policy enforced (self : ReceiptDigestInput) :=
  self <| tenant_kv_quota_bytes := quota |> <| tenant_kv_bytes_used := used |>
    <| kv_evictions := evictions |> <| kv_residency_policy_id := policy |>
    <| kv_quota_enforced := enforced |>.

Definition with_prefix_cache key hit bytes (self : ReceiptDigestInput) :=
  self <| prefix_kv_key_b3 := key |> <| prefix_cache_hit := hit |> <| prefix_kv_bytes := bytes |>.

Definition with_model_cache_identity digest (self : ReceiptDigestInput) :=
  self <| model_cache_identity_v2_digest_b3 := digest |>.

Definition with_tokenizer_identity hash version normalization (self : ReceiptDigestInput) :=
  self <| tokenizer_hash_b3 := hash |> <| tokenizer_version := version |>
    <| tokenizer_normalization := normalization |>.

Definition with_build_provenance model adapter (self : ReceiptDigestInput) :=
  self <| model_build_hash_b3 := model |> <| adapter_build_hash_b3 := adapter |>.

Definition with_decoder_config algo temperature top_p k seed backend (self : ReceiptDigestInput) :=
  self <| decode_algo := algo |> <| temperature_q15 := temperature |> <| top_p_q15 := top_p |>
    <| top_k := k |> <| seed_digest_b3 := seed |> <| sampling_backend := backend |>.

Definition with_concurrency_determinism threads strategy (self : ReceiptDigestInput) :=
  self <| thread_count := threads |> <| reduction_strategy := strategy |>.

Definition with_stop_controller_inputs eos window (self : ReceiptDigestInput) :=
  self <| stop_eos_q15 := eos |> <| stop_window_digest_b3 := window |>.

Definition with_cache_proof scope digest len key (self : ReceiptDigestInput) :=
  self <| cache_scope := scope |> <| cached_prefix_digest_b3 := digest |>
    <| cached_prefix_len := len |> <| cache_key_b3 := key |>.

Definition with_retrieval_tool_binding root order inputs outputs (self : ReceiptDigestInput) :=
  self <| retrieval_merkle_root_b3 := root |> <| retrieval_order_digest_b3 := order |>
    <| tool_call_inputs_digest_b3 := inputs |> <| tool_call_outputs_digest_b3 := outputs |>.

Definition with_disclosure_level level (self : ReceiptDigestInput) :=
  self <| disclosure_level := level |>.

Definition with_adapter_version_bindings_digest digest (self : ReceiptDigestInput) :=
  self <| adapter_version_bindings_digest_b3 := digest |>.

Definition with_equipment_profile digest processor mlx ane (self : ReceiptDigestInput) :=
  self <| equipment_profile_digest_b3 := digest |> <| processor_id := processor |>
    <| mlx_version := mlx |> <| ane_version := ane |>.

Definition with_citations root count (self : ReceiptDigestInput) :=
  self <| citations_merkle_root_b3 := root |> <| citation_count := count |>.

Definition with_backend used attestation (self : ReceiptDigestInput) :=
  self <| backend_used := used |> <| backend_attestation_b3 := attestation |>.

Definition with_seed_lineage root mode binding (self : ReceiptDigestInput) :=
  self <| root_seed_digest := root |> <| seed_mode := mode |> <| has_manifest_binding := binding |>.

Definition with_cross_run_lineage previous sequence (self : ReceiptDigestInput) :=
  self <| previous_receipt_digest := previous |> <| session_sequence := sequence |>.

(** ** Errors *)

Inductive ReceiptDigestError : Type :=
| MissingBackendId
| EmptyBackendId.

Definition receipt_error_text (e : ReceiptDigestError) : string :=
  match e with
  | MissingBackendId => "Backend ID is required for V5+ receipts"
  | EmptyBackendId => "Backend ID cannot be empty for V5+ receipts"
  end.

Definition validate_backend_id_for_v5 (backend_id : option string) : result unit ReceiptDigestError :=
  match backend_id with
  | None => Err MissingBackendId
  | Some EmptyString => Err EmptyBackendId
  | Some _ => Ok tt
  end.

(** ** The slices *)

(** [as_deref().unwrap_or("").as_bytes()], after its length. *)
Definition string_slices (o : option string) : list (list byte) :=
  let bytes := as_bytes_of (default EmptyString o) in [len_le bytes; bytes].

(** [map(|b| b.to_vec()).unwrap_or_else(|| vec![0u8; 32])]. *)
Definition digest_or_zero (o : option B3Hash) : list byte :=
  match o with Some b => as_bytes b | None => replicate 32 x00 end.

(** [unwrap_or(0xFFFFFFFF).to_le_bytes()], [unwrap_or(i16::MIN).to_le_bytes()]. *)
Definition u32_or_max (o : option Z) : list byte := le_bytes 4 (default u32_max o).
Definition i16_or_min (o : option Z) : list byte := le_bytes 2 (default (-32768) o).

Definition flag (b : bool) : list byte := [if b then x01 else x00].

Definition core_slices (i : ReceiptDigestInput) : list (list byte) :=
  [as_bytes (context_digest i); as_bytes (run_head_hash i); as_bytes (output_digest i);
   le_bytes 4 (logical_prompt_tokens i); le_bytes 4 (prefix_cached_token_count i);
   le_bytes 4 (billed_input_tokens i); le_bytes 4 (logical_output_tokens i);
   le_bytes 4 (billed_output_tokens i)].

(** The attestation is [unwrap_or_default()], the empty vector, when absent. *)
Definition backend_slices (i : ReceiptDigestInput) : list (list byte) :=
  let attestation := match backend_attestation_b3 i with Some b => as_bytes b | None => [] end in
  string_slices (backend_used i) ++ [len_le attestation; attestation].

Definition seed_slices (i : ReceiptDigestInput) : list (list byte) :=
  let mode := as_bytes_of (default "unknown" (seed_mode i)) in
  [digest_or_zero (root_seed_digest i); len_le mode; mode;
   flag (default false (has_manifest_binding i))].

Definition stop_slices (i : ReceiptDigestInput) : list (list byte) :=
  string_slices (stop_reason_code i)
  ++ [u32_or_max (stop_reason_token_index i); digest_or_zero (stop_policy_digest_b3 i)].

Definition kv_slices (i : ReceiptDigestInput) : list (list byte) :=
  let policy := kv_residency_policy_id i in
  [le_bytes 8 (tenant_kv_quota_bytes i); le_bytes 8 (tenant_kv_bytes_used i);
   le_bytes 4 (kv_evictions i);
   le_bytes 4 (match policy with
               | Some s => Z.of_nat (length (as_bytes_of s)) mod u32_mod | None => 0 end);
   match policy with Some s => as_bytes_of s | None => [] end;
   flag (kv_quota_enforced i)].

Definition prefix_slices (i : ReceiptDigestInput) : list (list byte) :=
  [digest_or_zero (prefix_kv_key_b3 i); flag (prefix_cache_hit i); le_bytes 8 (prefix_kv_bytes i);
   digest_or_zero (model_cache_identity_v2_digest_b3 i)].

Definition equipment_slices (i : ReceiptDigestInput) : list (list byte) :=
  [digest_or_zero (equipment_profile_digest_b3 i)] ++ string_slices (processor_id i)
  ++ string_slices (mlx_version i) ++ string_slices (ane_version i)
  ++ [digest_or_zero (citations_merkle_root_b3 i); le_bytes 4 (citation_count i)].

Definition lineage_slices (i : ReceiptDigestInput) : list (list byte) :=
  [digest_or_zero (previous_receipt_digest i); le_bytes 8 (session_sequence i)].

Definition tokenizer_slices (i : ReceiptDigestInput) : list (list byte) :=
  [digest_or_zero (tokenizer_hash_b3 i)] ++ string_slices (tokenizer_version i)
  ++ string_slices (tokenizer_normalization i).

Definition build_slices (i : ReceiptDigestInput) : list (list byte) :=
  [digest_or_zero (model_build_hash_b3 i); digest_or_zero (adapter_build_hash_b3 i)].

Definition decoder_slices (i : ReceiptDigestInput) : list (list byte) :=
  string_slices (decode_algo i)
  ++ [i16_or_min (temperature_q15 i); i16_or_min (top_p_q15 i); u32_or_max (top_k i);
      digest_or_zero (seed_digest_b3 i)]
  ++ string_slices (sampling_backend i).

Definition concurrency_slices (i : ReceiptDigestInput) : list (list byte) :=
  [u32_or_max (thread_count i)] ++ string_slices (reduction_strategy i).

Definition stop_input_slices (i : ReceiptDigestInput) : list (list byte) :=
  [i16_or_min (stop_eos_q15 i); digest_or_zero (stop_window_digest_b3 i)].

Definition cache_slices (i : ReceiptDigestInput) : list (list byte) :=
  string_slices (cache_scope i)
  ++ [digest_or_zero (cached_prefix_digest_b3 i); u32_or_max (cached_prefix_len i);
      digest_or_zero (cache_key_b3 i)].

Definition retrieval_slices (i : ReceiptDigestInput) : list (list byte) :=
  [digest_or_zero (retrieval_merkle_root_b3 i); digest_or_zero (retrieval_order_digest_b3 i);
   digest_or_zero (tool_call_inputs_digest_b3 i); digest_or_zero (tool_call_outputs_digest_b3 i)].

Definition disclosure_slices (i : ReceiptDigestInput) : list (list byte) :=
  string_slices (disclosure_level i).

(** ** The versions *)

Definition v1_slices (i : ReceiptDigestInput) : list (list byte) := core_slices i.

Definition v2_slices (i : ReceiptDigestInput) : list (list byte) :=
  core_slices i ++ [le_bytes 1 RECEIPT_SCHEMA_V2] ++ backend_slices i.

Definition v3_slices (i : ReceiptDigestInput) : list (list byte) :=
  core_slices i ++ [le_bytes 1 RECEIPT_SCHEMA_V3] ++ backend_slices i ++ seed_slices i.

Definition v4_slices (i : ReceiptDigestInput) : list (list byte) :=
  core_slices i ++ stop_slices i ++ kv_slices i ++ prefix_slices i.

Definition v5_slices (i : ReceiptDigestInput) : list (list byte) :=
  [le_bytes 1 RECEIPT_SCHEMA_V5] ++ core_slices i ++ backend_slices i ++ stop_slices i
  ++ kv_slices i ++ prefix_slices i ++ equipment_slices i.

Definition v6_slices (i : ReceiptDigestInput) : list (list byte) :=
  [le_bytes 1 RECEIPT_SCHEMA_V6] ++ core_slices i ++ backend_slices i ++ stop_slices i
  ++ kv_slices i ++ prefix_slices i ++ equipment_slices i ++ lineage_slices i.

Definition v7_slices (i : ReceiptDigestInput) : list (list byte) :=
  [le_bytes 1 RECEIPT_SCHEMA_V7] ++ core_slices i ++ backend_slices i ++ stop_slices i
  ++ kv_slices i ++ prefix_slices i ++ equipment_slices i ++ lineage_slices i
  ++ tokenizer_slices i ++ build_slices i ++ decoder_slices i ++ concurrency_slices i
  ++ stop_input_slices i ++ cache_slices i ++ retrieval_slices i ++ disclosure_slices i.

Section Digests.
Context `{Blake3}.

Definition compute_v1_digest (i : ReceiptDigestInput) : B3Hash := hash_multi (v1_slices i).
Definition compute_v2_digest (i : ReceiptDigestInput) : B3Hash := hash_multi (v2_slices i).
Definition compute_v3_digest (i : ReceiptDigestInput) : B3Hash := hash_multi (v3_slices i).
Definition compute_v4_digest (i : ReceiptDigestInput) : B3Hash := hash_multi (v4_slices i).
Definition compute_v5_digest (i : ReceiptDigestInput) : B3Hash := hash_multi (v5_slices i).
Definition compute_v6_digest (i : ReceiptDigestInput) : B3Hash := hash_multi (v6_slices i).
Definition compute_v7_digest (i : ReceiptDigestInput) : B3Hash := hash_multi (v7_slices i).

Definition v8_slices (i : ReceiptDigestInput) : list (list byte) :=
  [le_bytes 1 RECEIPT_SCHEMA_V8; as_bytes (compute_v7_digest i);
   digest_or_zero (adapter_version_bindings_digest_b3 i)].

Definition compute_v8_digest (i : ReceiptDigestInput) : B3Hash := hash_multi (v8_slices i).

Definition compute_receipt_digest (i : ReceiptDigestInput) (schema_version : Z) : option B3Hash :=
  if schema_version =? RECEIPT_SCHEMA_V1 then Some (compute_v1_digest i)
  else if schema_version =? RECEIPT_SCHEMA_V2 then Some (compute_v2_digest i)
  else if schema_version =? RECEIPT_SCHEMA_V3 then Some (compute_v3_digest i)
  else if schema_version =? RECEIPT_SCHEMA_V4 then Some (compute_v4_digest i)
  else if schema_version =? RECEIPT_SCHEMA_V5 then Some (compute_v5_digest i)
  else if schema_version =? RECEIPT_SCHEMA_V6 then Some (compute_v6_digest i)
  else if schema_version =? RECEIPT_SCHEMA_V7 then Some (compute_v7_digest i)
  else if schema_version =? RECEIPT_SCHEMA_V8 then Some (compute_v8_digest i)
  else None.

Definition compute_v5_digest_checked (i : ReceiptDigestInput) (backend_id : string)
    : result B3Hash ReceiptDigestError :=
  match backend_id with
  | EmptyString => Err EmptyBackendId
  | _ => Ok (compute_v5_digest (i <| backend_used := Some backend_id |>))
  end.

(** ** Output tokens and decisions *)

Definition output_bytes (output_tokens : list Z) : list byte :=
  le_bytes 4 (Z.of_nat (length output_tokens) mod u32_mod) ++ concat (map (le_bytes 4) output_tokens).

Definition compute_output_digest (output_tokens : list Z) : B3Hash :=
  Hashing.hash (output_bytes output_tokens).

(** The arguments of [hash_token_decision]. *)
Record TokenDecision : Type := mkDecision {
  td_context_digest : B3Hash;
  td_token_index : Z;
  adapter_ids_blob : list byte;
  gates_blob : list byte;
  policy_mask_digest : option B3Hash;
  allowed_mask_blob : option (list byte);
  policy_overrides_json : option string;
  backend_id : option string;
  kernel_version_id : option string;
}.

Definition decision_slices (d : TokenDecision) : list (list byte) :=
  let policy := match policy_mask_digest d with Some m => as_bytes m | None => [] end in
  let allowed := default [] (allowed_mask_blob d) in
  [as_bytes (td_context_digest d); le_bytes 4 (td_token_index d);
   len_le (adapter_ids_blob d); adapter_ids_blob d; len_le (gates_blob d); gates_blob d;
   len_le policy; policy; len_le allowed; allowed]
  ++ string_slices (policy_overrides_json d) ++ string_slices (backend_id d)
  ++ string_slices (kernel_version_id d).

Definition hash_token_decision (d : TokenDecision) : B3Hash := hash_multi (decision_slices d).

Definition head_slices (prev : B3Hash) (token_index : Z) (decision_hash : B3Hash) : list (list byte) :=
  [as_bytes prev; as_bytes decision_hash; le_bytes 4 token_index].

Definition update_run_head (prev : B3Hash) (token_index : Z) (decision_hash : B3Hash) : B3Hash :=
  hash_multi (head_slices prev token_index decision_hash).

(** ** Blobs *)

Definition encode_adapter_ids (ids : list string) : list byte :=
  le_bytes 4 (Z.of_nat (length ids) mod u32_mod)
  ++ concat (map (fun id => len_le (as_bytes_of id) ++ as_bytes_of id) ids).

Definition encode_gates_q15 (gates : list Z) : list byte :=
  le_bytes 4 (Z.of_nat (length gates) mod u32_mod) ++ concat (map (le_bytes 2) gates).

Definition encode_allowed_mask (mask : list bool) : list byte :=
  le_bytes 4 (Z.of_nat (length mask) mod u32_mod) ++ map (fun b : bool => if b then x01 else x00) mask.

(** [u32::from_le_bytes]. *)
Definition from_le_bytes (bs : list byte) : Z :=
  foldr (fun b acc => Z_of_byte b + 256 * acc) 0 bs.

(** The loop of [decode_allowed_mask] from [cursor] on. *)
Fixpoint mask_loop (count : nat) (rest : list byte) : result (list bool) string :=
  match count, rest with
  | O, _ => Ok []
  | S _, [] => Err "allowed_mask blob truncated"
  | S count, b :: rest =>
      mask <-? mask_loop count rest ;; Ok (bool_decide (b = x01) :: mask)
  end.

Definition decode_allowed_mask (bytes : list byte) : result (list bool) string :=
  if (length bytes <? 4)%nat then Err "allowed_mask blob missing length"
  else mask_loop (Z.to_nat (from_le_bytes (take 4 bytes))) (drop 4 bytes).
End Digests.

(** ** What a version binds *)

(** The integers are in the range of their types and the strings shorter than 4 GiB, so
    that [len() as u32] is their length. *)
Definition is_i16 (z : Z) : Prop := -32768 <= z < 32768.
Definition short (o : option string) : Prop :=
  Z.of_nat (length (as_bytes_of (default EmptyString o))) < u32_mod.

Record in_range (i : ReceiptDigestInput) : Prop := {
  u32_fields : Forall is_u32
    [logical_prompt_tokens i; prefix_cached_token_count i; billed_input_tokens i;
     logical_output_tokens i; billed_output_tokens i; kv_evictions i; citation_count i;
     default u32_max (stop_reason_token_index i); default u32_max (top_k i);
     default u32_max (thread_count i); default u32_max (cached_prefix_len i)];
  u64_fields : Forall is_u64
    [tenant_kv_quota_bytes i; tenant_kv_bytes_used i; prefix_kv_bytes i; session_sequence i];
  i16_fields : Forall is_i16
    [default (-32768) (temperature_q15 i); default (-32768) (top_p_q15 i);
     default (-32768) (stop_eos_q15 i)];
  string_options : Forall short
    [backend_used i; seed_mode i; stop_reason_code i; kv_residency_policy_id i; processor_id i;
     mlx_version i; ane_version i; tokenizer_version i; tokenizer_normalization i; decode_algo i;
     sampling_backend i; reduction_strategy i; cache_scope i; disclosure_level i];
}.

(** Absent strings are hashed as the empty string, absent digests as zeros, absent
    integers as the greatest or smallest value. *)
Definition filled (o : option string) : option string := Some (default EmptyString o).
Definition zeroed (o : option B3Hash) : option B3Hash := Some (default zero o).
Definition maxed (o : option Z) : option Z := Some (default u32_max o).
Definition mined (o : option Z) : option Z := Some (default (-32768) o).

Definition bind_core (i : ReceiptDigestInput) : ReceiptDigestInput :=
  new (context_digest i) (run_head_hash i) (output_digest i) (logical_prompt_tokens i)
    (prefix_cached_token_count i) (billed_input_tokens i) (logical_output_tokens i)
    (billed_output_tokens i).

Definition bind_backend (i c : ReceiptDigestInput) : ReceiptDigestInput :=
  with_backend (filled (backend_used i)) (backend_attestation_b3 i) c.

Definition bind_seed (i c : ReceiptDigestInput) : ReceiptDigestInput :=
  with_seed_lineage (zeroed (root_seed_digest i)) (Some (default "unknown" (seed_mode i)))
    (Some (default false (has_manifest_binding i))) c.

Definition bind_v4 (i c : ReceiptDigestInput) : ReceiptDigestInput :=
  with_model_cache_identity (zeroed (model_cache_identity_v2_digest_b3 i))
  (with_prefix_cache (zeroed (prefix_kv_key_b3 i)) (prefix_cache_hit i) (prefix_kv_bytes i)
  (with_kv_quota (tenant_kv_quota_bytes i) (tenant_kv_bytes_used i) (kv_evictions i)
    (filled (kv_residency_policy_id i)) (kv_quota_enforced i)
  (with_stop_controller (filled (stop_reason_code i)) (maxed (stop_reason_token_index i))
    (zeroed (stop_policy_digest_b3 i)) c))).

Definition bind_v5 (i c : ReceiptDigestInput) : ReceiptDigestInput :=
  with_citations (zeroed (citations_merkle_root_b3 i)) (citation_count i)
  (with_equipment_profile (zeroed (equipment_profile_digest_b3 i)) (filled (processor_id i))
    (filled (mlx_version i)) (filled (ane_version i)) c).

Definition bind_v6 (i c : ReceiptDigestInput) : ReceiptDigestInput :=
  with_cross_run_lineage (zeroed (previous_receipt_digest i)) (session_sequence i) c.

Definition bind_v7 (i c : ReceiptDigestInput) : ReceiptDigestInput :=
  with_disclosure_level (filled (disclosure_level i))
  (with_retrieval_tool_binding (zeroed (retrieval_merkle_root_b3 i))
    (zeroed (retrieval_order_digest_b3 i)) (zeroed (tool_call_inputs_digest_b3 i))
    (zeroed (tool_call_outputs_digest_b3 i))
  (with_cache_proof (filled (cache_scope i)) (zeroed (cached_prefix_digest_b3 i))
    (maxed (cached_prefix_len i)) (zeroed (cache_key_b3 i))
  (with_stop_controller_inputs (mined (stop_eos_q15 i)) (zeroed (stop_window_digest_b3 i))
  (with_concurrency_determinism (maxed (thread_count i)) (filled (reduction_strategy i))
  (with_decoder_config (filled (decode_algo i)) (mined (temperature_q15 i)) (mined (top_p_q15 i))
    (maxed (top_k i)) (zeroed (seed_digest_b3 i)) (filled (sampling_backend i))
  (with_build_provenance (zeroed (model_build_hash_b3 i)) (zeroed (adapter_build_hash_b3 i))
  (with_tokenizer_identity (zeroed (tokenizer_hash_b3 i)) (filled (tokenizer_version i))
    (filled (tokenizer_normalization i)) c))))))).

Definition bind_v8 (i c : ReceiptDigestInput) : ReceiptDigestInput :=
  with_adapter_version_bindings_digest (zeroed (adapter_version_bindings_digest_b3 i)) c.

Definition canonical (v : Z) (i : ReceiptDigestInput) : ReceiptDigestInput :=
  let v5 := bind_v5 i (bind_v4 i (bind_backend i (bind_core i))) in
  if v =? 1 then bind_core i
  else if v =? 2 then bind_backend i (bind_core i)
  else if v =? 3 then bind_seed i (bind_backend i (bind_core i))
  else if v =? 4 then bind_v4 i (bind_core i)
  else if v =? 5 then v5
  else if v =? 6 then bind_v6 i v5
  else if v =? 7 then bind_v7 i (bind_v6 i v5)
  else bind_v8 i (bind_v7 i (bind_v6 i v5)).

(** ** The fields in a text *)

Section Fields.
Context {A C : Type} (ok : A -> Prop) (g : A -> list (list byte)) (w : A -> C).

Lemma delimits_u32 p :
  (forall a, ok a -> is_u32 (p a)) -> delimits ok g w ->
  delimits ok (fun a => le_bytes 4 (p a) :: g a) (fun a => (p a, w a)).
Proof. intros Hp Hg. by apply delimits_unsigned. Qed.

Lemma delimits_u64 p :
  (forall a, ok a -> is_u64 (p a)) -> delimits ok g w ->
  delimits ok (fun a => le_bytes 8 (p a) :: g a) (fun a => (p a, w a)).
Proof. intros Hp Hg. by apply delimits_unsigned. Qed.

Lemma delimits_u32_or_max p :
  (forall a, ok a -> is_u32 (default u32_max (p a))) -> delimits ok g w ->
  delimits ok (fun a => u32_or_max (p a) :: g a) (fun a => (default u32_max (p a), w a)).
Proof. intros Hp Hg. by apply (delimits_u32 (fun a => default u32_max (p a))). Qed.

Lemma delimits_i16_or_min p :
  (forall a, ok a -> is_i16 (default (-32768) (p a))) -> delimits ok g w ->
  delimits ok (fun a => i16_or_min (p a) :: g a) (fun a => (default (-32768) (p a), w a)).
Proof.
  intros Hp Hg. apply (delimits_signed ok 2 (fun a => default (-32768) (p a))); [|done].
  intros a Ha. specialize (Hp a Ha). unfold is_i16 in Hp. simpl Z.of_nat. lia.
Qed.

Lemma delimits_digest_or_zero p :
  delimits ok g w ->
  delimits ok (fun a => digest_or_zero (p a) :: g a) (fun a => (default zero (p a), w a)).
Proof.
  intros Hg a b r r' Ha Hb E.
  apply (delimits_digest ok (fun a => default zero (p a)) g w Hg a b r r' Ha Hb).
  destruct (p a), (p b); exact E.
Qed.

Lemma delimits_str p :
  (forall a, ok a -> short (p a)) -> delimits ok g w ->
  delimits ok (fun a => len_le (as_bytes_of (default EmptyString (p a)))
                 :: as_bytes_of (default EmptyString (p a)) :: g a)
    (fun a => (default EmptyString (p a), w a)).
Proof. intros Hp Hg. by apply (delimits_string ok (fun a => default EmptyString (p a))). Qed.

(** The seed mode has its own word for absence. *)
Lemma delimits_mode p :
  (forall a, ok a -> short (p a)) -> delimits ok g w ->
  delimits ok (fun a => len_le (as_bytes_of (default "unknown" (p a)))
                 :: as_bytes_of (default "unknown" (p a)) :: g a)
    (fun a => (default "unknown" (p a), w a)).
Proof.
  intros Hp Hg. apply (delimits_string ok (fun a => default "unknown" (p a))); [|done].
  intros a Ha. specialize (Hp a Ha). unfold short in Hp. by destruct (p a).
Qed.

Lemma delimits_attestation (p : A -> option B3Hash) :
  delimits ok g w ->
  delimits ok (fun a => len_le (match p a with Some b => as_bytes b | None => [] end)
                 :: match p a with Some b => as_bytes b | None => [] end :: g a)
    (fun a => (p a, w a)).
Proof.
  intros Hg. eapply delimits_view; [|apply (delimits_prefixed ok
    (fun a => match p a with Some b => as_bytes b | None => [] end) g w); [|done]].
  - intros a b _ _ [= E ->]. f_equal.
    destruct (p a) as [h|], (p b) as [h'|]; try done.
    + f_equal. by apply as_bytes_inj.
    + apply (f_equal length) in E. by rewrite as_bytes_length in E.
    + apply (f_equal length) in E. by rewrite as_bytes_length in E.
  - intros a _. destruct (p a); [by rewrite as_bytes_length|done].
Qed.

Lemma delimits_policy (p : A -> option string) :
  (forall a, ok a -> short (p a)) -> delimits ok g w ->
  delimits ok (fun a => le_bytes 4 (match p a with
                                    | Some s => Z.of_nat (length (as_bytes_of s)) mod u32_mod
                                    | None => 0 end)
                 :: match p a with Some s => as_bytes_of s | None => [] end :: g a)
    (fun a => (default EmptyString (p a), w a)).
Proof.
  intros Hp Hg a b r r' Ha Hb E. apply (delimits_str p Hp Hg a b r r' Ha Hb).
  destruct (p a), (p b); exact E.
Qed.
End Fields.

(** Range side conditions of a field of the input. *)
Ltac field_range :=
  let Hr := fresh in
  intros ? Hr; destruct Hr;
  eapply (proj1 (List.Forall_forall _ _)); [eassumption|simpl; tauto].

(** Read a text field by field. *)
Ltac delimit_field :=
  lazymatch goal with
  | |- delimits _ (fun a => []) _ => apply delimits_nil
  | |- delimits _ (fun a => len_le (as_bytes_of (default "unknown" (@?p a))) :: _ :: @?g a) _ =>
      eapply (delimits_mode _ g _ p); [field_range|]
  | |- delimits _ (fun a => len_le (as_bytes_of (default EmptyString (@?p a))) :: _ :: @?g a) _ =>
      eapply (delimits_str _ g _ p); [field_range|]
  | |- delimits _ (fun a => len_le (match @?p a with Some _ => _ | None => _ end) :: _ :: @?g a) _ =>
      eapply (delimits_attestation _ g _ p)
  | |- delimits _ (fun a => le_bytes 4 (match @?p a with Some _ => _ | None => _ end) :: _ :: @?g a) _ =>
      eapply (delimits_policy _ g _ p); [field_range|]
  | |- delimits _ (fun a => as_bytes (@?p a) :: @?g a) _ => eapply (delimits_digest _ p g)
  | |- delimits _ (fun a => digest_or_zero (@?p a) :: @?g a) _ =>
      eapply (delimits_digest_or_zero _ g _ p)
  | |- delimits _ (fun a => [if @?p a then _ else _] :: @?g a) _ => eapply (delimits_flag _ p g)
  | |- delimits _ (fun a => u32_or_max (@?p a) :: @?g a) _ =>
      eapply (delimits_u32_or_max _ g _ p); [field_range|]
  | |- delimits _ (fun a => i16_or_min (@?p a) :: @?g a) _ =>
      eapply (delimits_i16_or_min _ g _ p); [field_range|]
  | |- delimits _ (fun a => le_bytes 1 _ :: @?g a) _ => eapply (delimits_fixed _ 1 _ g); [done|]
  | |- delimits _ (fun a => le_bytes 4 (@?p a) :: @?g a) _ =>
      eapply (delimits_u32 _ g _ p); [field_range|]
  | |- delimits _ (fun a => le_bytes 8 (@?p a) :: @?g a) _ =>
      eapply (delimits_u64 _ g _ p); [field_range|]
  end.

Ltac delimit := repeat delimit_field.

Ltac flatten_slices :=
  unfold v1_slices, v2_slices, v3_slices, v4_slices, v5_slices, v6_slices, v7_slices,
    core_slices, backend_slices, seed_slices, stop_slices, kv_slices, prefix_slices,
    equipment_slices, lineage_slices, tokenizer_slices, build_slices, decoder_slices,
    concurrency_slices, stop_input_slices, cache_slices, retrieval_slices, disclosure_slices,
    string_slices, flag; cbv zeta; cbn [app].

Ltac text_determines :=
  eapply delimits_view; [|flatten_slices; delimit];
  let E := fresh in intros ? ? _ _ E; injection E; clear E; intros;
  unfold canonical, bind_core, bind_backend, bind_seed, bind_v4, bind_v5, bind_v6, bind_v7,
    filled, zeroed, maxed, mined;
  repeat match goal with E : ?x = _ |- _ => rewrite E; clear E end; reflexivity.

Lemma v1_text : delimits in_range v1_slices (canonical 1).
Proof. text_determines. Qed.
Lemma v2_text : delimits in_range v2_slices (canonical 2).
Proof. text_determines. Qed.
Lemma v3_text : delimits in_range v3_slices (canonical 3).
Proof. text_determines. Qed.
Lemma v4_text : delimits in_range v4_slices (canonical 4).
Proof. text_determines. Qed.

Lemma v5_text : delimits in_range v5_slices (canonical 5).
Proof. text_determines. Qed.
Lemma v6_text : delimits in_range v6_slices (canonical 6).
Proof. text_determines. Qed.
Lemma v7_text : delimits in_range v7_slices (canonical 7).
Proof. text_determines. Qed.

(** The slices do not tell an absent option from its sentinel. *)
Lemma digest_or_zero_zeroed o : digest_or_zero (zeroed o) = digest_or_zero o.
Proof. by destruct o. Qed.

Ltac slices_agree :=
  flatten_slices;
  repeat (apply (f_equal2 cons); [first [reflexivity|apply digest_or_zero_zeroed|idtac]|]);
  try reflexivity.

Ltac same_slices := intros i; slices_agree; simpl; by destruct (kv_residency_policy_id i).

Lemma v1_canonical i : v1_slices (canonical 1 i) = v1_slices i.
Proof. reflexivity. Qed.
Lemma v2_canonical i : v2_slices (canonical 2 i) = v2_slices i.
Proof. reflexivity. Qed.
Lemma v3_canonical i : v3_slices (canonical 3 i) = v3_slices i.
Proof. slices_agree. Qed.
Lemma v4_canonical i : v4_slices (canonical 4 i) = v4_slices i.
Proof. revert i. same_slices. Qed.
Lemma v5_canonical i : v5_slices (canonical 5 i) = v5_slices i.
Proof. revert i. same_slices. Qed.
Lemma v6_canonical i : v6_slices (canonical 6 i) = v6_slices i.
Proof. revert i. same_slices. Qed.
Lemma v7_canonical i : v7_slices (canonical 7 i) = v7_slices i.
Proof. revert i. same_slices. Qed.
Lemma v7_canonical_8 i : v7_slices (canonical 8 i) = v7_slices i.
Proof. revert i. same_slices. Qed.

Section Receipts.
Context `{Blake3}.

(** The slices of a version, and the texts that are hashed for a digest of it. *)
Definition version_slices (v : Z) (i : ReceiptDigestInput) : list (list byte) :=
  if v =? 1 then v1_slices i else if v =? 2 then v2_slices i else if v =? 3 then v3_slices i
  else if v =? 4 then v4_slices i else if v =? 5 then v5_slices i else if v =? 6 then v6_slices i
  else if v =? 7 then v7_slices i else v8_slices i.

Definition texts (v : Z) (i : ReceiptDigestInput) : list (list byte) :=
  if v =? 8 then [concat (v7_slices i); concat (v8_slices i)] else [concat (version_slices v i)].

Definition supported (v : Z) : Prop := 1 <= v <= 8.

#[export] Instance supported_dec v : Decision (supported v).
Proof. unfold supported. apply _. Defined.

Lemma supported_cases v :
  supported v -> v = 1 \/ v = 2 \/ v = 3 \/ v = 4 \/ v = 5 \/ v = 6 \/ v = 7 \/ v = 8.
Proof. unfold supported. lia. Qed.

Lemma digest_of_slices v i :
  supported v -> compute_receipt_digest i v = Some (Hashing.hash (concat (version_slices v i))).
Proof. intros Hv. destruct (supported_cases v Hv) as [->|[->|[->|[->|[->|[->|[->| ->]]]]]]]; reflexivity. Qed.

Lemma unsupported_digest v i : ~ supported v -> compute_receipt_digest i v = None.
Proof.
  intros Hv. unfold supported in Hv. unfold compute_receipt_digest,
    RECEIPT_SCHEMA_V1, RECEIPT_SCHEMA_V2, RECEIPT_SCHEMA_V3, RECEIPT_SCHEMA_V4, RECEIPT_SCHEMA_V5,
    RECEIPT_SCHEMA_V6, RECEIPT_SCHEMA_V7, RECEIPT_SCHEMA_V8.
  repeat match goal with |- context [?x =? ?y] => destruct (Z.eqb_spec x y); [lia|] end. done.
Qed.

Lemma text_in v i : supported v -> concat (version_slices v i) ∈ texts v i.
Proof.
  intros Hv. destruct (supported_cases v Hv) as [->|[->|[->|[->|[->|[->|[->| ->]]]]]]];
    try (by left). right. by left.
Qed.

(** Equal digests come from equal texts. *)
Lemma digest_text v w i j :
  supported v -> supported w -> collision_free (texts v i ++ texts w j) ->
  compute_receipt_digest i v = compute_receipt_digest j w ->
  concat (version_slices v i) = concat (version_slices w j).
Proof.
  intros Hv Hw Hc E. rewrite !digest_of_slices in E by done. apply (inj Some) in E.
  apply (collision_free_inj _ _ _ Hc) in E; [done|apply elem_of_app; auto using text_in..].
Qed.

Lemma inner_text_in i : concat (v7_slices i) ∈ texts 8 i.
Proof. by left. Qed.

Lemma v8_text i j :
  in_range i -> in_range j -> collision_free (texts 8 i ++ texts 8 j) ->
  concat (v8_slices i) = concat (v8_slices j) -> canonical 8 i = canonical 8 j.
Proof.
  intros Hi Hj Hc E. unfold v8_slices in E. cbn [concat] in E.
  apply app_inj_1 in E as [_ E]; [|done].
  apply app_inj_1 in E as [E7 E8]; [|by rewrite !as_bytes_length]. apply as_bytes_inj in E7.
  unfold compute_v7_digest, hash_multi in E7.
  apply (collision_free_inj _ _ _ Hc) in E7; [|apply elem_of_app; auto using inner_text_in..].
  apply (delimits_text in_range v7_slices (canonical 7) i j v7_text Hi Hj) in E7.
  assert (E8' : default zero (adapter_version_bindings_digest_b3 i)
    = default zero (adapter_version_bindings_digest_b3 j)).
  { rewrite !app_nil_r in E8. apply as_bytes_inj.
    destruct (adapter_version_bindings_digest_b3 i), (adapter_version_bindings_digest_b3 j); exact E8. }
  change (bind_v8 i (canonical 7 i) = bind_v8 j (canonical 7 j)).
  unfold bind_v8, zeroed. by rewrite E7, E8'.
Qed.

Lemma version_text v i j :
  supported v -> in_range i -> in_range j -> collision_free (texts v i ++ texts v j) ->
  concat (version_slices v i) = concat (version_slices v j) -> canonical v i = canonical v j.
Proof.
  intros Hv Hi Hj Hc.
  destruct (supported_cases v Hv) as [->|[->|[->|[->|[->|[->|[->| ->]]]]]]];
    eauto using delimits_text, v1_text, v2_text, v3_text, v4_text, v5_text, v6_text, v7_text.
  by apply v8_text.
Qed.

Lemma canonical_slices v i :
  supported v -> concat (version_slices v (canonical v i)) = concat (version_slices v i).
Proof.
  intros Hv. f_equal.
  destruct (supported_cases v Hv) as [->|[->|[->|[->|[->|[->|[->| ->]]]]]]];
    [apply v1_canonical|apply v2_canonical|apply v3_canonical|apply v4_canonical
    |apply v5_canonical|apply v6_canonical|apply v7_canonical|].
  change (v8_slices (canonical 8 i) = v8_slices i).
  unfold v8_slices, compute_v7_digest. rewrite v7_canonical_8.
  apply (f_equal (fun x => [_; _; x])), (digest_or_zero_zeroed (adapter_version_bindings_digest_b3 i)).
Qed.

Lemma receipt_digest_agree v i j :
  supported v -> in_range i -> in_range j -> collision_free (texts v i ++ texts v j) ->
  (compute_receipt_digest i v = compute_receipt_digest j v <-> canonical v i = canonical v j).
Proof.
  intros Hv Hi Hj Hc. split.
  - intros E. apply version_text; auto using digest_text.
  - intros E. rewrite !digest_of_slices by done. do 2 f_equal. by rewrite <- (canonical_slices v i), E, canonical_slices.
Qed.

(** [C2] Exactly what a receipt of version [v] is a digest of: two inputs have one digest when
    and only when they agree in the fields of the version, absent options counting as
    their sentinels. *)
Theorem receipt_digest_exact v i j :
  supported v -> in_range i -> in_range j -> collision_free (texts v i ++ texts v j) ->
  (compute_receipt_digest i v = compute_receipt_digest j v <-> canonical v i = canonical v j).
Proof. apply receipt_digest_agree. Qed.

(** The core of an input is in every version. *)
Lemma canonical_core v i : bind_core (canonical v i) = bind_core i.
Proof. unfold canonical. cbv zeta. repeat case_match; reflexivity. Qed.

Lemma receipt_core_agree v i j :
  supported v -> in_range i -> in_range j -> collision_free (texts v i ++ texts v j) ->
  compute_receipt_digest i v = compute_receipt_digest j v -> bind_core i = bind_core j.
Proof.
  intros Hv Hi Hj Hc E%receipt_digest_agree; [|done..].
  apply (f_equal bind_core) in E. by rewrite !canonical_core in E.
Qed.

(** Billing is tamper-evident in every version: two receipts of one digest state the same
    five token counts, and the same context, decision chain and output. *)
Theorem billing_bound v i j :
  supported v -> in_range i -> in_range j -> collision_free (texts v i ++ texts v j) ->
  compute_receipt_digest i v = compute_receipt_digest j v ->
  logical_prompt_tokens i = logical_prompt_tokens j
  /\ prefix_cached_token_count i = prefix_cached_token_count j
  /\ billed_input_tokens i = billed_input_tokens j
  /\ logical_output_tokens i = logical_output_tokens j
  /\ billed_output_tokens i = billed_output_tokens j
  /\ context_digest i = context_digest j /\ run_head_hash i = run_head_hash j
  /\ output_digest i = output_digest j.
Proof.
  intros Hv Hi Hj Hc E%receipt_core_agree; [|done..].
  unfold bind_core, new in E. injection E. intros. by split_and!.
Qed.

(** ** Versions and each other *)

Definition version_byte_first (v : Z) : Prop := 5 <= v <= 8.

Lemma first_byte v i :
  version_byte_first v -> take 1 (concat (version_slices v i)) = [byte_of_Z v].
Proof.
  unfold version_byte_first. intros Hv.
  assert (v = 5 \/ v = 6 \/ v = 7 \/ v = 8) as [->|[->|[->| ->]]] by lia; reflexivity.
Qed.

(** The receipts of versions 5 to 8 are told apart by their first byte. *)
Theorem marked_versions_separate v w i j :
  version_byte_first v -> version_byte_first w -> v <> w ->
  collision_free (texts v i ++ texts w j) ->
  compute_receipt_digest i v <> compute_receipt_digest j w.
Proof.
  intros Hv Hw Hne Hc E.
  assert (supported v /\ supported w) as [Sv Sw] by (unfold supported, version_byte_first in *; lia).
  apply digest_text, (f_equal (take 1)) in E; try done. rewrite !first_byte in E by done. injection E as E.
  apply (f_equal Z_of_byte) in E. rewrite !Z_of_byte_of_Z in E.
  unfold version_byte_first in *. rewrite !Z.mod_small in E; lia.
Qed.
End Receipts.

Section Confusion.
Context `{Blake3}.

(** The core of a receipt as the argument of both readings below. *)
Definition zeros (n : nat) : string := String.string_of_list_byte (replicate n x00).

(** A version 3 receipt whose seed mode is 95 zero characters, and the version 4 receipt
    the same bytes are read as. *)
Definition as_v3 (core : ReceiptDigestInput) : ReceiptDigestInput :=
  with_seed_lineage None (Some (zeros 95)) None (bind_core core).
Definition as_v4 (core : ReceiptDigestInput) : ReceiptDigestInput :=
  with_stop_controller (Some (zeros 3)) (Some 0)
    (Some (vec_of_Z 32 (95 * 2 ^ 240))) (bind_core core).

(** Version 4 has no version byte, and a version 3 receipt can be one: the same digest
    stands for a receipt of version 3 without stop reason and a receipt of version 4 with
    one, whatever the core and whatever the hash function. *)
Theorem v3_receipt_read_as_v4 core :
  compute_receipt_digest (as_v3 core) 3 = compute_receipt_digest (as_v4 core) 4
  /\ stop_reason_code (as_v3 core) = None /\ stop_reason_code (as_v4 core) = Some (zeros 3).
Proof.
  split_and!; [|done..]. rewrite !digest_of_slices by (unfold supported; lia).
  apply (f_equal (fun m => Some (Hashing.hash m))). reflexivity.
Qed.

(** From version 4 on the seed lineage of a receipt is not in its digest, although its
    fields are those of "V3+". *)
Theorem seed_lineage_unbound v i root mode binding :
  4 <= v -> compute_receipt_digest (with_seed_lineage root mode binding i) v
  = compute_receipt_digest i v.
Proof.
  intros Hv. destruct (decide (supported v)) as [Hs|Hs]; [|by rewrite !unsupported_digest].
  rewrite !digest_of_slices by done. do 2 f_equal.
  assert (v = 4 \/ v = 5 \/ v = 6 \/ v = 7 \/ v = 8) as [->|[->|[->|[->| ->]]]]
    by (unfold supported in Hs; lia); by destruct i.
Qed.

Lemma in_range_backend i b :
  in_range i -> short (Some b) -> in_range (i <| backend_used := Some b |>).
Proof.
  intros [H1 H2 H3 H4] Hb. destruct i; constructor; try done.
  simpl in *. apply Forall_cons in H4 as [_ H4]. by apply Forall_cons.
Qed.

Lemma checked_ok i b d :
  compute_v5_digest_checked i b = Ok d ->
  validate_backend_id_for_v5 (Some b) = Ok tt
  /\ compute_receipt_digest (i <| backend_used := Some b |>) 5 = Some d.
Proof. destruct b; [done|]. simpl. intros [= <-]. done. Qed.

(** [compute_v5_digest_checked] refuses an empty backend, and its digests of different
    backends differ. *)
Theorem checked_digest_binds_backend i j b b' d :
  in_range i -> in_range j -> short (Some b) -> short (Some b') ->
  collision_free (texts 5 (i <| backend_used := Some b |>) ++ texts 5 (j <| backend_used := Some b' |>)) ->
  compute_v5_digest_checked i b = Ok d -> compute_v5_digest_checked j b' = Ok d ->
  b = b' /\ validate_backend_id_for_v5 (Some b) = Ok tt.
Proof.
  intros Hi Hj Hb Hb' Hc [Vb Di]%checked_ok [_ Dj]%checked_ok. split; [|done].
  assert (Hs : supported 5) by (unfold supported; lia). rewrite <- Dj in Di.
  apply digest_text, version_text, (f_equal backend_used) in Di; auto using in_range_backend.
  destruct i, j. by injection Di.
Qed.
End Confusion.

(** ** Counted lists *)

Lemma i16_delimits : delimits is_i16 (fun x => [le_bytes 2 x]) id.
Proof.
  eapply delimits_view;
    [|apply (delimits_i16_or_min is_i16 (fun _ => []) (fun _ => tt) Some); [done|apply delimits_nil]].
  by intros a b _ _ [= ->].
Qed.

Lemma id_delimits :
  delimits (fun s => short (Some s)) (fun s => [len_le (as_bytes_of s) ++ as_bytes_of s]) id.
Proof.
  intros a b r r' Ha Hb E.
  destruct (delimits_str (fun s => short (Some s)) (fun _ => []) (fun _ => tt) Some
    (fun _ Ha => Ha) (delimits_nil _) a b r r' Ha Hb) as [Ev Er].
  - cbn [concat] in *. by rewrite !app_nil_r in *; rewrite <- !(assoc_L (++)) in *.
  - by injection Ev.
Qed.

(** The blobs of a decision determine the adapter ids and the gates they were made from. *)
Theorem decision_blobs_exact ids ids' gates gates' :
  Z.of_nat (length ids) < u32_mod -> Z.of_nat (length ids') < u32_mod ->
  Z.of_nat (length gates) < u32_mod -> Z.of_nat (length gates') < u32_mod ->
  Forall (fun s => short (Some s)) ids -> Forall (fun s => short (Some s)) ids' ->
  Forall is_i16 gates -> Forall is_i16 gates' ->
  encode_adapter_ids ids = encode_adapter_ids ids' -> encode_gates_q15 gates = encode_gates_q15 gates' ->
  ids = ids' /\ gates = gates'.
Proof.
  intros. split; [eapply (counted_inj _ _ id_delimits)|eapply (counted_inj _ _ i16_delimits)]; done.
Qed.

Lemma output_bytes_inj l k :
  Z.of_nat (length l) < u32_mod -> Z.of_nat (length k) < u32_mod ->
  Forall is_u32 l -> Forall is_u32 k -> output_bytes l = output_bytes k -> l = k.
Proof. apply counted_inj, u32_delimits. Qed.

(** The output digest commits to the output tokens, their number and order. *)
Theorem output_digest_commits `{Blake3} l k :
  Z.of_nat (length l) < u32_mod -> Z.of_nat (length k) < u32_mod ->
  Forall is_u32 l -> Forall is_u32 k ->
  collision_free [output_bytes l; output_bytes k] ->
  compute_output_digest l = compute_output_digest k -> l = k.
Proof.
  intros Hl Hk Al Ak Hc E. apply (collision_free_inj _ _ _ Hc) in E; [|by left|right; by left].
  by apply output_bytes_inj.
Qed.

(** *** Masks *)

Lemma from_le_bytes_le_bytes n z :
  (0 <= z < 256 ^ Z.of_nat n)%Z -> from_le_bytes (le_bytes n z) = z.
Proof.
  revert z. induction n as [|n IH]; intros z Hz.
  - simpl in *. lia.
  - rewrite Nat2Z.inj_succ, Z.pow_succ_r in Hz by lia. cbn [le_bytes from_le_bytes foldr].
    fold (from_le_bytes (le_bytes n (z / 256))). rewrite IH.
    + rewrite Z_of_byte_of_Z. pose proof (Z.div_mod z 256). lia.
    + split; [apply Z.div_pos; lia|apply Z.div_lt_upper_bound; lia].
Qed.

Lemma mask_loop_exact n rest :
  mask_loop n rest
  = if (n <=? length rest)%nat then Ok (map (fun b => bool_decide (b = x01)) (take n rest))
    else Err "allowed_mask blob truncated".
Proof.
  revert rest. induction n as [|n IH]; intros [|b rest]; try done.
  cbn [mask_loop]. rewrite IH. simpl. by destruct (n <=? length rest)%nat.
Qed.

(** [decode_allowed_mask] on every input: which blobs it refuses and with which message,
    and what it reads from the others (a byte other than 1 is false, bytes after the last
    flag are ignored). *)
Theorem mask_decoding_exact bytes :
  let count := Z.to_nat (from_le_bytes (take 4 bytes)) in
  decode_allowed_mask bytes
  = if (length bytes <? 4)%nat then Err "allowed_mask blob missing length"
    else if (4 + count <=? length bytes)%nat
    then Ok (map (fun b => bool_decide (b = x01)) (take count (drop 4 bytes)))
    else Err "allowed_mask blob truncated".
Proof.
  intros count. unfold decode_allowed_mask. rewrite mask_loop_exact. fold count.
  destruct (Nat.ltb_spec (length bytes) 4); [done|]. rewrite length_drop.
  destruct (Nat.leb_spec count (length bytes - 4)), (Nat.leb_spec (4 + count) (length bytes));
    done || lia.
Qed.

Lemma mask_decodes mask :
  Z.of_nat (length mask) < u32_mod -> decode_allowed_mask (encode_allowed_mask mask) = Ok mask.
Proof.
  intros Hm. unfold encode_allowed_mask, decode_allowed_mask. rewrite Z.mod_small by lia.
  rewrite length_app, le_bytes_length. cbn [Nat.add Nat.ltb Nat.leb].
  rewrite take_app_length', drop_app_length' by (by rewrite le_bytes_length).
  rewrite from_le_bytes_le_bytes by (unfold u32_mod in Hm; simpl; lia).
  rewrite Nat2Z.id, mask_loop_exact, length_map, Nat.leb_refl.
  rewrite take_ge by (by rewrite length_map). rewrite map_map. f_equal.
  rewrite <- (map_id mask) at 2. apply map_ext. by intros [].
Qed.

(** An encoded mask is read back. *)
Theorem mask_round_trip mask :
  Z.of_nat (length mask) < u32_mod -> decode_allowed_mask (encode_allowed_mask mask) = Ok mask.
Proof. apply mask_decodes. Qed.

(** ** Decisions and the run head *)

Record decision_ok (d : TokenDecision) : Prop := {
  index_range : Forall is_u32 [td_token_index d];
  blob_lengths : Forall (fun bs => Z.of_nat (length bs) < u32_mod)
    [adapter_ids_blob d; gates_blob d; default [] (allowed_mask_blob d)];
  decision_strings : Forall short [policy_overrides_json d; backend_id d; kernel_version_id d];
}.

(** What a decision hash is a hash of. *)
Definition decision_view (d : TokenDecision) : TokenDecision :=
  mkDecision (td_context_digest d) (td_token_index d) (adapter_ids_blob d) (gates_blob d)
    (policy_mask_digest d) (Some (default [] (allowed_mask_blob d)))
    (filled (policy_overrides_json d)) (filled (backend_id d)) (filled (kernel_version_id d)).

Lemma decision_text : delimits decision_ok decision_slices decision_view.
Proof.
  assert (Hb : forall d, decision_ok d -> Z.of_nat (length (adapter_ids_blob d)) < u32_mod
    /\ Z.of_nat (length (gates_blob d)) < u32_mod
    /\ Z.of_nat (length (default [] (allowed_mask_blob d))) < u32_mod).
  { intros d [_ Hb _]. rewrite !Forall_cons in Hb. tauto. }
  eapply delimits_view; [|unfold decision_slices, string_slices; cbv zeta; cbn [app];
    do 2 delimit_field;
    eapply (delimits_prefixed _ adapter_ids_blob); [apply Hb|];
    eapply (delimits_prefixed _ gates_blob); [apply Hb|]; delimit_field;
    eapply (delimits_prefixed _ (fun d => default [] (allowed_mask_blob d))); [apply Hb|];
    delimit].
  intros a b _ _ E. injection E as E1 E2 E3 E4 E5 E6 E7 E8 E9.
  unfold decision_view, filled. by rewrite E1, E2, E3, E4, E5, E6, E7, E8, E9.
Qed.

Section RunHead.
Context `{Blake3}.

(** The run head over the decisions of a run. *)
Definition chain (init : B3Hash) (steps : list (Z * B3Hash)) : B3Hash :=
  foldl (fun head s => update_run_head head s.1 s.2) init steps.

(** The texts hashed along a run. *)
Fixpoint chain_texts (init : B3Hash) (steps : list (Z * B3Hash)) : list (list byte) :=
  match steps with
  | [] => []
  | s :: steps => concat (head_slices init s.1 s.2) :: chain_texts (update_run_head init s.1 s.2) steps
  end.

Lemma head_slices_inj p n d p' n' d' :
  is_u32 n -> is_u32 n' -> concat (head_slices p n d) = concat (head_slices p' n' d') ->
  p = p' /\ n = n' /\ d = d'.
Proof.
  intros Hn Hn' E. unfold head_slices in E. cbn [concat] in E. rewrite !app_nil_r in E.
  apply app_inj_1 in E as [E1 E]; [|by rewrite !as_bytes_length].
  apply app_inj_1 in E as [E2 E]; [|by rewrite !as_bytes_length].
  apply as_bytes_inj in E1, E2. apply le_bytes_inj in E; done.
Qed.

Lemma chain_texts_snoc init steps s :
  chain_texts init (steps ++ [s])
  = chain_texts init steps ++ [concat (head_slices (chain init steps) s.1 s.2)].
Proof. revert init. induction steps as [|x steps IH]; intros; [done|]. simpl. by rewrite IH. Qed.

Lemma chain_inj init init' l k :
  length l = length k -> Forall (fun s => is_u32 s.1) l -> Forall (fun s => is_u32 s.1) k ->
  collision_free (chain_texts init l ++ chain_texts init' k) ->
  chain init l = chain init' k -> init = init' /\ l = k.
Proof.
  revert k. induction l as [|s l IH] using rev_ind; intros k Hlen Hl Hk Hc E.
  { by destruct k. }
  destruct k as [|t k _] using rev_ind; [rewrite length_app in Hlen; simpl in Hlen; lia|].
  rewrite !length_app in Hlen. simpl in Hlen.
  apply Forall_app in Hl as [Hl Hs]. apply Forall_app in Hk as [Hk Ht].
  apply Forall_inv in Hs, Ht.
  rewrite !chain_texts_snoc in Hc. unfold chain in E. rewrite !foldl_app in E. simpl in E.
  apply (collision_free_inj _ _ _ Hc) in E; [|set_solver..].
  apply head_slices_inj in E as (E & E1 & E2); [|exact Hs|exact Ht].
  apply IH in E as [-> ->]; [|lia|done..|].
  - split; [done|]. destruct s, t; simpl in *. by subst.
  - eapply collision_free_subseteq; [|exact Hc]. set_solver.
Qed.

(** The steps of a run of decisions. *)
Definition decision_steps (ds : list TokenDecision) : list (Z * B3Hash) :=
  map (fun d => (td_token_index d, hash_token_decision d)) ds.

Definition run_texts (init : B3Hash) (ds : list TokenDecision) : list (list byte) :=
  chain_texts init (decision_steps ds) ++ map (fun d => concat (decision_slices d)) ds.

Lemma decision_steps_inj ds es :
  Forall decision_ok ds -> Forall decision_ok es ->
  collision_free (map (fun d => concat (decision_slices d)) (ds ++ es)) ->
  decision_steps ds = decision_steps es -> map decision_view ds = map decision_view es.
Proof.
  revert es. induction ds as [|d ds IH]; intros [|e es] Hd He Hc E; try done.
  apply Forall_cons in Hd as [Hd Hds]. apply Forall_cons in He as [He Hes].
  cbn [decision_steps map] in E. injection E as _ E1 E2. cbn [map]. f_equal.
  - apply (collision_free_inj _ _ _ Hc) in E1; [|set_solver..].
    by apply (delimits_text decision_ok decision_slices decision_view d e decision_text).
  - apply IH; try done. eapply collision_free_subseteq; [|exact Hc].
    rewrite !map_app. cbn [map app]. set_solver.
Qed.

Lemma run_head_agree init init' ds es :
  length ds = length es -> Forall decision_ok ds -> Forall decision_ok es ->
  collision_free (run_texts init ds ++ run_texts init' es) ->
  chain init (decision_steps ds) = chain init' (decision_steps es) ->
  init = init' /\ map decision_view ds = map decision_view es.
Proof.
  intros Hlen Hd He Hc E.
  assert (Hi : forall l, Forall decision_ok l -> Forall (fun s => is_u32 s.1) (decision_steps l)).
  { intros l Hl. apply Forall_map. eapply Forall_impl; [exact Hl|]. intros ? [Hi _ _]. by apply Forall_inv in Hi. }
  apply chain_inj in E as [-> E].
  - split; [done|]. apply decision_steps_inj; try done.
    eapply collision_free_subseteq; [|exact Hc]. unfold run_texts. rewrite map_app. set_solver.
  - unfold decision_steps. by rewrite !length_map.
  - by apply Hi.
  - by apply Hi.
  - eapply collision_free_subseteq; [|exact Hc]. unfold run_texts. set_solver.
Qed.
(** The run head commits to the whole history of decisions: two runs of one length with
    the same head made the same decisions, in the same order, from the same start. *)
Theorem run_head_commits init init' ds es :
  length ds = length es -> Forall decision_ok ds -> Forall decision_ok es ->
  collision_free (run_texts init ds ++ run_texts init' es) ->
  chain init (decision_steps ds) = chain init' (decision_steps es) ->
  init = init' /\ map decision_view ds = map decision_view es.
Proof. apply run_head_agree. Qed.
End RunHead.

(** ** Examples *)

Section Examples.
#[local] Existing Instance toy_blake3.

Definition sample_core : ReceiptDigestInput :=
  new (hash [x01]) (hash [x02]) (hash [x03]) 120 20 100 64 64.

(** A receipt with a backend, a stop reason and a temperature. *)
Definition sample : ReceiptDigestInput :=
  with_decoder_config (Some "greedy") (Some (-3)) None (Some 40) None None
  (with_kv_quota 4096 1024 2 None true
  (with_stop_controller (Some "EOS") (Some 64) None
  (with_backend (Some "mlx") (Some (hash [x04])) sample_core))).

(** The same receipt with the sentinels written out, and one that bills less. *)
Definition sample_filled : ReceiptDigestInput :=
  with_kv_quota 4096 1024 2 (Some EmptyString) true sample.
Definition sample_cheaper : ReceiptDigestInput :=
  with_citations None 3 (sample <| billed_input_tokens := 90 |>).

Ltac example_range := constructor; repeat constructor; vm_compute; done.

Lemma sample_range : in_range sample.
Proof. example_range. Defined.
Lemma sample_filled_range : in_range sample_filled.
Proof. example_range. Defined.
Lemma sample_cheaper_range : in_range sample_cheaper.
Proof. example_range. Defined.

Ltac example_free := apply collision_freeb_sound; vm_compute; reflexivity.

Lemma receipt_digest_exact_witness :
  canonical 8 sample = canonical 8 sample_filled
  /\ compute_receipt_digest sample 7 <> compute_receipt_digest sample_cheaper 7.
Proof.
  split.
  - apply (receipt_digest_exact 8 sample sample_filled); [unfold supported; lia
      |apply sample_range|apply sample_filled_range|example_free|vm_compute; reflexivity].
  - intros E. apply (receipt_digest_exact 7 sample sample_cheaper) in E;
      [|unfold supported; lia|apply sample_range|apply sample_cheaper_range|example_free].
    apply (f_equal billed_input_tokens) in E. discriminate E.
Defined.

Lemma billing_bound_witness :
  compute_receipt_digest sample 4 = compute_receipt_digest sample_filled 4
  /\ billed_input_tokens sample = billed_input_tokens sample_filled.
Proof.
  assert (D : compute_receipt_digest sample 4 = compute_receipt_digest sample_filled 4)
    by (vm_compute; reflexivity).
  split; [exact D|].
  destruct (billing_bound 4 sample sample_filled) as (_ & _ & E & _); [unfold supported; lia
      |apply sample_range|apply sample_filled_range|example_free|exact D|exact E].
Defined.

Lemma marked_versions_separate_witness :
  compute_receipt_digest sample 5 <> compute_receipt_digest sample 6.
Proof.
  apply (marked_versions_separate 5 6 sample sample);
    [unfold version_byte_first; lia..|lia|example_free].
Defined.

Lemma seed_lineage_unbound_witness :
  compute_receipt_digest (with_seed_lineage (Some (hash [x09])) (Some "strict") (Some true) sample) 8
  = compute_receipt_digest sample 8.
Proof. apply (seed_lineage_unbound 8). lia. Defined.

Lemma checked_digest_binds_backend_witness :
  validate_backend_id_for_v5 (Some "mlx") = Ok tt /\ "mlx" = "mlx".
Proof.
  destruct (checked_digest_binds_backend sample sample_filled "mlx" "mlx"
    (compute_v5_digest sample)) as [E V];
    [apply sample_range|apply sample_filled_range|vm_compute; reflexivity|vm_compute; reflexivity
    |example_free|vm_compute; reflexivity|vm_compute; reflexivity|].
  split; [exact V|exact E].
Defined.

Lemma decision_blobs_exact_witness :
  ["a"; "bc"] = ["a"; "bc"] /\ [5; -7] = [5; -7].
Proof.
  apply (decision_blobs_exact ["a"; "bc"] ["a"; "bc"] [5; -7] [5; -7]);
    try reflexivity; repeat constructor; vm_compute; done.
Defined.

Lemma output_digest_commits_witness :
  compute_output_digest [101; 42; 2] <> compute_output_digest [101; 2; 42].
Proof.
  intros E. apply (output_digest_commits [101; 42; 2] [101; 2; 42]) in E;
    [discriminate E|reflexivity|reflexivity|repeat constructor; vm_compute; done
    |repeat constructor; vm_compute; done|example_free].
Defined.

Lemma mask_round_trip_witness :
  decode_allowed_mask (encode_allowed_mask [true; false; true]) = Ok [true; false; true].
Proof. apply (mask_round_trip [true; false; true]). reflexivity. Defined.

(** A run of two tokens, and the same run with another gate at the second. *)
Definition step_at (n : Z) (gates : list Z) : TokenDecision :=
  mkDecision zero n (encode_adapter_ids ["a"]) (encode_gates_q15 gates) None
    (Some (encode_allowed_mask [true])) None (Some "mlx") None.

Lemma step_ok n gates :
  is_u32 n -> Z.of_nat (length (encode_gates_q15 gates)) < u32_mod -> decision_ok (step_at n gates).
Proof.
  intros Hn Hg. constructor; [by apply Forall_singleton| |].
  - by repeat (apply Forall_cons; split; [first [exact Hg|vm_compute; done]|]).
  - repeat constructor; vm_compute; done.
Qed.

Lemma run_head_commits_witness :
  chain zero (decision_steps [step_at 0 [1]; step_at 1 [2]])
  <> chain zero (decision_steps [step_at 0 [1]; step_at 1 [3]]).
Proof.
  intros E. apply (run_head_commits zero zero) in E.
  - destruct E as [_ E]. apply (f_equal (map gates_blob)) in E. vm_compute in E. discriminate E.
  - reflexivity.
  - repeat (apply Forall_cons; split; [apply step_ok; [solve_range|reflexivity]|]). by apply Forall_nil.
  - repeat (apply Forall_cons; split; [apply step_ok; [solve_range|reflexivity]|]). by apply Forall_nil.
  - example_free.
Defined.
End Examples.
