(* ===== verification/Evidence.v ===== *)
(** * Evidence envelopes (adapteros-core/src/evidence_envelope.rs, evidence_verifier.rs)

    Envelopes refer to telemetry bundles, policy decisions and inference receipts by their
    digests, are linked into chains and signed. The first part has the envelope, its
    canonical bytes and its checks, the second the two verifiers: [validate_for_ingestion]
    with [ingestion_validate_chain_linkage] when an envelope arrives, [EvidenceVerifier]
    over a stored chain, and [sign_envelope]. Times of the clock and the reading of an
    RFC 3339 time are arguments; [signing] says whether the crate is built with its
    evidence-signing feature. *)

From S2P Require Import Prelude Hashing Signatures ReceiptDigest.

Local Open Scope Z.
Local Open Scope aos.

Definition EVIDENCE_ENVELOPE_SCHEMA_VERSION : Z := 6.

Inductive EvidenceScope : Type := Telemetry | Policy | Inference.

#[export] Instance EvidenceScope_eq_dec : EqDecision EvidenceScope.
Proof. solve_decision. Defined.

Definition scope_as_str (s : EvidenceScope) : string :=
  match s with Telemetry => "telemetry" | Policy => "policy" | Inference => "inference" end.

Definition scope_parse (s : string) : option EvidenceScope :=
  if (s =? "telemetry")%string then Some Telemetry
  else if (s =? "policy")%string then Some Policy
  else if (s =? "inference")%string then Some Inference
  else None.

Definition scope_tag (s : EvidenceScope) : Z :=
  match s with Telemetry => 0 | Policy => 1 | Inference => 2 end.

(** ** Payload references *)

Record PinnedDegradationEvidence : Type := mkPinned {
  pinned_total_count : Z;
  unavailable_pinned_count : Z;
  unavailable_pinned_set_digest_b3 : option B3Hash;
  pinned_fallback_mode : option string;
}.

Record BundleMetadataRef : Type := mkBundle {
  bundle_hash : B3Hash;
  merkle_root : B3Hash;
  event_count : Z;
  cpid : option string;
  sequence_no : option Z;
  pinned_degradation_evidence : option PinnedDegradationEvidence;
}.

Record PolicyAuditRef : Type := mkPolicyRef {
  decision_id : string;
  entry_hash : B3Hash;
  chain_sequence : Z;
  policy_pack_id : string;
  hook : string;
  decision : string;
}.

Module Ref.
Record InferenceReceiptRef : Type := mkRef {
  trace_id : string;
  run_head_hash : B3Hash;
  output_digest : B3Hash;
  receipt_digest : B3Hash;
  logical_prompt_tokens : Z;
  prefix_cached_token_count : Z;
  billed_input_tokens : Z;
  logical_output_tokens : Z;
  billed_output_tokens : Z;
  stop_reason_code : option string;
  stop_reason_token_index : option Z;
  stop_policy_digest_b3 : option B3Hash;
  tenant_kv_quota_bytes : Z;
  tenant_kv_bytes_used : Z;
  kv_evictions : Z;
  kv_residency_policy_id : option string;
  kv_quota_enforced : bool;
  prefix_kv_key_b3 : option B3Hash;
  prefix_cache_hit : bool;
  prefix_kv_bytes : Z;
  model_cache_identity_v2_digest_b3 : option B3Hash;
  backend_used : string;
  backend_attestation_b3 : option B3Hash;
  seed_lineage_hash : option B3Hash;
  adapter_training_lineage_digest : option B3Hash;
  previous_receipt_digest : option B3Hash;
  session_sequence : Z;
  tokenizer_hash_b3 : option B3Hash;
  tokenizer_version : option string;
  tokenizer_normalization : option string;
  model_build_hash_b3 : option B3Hash;
  adapter_build_hash_b3 : option B3Hash;
  decode_algo : option string;
  temperature_q15 : option Z;
  top_p_q15 : option Z;
  top_k : option Z;
  seed_digest_b3 : option B3Hash;
  sampling_backend : option string;
  thread_count : option Z;
  reduction_strategy : option string;
  stop_eos_q15 : option Z;
  stop_window_digest_b3 : option B3Hash;
  cache_scope : option string;
  cached_prefix_digest_b3 : option B3Hash;
  cached_prefix_len : option Z;
  cache_key_b3 : option B3Hash;
  retrieval_merkle_root_b3 : option B3Hash;
  retrieval_order_digest_b3 : option B3Hash;
  tool_call_inputs_digest_b3 : option B3Hash;
  tool_call_outputs_digest_b3 : option B3Hash;
  disclosure_level : option string;
  receipt_signing_kid : option string;
  receipt_signed_at : option string;
}.
End Ref.
Notation InferenceReceiptRef := Ref.InferenceReceiptRef.

Record EvidenceEnvelope : Type := mkEnvelope {
  schema_version : Z;
  tenant_id : string;
  scope : EvidenceScope;
  previous_root : option B3Hash;
  root : B3Hash;
  signature : string;
  public_key : string;
  key_id : string;
  attestation_ref : option string;
  created_at : string;
  signed_at_us : Z;
  bundle_metadata_ref : option BundleMetadataRef;
  policy_audit_ref : option PolicyAuditRef;
  inference_receipt_ref : option InferenceReceiptRef;
}.

(** ** Canonical bytes *)

(** [encode_str]: the length saturates at [u32::MAX]. *)
Definition str_len (s : string) : list byte :=
  be_bytes 4 (Z.min (Z.of_nat (length (as_bytes_of s))) u32_max).
Definition encode_str (s : string) : list (list byte) := [str_len s; as_bytes_of s].
Definition encode_opt_str (o : option string) : list (list byte) := encode_str (default EmptyString o).

Definition encode_u32 (z : Z) : list byte := be_bytes 4 z.
Definition encode_u64 (z : Z) : list byte := be_bytes 8 z.
Definition encode_i64 (z : Z) : list byte := be_bytes 8 z.
Definition encode_i16 (o : option Z) : list byte := be_bytes 2 (default (-32768) o).
Definition encode_u32_opt (o : option Z) : list byte := be_bytes 4 (default u32_max o).

Definition pinned_slices (o : option PinnedDegradationEvidence) : list (list byte) :=
  match o with
  | Some ev =>
      [encode_u32 (pinned_total_count ev); encode_u32 (unavailable_pinned_count ev);
       digest_or_zero (unavailable_pinned_set_digest_b3 ev)]
      ++ encode_opt_str (pinned_fallback_mode ev)
  | None => [encode_u32 0; encode_u32 0; replicate 32 x00] ++ encode_str EmptyString
  end.

Definition bundle_slices (r : BundleMetadataRef) : list (list byte) :=
  [as_bytes (bundle_hash r); as_bytes (merkle_root r); encode_u32 (event_count r)]
  ++ encode_opt_str (cpid r) ++ [encode_u64 (default 0 (sequence_no r))]
  ++ pinned_slices (pinned_degradation_evidence r).

Definition policy_slices (r : PolicyAuditRef) : list (list byte) :=
  encode_str (decision_id r) ++ [as_bytes (entry_hash r); encode_i64 (chain_sequence r)]
  ++ encode_str (policy_pack_id r) ++ encode_str (hook r) ++ encode_str (decision r).

Definition inference_slices (r : InferenceReceiptRef) : list (list byte) :=
  encode_str (Ref.trace_id r)
  ++ [as_bytes (Ref.run_head_hash r); as_bytes (Ref.output_digest r);
      as_bytes (Ref.receipt_digest r);
      encode_u32 (Ref.logical_prompt_tokens r); encode_u32 (Ref.prefix_cached_token_count r);
      encode_u32 (Ref.billed_input_tokens r); encode_u32 (Ref.logical_output_tokens r);
      encode_u32 (Ref.billed_output_tokens r)]
  ++ encode_opt_str (Ref.stop_reason_code r)
  ++ [encode_u32_opt (Ref.stop_reason_token_index r); digest_or_zero (Ref.stop_policy_digest_b3 r);
      digest_or_zero (Ref.model_cache_identity_v2_digest_b3 r)]
  ++ encode_str (Ref.backend_used r)
  ++ [marked (Ref.backend_attestation_b3 r); marked (Ref.seed_lineage_hash r);
      marked (Ref.adapter_training_lineage_digest r); marked (Ref.previous_receipt_digest r);
      encode_u64 (Ref.session_sequence r); digest_or_zero (Ref.tokenizer_hash_b3 r)]
  ++ encode_opt_str (Ref.tokenizer_version r) ++ encode_opt_str (Ref.tokenizer_normalization r)
  ++ [digest_or_zero (Ref.model_build_hash_b3 r); digest_or_zero (Ref.adapter_build_hash_b3 r)]
  ++ encode_opt_str (Ref.decode_algo r)
  ++ [encode_i16 (Ref.temperature_q15 r); encode_i16 (Ref.top_p_q15 r); encode_u32_opt (Ref.top_k r);
      digest_or_zero (Ref.seed_digest_b3 r)]
  ++ encode_opt_str (Ref.sampling_backend r)
  ++ [encode_u32_opt (Ref.thread_count r)] ++ encode_opt_str (Ref.reduction_strategy r)
  ++ [encode_i16 (Ref.stop_eos_q15 r); digest_or_zero (Ref.stop_window_digest_b3 r)]
  ++ encode_opt_str (Ref.cache_scope r)
  ++ [digest_or_zero (Ref.cached_prefix_digest_b3 r); encode_u32_opt (Ref.cached_prefix_len r);
      digest_or_zero (Ref.cache_key_b3 r); digest_or_zero (Ref.retrieval_merkle_root_b3 r);
      digest_or_zero (Ref.retrieval_order_digest_b3 r);
      digest_or_zero (Ref.tool_call_inputs_digest_b3 r);
      digest_or_zero (Ref.tool_call_outputs_digest_b3 r)]
  ++ encode_opt_str (Ref.disclosure_level r)
  ++ encode_opt_str (Ref.receipt_signing_kid r) ++ encode_opt_str (Ref.receipt_signed_at r).

Definition encode_scope_payload (e : EvidenceEnvelope) : list (list byte) :=
  match scope e with
  | Telemetry => match bundle_metadata_ref e with Some r => bundle_slices r | None => [] end
  | Policy => match policy_audit_ref e with Some r => policy_slices r | None => [] end
  | Inference => match inference_receipt_ref e with Some r => inference_slices r | None => [] end
  end.

Definition header_slices (e : EvidenceEnvelope) : list (list byte) :=
  [le_bytes 1 (schema_version e)] ++ encode_str (tenant_id e)
  ++ [le_bytes 1 (scope_tag (scope e)); digest_or_zero (previous_root e); as_bytes (root e)]
  ++ encode_str (created_at e) ++ [encode_u64 (signed_at_us e)] ++ encode_opt_str (attestation_ref e).

Definition to_canonical_bytes (e : EvidenceEnvelope) : list byte :=
  concat (header_slices e ++ encode_scope_payload e).

(** ** Envelopes *)

Section Envelope.
Context `{Blake3} `{Hex}.

Definition compute_telemetry_root (r : BundleMetadataRef) : B3Hash :=
  hash_multi [as_bytes (bundle_hash r); as_bytes (merkle_root r)].

(** [created] is [chrono::Utc::now().to_rfc3339()]. *)
Definition new_telemetry (tenant : string) (r : BundleMetadataRef) (previous : option B3Hash)
    (created : string) : EvidenceEnvelope :=
  mkEnvelope EVIDENCE_ENVELOPE_SCHEMA_VERSION tenant Telemetry previous (compute_telemetry_root r)
    EmptyString EmptyString EmptyString None created 0 (Some r) None None.

Definition new_policy (tenant : string) (r : PolicyAuditRef) (previous : option B3Hash)
    (created : string) : EvidenceEnvelope :=
  mkEnvelope EVIDENCE_ENVELOPE_SCHEMA_VERSION tenant Policy previous (entry_hash r)
    EmptyString EmptyString EmptyString None created 0 None (Some r) None.

Definition new_inference (tenant : string) (r : InferenceReceiptRef) (previous : option B3Hash)
    (created : string) : EvidenceEnvelope :=
  mkEnvelope EVIDENCE_ENVELOPE_SCHEMA_VERSION tenant Inference previous (Ref.receipt_digest r)
    EmptyString EmptyString EmptyString None created 0 None None (Some r).

Definition envelope_digest (e : EvidenceEnvelope) : B3Hash := Hashing.hash (to_canonical_bytes e).

Definition is_empty (s : string) : bool := match s with EmptyString => true | _ => false end.

Definition is_signed (e : EvidenceEnvelope) : bool :=
  negb (is_empty (signature e)) && negb (is_empty (public_key e)).

Definition some_b {A} (o : option A) : bool := match o with Some _ => true | None => false end.

Definition payload_count (e : EvidenceEnvelope) : nat :=
  length (List.filter id [some_b (bundle_metadata_ref e); some_b (policy_audit_ref e);
                          some_b (inference_receipt_ref e)]).

Definition validate (e : EvidenceEnvelope) : result unit AosError :=
  if negb (schema_version e =? EVIDENCE_ENVELOPE_SCHEMA_VERSION)
  then Err (Validation ("Unsupported schema version: expected "
              +:+ pretty EVIDENCE_ENVELOPE_SCHEMA_VERSION +:+ ", got " +:+ pretty (schema_version e)))
  else if is_empty (tenant_id e) then Err (Validation "tenant_id is required")
  else if negb (payload_count e =? 1)%nat
  then Err (Validation ("Exactly one payload ref must be populated, found " +:+ pretty (payload_count e)))
  else
    match scope e, bundle_metadata_ref e, policy_audit_ref e, inference_receipt_ref e with
    | Telemetry, None, _, _ => Err (Validation "Telemetry scope requires bundle_metadata_ref")
    | Policy, _, None, _ => Err (Validation "Policy scope requires policy_audit_ref")
    | Inference, _, _, None => Err (Validation "Inference scope requires inference_receipt_ref")
    | _, _, _, _ => Ok tt
    end.

Definition compute_key_id (pubkey_bytes : list byte) : string :=
  "key-" +:+ String.substring 0 32 (to_hex (Hashing.hash pubkey_bytes)).

(** ** Completeness of a receipt (EP-5) *)

Record ReceiptCompletenessReport : Type := mkReport {
  missing_fields : list string;
  is_complete : bool;
}.

Definition missing_if (b : bool) (field : string) : list string := if b then [field] else [].

Definition validate_completeness (r : InferenceReceiptRef) : ReceiptCompletenessReport :=
  let missing :=
    missing_if (is_empty (Ref.backend_used r)) "backend_used"
    ++ missing_if (negb (some_b (Ref.backend_attestation_b3 r))) "backend_attestation_b3"
    ++ missing_if (negb (some_b (Ref.seed_lineage_hash r))) "seed_lineage_hash"
    ++ missing_if (bool_decide (as_bytes (Ref.output_digest r) = replicate 32 x00)) "output_digest"
    ++ missing_if (bool_decide (as_bytes (Ref.receipt_digest r) = replicate 32 x00)) "receipt_digest" in
  mkReport missing (match missing with [] => true | _ => false end).

Definition validate_for_strict_mode (r : InferenceReceiptRef) : result unit AosError :=
  let report := validate_completeness r in
  if negb (is_complete report)
  then Err (DeterminismViolation ("EP-5: Receipt incomplete for strict mode. Missing fields: "
              +:+ String.concat ", " (missing_fields report)))
  else Ok tt.

(** ** Digests of pins *)

Definition nul : list byte := [x00].

Definition pin_slices (id : string) : list (list byte) :=
  [str_len id; as_bytes_of id; nul].

Definition pinned_set_slices (ids : list string) : list (list byte) :=
  [as_bytes_of "adapteros:pinned_unavailable_set_digest:v1"; nul]
  ++ concat (map pin_slices (stable_sort String.leb ids)).

Definition compute_unavailable_pinned_set_digest_b3 (ids : list string) : B3Hash :=
  hash_multi (pinned_set_slices ids).

Definition pinned_ref_slices (domain : string) (tenant inference : string) : list (list byte) :=
  [as_bytes_of domain; nul; as_bytes_of tenant; nul; as_bytes_of inference].

Definition pinned_degradation_telemetry_ref_ids (tenant inference : string) : B3Hash * B3Hash :=
  (hash_multi (pinned_ref_slices "adapteros:pinned_degradation:bundle_hash:v1" tenant inference),
   hash_multi (pinned_ref_slices "adapteros:pinned_degradation:merkle_root:v1" tenant inference)).
End Envelope.

(** ** Ingestion *)

Inductive IngestionError : Type :=
| UnsupportedSchema (version max_supported : Z)
| RootMismatch (claimed computed : string)
| SignatureInvalid (reason : string)
| SignatureMissing
| PayloadMissing (scope : string)
| PayloadScopeMismatch (claimed present : string)
| ChainLinkageInvalid (reason : string)
| PreviousRootMismatch (expected claimed : option string)
| TenantMismatch (envelope payload : string)
| TimestampInFuture (timestamp : string)
| KeyIdMismatch (computed claimed : string)
| EmptyTenantId
| MultiplePayloads (count : nat).

Definition quote : string := String (Ascii.ascii_of_nat 34) EmptyString.

(** [{:?}] of an [Option<String>] that holds hexadecimal digits. *)
Definition debug_option (o : option string) : string :=
  match o with Some s => "Some(" +:+ quote +:+ s +:+ quote +:+ ")" | None => "None" end.

Definition ingestion_error_text (e : IngestionError) : string :=
  match e with
  | UnsupportedSchema v m =>
      "Schema version " +:+ pretty v +:+ " not supported (max: " +:+ pretty m +:+ ")"
  | RootMismatch c k => "Root mismatch: claimed " +:+ c +:+ " != computed " +:+ k
  | SignatureInvalid r => "Invalid signature: " +:+ r
  | SignatureMissing => "Signature required but missing"
  | PayloadMissing s => "Payload missing for scope " +:+ s
  | PayloadScopeMismatch c p => "Scope mismatch: claimed " +:+ c +:+ " but payload is " +:+ p
  | ChainLinkageInvalid r => "Chain linkage invalid: " +:+ r
  | PreviousRootMismatch e c =>
      "Previous root mismatch: expected " +:+ debug_option e +:+ ", claimed " +:+ debug_option c
  | TenantMismatch e p => "Tenant mismatch: envelope=" +:+ e +:+ " payload=" +:+ p
  | TimestampInFuture t => "Timestamp in future: " +:+ t
  | KeyIdMismatch k c => "Key ID mismatch: computed " +:+ k +:+ " != claimed " +:+ c
  | EmptyTenantId => "Tenant ID is empty"
  | MultiplePayloads n =>
      "Multiple payload refs populated (expected 1, found " +:+ pretty n +:+ ")"
  end.

Record IngestionValidationResult : Type := mkIngestion {
  ing_is_valid : bool;
  ing_errors : list IngestionError;
  ing_warnings : list string;
  computed_root : option B3Hash;
}.

Definition detect_payload_scope (e : EvidenceEnvelope) : option EvidenceScope :=
  if some_b (bundle_metadata_ref e) then Some Telemetry
  else if some_b (policy_audit_ref e) then Some Policy
  else if some_b (inference_receipt_ref e) then Some Inference
  else None.

Section Verifiers.
Context `{Blake3} `{Hex} {E : Ed25519}.
(** [DateTime::parse_from_rfc3339], as nanoseconds of the epoch. *)
Context (parse_rfc3339 : string -> option Z).
(** The text of ed25519-dalek's error for a signature that does not verify. *)
Context (verify_error : string).

Definition compute_envelope_root (e : EvidenceEnvelope) : option B3Hash :=
  match scope e with
  | Telemetry => compute_telemetry_root <$> bundle_metadata_ref e
  | Policy => entry_hash <$> policy_audit_ref e
  | Inference => Ref.receipt_digest <$> inference_receipt_ref e
  end.

Definition compute_key_id_from_pubkey_hex (pubkey_hex : string) : string :=
  match hex_decode pubkey_hex with
  | Ok bytes => "key-" +:+ String.substring 0 32 (to_hex (Hashing.hash bytes))
  | Err _ => EmptyString
  end.

Definition invalid {T} (reason : string) : result T IngestionError := Err (SignatureInvalid reason).

Definition verify_ingestion_signature (e : EvidenceEnvelope) : result unit IngestionError :=
  if is_empty (public_key e) then invalid "Public key required for signature verification"
  else if is_empty (key_id e) then invalid "Key ID required for signature verification"
  else
    match hex_decode (public_key e) with
    | Err m => invalid ("Invalid public key hex: " +:+ m)
    | Ok pubkey =>
        if negb (length pubkey =? 32)%nat
        then invalid ("Public key must be 32 bytes, got " +:+ pretty (length pubkey))
        else
          match key_from_bytes pubkey with
          | Err m => invalid ("Invalid public key: " +:+ m)
          | Ok key =>
              match hex_decode (signature e) with
              | Err m => invalid ("Invalid signature hex: " +:+ m)
              | Ok sig =>
                  if negb (length sig =? 64)%nat
                  then invalid ("Signature must be 64 bytes, got " +:+ pretty (length sig))
                  else if verify key (to_canonical_bytes e) sig then Ok tt
                  else invalid ("Cryptographic signature verification failed: " +:+ verify_error)
              end
          end
    end.

Definition report (b : bool) (err : IngestionError) : list IngestionError := if b then [err] else [].

Definition count_errors (e : EvidenceEnvelope) : list IngestionError :=
  let count := payload_count e in
  report (negb (count =? 1)%nat)
    (if (count =? 0)%nat then PayloadMissing (scope_as_str (scope e)) else MultiplePayloads count).

Definition scope_errors (e : EvidenceEnvelope) : list IngestionError :=
  match detect_payload_scope e with
  | Some s => report (bool_decide (s <> scope e))
                (PayloadScopeMismatch (scope_as_str (scope e)) (scope_as_str s))
  | None => []
  end.

Definition root_errors (e : EvidenceEnvelope) : list IngestionError :=
  match compute_envelope_root e with
  | Some c => report (bool_decide (c <> root e)) (RootMismatch (to_hex (root e)) (to_hex c))
  | None => []
  end.

Definition signature_errors (e : EvidenceEnvelope) (require_signature : bool) : list IngestionError :=
  if require_signature
  then if is_empty (signature e) then [SignatureMissing]
       else match verify_ingestion_signature e with Err err => [err] | Ok _ => [] end
  else [].

Definition key_id_errors (e : EvidenceEnvelope) : list IngestionError :=
  if negb (is_empty (public_key e)) && negb (is_empty (key_id e))
  then report (negb (compute_key_id_from_pubkey_hex (public_key e) =? key_id e)%string)
         (KeyIdMismatch (compute_key_id_from_pubkey_hex (public_key e)) (key_id e))
  else [].

(** [now] in nanoseconds of the epoch. *)
Definition timestamp_errors (e : EvidenceEnvelope) (max_timestamp_skew_secs now : Z)
    : list IngestionError :=
  match parse_rfc3339 (created_at e) with
  | Some ts => report (now + max_timestamp_skew_secs * 10 ^ 9 <? ts) (TimestampInFuture (created_at e))
  | None => []
  end.

Definition validate_for_ingestion (e : EvidenceEnvelope) (require_signature : bool)
    (max_timestamp_skew_secs now : Z) : IngestionValidationResult :=
  let errors :=
    report (EVIDENCE_ENVELOPE_SCHEMA_VERSION <? schema_version e)
      (UnsupportedSchema (schema_version e) EVIDENCE_ENVELOPE_SCHEMA_VERSION)
    ++ report (is_empty (tenant_id e)) EmptyTenantId
    ++ count_errors e ++ scope_errors e ++ root_errors e
    ++ signature_errors e require_signature ++ key_id_errors e
    ++ timestamp_errors e max_timestamp_skew_secs now in
  let warnings :=
    match detect_payload_scope e with
    | None => if (0 <? payload_count e)%nat then ["Payload present but scope detection failed"] else []
    | Some _ => []
    end in
  mkIngestion (match errors with [] => true | _ => false end) errors warnings (compute_envelope_root e).

Definition ingestion_validate_chain_linkage (e : EvidenceEnvelope) (chain_tail : option (B3Hash * Z))
    : option IngestionError :=
  match chain_tail, previous_root e with
  | None, Some claimed =>
      Some (ChainLinkageInvalid ("First envelope in chain cannot have previous_root (claimed: "
              +:+ to_hex claimed +:+ ")"))
  | Some (tail_root, _), None => Some (PreviousRootMismatch (Some (to_hex tail_root)) None)
  | Some (tail_root, _), Some claimed =>
      if bool_decide (tail_root <> claimed)
      then Some (PreviousRootMismatch (Some (to_hex tail_root)) (Some (to_hex claimed)))
      else None
  | None, None => None
  end.

Definition categorize_ingestion_errors (errors : list IngestionError) : string :=
  let any (p : IngestionError -> bool) := existsb p errors in
  if any (fun e => match e with RootMismatch _ _ => true | _ => false end) then "root_mismatch"
  else if any (fun e => match e with SignatureInvalid _ => true | _ => false end) then "signature_invalid"
  else if any (fun e => match e with SignatureMissing => true | _ => false end) then "signature_missing"
  else if any (fun e => match e with PayloadMissing _ => true | _ => false end) then "payload_missing"
  else if any (fun e => match e with PayloadScopeMismatch _ _ => true | _ => false end) then "scope_mismatch"
  else if any (fun e => match e with ChainLinkageInvalid _ => true | _ => false end) then "chain_linkage"
  else if any (fun e => match e with PreviousRootMismatch _ _ => true | _ => false end) then "previous_root"
  else if any (fun e => match e with UnsupportedSchema _ _ => true | _ => false end) then "unsupported_schema"
  else "other".

(** ** The verifier of stored chains *)

Definition EVIDENCE_CHAIN_DIVERGED_CODE : string := "EVIDENCE_CHAIN_DIVERGED".

Definition evidence_chain_divergence (msg : string) : AosError :=
  Validation (EVIDENCE_CHAIN_DIVERGED_CODE +:+ ": " +:+ msg).

Definition is_evidence_chain_divergence (err : AosError) : bool :=
  match err with Validation msg => str_contains EVIDENCE_CHAIN_DIVERGED_CODE msg | _ => false end.

Record EnvelopeVerificationResult : Type := mkEnvResult {
  is_valid : bool;
  schema_version_ok : bool;
  signature_valid : bool;
  root_matches : bool;
  chain_link_valid : bool;
  payload_valid : bool;
  error_message : option string;
}.

Record ChainVerificationResult : Type := mkChainResult {
  chain_is_valid : bool;
  envelopes_checked : nat;
  first_invalid_index : option nat;
  divergence_detected : bool;
  chain_error_message : option string;
}.

Record EvidenceVerifier : Type := mkVerifier { trusted_keys : gmap string string }.

Definition new_verifier : EvidenceVerifier := mkVerifier ∅.

Definition add_trusted_key (k pubkey_hex : string) (self : EvidenceVerifier) : EvidenceVerifier :=
  mkVerifier (<[k := pubkey_hex]> (trusted_keys self)).

Definition verifier_root (e : EvidenceEnvelope) : result B3Hash AosError :=
  match scope e with
  | Telemetry =>
      match bundle_metadata_ref e with
      | Some r => Ok (compute_telemetry_root r)
      | None => Err (Validation "Missing bundle_metadata_ref") end
  | Policy =>
      match policy_audit_ref e with
      | Some r => Ok (entry_hash r) | None => Err (Validation "Missing policy_audit_ref") end
  | Inference =>
      match inference_receipt_ref e with
      | Some r => Ok (Ref.receipt_digest r)
      | None => Err (Validation "Missing inference_receipt_ref") end
  end.

Definition verify_signature (signing : bool) (self : EvidenceVerifier) (e : EvidenceEnvelope)
    : result bool AosError :=
  if negb signing then Ok true
  else
    match trusted_keys self !! key_id e, is_empty (public_key e) with
    | None, true => Ok false
    | o, _ =>
        match hex_decode (default (public_key e) o) with
        | Err m => Err (Crypto ("Invalid pubkey hex: " +:+ m))
        | Ok pubkey =>
            if negb (length pubkey =? 32)%nat
            then Err (Crypto ("Invalid pubkey length: expected 32, got " +:+ pretty (length pubkey)))
            else
              match key_from_bytes pubkey with
              | Err m => Err (Crypto ("Invalid public key: " +:+ m))
              | Ok key =>
                  match hex_decode (signature e) with
                  | Err m => Err (Crypto ("Invalid signature hex: " +:+ m))
                  | Ok sig =>
                      if negb (length sig =? 64)%nat
                      then Err (Crypto ("Invalid signature length: expected 64, got " +:+ pretty (length sig)))
                      else Ok (verify key (to_canonical_bytes e) sig)
                  end
              end
        end
    end.

(** The message of a link that is refused. *)
Definition link_error (previous expected : option B3Hash) : option string :=
  match previous, expected with
  | Some prev, Some exp =>
      if bool_decide (prev = exp) then None
      else Some ("Chain link mismatch: expected " +:+ to_short_hex exp +:+ ", got " +:+ to_short_hex prev)
  | None, Some exp =>
      Some ("Unexpected chain break: expected link to " +:+ to_short_hex exp +:+ ", got None")
  | _, None => None
  end.

Definition verify_envelope (signing : bool) (self : EvidenceVerifier) (e : EvidenceEnvelope)
    (expected_previous_root : option B3Hash) : result EnvelopeVerificationResult AosError :=
  if negb (schema_version e =? EVIDENCE_ENVELOPE_SCHEMA_VERSION)
  then Ok (mkEnvResult false false false false false false
         (Some ("Schema version mismatch: expected " +:+ pretty EVIDENCE_ENVELOPE_SCHEMA_VERSION
                +:+ ", got " +:+ pretty (schema_version e))))
  else
    match validate e with
    | Err err => Ok (mkEnvResult false true false false false false
                   (Some ("Payload validation failed: " +:+ error_text err)))
    | Ok _ =>
        computed <-? verifier_root e ;;
        if bool_decide (computed <> root e)
        then Ok (mkEnvResult false true false false false true
               (Some ("Root hash mismatch: expected " +:+ to_short_hex computed
                      +:+ ", got " +:+ to_short_hex (root e))))
        else
          match link_error (previous_root e) expected_previous_root with
          | Some msg => Ok (mkEnvResult false true false true false true (Some msg))
          | None =>
              if is_signed e then
                valid <-? verify_signature signing self e ;;
                if negb valid
                then Ok (mkEnvResult false true false true true true (Some "Signature verification failed"))
                else Ok (mkEnvResult true true true true true true None)
              else Ok (mkEnvResult true true true true true true None)
          end
    end.

(** The loop of [verify_chain] at index [i]. *)
Fixpoint verify_chain_from (signing : bool) (self : EvidenceVerifier) (i : nat)
    (prev_root : option B3Hash) (envelopes : list EvidenceEnvelope)
    : result ChainVerificationResult AosError :=
  match envelopes with
  | [] => Ok (mkChainResult true i None false None)
  | e :: rest =>
      r <-? verify_envelope signing self e prev_root ;;
      if negb (is_valid r)
      then Ok (mkChainResult false (i + 1) (Some i) (negb (chain_link_valid r)) (error_message r))
      else verify_chain_from signing self (i + 1) (Some (root e)) rest
  end.

Definition verify_chain (signing : bool) (self : EvidenceVerifier) (envelopes : list EvidenceEnvelope)
    : result ChainVerificationResult AosError :=
  match envelopes with
  | [] => Ok (mkChainResult true 0 None false None)
  | _ => verify_chain_from signing self 0 None envelopes
  end.

(** [now_us] is the clock in microseconds of the epoch, read after signing. *)
Definition sign_envelope (e : EvidenceEnvelope) (signing_key_hex : string) (now_us : Z)
    : result EvidenceEnvelope AosError :=
  match hex_decode signing_key_hex with
  | Err m => Err (Crypto ("Invalid signing key hex: " +:+ m))
  | Ok key_bytes_ =>
      if negb (length key_bytes_ =? 32)%nat
      then Err (Crypto ("Invalid signing key length: expected 32, got " +:+ pretty (length key_bytes_)))
      else
        let signing_key := signing_from_bytes key_bytes_ in
        let pk := key_bytes (verifying_key signing_key) in
        Ok (e <| signature := hex_encode (sign signing_key (to_canonical_bytes e)) |>
              <| public_key := hex_encode pk |> <| key_id := compute_key_id pk |>
              <| signed_at_us := now_us mod u64_mod |>)
  end.
End Verifiers.

(** ** What the canonical bytes bind *)

Definition is_i64 (z : Z) : Prop := - 2 ^ 63 <= z < 2 ^ 63.

Definition pinned_view (o : option PinnedDegradationEvidence) : PinnedDegradationEvidence :=
  match o with
  | Some ev => mkPinned (pinned_total_count ev) (unavailable_pinned_count ev)
                 (zeroed (unavailable_pinned_set_digest_b3 ev)) (filled (pinned_fallback_mode ev))
  | None => mkPinned 0 0 (Some zero) (Some EmptyString)
  end.

Definition bundle_view (r : BundleMetadataRef) : BundleMetadataRef :=
  mkBundle (bundle_hash r) (merkle_root r) (event_count r) (filled (cpid r))
    (Some (default 0 (sequence_no r))) (Some (pinned_view (pinned_degradation_evidence r))).

(** Of an inference receipt, the KV quota and prefix cache fields are not in the bytes. *)
Definition signed_part (r : InferenceReceiptRef) : InferenceReceiptRef :=
  Ref.mkRef (Ref.trace_id r) (Ref.run_head_hash r) (Ref.output_digest r) (Ref.receipt_digest r)
    (Ref.logical_prompt_tokens r) (Ref.prefix_cached_token_count r) (Ref.billed_input_tokens r)
    (Ref.logical_output_tokens r) (Ref.billed_output_tokens r)
    (filled (Ref.stop_reason_code r)) (maxed (Ref.stop_reason_token_index r))
    (zeroed (Ref.stop_policy_digest_b3 r))
    0 0 0 None false None false 0
    (zeroed (Ref.model_cache_identity_v2_digest_b3 r)) (Ref.backend_used r)
    (Ref.backend_attestation_b3 r) (Ref.seed_lineage_hash r) (Ref.adapter_training_lineage_digest r)
    (Ref.previous_receipt_digest r) (Ref.session_sequence r)
    (zeroed (Ref.tokenizer_hash_b3 r)) (filled (Ref.tokenizer_version r))
    (filled (Ref.tokenizer_normalization r))
    (zeroed (Ref.model_build_hash_b3 r)) (zeroed (Ref.adapter_build_hash_b3 r))
    (filled (Ref.decode_algo r)) (mined (Ref.temperature_q15 r)) (mined (Ref.top_p_q15 r))
    (maxed (Ref.top_k r)) (zeroed (Ref.seed_digest_b3 r)) (filled (Ref.sampling_backend r))
    (maxed (Ref.thread_count r)) (filled (Ref.reduction_strategy r))
    (mined (Ref.stop_eos_q15 r)) (zeroed (Ref.stop_window_digest_b3 r))
    (filled (Ref.cache_scope r)) (zeroed (Ref.cached_prefix_digest_b3 r))
    (maxed (Ref.cached_prefix_len r)) (zeroed (Ref.cache_key_b3 r))
    (zeroed (Ref.retrieval_merkle_root_b3 r)) (zeroed (Ref.retrieval_order_digest_b3 r))
    (zeroed (Ref.tool_call_inputs_digest_b3 r)) (zeroed (Ref.tool_call_outputs_digest_b3 r))
    (filled (Ref.disclosure_level r)) (filled (Ref.receipt_signing_kid r))
    (filled (Ref.receipt_signed_at r)).

(** The payload of an envelope, by its scope. *)
Inductive payload : Type :=
| PBundle (r : BundleMetadataRef)
| PPolicy (r : PolicyAuditRef)
| PInference (r : InferenceReceiptRef).

Definition payload_of (e : EvidenceEnvelope) : option payload :=
  match scope e with
  | Telemetry => PBundle <$> bundle_metadata_ref e
  | Policy => PPolicy <$> policy_audit_ref e
  | Inference => PInference <$> inference_receipt_ref e
  end.

Definition payload_view (p : payload) : payload :=
  match p with
  | PBundle r => PBundle (bundle_view r)
  | PPolicy r => PPolicy r
  | PInference r => PInference (signed_part r)
  end.

(** Integers in the range of their types, strings shorter than 4 GiB. *)
Record bundle_ok (r : BundleMetadataRef) : Prop := {
  bundle_u32 : Forall is_u32
    [event_count r; pinned_total_count (pinned_view (pinned_degradation_evidence r));
     unavailable_pinned_count (pinned_view (pinned_degradation_evidence r))];
  bundle_u64 : Forall is_u64 [default 0 (sequence_no r)];
  bundle_str : Forall short
    [cpid r; pinned_fallback_mode (pinned_view (pinned_degradation_evidence r))];
}.

Record policy_ok (r : PolicyAuditRef) : Prop := {
  policy_i64 : Forall is_i64 [chain_sequence r];
  policy_str : Forall short
    [Some (decision_id r); Some (policy_pack_id r); Some (hook r); Some (decision r)];
}.

Record inference_ok (r : InferenceReceiptRef) : Prop := {
  ref_u32 : Forall is_u32
    [Ref.logical_prompt_tokens r; Ref.prefix_cached_token_count r; Ref.billed_input_tokens r;
     Ref.logical_output_tokens r; Ref.billed_output_tokens r;
     default u32_max (Ref.stop_reason_token_index r); default u32_max (Ref.top_k r);
     default u32_max (Ref.thread_count r); default u32_max (Ref.cached_prefix_len r)];
  ref_u64 : Forall is_u64 [Ref.session_sequence r];
  ref_i16 : Forall is_i16
    [default (-32768) (Ref.temperature_q15 r); default (-32768) (Ref.top_p_q15 r);
     default (-32768) (Ref.stop_eos_q15 r)];
  ref_str : Forall short
    [Some (Ref.trace_id r); Ref.stop_reason_code r; Some (Ref.backend_used r);
     Ref.tokenizer_version r; Ref.tokenizer_normalization r; Ref.decode_algo r;
     Ref.sampling_backend r; Ref.reduction_strategy r; Ref.cache_scope r; Ref.disclosure_level r;
     Ref.receipt_signing_kid r; Ref.receipt_signed_at r];
}.

Definition payload_ok (p : payload) : Prop :=
  match p with
  | PBundle r => bundle_ok r | PPolicy r => policy_ok r | PInference r => inference_ok r end.

Record envelope_ok (e : EvidenceEnvelope) : Prop := {
  env_schema : 0 <= schema_version e < 256;
  env_u64 : Forall is_u64 [signed_at_us e];
  env_str : Forall short [Some (tenant_id e); Some (created_at e); attestation_ref e];
  env_payload : exists p, payload_of e = Some p /\ payload_ok p;
}.

(** *** Big-endian fields *)

Section BigEndian.
Context {A C : Type} (ok : A -> Prop) (g : A -> list (list byte)) (w : A -> C).

Lemma delimits_be_u32 p :
  (forall a, ok a -> is_u32 (p a)) -> delimits ok g w ->
  delimits ok (fun a => encode_u32 (p a) :: g a) (fun a => (p a, w a)).
Proof. intros Hp Hg. apply delimits_be; [|done]. intros a b Ha Hb. apply le_bytes_inj; by apply Hp. Qed.

Lemma delimits_be_u64 p :
  (forall a, ok a -> is_u64 (p a)) -> delimits ok g w ->
  delimits ok (fun a => encode_u64 (p a) :: g a) (fun a => (p a, w a)).
Proof. intros Hp Hg. apply delimits_be; [|done]. intros a b Ha Hb. apply le_bytes_inj; by apply Hp. Qed.

Lemma delimits_be_signed n p :
  (forall a, ok a -> - (256 ^ Z.of_nat n) <= 2 * p a < 256 ^ Z.of_nat n) -> delimits ok g w ->
  delimits ok (fun a => be_bytes n (p a) :: g a) (fun a => (p a, w a)).
Proof.
  intros Hp Hg. apply delimits_be; [|done]. intros a b Ha Hb Eb.
  destruct (delimits_signed ok n p (fun _ => []) (fun _ => tt) Hp (delimits_nil ok) a b [] [])
    as [Ev _]; [done..|by cbn [concat]; rewrite Eb|by injection Ev].
Qed.

Lemma delimits_estr p :
  (forall a, ok a -> short (Some (p a))) -> delimits ok g w ->
  delimits ok (fun a => str_len (p a) :: as_bytes_of (p a) :: g a) (fun a => (p a, w a)).
Proof.
  intros Hp Hg a b r r' Ha Hb Ec. cbn [concat] in Ec. rewrite <- !(assoc_L (++)) in Ec.
  specialize (Hp a Ha) as Pa. specialize (Hp b Hb) as Pb. unfold short in Pa, Pb. simpl default in *.
  apply app_inj_1 in Ec as [E1 Ec]; [|unfold str_len; by rewrite !be_bytes_length].
  unfold str_len, u32_max in E1. rewrite !Z.min_l in E1 by lia.
  apply be_bytes_rev, le_bytes_inj in E1; [|unfold u32_mod in *; simpl; lia..].
  apply app_inj_1 in Ec as [E2 Ec]; [|lia]. apply as_bytes_of_inj in E2.
  apply Hg in Ec as [Ew ->]; [|done..]. by rewrite E2, Ew.
Qed.

Lemma delimits_estr_opt p :
  (forall a, ok a -> short (p a)) -> delimits ok g w ->
  delimits ok (fun a => str_len (default EmptyString (p a)) :: as_bytes_of (default EmptyString (p a)) :: g a)
    (fun a => (default EmptyString (p a), w a)).
Proof. intros Hp Hg. by apply (delimits_estr (fun a => default EmptyString (p a))). Qed.
End BigEndian.

Lemma i16_width {A} (ok : A -> Prop) p :
  (forall a, ok a -> is_i16 (p a)) ->
  forall a, ok a -> - (256 ^ Z.of_nat 2) <= 2 * p a < 256 ^ Z.of_nat 2.
Proof. intros Hp a Ha. specialize (Hp a Ha). unfold is_i16 in Hp. simpl Z.of_nat. lia. Qed.

Lemma i64_width {A} (ok : A -> Prop) p :
  (forall a, ok a -> is_i64 (p a)) ->
  forall a, ok a -> - (256 ^ Z.of_nat 8) <= 2 * p a < 256 ^ Z.of_nat 8.
Proof. intros Hp a Ha. specialize (Hp a Ha). unfold is_i64 in Hp. simpl Z.of_nat. lia. Qed.

Ltac delimit_be_field :=
  lazymatch goal with
  | |- delimits _ (fun a => str_len (default EmptyString (@?p a)) :: _ :: @?g a) _ =>
      eapply (delimits_estr_opt _ g _ p); [field_range|]
  | |- delimits _ (fun a => str_len (@?p a) :: _ :: @?g a) _ =>
      eapply (delimits_estr _ g _ p); [field_range|]
  | |- delimits _ (fun a => encode_u32 (@?p a) :: @?g a) _ =>
      eapply (delimits_be_u32 _ g _ p); [field_range|]
  | |- delimits _ (fun a => encode_u64 (@?p a) :: @?g a) _ =>
      eapply (delimits_be_u64 _ g _ p); [field_range|]
  | |- delimits _ (fun a => encode_u32_opt (@?p a) :: @?g a) _ =>
      eapply (delimits_be_u32 _ g _ (fun a => default u32_max (p a))); [field_range|]
  | |- delimits _ (fun a => encode_i16 (@?p a) :: @?g a) _ =>
      eapply (delimits_be_signed _ g _ 2 (fun a => default (-32768) (p a)));
      [apply (i16_width _ (fun a => default (-32768) (p a))); field_range|]
  | |- delimits _ (fun a => encode_i64 (@?p a) :: @?g a) _ =>
      eapply (delimits_be_signed _ g _ 8 p); [apply (i64_width _ p); field_range|]
  | |- delimits _ (fun a => marked (@?p a) :: @?g a) _ => eapply (delimits_marked _ p g)
  | _ => delimit_field
  end.

Ltac rewrite_fields :=
  repeat match goal with H : ?x = _ |- _ => rewrite H; clear H end; reflexivity.

Lemma policy_text : delimits policy_ok policy_slices id.
Proof.
  eapply delimits_view; [|unfold policy_slices, encode_str; cbn [app]; repeat delimit_be_field].
  intros [] [] _ _ E. injection E as -> -> -> -> -> ->. done.
Qed.

Lemma inference_text : delimits inference_ok inference_slices signed_part.
Proof.
  eapply delimits_view;
    [|unfold inference_slices, encode_opt_str, encode_str; cbn [app]; repeat delimit_be_field].
  intros a b _ _ E. injection E. clear E. intros.
  unfold signed_part, filled, zeroed, maxed, mined. rewrite_fields.
Qed.

Lemma pinned_slices_view o :
  pinned_slices o
  = let v := pinned_view o in
    [encode_u32 (pinned_total_count v); encode_u32 (unavailable_pinned_count v);
     digest_or_zero (unavailable_pinned_set_digest_b3 v);
     str_len (default EmptyString (pinned_fallback_mode v));
     as_bytes_of (default EmptyString (pinned_fallback_mode v))].
Proof. destruct o as [[? ? [] ?]|]; reflexivity. Qed.

Lemma pinned_view_eta o :
  pinned_view o
  = let v := pinned_view o in
    mkPinned (pinned_total_count v) (unavailable_pinned_count v)
      (Some (default zero (unavailable_pinned_set_digest_b3 v)))
      (Some (default EmptyString (pinned_fallback_mode v))).
Proof. by destruct o. Qed.

Lemma delimits_ext {A B} (ok : A -> Prop) f f' (v : A -> B) :
  (forall a, f a = f' a) -> delimits ok f' v -> delimits ok f v.
Proof. intros Ef Hf a b r r'. rewrite !Ef. apply Hf. Qed.

Lemma bundle_text : delimits bundle_ok bundle_slices bundle_view.
Proof.
  eapply delimits_view; [|eapply delimits_ext;
    [intros r; unfold bundle_slices; rewrite pinned_slices_view; reflexivity|];
    unfold encode_opt_str, encode_str; cbv zeta; cbn [app]; repeat delimit_be_field].
  intros a b _ _ E. injection E. clear E. intros.
  unfold bundle_view, filled. rewrite (pinned_view_eta (pinned_degradation_evidence a)),
    (pinned_view_eta (pinned_degradation_evidence b)). cbv zeta. rewrite_fields.
Qed.

(** The header, up to the payload. *)
Definition header_view (e : EvidenceEnvelope) :=
  (schema_version e, tenant_id e, scope e, zeroed (previous_root e), root e, created_at e,
   signed_at_us e, filled (attestation_ref e)).

Lemma scope_tag_inj s t : scope_tag s = scope_tag t -> s = t.
Proof. by destruct s, t. Qed.

Lemma header_text : delimits envelope_ok header_slices header_view.
Proof.
  eapply delimits_view; [|unfold header_slices, encode_opt_str, encode_str; cbn [app];
    eapply (delimits_unsigned _ 1 schema_version); [by intros ? []|]; delimit_be_field;
    eapply (delimits_unsigned _ 1 (fun e => scope_tag (scope e)));
      [intros ? _; destruct (scope _); done|]; repeat delimit_be_field].
  intros a b _ _ E. injection E as E1 E2 E3%scope_tag_inj E4 E5 E6 E7 E8.
  unfold header_view, zeroed, filled. by rewrite E1, E2, E3, E4, E5, E6, E7, E8.
Qed.

(** The canonical bytes determine the envelope without its signature: header and payload,
    absent options as their sentinels, the KV fields of a receipt left out. *)
Lemma envelope_bytes_inj e e' :
  envelope_ok e -> envelope_ok e' -> to_canonical_bytes e = to_canonical_bytes e' ->
  header_view e = header_view e' /\ payload_view <$> payload_of e = payload_view <$> payload_of e'.
Proof.
  intros He He' E. unfold to_canonical_bytes in E. rewrite !concat_app in E.
  apply header_text in E as [Eh E]; [|done..]. split; [done|].
  destruct He as [_ _ _ (p & Hp & Op)], He' as [_ _ _ (p' & Hp' & Op')].
  assert (Es : scope e = scope e') by (unfold header_view in Eh; congruence).
  unfold payload_of, encode_scope_payload in *. rewrite <- Es in *.
  destruct (scope e).
  - destruct (bundle_metadata_ref e), (bundle_metadata_ref e'); try discriminate.
    injection Hp as <-. injection Hp' as <-. cbn. do 2 f_equal.
    by apply (delimits_text _ _ _ _ _ bundle_text) in E.
  - destruct (policy_audit_ref e), (policy_audit_ref e'); try discriminate.
    injection Hp as <-. injection Hp' as <-. cbn. do 2 f_equal.
    by apply (delimits_text _ _ _ _ _ policy_text) in E.
  - destruct (inference_receipt_ref e), (inference_receipt_ref e'); try discriminate.
    injection Hp as <-. injection Hp' as <-. cbn. do 2 f_equal.
    by apply (delimits_text _ _ _ _ _ inference_text) in E.
Qed.

(** The digest of an envelope, which is what gets signed, commits to its header and its
    payload. *)
Theorem envelope_digest_commits `{Blake3} e e' :
  envelope_ok e -> envelope_ok e' ->
  collision_free [to_canonical_bytes e; to_canonical_bytes e'] ->
  envelope_digest e = envelope_digest e' ->
  header_view e = header_view e' /\ payload_view <$> payload_of e = payload_view <$> payload_of e'.
Proof.
  intros He He' Hc E. apply envelope_bytes_inj; [done..|].
  by apply (collision_free_inj _ _ _ Hc) in E; [|left|right; left].
Qed.

(** A receipt reference with other KV quota and prefix cache fields. *)
Definition replace_kv quota used evictions policy enforced key hit bytes (r : InferenceReceiptRef) :=
  r <| Ref.tenant_kv_quota_bytes := quota |> <| Ref.tenant_kv_bytes_used := used |>
    <| Ref.kv_evictions := evictions |> <| Ref.kv_residency_policy_id := policy |>
    <| Ref.kv_quota_enforced := enforced |> <| Ref.prefix_kv_key_b3 := key |>
    <| Ref.prefix_cache_hit := hit |> <| Ref.prefix_kv_bytes := bytes |>.

(** The KV quota and prefix cache fields of a receipt are in no envelope's bytes: they can
    be replaced under a valid signature. *)
Theorem kv_fields_unsigned e quota used evictions policy enforced key hit bytes :
  to_canonical_bytes
    (e <| inference_receipt_ref :=
            replace_kv quota used evictions policy enforced key hit bytes <$> inference_receipt_ref e |>)
  = to_canonical_bytes e.
Proof. by destruct e as [? ? [] ? ? ? ? ? ? ? ? ? ? [[]|]]. Qed.

(** ** What the verifiers accept *)

Section Verdicts.
Context `{Blake3} `{Hex} {E : Ed25519}.

(** An envelope that is what it says it is: a tenant, exactly one payload, the one of its
    scope, and the root of that payload. *)
Definition consistent (e : EvidenceEnvelope) : Prop :=
  tenant_id e <> EmptyString /\ payload_count e = 1%nat /\ compute_envelope_root e = Some (root e).

Definition well_formed (e : EvidenceEnvelope) : Prop :=
  schema_version e = EVIDENCE_ENVELOPE_SCHEMA_VERSION /\ consistent e.

Definition signature_accepted (signing : bool) (v : EvidenceVerifier) (e : EvidenceEnvelope) : Prop :=
  is_signed e = true -> verify_signature signing v e = Ok true.

Lemma is_empty_spec s : is_empty s = false <-> s <> EmptyString.
Proof. by destruct s. Qed.

Lemma validate_verifier_root e :
  schema_version e = EVIDENCE_ENVELOPE_SCHEMA_VERSION ->
  (validate e = Ok tt /\ verifier_root e = Ok (root e) <-> consistent e).
Proof.
  intros Hs. unfold validate, consistent, verifier_root, compute_envelope_root.
  rewrite Hs, Z.eqb_refl. cbn [negb].
  destruct (tenant_id e) as [|c t]; cbn [is_empty]; [intuition congruence|].
  destruct (Nat.eqb_spec (payload_count e) 1) as [Hc|Hc]; cbn [negb]; [|intuition congruence].
  destruct (scope e), (bundle_metadata_ref e), (policy_audit_ref e), (inference_receipt_ref e);
    cbn; intuition congruence.
Qed.

Lemma validate_ok_root e : validate e = Ok tt -> exists h, verifier_root e = Ok h.
Proof.
  unfold validate, verifier_root. intros Hv. branch; eauto.
Qed.

Lemma link_error_none p x :
  link_error p x = None <-> forall r, x = Some r -> p = Some r.
Proof.
  unfold link_error. destruct p as [p|], x as [x|]; try (by split); try naive_solver.
  - destruct (bool_decide (p = x)) eqn:B; breflect; naive_solver.
Qed.

(** [verify_envelope] accepts exactly the well-formed envelopes that link to the expected
    root, if one is expected, and whose signature, if there is one, is accepted. *)
Lemma verify_envelope_exact signing v e x :
  (exists r, verify_envelope signing v e x = Ok r /\ is_valid r = true)
  <-> well_formed e /\ (forall r, x = Some r -> previous_root e = Some r)
      /\ signature_accepted signing v e.
Proof.
  unfold verify_envelope, well_formed, signature_accepted. rewrite <- link_error_none.
  destruct (Z.eqb_spec (schema_version e) EVIDENCE_ENVELOPE_SCHEMA_VERSION) as [Hs|Hs]; cbn [negb];
    [|split; [intros (r & [= <-] & [=])|intuition congruence]].
  rewrite <- (validate_verifier_root e Hs).
  destruct (validate e) as [[]|err] eqn:Hv;
    [|split; [intros (r & [= <-] & [=])|intuition congruence]].
  destruct (validate_ok_root e Hv) as [h Hh]. rewrite Hh. cbn [result_bind].
  destruct (bool_decide (h <> root e)) eqn:B; breflect.
  { split; [intros (r & [= <-] & [=])|intuition congruence]. }
  apply dec_stable in B. subst h.
  destruct (link_error (previous_root e) x); [split; [intros (r & [= <-] & [=])|intuition congruence]|].
  destruct (is_signed e); [|split; [intuition congruence|eauto]].
  destruct (verify_signature signing v e) as [[]|]; cbn [result_bind negb];
    (split; [intros (r & [= <-] & [=])|try (intuition congruence)]); intuition eauto.
Qed.

(** Each envelope after the first refers to the root before it. *)
Fixpoint linked_from (prev : option B3Hash) (es : list EvidenceEnvelope) : Prop :=
  match es with
  | [] => True
  | e :: es => (forall r, prev = Some r -> previous_root e = Some r) /\ linked_from (Some (root e)) es
  end.

Definition accepted (signing : bool) (v : EvidenceVerifier) (e : EvidenceEnvelope) : Prop :=
  well_formed e /\ signature_accepted signing v e.

Lemma verify_chain_from_exact signing v es : forall i prev,
  (exists r, verify_chain_from signing v i prev es = Ok r /\ chain_is_valid r = true)
  <-> Forall (accepted signing v) es /\ linked_from prev es.
Proof.
  induction es as [|e es IH]; intros i prev; cbn [verify_chain_from linked_from].
  { split; [done|]. intros _. eauto. }
  pose proof (verify_envelope_exact signing v e prev) as He. rewrite Forall_cons.
  destruct (verify_envelope signing v e prev) as [r|err]; cbn [result_bind].
  - destruct (is_valid r) eqn:Hr; cbn [negb].
    + rewrite IH. assert (exists r', @Ok _ AosError r = Ok r' /\ is_valid r' = true) as Hx by eauto.
      apply He in Hx. unfold accepted. tauto.
    + split; [intros (? & [= <-] & [=])|]. intros [[Ha _] [Hl _]].
      destruct (proj2 He) as (? & [= <-] & ?); [unfold accepted in Ha; tauto|congruence].
  - split; [intros (? & [=] & _)|]. intros [[Ha _] [Hl _]].
    destruct (proj2 He) as (? & [=] & ?). unfold accepted in Ha. tauto.
Qed.

Lemma verify_chain_as_from signing v es :
  verify_chain signing v es = verify_chain_from signing v 0 None es.
Proof. by destruct es. Qed.

(** A rejected chain is rejected at its first envelope that is not accepted or does not
    link; everything before it is a valid chain. *)
Lemma verify_chain_from_report signing v es : forall i prev r,
  verify_chain_from signing v i prev es = Ok r -> chain_is_valid r = false ->
  exists n e, first_invalid_index r = Some (i + n)%nat /\ envelopes_checked r = (i + n + 1)%nat
    /\ es !! n = Some e
    /\ Forall (accepted signing v) (take n es) /\ linked_from prev (take n es)
    /\ ~ (Forall (accepted signing v) (take (S n) es) /\ linked_from prev (take (S n) es)).
Proof.
  induction es as [|e es IH]; intros i prev r; cbn [verify_chain_from].
  { by intros [= <-]. }
  pose proof (verify_envelope_exact signing v e prev) as He.
  destruct (verify_envelope signing v e prev) as [q|err]; cbn [result_bind]; [|done].
  destruct (is_valid q) eqn:Hq; cbn [negb].
  - intros Hr Hv. destruct (IH _ _ _ Hr Hv) as (n & e' & H1 & H2 & H3 & H4 & H5 & H6).
    exists (S n), e'. cbn [take linked_from lookup list_lookup]. rewrite !Forall_cons.
    assert (exists r', @Ok _ AosError q = Ok r' /\ is_valid r' = true) as Hx by eauto.
    apply He in Hx. unfold accepted in *. split_and!; [rewrite H1; f_equal; lia|lia|done|tauto..].
  - intros [= <-] _. exists O, e. cbn. split_and!; [f_equal; lia|lia|done|done|done|].
    intros [Ha [Hl _]]. apply Forall_inv in Ha.
    destruct (proj2 He) as (? & [= <-] & ?); [unfold accepted in Ha; tauto|congruence].
Qed.

(** Only a signature that cannot be read makes [verify_envelope] fail. *)
Lemma verify_envelope_err signing v e x err :
  verify_envelope signing v e x = Err err ->
  well_formed e /\ (forall r, x = Some r -> previous_root e = Some r)
  /\ is_signed e = true /\ verify_signature signing v e = Err err.
Proof.
  unfold verify_envelope, well_formed. rewrite <- link_error_none.
  destruct (Z.eqb_spec (schema_version e) EVIDENCE_ENVELOPE_SCHEMA_VERSION) as [Hs|Hs]; cbn [negb]; [|done].
  rewrite <- (validate_verifier_root e Hs).
  destruct (validate e) as [[]|] eqn:Hv; [|done].
  destruct (validate_ok_root e Hv) as [h Hh]. rewrite Hh. cbn [result_bind].
  destruct (bool_decide (h <> root e)) eqn:B; [done|]. breflect. apply dec_stable in B. subst h.
  destruct (link_error (previous_root e) x); [done|].
  destruct (is_signed e); [|done].
  destruct (verify_signature signing v e) as [[]|err']; cbn [result_bind negb]; [done|done|].
  intros [= ->]. done.
Qed.

Lemma verify_chain_from_err signing v es : forall i prev err,
  verify_chain_from signing v i prev es = Err err ->
  exists n e, es !! n = Some e /\ Forall (accepted signing v) (take n es)
    /\ linked_from prev (take (S n) es)
    /\ well_formed e /\ is_signed e = true /\ verify_signature signing v e = Err err.
Proof.
  induction es as [|e es IH]; intros i prev err; cbn [verify_chain_from]; [done|].
  destruct (verify_envelope signing v e prev) as [q|err'] eqn:Eq; cbn [result_bind].
  - destruct (is_valid q) eqn:Hq; cbn [negb]; [|done].
    intros (n & e' & H1 & H2 & H3 & H4)%IH.
    assert (exists r', verify_envelope signing v e prev = Ok r' /\ is_valid r' = true) as Hx by eauto.
    apply verify_envelope_exact in Hx. exists (S n), e'. cbn [take linked_from lookup list_lookup] in *.
    rewrite Forall_cons. unfold accepted in *. tauto.
  - intros [= <-]. apply verify_envelope_err in Eq as (? & ? & ? & ?). by exists O, e.
Qed.

(** [C3] [verify_chain] is exact: it accepts a chain when and only when every envelope is
    well-formed with an accepted signature and refers to the root before it. A verdict
    against the chain names the first envelope that breaks it. There is no verdict but an
    error, which names no envelope, when the first envelope that is not accepted is
    well-formed and linked and its key or signature cannot be read. *)
Theorem chain_verdict_exact signing v es :
  ((exists r, verify_chain signing v es = Ok r /\ chain_is_valid r = true)
   <-> Forall (accepted signing v) es /\ linked_from None es)
  /\ (forall r, verify_chain signing v es = Ok r -> chain_is_valid r = false ->
      exists n e, first_invalid_index r = Some n /\ es !! n = Some e
        /\ Forall (accepted signing v) (take n es) /\ linked_from None (take n es)
        /\ ~ (Forall (accepted signing v) (take (S n) es) /\ linked_from None (take (S n) es)))
  /\ (forall err, verify_chain signing v es = Err err ->
      exists n e, es !! n = Some e
        /\ Forall (accepted signing v) (take n es) /\ linked_from None (take (S n) es)
        /\ well_formed e /\ is_signed e = true /\ verify_signature signing v e = Err err).
Proof.
  rewrite verify_chain_as_from. split; [apply verify_chain_from_exact|]. split.
  - intros r Hr Hv. destruct (verify_chain_from_report _ _ _ _ _ _ Hr Hv) as (n & e & H1 & _ & H3 & H4).
    exists n, e. done.
  - intros err. apply verify_chain_from_err.
Qed.

Lemma linked_from_app prev es es' :
  linked_from prev (es ++ es')
  <-> linked_from prev es
      /\ linked_from (match last es with Some t => Some (root t) | None => prev end) es'.
Proof.
  revert prev. induction es as [|a es IH]; intros prev; cbn [app linked_from].
  - simpl. tauto.
  - rewrite IH. destruct es as [|b es]; [simpl; tauto|]. rewrite last_cons_cons.
    destruct (last (b :: es)) eqn:El; [tauto|by apply last_None in El].
Qed.

(** The root of an envelope does not depend on the envelopes before it: out of an unsigned
    chain an envelope can be taken and its successor relinked, and the chain verifies. *)
Theorem envelope_removed_unnoticed signing v es x y es' :
  is_signed y = false ->
  (exists r, verify_chain signing v (es ++ x :: y :: es') = Ok r /\ chain_is_valid r = true) ->
  exists r, verify_chain signing v (es ++ y <| previous_root := previous_root x |> :: es') = Ok r
    /\ chain_is_valid r = true.
Proof.
  intros Hy. rewrite !verify_chain_as_from, !verify_chain_from_exact.
  rewrite !linked_from_app, !Forall_app, !Forall_cons. cbn [linked_from].
  intros [(A1 & A2 & A3 & A4) (L1 & L2 & L3 & L4)]. destruct y; cbn in *.
  split_and!; try done.
  - destruct A3 as [W _]. split; [exact W|]. intros Hs. unfold is_signed in *. cbn in *. congruence.
Qed.
End Verdicts.

(** *** Ingestion *)

Section Ingestion.
Context `{Blake3} `{Hex} {E : Ed25519}.
Context (parse_rfc3339 : string -> option Z) (verify_error : string).

Lemma report_nil b err : report b err = [] <-> b = false.
Proof. by destruct b. Qed.

Lemma payload_errors_none e :
  count_errors e = [] /\ scope_errors e = [] /\ root_errors e = []
  <-> payload_count e = 1%nat /\ compute_envelope_root e = Some (root e).
Proof.
  unfold count_errors. rewrite report_nil, negb_false_iff, Nat.eqb_eq.
  cut (payload_count e = 1%nat ->
    (scope_errors e = [] /\ root_errors e = [] <-> compute_envelope_root e = Some (root e))); [tauto|].
  intros Hc.
  unfold payload_count in Hc. unfold scope_errors, root_errors, detect_payload_scope, compute_envelope_root.
  destruct (scope e), (bundle_metadata_ref e), (policy_audit_ref e), (inference_receipt_ref e);
    cbn in *; try discriminate Hc; rewrite ?report_nil, ?bool_decide_eq_false;
    intuition (try congruence).
  all: try (f_equal; apply dec_stable; assumption).
Qed.

Lemma signature_errors_none e require :
  signature_errors verify_error e require = []
  <-> (require = true -> signature e <> EmptyString
                         /\ verify_ingestion_signature verify_error e = Ok tt).
Proof.
  unfold signature_errors. destruct require; [|by split].
  destruct (signature e), (verify_ingestion_signature verify_error e) as [[]|]; cbn; intuition congruence.
Qed.

Lemma key_id_errors_none e :
  key_id_errors e = []
  <-> (public_key e <> EmptyString -> key_id e <> EmptyString ->
       compute_key_id_from_pubkey_hex (public_key e) = key_id e).
Proof.
  unfold key_id_errors. destruct (public_key e), (key_id e); cbn [is_empty negb andb]; try tauto.
  rewrite report_nil, negb_false_iff, String.eqb_eq. intuition congruence.
Qed.

Lemma timestamp_errors_none e skew now :
  timestamp_errors parse_rfc3339 e skew now = []
  <-> forall ts, parse_rfc3339 (created_at e) = Some ts -> ts <= now + skew * 10 ^ 9.
Proof.
  unfold timestamp_errors. destruct (parse_rfc3339 (created_at e)); [|by split].
  rewrite report_nil, Z.ltb_ge. naive_solver.
Qed.

Lemma ingestion_conditions e require skew now :
  ing_is_valid (validate_for_ingestion parse_rfc3339 verify_error e require skew now) = true
  <-> schema_version e <= EVIDENCE_ENVELOPE_SCHEMA_VERSION /\ tenant_id e <> EmptyString
      /\ (payload_count e = 1%nat /\ compute_envelope_root e = Some (root e))
      /\ (require = true -> signature e <> EmptyString
                           /\ verify_ingestion_signature verify_error e = Ok tt)
      /\ (public_key e <> EmptyString -> key_id e <> EmptyString ->
          compute_key_id_from_pubkey_hex (public_key e) = key_id e)
      /\ (forall ts, parse_rfc3339 (created_at e) = Some ts -> ts <= now + skew * 10 ^ 9).
Proof.
  unfold validate_for_ingestion. cbn [ing_is_valid].
  match goal with |- match ?l with _ => _ end = true <-> _ =>
    transitivity (l = []); [by destruct l|] end.
  rewrite !app_nil, !report_nil, Z.ltb_ge, is_empty_spec, signature_errors_none, key_id_errors_none,
    timestamp_errors_none, <- payload_errors_none. tauto.
Qed.

(** [validate_for_ingestion] accepts exactly the consistent envelopes of a schema up to the
    current one whose signature, key id and time stamp pass. *)
Theorem ingestion_verdict_exact e require skew now :
  ing_is_valid (validate_for_ingestion parse_rfc3339 verify_error e require skew now) = true
  <-> schema_version e <= EVIDENCE_ENVELOPE_SCHEMA_VERSION /\ consistent e
      /\ (require = true -> signature e <> EmptyString
                           /\ verify_ingestion_signature verify_error e = Ok tt)
      /\ (public_key e <> EmptyString -> key_id e <> EmptyString ->
          compute_key_id_from_pubkey_hex (public_key e) = key_id e)
      /\ (forall ts, parse_rfc3339 (created_at e) = Some ts -> ts <= now + skew * 10 ^ 9).
Proof. rewrite ingestion_conditions. unfold consistent. tauto. Qed.

Lemma linkage_exact e tail :
  ingestion_validate_chain_linkage e tail = None <-> previous_root e = fst <$> tail.
Proof.
  unfold ingestion_validate_chain_linkage. destruct tail as [[t n]|], (previous_root e) as [p|];
    cbn; try (intuition congruence).
  destruct (bool_decide (t <> p)) eqn:B; breflect; [|apply dec_stable in B]; intuition congruence.
Qed.

(** A chain grown by ingestion: each envelope passed [validate_for_ingestion] and linked to
    the tail of the chain. *)
Definition tail_of (es : list EvidenceEnvelope) : option (B3Hash * Z) :=
  (fun e => (root e, Z.of_nat (length es))) <$> last es.

Inductive ingested : list EvidenceEnvelope -> Prop :=
| ingested_nil : ingested []
| ingested_snoc es e require skew now :
    ingested es ->
    ing_is_valid (validate_for_ingestion parse_rfc3339 verify_error e require skew now) = true ->
    ingestion_validate_chain_linkage e (tail_of es) = None ->
    ingested (es ++ [e]).

Lemma ingested_linked es :
  ingested es -> Forall consistent es /\ linked_from None es.
Proof.
  induction 1 as [|es e require skew now _ [IH1 IH2] Hv Hl]; [done|].
  apply ingestion_conditions in Hv. apply linkage_exact in Hl. split.
  - apply Forall_app. split; [done|]. apply Forall_singleton. unfold consistent. tauto.
  - apply linked_from_app. split; [done|]. split; [|done]. intros r Hr. rewrite Hl. unfold tail_of.
    destruct (last es); simpl in *; congruence.
Qed.

(** Whatever was ingested envelope by envelope verifies as a chain, as long as all of it is
    of the current schema and the verifier accepts the signatures. *)
Theorem ingested_chain_verifies signing v es :
  ingested es -> Forall (fun e => schema_version e = EVIDENCE_ENVELOPE_SCHEMA_VERSION) es ->
  Forall (signature_accepted signing v) es ->
  exists r, verify_chain signing v es = Ok r /\ chain_is_valid r = true.
Proof.
  intros Hi Hs Ha. destruct (ingested_linked es Hi) as [Hc Hl].
  rewrite verify_chain_as_from. apply verify_chain_from_exact. split; [|done].
  unfold accepted, well_formed. rewrite !Forall_and. tauto.
Qed.

End Ingestion.

(** ** Signing *)

Section Signing.
Context `{Blake3} `{Hex} {E : Ed25519} `{!HexLaws _} `{!Ed25519Laws E}.
Context (verify_error : string).

(** What [sign_envelope] leaves: the signature of the bytes the envelope had before its
    time stamp was set. *)
Lemma sign_envelope_result e k now e' :
  sign_envelope e k now = Ok e' ->
  exists kb, hex_decode k = Ok kb /\ let sk := signing_from_bytes kb in
    signature e' = hex_encode (sign sk (to_canonical_bytes e))
    /\ public_key e' = hex_encode (key_bytes (verifying_key sk))
    /\ key_id e' = compute_key_id (key_bytes (verifying_key sk))
    /\ e' = e <| signature := signature e' |> <| public_key := public_key e' |>
              <| key_id := key_id e' |> <| signed_at_us := now mod u64_mod |>.
Proof.
  unfold sign_envelope. destruct (hex_decode k) as [kb|]; [|done].
  destruct (negb _); [done|]. intros [= <-]. exists kb. by destruct e.
Qed.

Lemma hex_encode_nonempty l : (0 < length l)%nat -> is_empty (hex_encode l) = false.
Proof.
  intros Hl. pose proof (hex_length l) as Hh. destruct (hex_encode l); [simpl in Hh; lia|done].
Qed.

Lemma key_id_nonempty bs : is_empty (compute_key_id bs) = false.
Proof. done. Qed.

(** Both verifiers then check that signature against the bytes with the time stamp. *)
Lemma signed_verification e k now e' v :
  sign_envelope e k now = Ok e' ->
  exists kb, hex_decode k = Ok kb /\ let sk := signing_from_bytes kb in
    verify_ingestion_signature verify_error e'
    = (if verify (verifying_key sk) (to_canonical_bytes e') (sign sk (to_canonical_bytes e))
       then Ok tt else invalid ("Cryptographic signature verification failed: " +:+ verify_error))
    /\ ((forall pk, trusted_keys v !! key_id e' = Some pk ->
                    hex_decode pk = Ok (key_bytes (verifying_key sk))) ->
        verify_signature true v e'
        = Ok (verify (verifying_key sk) (to_canonical_bytes e') (sign sk (to_canonical_bytes e)))).
Proof.
  intros (kb & Hk & Hsig & Hpk & Hkid & _)%sign_envelope_result. exists kb. split; [done|]. split.
  - unfold verify_ingestion_signature. rewrite Hpk, hex_encode_nonempty by (rewrite key_bytes_length; lia).
    rewrite Hkid, key_id_nonempty, hex_decode_encode, key_bytes_length. cbn [negb Nat.eqb].
    by rewrite key_from_to_bytes, Hsig, hex_decode_encode, sign_length.
  - intros Ht. unfold verify_signature. rewrite Hpk, hex_encode_nonempty
      by (rewrite key_bytes_length; lia). cbn [negb].
    assert (hex_decode (default (hex_encode (key_bytes (verifying_key (signing_from_bytes kb))))
      (trusted_keys v !! key_id e')) = Ok (key_bytes (verifying_key (signing_from_bytes kb)))) as Hd.
    { destruct (trusted_keys v !! key_id e') as [pk|]; cbn; [by apply Ht|apply hex_decode_encode]. }
    destruct (trusted_keys v !! key_id e') as [pk|]; rewrite Hd, key_bytes_length; cbn [negb Nat.eqb];
      by rewrite key_from_to_bytes, Hsig, hex_decode_encode, sign_length.
Qed.

Lemma signed_bytes e k now e' :
  sign_envelope e k now = Ok e' ->
  to_canonical_bytes e' = to_canonical_bytes (e <| signed_at_us := now mod u64_mod |>).
Proof. intros (kb & _ & _ & _ & _ & ->)%sign_envelope_result. by destruct e. Qed.

(** A signed envelope verifies when its time stamp is the one it had when it was signed:
    at ingestion, and with every verifier that does not hold another key of its key id,
    whether or not the key is trusted. *)
Theorem signed_envelope_verifies e k now e' v :
  sign_envelope e k now = Ok e' -> now mod u64_mod = signed_at_us e ->
  verify_ingestion_signature verify_error e' = Ok tt
  /\ ((forall kb pk, hex_decode k = Ok kb -> trusted_keys v !! key_id e' = Some pk ->
         hex_decode pk = Ok (key_bytes (verifying_key (signing_from_bytes kb)))) ->
      verify_signature true v e' = Ok true).
Proof.
  intros Hs Hn. destruct (signed_verification e k now e' v Hs) as (kb & Hk & Hi & Hv).
  assert (Hb : to_canonical_bytes e' = to_canonical_bytes e).
  { rewrite (signed_bytes e k now e' Hs), Hn. by destruct e. }
  rewrite Hb, verify_sign in *. split; [done|]. intros Ht. rewrite Hv; [done|]. intros pk. by apply Ht.
Qed.

Lemma stamped_ok e n :
  envelope_ok e -> is_u64 n -> envelope_ok (e <| signed_at_us := n |>).
Proof. intros [H1 H2 H3 H4] Hn. destruct e. constructor; try done. by apply Forall_singleton. Qed.

(** [C38] [sign_envelope] sets the time stamp after it has signed, and the time stamp is signed:
    unless the clock happens to show the old time stamp, the signature is one of other
    bytes than those it is checked against. If the scheme does not take the signature of
    the one text for one of the other, ingestion refuses the envelope, and so does every
    verifier that trusts the signer's key or no key under the key id of the envelope. *)
Theorem signed_envelope_rejected e k now e' v :
  envelope_ok e -> sign_envelope e k now = Ok e' -> now mod u64_mod <> signed_at_us e ->
  (forall kb, hex_decode k = Ok kb -> let sk := signing_from_bytes kb in
     verify (verifying_key sk) (to_canonical_bytes e') (sign sk (to_canonical_bytes e)) = true ->
     to_canonical_bytes e' = to_canonical_bytes e) ->
  (forall kb pk, hex_decode k = Ok kb -> trusted_keys v !! key_id e' = Some pk ->
     hex_decode pk = Ok (key_bytes (verifying_key (signing_from_bytes kb)))) ->
  verify_ingestion_signature verify_error e'
  = Err (SignatureInvalid ("Cryptographic signature verification failed: " +:+ verify_error))
  /\ verify_signature true v e' = Ok false.
Proof.
  intros Hok Hs Hn Hb Ht. destruct (signed_verification e k now e' v Hs) as (kb & Hk & Hi & Hv).
  specialize (Hv (fun pk => Ht kb pk Hk)). destruct (verify _ _ _) eqn:Ev; [|by rewrite Hi, Hv].
  exfalso. apply (Hb kb Hk) in Ev. rewrite (signed_bytes e k now e' Hs) in Ev.
  apply envelope_bytes_inj in Ev as [Eh _]; [|apply stamped_ok; [done|]|done].
  - unfold header_view in Eh. destruct e; cbn in *. congruence.
  - apply Z.mod_pos_bound. by vm_compute.
Qed.
End Signing.

(** ** Completeness of receipts *)

(** Strict mode accepts exactly the receipts with a backend, its attestation, a seed
    lineage and non-zero output and receipt digests. *)
Theorem strict_mode_exact r :
  validate_for_strict_mode r = Ok tt
  <-> Ref.backend_used r <> EmptyString /\ is_Some (Ref.backend_attestation_b3 r)
      /\ is_Some (Ref.seed_lineage_hash r)
      /\ Ref.output_digest r <> zero /\ Ref.receipt_digest r <> zero.
Proof.
  assert (Hz : forall h : B3Hash, bool_decide (as_bytes h = replicate 32 x00) = bool_decide (h = zero)).
  { intros h. apply bool_decide_ext. split; [|by intros ->]. apply (as_bytes_inj h zero). }
  unfold validate_for_strict_mode, validate_completeness. cbv zeta. rewrite !Hz. cbn [is_complete].
  destruct (Ref.backend_used r), (Ref.backend_attestation_b3 r), (Ref.seed_lineage_hash r); cbn -[zero];
    destruct (bool_decide (Ref.output_digest r = zero)) eqn:B1,
      (bool_decide (Ref.receipt_digest r = zero)) eqn:B2; breflect; cbn -[zero];
    (split; [intros [=]; split_and!; congruence || eauto
            |intros (? & [? ?] & [? ?] & ? & ?); congruence]).
Qed.

(** ** Pinned sets *)

Lemma pin_delimits : delimits (fun s => short (Some s)) pin_slices id.
Proof.
  eapply delimits_view; [|unfold pin_slices; eapply (delimits_estr _ _ _ id); [done|];
    eapply (delimits_fixed _ 1 (fun _ => nul)); [done|apply delimits_nil]].
  by intros a b _ _ [= Ev].
Qed.

Lemma pin_list_inj l k :
  Forall (fun s => short (Some s)) l -> Forall (fun s => short (Some s)) k ->
  concat (concat (map pin_slices l)) = concat (concat (map pin_slices k)) -> l = k.
Proof.
  revert k. induction l as [|x l IH]; intros [|y k] Hl Hk Ec.
  - done.
  - apply (f_equal length) in Ec. cbn [map concat pin_slices app] in Ec.
    rewrite !length_app in Ec. unfold str_len in Ec. rewrite be_bytes_length in Ec. simpl in Ec. lia.
  - apply (f_equal length) in Ec. cbn [map concat pin_slices app] in Ec.
    rewrite !length_app in Ec. unfold str_len in Ec. rewrite be_bytes_length in Ec. simpl in Ec. lia.
  - apply Forall_cons in Hl as [Hx Hl]. apply Forall_cons in Hk as [Hy Hk].
    cbn [map concat pin_slices app] in Ec.
    destruct (pin_delimits x y (concat (concat (map pin_slices l))) (concat (concat (map pin_slices k)))
      Hx Hy) as [Ev Er].
    { cbn [concat pin_slices]. rewrite app_nil_r, <- !(assoc_L (++)). exact Ec. }
    unfold id in Ev. subst y. f_equal. by apply IH.
Qed.

(** The digest of a set of unavailable pins is one of the set: it does not depend on the
    order of the ids, and different ids (with multiplicity) have different digests. *)
Theorem pinned_set_digest_exact `{Blake3} l k :
  Forall (fun s => short (Some s)) l -> Forall (fun s => short (Some s)) k ->
  collision_free [concat (pinned_set_slices l); concat (pinned_set_slices k)] ->
  (compute_unavailable_pinned_set_digest_b3 l = compute_unavailable_pinned_set_digest_b3 k <-> l ≡ₚ k).
Proof.
  intros Hl Hk Hc. split.
  - intros Ed. apply (collision_free_inj _ _ _ Hc) in Ed; [|by left|right; by left].
    unfold pinned_set_slices in Ed. rewrite !(concat_app [_; nul]) in Ed. apply app_inv_head in Ed.
    apply pin_list_inj in Ed; [|by rewrite stable_sort_perm..].
    by rewrite <- (stable_sort_perm String.leb l), Ed, stable_sort_perm.
  - intros Hp. unfold compute_unavailable_pinned_set_digest_b3, pinned_set_slices.
    by rewrite (ids_sort_canonical l k Hp).
Qed.

(** ** Examples *)

Section Examples.
#[local] Existing Instance toy_blake3.
#[local] Existing Instance hex_lower.
#[local] Existing Instance hex_lower_laws.
#[local] Existing Instance toy_ed25519.
#[local] Existing Instance toy_ed25519_laws.

(** A clock text is its length, for the examples. *)
Definition toy_rfc3339 (s : string) : option Z := Some (Z.of_nat (String.length s)).

Definition audit (n : Z) (h : B3Hash) : PolicyAuditRef := mkPolicyRef "dec" h n "pack" "hook" "allow".
Definition root_a : B3Hash := vec_of_Z 32 7.
Definition root_b : B3Hash := vec_of_Z 32 8.
Definition root_c : B3Hash := vec_of_Z 32 9.

#[local] Notation first := (new_policy "t" (audit 1 root_a) None "2025").
#[local] Notation second := (new_policy "t" (audit 2 root_b) (Some root_a) "2025").
#[local] Notation third := (new_policy "t" (audit 3 root_c) (Some root_b) "2025").

Ltac example_strings :=
  repeat (apply Forall_cons; split; [vm_compute; reflexivity|]); by apply Forall_nil.

Lemma policy_envelope_ok n h p : is_i64 n -> envelope_ok (new_policy "t" (audit n h) p "2025").
Proof.
  intros Hn. constructor.
  - simpl. unfold EVIDENCE_ENVELOPE_SCHEMA_VERSION. lia.
  - apply Forall_singleton. by split.
  - example_strings.
  - eexists. split; [reflexivity|]. constructor; [by apply Forall_singleton|]. example_strings.
Qed.

Lemma envelope_digest_commits_witness : envelope_digest first <> envelope_digest second.
Proof.
  intros Ed. apply envelope_digest_commits in Ed.
  - destruct Ed as [Ed _]. discriminate Ed.
  - apply policy_envelope_ok. split; lia.
  - apply policy_envelope_ok. split; lia.
  - apply collision_freeb_sound. vm_compute. reflexivity.
Defined.

Lemma chain_ingested : ingested toy_rfc3339 EmptyString [first; second; third].
Proof.
  apply (ingested_snoc _ _ [first; second] third false 0 1000); [|vm_compute; reflexivity..].
  apply (ingested_snoc _ _ [first] second false 0 1000); [|vm_compute; reflexivity..].
  apply (ingested_snoc _ _ [] first false 0 1000); [|vm_compute; reflexivity..].
  apply ingested_nil.
Qed.

Lemma ingested_chain_verifies_witness :
  exists r, verify_chain true new_verifier [first; second; third] = Ok r /\ chain_is_valid r = true.
Proof.
  apply (ingested_chain_verifies toy_rfc3339 EmptyString true new_verifier).
  - apply chain_ingested.
  - repeat constructor.
  - repeat (apply Forall_cons; split; [discriminate|]). apply Forall_nil. exact I.
Defined.

(** The second of three decisions disappears. *)
Lemma envelope_removed_unnoticed_witness :
  exists r, verify_chain true new_verifier [first; third <| previous_root := Some root_a |>] = Ok r
    /\ chain_is_valid r = true.
Proof.
  apply (envelope_removed_unnoticed true new_verifier [first] second third []).
  - reflexivity.
  - eexists. split; vm_compute; reflexivity.
Defined.

Definition signing_key : string := hex_encode (replicate 32 x2a).

Definition signed (now : Z) : EvidenceEnvelope :=
  match sign_envelope first signing_key now with Ok e => e | Err _ => first end.

Lemma signed_envelope_verifies_witness :
  verify_ingestion_signature EmptyString (signed 0) = Ok tt
  /\ verify_signature true new_verifier (signed 0) = Ok true.
Proof.
  destruct (signed_envelope_verifies EmptyString first signing_key 0 (signed 0) new_verifier)
    as [H1 H2]; [vm_compute; reflexivity|reflexivity|].
  split; [exact H1|]. apply H2. intros kb pk _ Hp. vm_compute in Hp. discriminate Hp.
Defined.

(** A verifier that trusts the key the envelope is signed with. *)
Definition trusting : EvidenceVerifier :=
  add_trusted_key (key_id (signed 0)) (public_key (signed 0)) new_verifier.

Lemma signed_envelope_rejected_witness :
  is_Some (trusted_keys trusting !! key_id (signed 1735689600000000))
  /\ verify_signature true trusting (signed 1735689600000000) = Ok false.
Proof.
  split; [eexists; vm_compute; reflexivity|].
  apply (signed_envelope_rejected EmptyString first signing_key 1735689600000000).
  - apply policy_envelope_ok. split; lia.
  - vm_compute. reflexivity.
  - vm_compute. discriminate.
  - intros kb [= <-]. vm_compute. discriminate.
  - intros kb pk [= <-] Hp. vm_compute in Hp. injection Hp as <-. vm_compute. reflexivity.
Defined.

Lemma pinned_set_digest_exact_witness :
  compute_unavailable_pinned_set_digest_b3 ["b"; "a"] = compute_unavailable_pinned_set_digest_b3 ["a"; "b"]
  /\ compute_unavailable_pinned_set_digest_b3 ["ab"] <> compute_unavailable_pinned_set_digest_b3 ["a"; "b"].
Proof.
  split.
  - apply (pinned_set_digest_exact ["b"; "a"] ["a"; "b"]);
      [example_strings|example_strings|apply collision_freeb_sound; vm_compute; reflexivity
      |apply Permutation_swap].
  - intros Ed. apply (pinned_set_digest_exact ["ab"] ["a"; "b"]) in Ed;
      [|example_strings|example_strings|apply collision_freeb_sound; vm_compute; reflexivity].
    apply Permutation_length in Ed. discriminate Ed.
Defined.
End Examples.
