(* ===== verification/ReceiptVerify.v ===== *)
(** * Third-party verification of receipts (adapteros-core/src/third_party_verification.rs,
    context_digest.rs)

    A third party that holds a receipt digest and claimed values recomputes the context
    digest, the output digest and the receipt digest and compares. The claims are the
    records [ClaimedConfig] and [ClaimedValues]; an [InferenceReceiptRef] of the evidence
    chain is checked in the same way. *)

From S2P Require Import Prelude Hashing Signatures ReceiptDigest Evidence.

Local Open Scope Z.
Local Open Scope aos.

(** ** Context digests *)

Definition token_slices (prompt_tokens : list Z) : list (list byte) :=
  le_bytes 4 (Z.of_nat (length prompt_tokens) mod u32_mod) :: map (le_bytes 4) prompt_tokens.

(** [u32_le(len)] and the bytes, if there is a string. *)
Definition opt_string (o : option string) : list (list byte) :=
  match o with Some s => [len_le (as_bytes_of s); as_bytes_of s] | None => [] end.

Definition compute_context_digest_bytes (tenant_namespace : string) (stack_hash : list byte)
    (tokenizer_hash_b3 : option (list byte)) (tokenizer_version tokenizer_normalization : option string)
    (prompt_tokens : list Z) : list byte :=
  concat ([as_bytes_of tenant_namespace; stack_hash]
          ++ match tokenizer_hash_b3 with
             | Some h => [h] ++ opt_string tokenizer_version ++ opt_string tokenizer_normalization
             | None => []
             end
          ++ token_slices prompt_tokens).

(** ** Claims *)

Module Claim.
Record ClaimedConfig : Type := mkConfig {
  tenant_namespace : string;
  stack_hash : B3Hash;
  prompt_tokens : list Z;
  stop_reason_code : option string;
  stop_reason_token_index : option Z;
  stop_policy_digest_b3 : option B3Hash;
  tenant_kv_quota_bytes : Z;
  tenant_kv_bytes_used : Z;
  kv_evictions : Z;
  kv_residency_policy_id : option string;
  kv_quota_enforced : bool;
  prefix_kv_key_b3 : option B3Hash;
  prefix_cache_hit : bool;
  prefix_kv_bytes : Z;
  model_cache_identity_v2_digest_b3 : option B3Hash;
  equipment_profile_digest_b3 : option B3Hash;
  processor_id : option string;
  mlx_version : option string;
  ane_version : option string;
  citations_merkle_root_b3 : option B3Hash;
  citation_count : Z;
  previous_receipt_digest : option B3Hash;
  session_sequence : Z;
  tokenizer_hash_b3 : option B3Hash;
  tokenizer_version : option string;
  tokenizer_normalization : option string;
  model_build_hash_b3 : option B3Hash;
  adapter_build_hash_b3 : option B3Hash;
  decode_algo : option string;
  temperature_q15 : option Z;
  top_p_q15 : option Z;
  top_k : option Z;
  seed_digest_b3 : option B3Hash;
  sampling_backend : option string;
  thread_count : option Z;
  reduction_strategy : option string;
  stop_eos_q15 : option Z;
  stop_window_digest_b3 : option B3Hash;
  cache_scope : option string;
  cached_prefix_digest_b3 : option B3Hash;
  cached_prefix_len : option Z;
  cache_key_b3 : option B3Hash;
  retrieval_merkle_root_b3 : option B3Hash;
  retrieval_order_digest_b3 : option B3Hash;
  tool_call_inputs_digest_b3 : option B3Hash;
  tool_call_outputs_digest_b3 : option B3Hash;
  disclosure_level : option string;
}.

(** A configuration with [..Default::default()] after the first three fields. *)
Definition basic (tenant : string) (stack : B3Hash) (prompt : list Z) : ClaimedConfig :=
  mkConfig tenant stack prompt None None None 0 0 0 None false None false 0 None
    None None None None None 0 None 0 None None None None None None None None None None None
    None None None None None None None None None None None None None.

Record ClaimedValues : Type := mkValues {
  output_tokens : list Z;
  run_head_hash : B3Hash;
  config : ClaimedConfig;
  logical_prompt_tokens : Z;
  prefix_cached_token_count : Z;
  billed_input_tokens : Z;
  logical_output_tokens : Z;
  billed_output_tokens : Z;
}.

Definition new (tokens : list Z) (head : B3Hash) (c : ClaimedConfig) : ClaimedValues :=
  let prompt := Z.of_nat (length (prompt_tokens c)) mod u32_mod in
  let output := Z.of_nat (length tokens) mod u32_mod in
  mkValues tokens head c prompt 0 prompt output output.

Definition with_token_accounting (prompt cached billed_in output billed_out : Z)
    (self : ClaimedValues) : ClaimedValues :=
  self <| logical_prompt_tokens := prompt |> <| prefix_cached_token_count := cached |>
    <| billed_input_tokens := billed_in |> <| logical_output_tokens := output |>
    <| billed_output_tokens := billed_out |>.
End Claim.
Notation ClaimedConfig := Claim.ClaimedConfig.
Notation ClaimedValues := Claim.ClaimedValues.

(** ** Results *)

Inductive MismatchReason : Type :=
| ContextDigestMismatch (computed : string) (expected : option string)
| OutputDigestMismatch (computed : string) (expected : option string)
| ReceiptDigestMismatch (computed claimed : string)
| UnsupportedSchemaVersion (version : Z)
| ParseError (message : string).

Definition mismatch_text (m : MismatchReason) : string :=
  match m with
  | ContextDigestMismatch c e =>
      "Context digest mismatch: computed " +:+ c +:+ " vs expected " +:+ debug_option e
  | OutputDigestMismatch c e =>
      "Output digest mismatch: computed " +:+ c +:+ " vs expected " +:+ debug_option e
  | ReceiptDigestMismatch c k => "Receipt digest mismatch: computed " +:+ c +:+ " vs claimed " +:+ k
  | UnsupportedSchemaVersion v => "Unsupported schema version: " +:+ pretty v
  | ParseError m => "Parse error: " +:+ m
  end.

Record VerificationResult : Type := mkVerification {
  verified : bool;
  mismatch_reason : option MismatchReason;
  computed_context_digest : B3Hash;
  computed_output_digest : B3Hash;
  computed_receipt_digest : B3Hash;
  result_schema_version : Z;
}.

Definition success (ctx out receipt : B3Hash) (v : Z) : VerificationResult :=
  mkVerification true None ctx out receipt v.

Definition failure (reason : MismatchReason) (ctx out receipt : B3Hash) (v : Z) : VerificationResult :=
  mkVerification false (Some reason) ctx out receipt v.

Section Verify.
Context `{Blake3} `{Hex}.

Definition compute_context_digest (c : ClaimedConfig) : B3Hash :=
  Hashing.hash (compute_context_digest_bytes (Claim.tenant_namespace c) (as_bytes (Claim.stack_hash c))
    (as_bytes <$> Claim.tokenizer_hash_b3 c) (Claim.tokenizer_version c)
    (Claim.tokenizer_normalization c) (Claim.prompt_tokens c)).

Definition build_receipt_input (claimed : ClaimedValues) (ctx out : B3Hash) : ReceiptDigestInput :=
  let c := Claim.config claimed in
  let input := new ctx (Claim.run_head_hash claimed) out
    (Claim.logical_prompt_tokens claimed) (Claim.prefix_cached_token_count claimed)
    (Claim.billed_input_tokens claimed) (Claim.logical_output_tokens claimed)
    (Claim.billed_output_tokens claimed) in
  let input := with_stop_controller (Claim.stop_reason_code c) (Claim.stop_reason_token_index c)
    (Claim.stop_policy_digest_b3 c) input in
  let input := with_kv_quota (Claim.tenant_kv_quota_bytes c) (Claim.tenant_kv_bytes_used c)
    (Claim.kv_evictions c) (Claim.kv_residency_policy_id c) (Claim.kv_quota_enforced c) input in
  let input := with_prefix_cache (Claim.prefix_kv_key_b3 c) (Claim.prefix_cache_hit c)
    (Claim.prefix_kv_bytes c) input in
  let input := with_model_cache_identity (Claim.model_cache_identity_v2_digest_b3 c) input in
  let input := with_equipment_profile (Claim.equipment_profile_digest_b3 c) (Claim.processor_id c)
    (Claim.mlx_version c) (Claim.ane_version c) input in
  let input := with_citations (Claim.citations_merkle_root_b3 c) (Claim.citation_count c) input in
  let input := with_cross_run_lineage (Claim.previous_receipt_digest c) (Claim.session_sequence c) input in
  let input := with_tokenizer_identity (Claim.tokenizer_hash_b3 c) (Claim.tokenizer_version c)
    (Claim.tokenizer_normalization c) input in
  let input := with_build_provenance (Claim.model_build_hash_b3 c) (Claim.adapter_build_hash_b3 c) input in
  let input := with_decoder_config (Claim.decode_algo c) (Claim.temperature_q15 c) (Claim.top_p_q15 c)
    (Claim.top_k c) (Claim.seed_digest_b3 c) (Claim.sampling_backend c) input in
  let input := with_concurrency_determinism (Claim.thread_count c) (Claim.reduction_strategy c) input in
  let input := with_stop_controller_inputs (Claim.stop_eos_q15 c) (Claim.stop_window_digest_b3 c) input in
  let input := with_cache_proof (Claim.cache_scope c) (Claim.cached_prefix_digest_b3 c)
    (Claim.cached_prefix_len c) (Claim.cache_key_b3 c) input in
  let input := with_retrieval_tool_binding (Claim.retrieval_merkle_root_b3 c)
    (Claim.retrieval_order_digest_b3 c) (Claim.tool_call_inputs_digest_b3 c)
    (Claim.tool_call_outputs_digest_b3 c) input in
  with_disclosure_level (Claim.disclosure_level c) input.

(** The comparison at the end of each of the checks. *)
Definition compare_digest (computed : option B3Hash) (claimed ctx out : B3Hash) (v : Z)
    : VerificationResult :=
  match computed with
  | None => failure (UnsupportedSchemaVersion v) ctx out zero v
  | Some d =>
      if bool_decide (d = claimed) then success ctx out d v
      else failure (ReceiptDigestMismatch (to_hex d) (to_hex claimed)) ctx out d v
  end.

Definition verify_receipt (receipt_digest : B3Hash) (claimed : ClaimedValues) (v : Z)
    : result VerificationResult AosError :=
  if RECEIPT_SCHEMA_V7 <? v then Ok (failure (UnsupportedSchemaVersion v) zero zero zero v)
  else
    let ctx := compute_context_digest (Claim.config claimed) in
    let out := compute_output_digest (Claim.output_tokens claimed) in
    let input := build_receipt_input claimed ctx out in
    Ok (compare_digest (compute_receipt_digest input v) receipt_digest ctx out v).

Definition verify_receipt_hex (receipt_digest_hex : string) (claimed : ClaimedValues) (v : Z)
    : result VerificationResult AosError :=
  match from_hex receipt_digest_hex with
  | Err e => Err (Validation ("Invalid receipt digest hex: " +:+ error_text e))
  | Ok d => verify_receipt d claimed v
  end.

Definition verify_receipt_with_precomputed (receipt_digest ctx head out : B3Hash)
    (prompt cached billed_in output billed_out v : Z) : result VerificationResult AosError :=
  if RECEIPT_SCHEMA_V7 <? v then Ok (failure (UnsupportedSchemaVersion v) ctx out zero v)
  else
    let input := new ctx head out prompt cached billed_in output billed_out in
    Ok (compare_digest (compute_receipt_digest input v) receipt_digest ctx out v).

Definition evidence_input (r : InferenceReceiptRef) (ctx : B3Hash) : ReceiptDigestInput :=
  let input := new ctx (Ref.run_head_hash r) (Ref.output_digest r) (Ref.logical_prompt_tokens r)
    (Ref.prefix_cached_token_count r) (Ref.billed_input_tokens r) (Ref.logical_output_tokens r)
    (Ref.billed_output_tokens r) in
  let input := with_stop_controller (Ref.stop_reason_code r) (Ref.stop_reason_token_index r)
    (Ref.stop_policy_digest_b3 r) input in
  let input := with_kv_quota (Ref.tenant_kv_quota_bytes r) (Ref.tenant_kv_bytes_used r)
    (Ref.kv_evictions r) (Ref.kv_residency_policy_id r) (Ref.kv_quota_enforced r) input in
  let input := with_prefix_cache (Ref.prefix_kv_key_b3 r) (Ref.prefix_cache_hit r)
    (Ref.prefix_kv_bytes r) input in
  with_model_cache_identity (Ref.model_cache_identity_v2_digest_b3 r) input.

Definition verify_evidence_receipt_consistency (r : InferenceReceiptRef) (context_digest : option B3Hash)
    (v : Z) : result VerificationResult AosError :=
  let ctx := default zero context_digest in
  Ok (compare_digest (compute_receipt_digest (evidence_input r ctx) v) (Ref.receipt_digest r) ctx
        (Ref.output_digest r) v).

Definition verify_output_against_receipt (r : InferenceReceiptRef) (claimed_output_tokens : list Z)
    (context_digest : B3Hash) (v : Z) : result VerificationResult AosError :=
  let out := compute_output_digest claimed_output_tokens in
  if bool_decide (out <> Ref.output_digest r)
  then Ok (failure (OutputDigestMismatch (to_hex out) (Some (to_hex (Ref.output_digest r))))
         context_digest out zero v)
  else verify_evidence_receipt_consistency r (Some context_digest) v.
End Verify.

(** ** Verdicts *)

Section Verdicts.
Context `{Blake3} `{Hex}.

(** The receipt a claim describes. *)
Definition input_of (c : ClaimedValues) : ReceiptDigestInput :=
  build_receipt_input c (compute_context_digest (Claim.config c))
    (compute_output_digest (Claim.output_tokens c)).

Definition accepts (r : result VerificationResult AosError) : Prop :=
  exists x, r = Ok x /\ verified x = true.

Lemma compare_digest_verified o d ctx out v :
  verified (compare_digest o d ctx out v) = true <-> o = Some d.
Proof.
  unfold compare_digest. destruct o as [d'|]; [|by split].
  destruct (bool_decide (d' = d)) eqn:B; breflect; simpl; intuition congruence.
Qed.

Lemma accepts_ok x : accepts (Ok x) <-> verified x = true.
Proof. unfold accepts. naive_solver. Qed.

Lemma verify_receipt_accepts d c v :
  accepts (verify_receipt d c v) <-> v <= 7 /\ compute_receipt_digest (input_of c) v = Some d.
Proof.
  unfold verify_receipt, RECEIPT_SCHEMA_V7. destruct (Z.ltb_spec 7 v) as [Hv|Hv]; rewrite accepts_ok.
  - simpl. intuition (congruence || lia).
  - rewrite compare_digest_verified. unfold input_of. tauto.
Qed.

Lemma digest_supported i v d : compute_receipt_digest i v = Some d -> supported v.
Proof.
  intros Hd. destruct (decide (supported v)) as [Hs|Hs]; [done|]. by rewrite unsupported_digest in Hd.
Qed.

(** A receipt verifies for exactly the claims that describe it: the digest issued for the
    receipt [i] is accepted together with a claim when and only when the receipt the claim
    describes agrees with [i] in everything the schema version binds. *)
Theorem third_party_verdict_exact d i c v :
  v <= 7 -> compute_receipt_digest i v = Some d -> in_range i -> in_range (input_of c) ->
  collision_free (texts v (input_of c) ++ texts v i) ->
  (accepts (verify_receipt d c v) <-> canonical v (input_of c) = canonical v i).
Proof.
  intros Hv Hd Hi Hc Hcf. rewrite verify_receipt_accepts, <- Hd.
  rewrite <- (receipt_digest_agree v (input_of c) i); [tauto|by eapply digest_supported|done..].
Qed.

(** [C4] A verified receipt binds its outcome: two claims that verify against one receipt claim
    the same output tokens, the same decision chain and the same billing. *)
Theorem verified_claims_agree d c c' v :
  accepts (verify_receipt d c v) -> accepts (verify_receipt d c' v) ->
  in_range (input_of c) -> in_range (input_of c') ->
  collision_free (texts v (input_of c) ++ texts v (input_of c')) ->
  collision_free [output_bytes (Claim.output_tokens c); output_bytes (Claim.output_tokens c')] ->
  Z.of_nat (length (Claim.output_tokens c)) < u32_mod ->
  Z.of_nat (length (Claim.output_tokens c')) < u32_mod ->
  Forall is_u32 (Claim.output_tokens c) -> Forall is_u32 (Claim.output_tokens c') ->
  Claim.output_tokens c = Claim.output_tokens c' /\ Claim.run_head_hash c = Claim.run_head_hash c'
  /\ Claim.billed_input_tokens c = Claim.billed_input_tokens c'
  /\ Claim.billed_output_tokens c = Claim.billed_output_tokens c'
  /\ Claim.prefix_cached_token_count c = Claim.prefix_cached_token_count c'
  /\ compute_context_digest (Claim.config c) = compute_context_digest (Claim.config c').
Proof.
  intros [_ Hd]%verify_receipt_accepts [_ Hd']%verify_receipt_accepts Hr Hr' Hc Ho L1 L2 F1 F2.
  assert (Hs : supported v) by (by eapply digest_supported).
  rewrite <- Hd' in Hd. apply receipt_core_agree in Hd; [|done..].
  destruct c, c'. cbn in *. injection Hd. intros. split_and!; try done.
  eapply output_bytes_inj; [done..|].
  eapply (collision_free_inj _ _ _ Ho); [by left|right; by left|done].
Qed.

(** *** Receipts of a backend *)

Definition binds_backend (v : Z) : Prop := v = 2 \/ v = 3 \/ 5 <= v <= 7.

Lemma canonical_backend v i :
  binds_backend v ->
  backend_used (canonical v i) = filled (backend_used i)
  /\ backend_attestation_b3 (canonical v i) = backend_attestation_b3 i.
Proof.
  unfold binds_backend. intros Hv.
  assert (v = 2 \/ v = 3 \/ v = 5 \/ v = 6 \/ v = 7) as [->|[->|[->|[->| ->]]]] by lia;
    by split.
Qed.

(** An input without backend never has the digest of a receipt with one. *)
Lemma backend_mismatch v i j d :
  binds_backend v -> backend_used j = None -> backend_attestation_b3 j = None ->
  filled (backend_used i) <> Some EmptyString \/ is_Some (backend_attestation_b3 i) ->
  compute_receipt_digest i v = Some d -> in_range i -> in_range j ->
  collision_free (texts v j ++ texts v i) -> compute_receipt_digest j v <> Some d.
Proof.
  intros Hv Hu Ha Hb Hd Hi Hj Hc E. rewrite <- Hd in E.
  apply receipt_digest_agree in E; [|by eapply digest_supported|done..].
  destruct (canonical_backend v i Hv) as [E1 E2], (canonical_backend v j Hv) as [E3 E4].
  rewrite E, Hu in E3. rewrite E, Ha in E4. rewrite E1 in E3. rewrite E2 in E4.
  destruct Hb as [Hb|[x Hb]]; [by apply Hb|congruence].
Qed.

(** The claims of a third party have no backend and a receipt reference is read without
    its own: where the receipt binds a backend (versions 2, 3 and 5 to 7), the receipt of
    a run on a named or attested backend is refused, whatever is claimed. *)
Theorem backend_receipts_refused v i d c r ctx :
  binds_backend v ->
  filled (backend_used i) <> Some EmptyString \/ is_Some (backend_attestation_b3 i) ->
  compute_receipt_digest i v = Some d -> in_range i ->
  in_range (input_of c) -> collision_free (texts v (input_of c) ++ texts v i) ->
  in_range (evidence_input r ctx) -> collision_free (texts v (evidence_input r ctx) ++ texts v i) ->
  Ref.receipt_digest r = d ->
  ~ accepts (verify_receipt d c v)
  /\ ~ accepts (verify_evidence_receipt_consistency r (Some ctx) v).
Proof.
  intros Hv Hb Hd Hi Hc Hcc Hr Hcr Er. split.
  - intros [_ E]%verify_receipt_accepts. by eapply (backend_mismatch v i (input_of c)) in E.
  - unfold verify_evidence_receipt_consistency. rewrite accepts_ok, compare_digest_verified, Er.
    intros E. by eapply (backend_mismatch v i (evidence_input r ctx)) in E.
Qed.

(** Receipts of the current schema are not verified at all. *)
Theorem current_schema_refused d c :
  verify_receipt d c RECEIPT_SCHEMA_CURRENT
  = Ok (failure (UnsupportedSchemaVersion RECEIPT_SCHEMA_CURRENT) zero zero zero RECEIPT_SCHEMA_CURRENT).
Proof. done. Qed.

(** *** Variants *)

(** The digest may be given as hexadecimal text. *)
Theorem hex_verification_agrees `{!HexLaws _} d c v :
  verify_receipt_hex (to_hex d) c v = verify_receipt d c v.
Proof. unfold verify_receipt_hex. by rewrite from_hex_to_hex. Qed.

(** With the digests computed beforehand and nothing claimed but the core, the two checks
    give one result. *)
Theorem precomputed_agrees d tokens head tenant stack prompt n1 n2 n3 n4 n5 v :
  v <= 7 ->
  let c := Claim.mkValues tokens head (Claim.basic tenant stack prompt) n1 n2 n3 n4 n5 in
  verify_receipt d c v
  = verify_receipt_with_precomputed d (compute_context_digest (Claim.config c)) head
      (compute_output_digest tokens) n1 n2 n3 n4 n5 v.
Proof.
  intros Hv c. unfold verify_receipt, verify_receipt_with_precomputed, RECEIPT_SCHEMA_V7.
  destruct (Z.ltb_spec 7 v); [lia|]. reflexivity.
Qed.

(** Output tokens are accepted against a receipt reference exactly when they hash to its
    output digest and its receipt digest is that of its own fields. *)
Theorem output_against_receipt_exact r tokens ctx v :
  accepts (verify_output_against_receipt r tokens ctx v)
  <-> compute_output_digest tokens = Ref.output_digest r
      /\ compute_receipt_digest (evidence_input r ctx) v = Some (Ref.receipt_digest r).
Proof.
  unfold verify_output_against_receipt, verify_evidence_receipt_consistency.
  destruct (bool_decide (compute_output_digest tokens <> Ref.output_digest r)) eqn:B; breflect;
    rewrite accepts_ok, ?compare_digest_verified.
  - simpl. intuition congruence.
  - apply dec_stable in B. tauto.
Qed.
End Verdicts.

(** ** What a context digest binds *)

Lemma as_bytes_of_app a b : as_bytes_of (a +:+ b) = as_bytes_of a ++ as_bytes_of b.
Proof. induction a as [|x a IH]; [done|]. exact (f_equal (cons (Ascii.byte_of_ascii x)) IH). Qed.

Section ContextDigests.
Context `{Blake3} `{Hex}.

Definition context_bytes (c : ClaimedConfig) : list byte :=
  compute_context_digest_bytes (Claim.tenant_namespace c) (as_bytes (Claim.stack_hash c))
    (as_bytes <$> Claim.tokenizer_hash_b3 c) (Claim.tokenizer_version c)
    (Claim.tokenizer_normalization c) (Claim.prompt_tokens c).

(** Which of the optional parts of a context are there. *)
Definition shape (c : ClaimedConfig) : bool * bool * bool :=
  (some_b (Claim.tokenizer_hash_b3 c), some_b (Claim.tokenizer_version c),
   some_b (Claim.tokenizer_normalization c)).

Record context_ok (c : ClaimedConfig) : Prop := {
  context_strings : Forall short [Claim.tokenizer_version c; Claim.tokenizer_normalization c];
  context_count : Z.of_nat (length (Claim.prompt_tokens c)) < u32_mod;
  context_tokens : Forall is_u32 (Claim.prompt_tokens c);
}.

Lemma token_slices_bytes l : concat (token_slices l) = output_bytes l.
Proof. done. Qed.

Lemma opt_string_inj o o' r r' :
  some_b o = some_b o' -> short o -> short o' ->
  concat (opt_string o) ++ r = concat (opt_string o') ++ r' -> o = o' /\ r = r'.
Proof.
  destruct o as [s|], o' as [s'|]; try done. intros _ Hs Hs' Ec.
  destruct (delimits_str (fun s => short (Some s)) (fun _ => []) (fun _ => tt) Some
    (fun _ Ha => Ha) (delimits_nil _) s s' r r' Hs Hs' Ec) as [Ev Er]. by injection Ev as ->.
Qed.

(** Two contexts of one digest, with tenants of one length and the same optional parts,
    are the same tenant, stack, tokenizer and prompt. *)
Theorem context_digest_commits c c' :
  context_ok c -> context_ok c' -> shape c = shape c' ->
  length (as_bytes_of (Claim.tenant_namespace c)) = length (as_bytes_of (Claim.tenant_namespace c')) ->
  collision_free [context_bytes c; context_bytes c'] ->
  compute_context_digest c = compute_context_digest c' ->
  Claim.tenant_namespace c = Claim.tenant_namespace c' /\ Claim.stack_hash c = Claim.stack_hash c'
  /\ Claim.prompt_tokens c = Claim.prompt_tokens c'
  /\ Claim.tokenizer_hash_b3 c = Claim.tokenizer_hash_b3 c'
  /\ (is_Some (Claim.tokenizer_hash_b3 c) ->
      Claim.tokenizer_version c = Claim.tokenizer_version c'
      /\ Claim.tokenizer_normalization c = Claim.tokenizer_normalization c').
Proof.
  intros [S1 N1 T1] [S2 N2 T2] [= Sh1 Sh2 Sh3] Hl Hc Ed.
  eapply (collision_free_inj _ (context_bytes c) (context_bytes c') Hc) in Ed; [|by left|right; by left].
  rewrite !Forall_cons in S1, S2. destruct S1 as (V1 & M1 & _), S2 as (V2 & M2 & _).
  unfold context_bytes, compute_context_digest_bytes in Ed. cbn [app concat] in Ed.
  apply app_inj_1 in Ed as [E1 Ed]; [|done]. apply as_bytes_of_inj in E1.
  apply app_inj_1 in Ed as [E2 Ed]; [|by rewrite !as_bytes_length]. apply as_bytes_inj in E2.
  rewrite !concat_app, !token_slices_bytes in Ed.
  destruct (Claim.tokenizer_hash_b3 c) as [h|], (Claim.tokenizer_hash_b3 c') as [h'|]; try done; cbn in Ed.
  - rewrite <- !(assoc_L (++)) in Ed.
    apply app_inj_1 in Ed as [E3 Ed]; [|by rewrite !as_bytes_length]. apply as_bytes_inj in E3 as ->.
    rewrite !concat_app, <- !(assoc_L (++)) in Ed.
    apply opt_string_inj in Ed as [E4 Ed]; [|done..].
    apply opt_string_inj in Ed as [E5 Ed]; [|done..].
    apply output_bytes_inj in Ed; [|done..]. done.
  - apply output_bytes_inj in Ed; [|done..]. split_and!; done.
Qed.

(** Two stack hashes: one that begins with the letters of a tenant name, one that ends
    with a token count. *)
Definition stack_one : B3Hash := list_to_vec (as_bytes_of "-eve" ++ replicate 28 x00).
Definition stack_two : B3Hash := list_to_vec (replicate 28 x00 ++ [x01; x00; x00; x00]).

(** The tenant name has no length in front of it and runs into the stack hash: one context
    digest, and so one receipt, stands for two tenants with different prompts. *)
Theorem receipt_of_another_tenant d tokens head tenant n1 n2 n3 n4 n5 v :
  let claim c := Claim.mkValues tokens head c n1 n2 n3 n4 n5 in
  accepts (verify_receipt d (claim (Claim.basic tenant stack_one [0])) v)
  <-> accepts (verify_receipt d (claim (Claim.basic (tenant +:+ "-eve") stack_two [])) v).
Proof.
  intros claim. rewrite !verify_receipt_accepts.
  assert (Ec : compute_context_digest (Claim.basic tenant stack_one [0])
    = compute_context_digest (Claim.basic (tenant +:+ "-eve") stack_two [])).
  { unfold compute_context_digest. f_equal. unfold compute_context_digest_bytes.
    cbn [concat app Claim.basic Claim.tenant_namespace]. rewrite as_bytes_of_app, <- (assoc_L (++)). f_equal. }
  unfold input_of. cbn [Claim.config Claim.output_tokens claim]. by rewrite Ec.
Qed.
End ContextDigests.

(** ** Examples *)

Section Examples.
#[local] Existing Instance toy_blake3.
#[local] Existing Instance hex_lower.

Definition claim_a : ClaimedValues :=
  Claim.new [101; 42; 2] (vec_of_Z 32 3) (Claim.basic "t" (vec_of_Z 32 4) [11; 22]).
Definition claim_b : ClaimedValues := Claim.with_token_accounting 2 0 2 3 3 claim_a.

Ltac example_list :=
  repeat (apply Forall_cons; split; [vm_compute; done|]); by apply Forall_nil.
Ltac example_input := constructor; example_list.
Ltac example_free := apply collision_freeb_sound; vm_compute; reflexivity.

Lemma claim_a_range : in_range (input_of claim_a).
Proof. example_input. Defined.
Lemma claim_b_range : in_range (input_of claim_b).
Proof. example_input. Defined.

Definition issued (v : Z) : B3Hash := default zero (compute_receipt_digest (input_of claim_a) v).

Lemma third_party_verdict_exact_witness : accepts (verify_receipt (issued 4) claim_b 4).
Proof.
  apply (third_party_verdict_exact (issued 4) (input_of claim_a) claim_b 4);
    [lia|vm_compute; reflexivity|apply claim_a_range|apply claim_b_range|example_free|].
  vm_compute. reflexivity.
Defined.

Lemma verified_claims_agree_witness :
  Claim.output_tokens claim_a = Claim.output_tokens claim_b.
Proof.
  destruct (verified_claims_agree (issued 1) claim_a claim_b 1) as [Eo _]; [..|exact Eo];
    first [apply claim_a_range|apply claim_b_range|example_free|example_list
          |vm_compute; reflexivity|idtac].
  - eexists. split; [vm_compute; reflexivity|reflexivity].
  - eexists. split; [vm_compute; reflexivity|reflexivity].
Defined.

(** A receipt of a run on a backend, and a reference to it. *)
Definition backend_receipt : ReceiptDigestInput := with_backend (Some "mlx") None (input_of claim_a).
Definition backend_digest : B3Hash := default zero (compute_receipt_digest backend_receipt 5).
Definition backend_ref : InferenceReceiptRef :=
  Ref.mkRef "trace" (vec_of_Z 32 3) (output_digest backend_receipt) backend_digest 2 0 2 3 3
    None None None 0 0 0 None false None false 0 None "mlx" None None None None 0
    None None None None None None None None None None None None None None None None None None None
    None None None None None None None.

Lemma backend_receipts_refused_witness :
  ~ accepts (verify_receipt backend_digest claim_a 5)
  /\ ~ accepts (verify_evidence_receipt_consistency backend_ref (Some (context_digest backend_receipt)) 5).
Proof.
  apply (backend_receipts_refused 5 backend_receipt backend_digest claim_a backend_ref).
  - right. right. lia.
  - left. discriminate.
  - vm_compute. reflexivity.
  - example_input.
  - apply claim_a_range.
  - example_free.
  - example_input.
  - example_free.
  - reflexivity.
Defined.

Lemma precomputed_agrees_witness :
  verify_receipt (issued 3) claim_a 3
  = verify_receipt_with_precomputed (issued 3) (compute_context_digest (Claim.config claim_a))
      (vec_of_Z 32 3) (compute_output_digest [101; 42; 2]) 2 0 2 3 3 3.
Proof. apply (precomputed_agrees (issued 3) [101; 42; 2] (vec_of_Z 32 3) "t" (vec_of_Z 32 4) [11; 22]). lia. Defined.

Lemma hex_verification_agrees_witness :
  verify_receipt_hex (to_hex (issued 1)) claim_a 1 = verify_receipt (issued 1) claim_a 1.
Proof. apply (@hex_verification_agrees _ _ hex_lower_laws). Defined.

Lemma context_digest_commits_witness :
  compute_context_digest (Claim.basic "ta" stack_one [5]) <> compute_context_digest (Claim.basic "tb" stack_one [5]).
Proof.
  intros Ed. apply (context_digest_commits (Claim.basic "ta" stack_one [5]) (Claim.basic "tb" stack_one [5])) in Ed.
  - destruct Ed as [Ed _]. discriminate Ed.
  - constructor; [repeat constructor; vm_compute; done|vm_compute; reflexivity|repeat constructor; vm_compute; done].
  - constructor; [repeat constructor; vm_compute; done|vm_compute; reflexivity|repeat constructor; vm_compute; done].
  - reflexivity.
  - reflexivity.
  - example_free.
Defined.
End Examples.
