(* ===== verification/CryptoReceipt.v ===== *)
(** * Receipts of inference runs (adapteros-core/src/crypto_receipt.rs)

    A [ReceiptGenerator] binds a model, an adapter configuration, the input tokens, the
    routing decision of each token, the equipment and the output tokens of a run into one
    digest; a [CancellationReceiptBuilder] does so for a run that was cancelled. The
    decisions are chained with the functions of [ReceiptDigest]. An [f32] is its bit
    pattern; the build digest of the binary, the clock and the signing function are
    arguments. *)

From S2P Require Import Prelude Hashing ReceiptDigest.

Local Open Scope Z.
Local Open Scope aos.

Module CryptoReceipt.

Definition CRYPTO_RECEIPT_SCHEMA_VERSION : Z := 1.
Definition CANCELLATION_RECEIPT_SCHEMA_VERSION : Z := 1.

(** ** Components *)

Record ContextId : Type := mkContext {
  model_hash : B3Hash;
  adapter_config_hash : B3Hash;
  ctx_digest : B3Hash;
}.

Record EquipmentProfile : Type := mkEquipment {
  processor_id : string;
  engine_version : string;
  ane_version : option string;
  equipment_digest : B3Hash;
}.

Record RoutingRecord : Type := mkRecord {
  step : Z;
  input_token_id : option Z;
  adapter_indices : list Z;
  adapter_ids : list string;
  gates_q15 : list Z;
  entropy : Z;
  policy_mask_digest : option B3Hash;
  backend_id : option string;
  kernel_version_id : option string;
  allowed_mask : option (list bool);
}.

Record RoutingDigest : Type := mkRouting {
  decision_count : Z;
  routing_hash : B3Hash;
}.

Record ReceiptMetadata : Type := mkMetadata {
  tenant_id : option string;
  trace_id : option string;
  created_at : option string;
  input_token_count : Z;
  output_token_count : Z;
  stop_reason : option string;
}.

Record Receipt : Type := mkReceipt {
  schema_version : Z;
  context_id : ContextId;
  input_digest : B3Hash;
  routing_digest : RoutingDigest;
  output_digest : B3Hash;
  equipment_profile : EquipmentProfile;
  receipt_digest : B3Hash;
  metadata : ReceiptMetadata;
}.

Record ReceiptGenerator : Type := mkGenerator {
  gen_context_id : ContextId;
  gen_equipment_profile : option EquipmentProfile;
  gen_routing_digest : RoutingDigest;
  gen_input_digest : option B3Hash;
  gen_metadata : ReceiptMetadata;
  finalized : bool;
}.

(** *** Routing records *)

Definition record_new (s : Z) (indices gates : list Z) (e : Z) : RoutingRecord :=
  mkRecord s None indices [] gates e None None None None.

Definition with_input_token (token : Z) (self : RoutingRecord) : RoutingRecord :=
  self <| input_token_id := Some token |>.
Definition with_adapter_ids (ids : list string) (self : RoutingRecord) : RoutingRecord :=
  self <| adapter_ids := ids |>.
Definition with_policy_mask (d : B3Hash) (self : RoutingRecord) : RoutingRecord :=
  self <| policy_mask_digest := Some d |>.
Definition with_record_backend (b : string) (k : option string) (self : RoutingRecord) : RoutingRecord :=
  self <| backend_id := Some b |> <| kernel_version_id := k |>.
Definition with_allowed_mask (mask : list bool) (self : RoutingRecord) : RoutingRecord :=
  self <| allowed_mask := Some mask |>.

Definition routing_record_from_decision (s : Z) (token : option Z) (indices : list Z)
    (ids : list string) (gates : list Z) (e : Z) (policy : option B3Hash) (b k : option string)
    : RoutingRecord :=
  mkRecord s token indices ids gates e policy b k None.

Section Receipts.
Context `{Blake3}.

Definition context_compute (model config : B3Hash) : ContextId :=
  mkContext model config (hash_multi [as_bytes model; as_bytes config]).

Definition equipment_slices (processor engine : string) (ane : option string) : list (list byte) :=
  [as_bytes_of processor; [x00]; as_bytes_of engine; [x00]; as_bytes_of (default "none" ane)].

Definition equipment_compute (processor engine : string) (ane : option string) : EquipmentProfile :=
  mkEquipment processor engine ane (hash_multi (equipment_slices processor engine ane)).

Definition equipment_profile_from_fingerprint (processor mlx ane : option string) : EquipmentProfile :=
  equipment_compute (default "unknown" processor) (default "unknown" mlx) ane.

(** What [compute_hash_canonical] passes to [hash_token_decision]. *)
Definition decision_of (ctx : B3Hash) (r : RoutingRecord) : TokenDecision :=
  mkDecision ctx (step r) (encode_adapter_ids (adapter_ids r)) (encode_gates_q15 (gates_q15 r))
    (policy_mask_digest r) (encode_allowed_mask <$> allowed_mask r) None (backend_id r)
    (kernel_version_id r).

Definition compute_hash_canonical (r : RoutingRecord) (ctx : B3Hash) : B3Hash :=
  hash_token_decision (decision_of ctx r).

Definition routing_new : RoutingDigest := mkRouting 0 zero.

Definition accumulate_canonical (r : RoutingRecord) (ctx : B3Hash) (self : RoutingDigest) : RoutingDigest :=
  mkRouting ((decision_count self + 1) mod u32_mod)
    (update_run_head (routing_hash self) (step r) (compute_hash_canonical r ctx)).

Definition compute_input_digest (input_tokens : list Z) : B3Hash :=
  Hashing.hash (output_bytes input_tokens).
Definition compute_output_digest (output_tokens : list Z) : B3Hash :=
  Hashing.hash (output_bytes output_tokens).

(** ** Receipts *)

Definition receipt_slices (c : ContextId) (input : B3Hash) (r : RoutingDigest) (output : B3Hash)
    (e : EquipmentProfile) : list (list byte) :=
  [le_bytes 1 CRYPTO_RECEIPT_SCHEMA_VERSION; as_bytes (ctx_digest c); as_bytes input;
   as_bytes (routing_hash r); as_bytes output; as_bytes (equipment_digest e)].

Definition compute_crypto_digest (c : ContextId) (input : B3Hash) (r : RoutingDigest)
    (output : B3Hash) (e : EquipmentProfile) : B3Hash :=
  hash_multi (receipt_slices c input r output e).

Definition verify (self : Receipt) : bool :=
  bool_decide (receipt_digest self
    = compute_crypto_digest (context_id self) (input_digest self) (routing_digest self)
        (output_digest self) (equipment_profile self)).

Definition encode_str_le (s : string) : list (list byte) := [len_le (as_bytes_of s); as_bytes_of s].

Definition encode_optional_str (o : option string) : list (list byte) :=
  match o with Some s => [x01] :: encode_str_le s | None => [[x00]] end.

Definition crypto_canonical_slices (self : Receipt) : list (list byte) :=
  [le_bytes 1 (schema_version self); as_bytes (model_hash (context_id self));
   as_bytes (adapter_config_hash (context_id self)); as_bytes (ctx_digest (context_id self));
   as_bytes (input_digest self); le_bytes 4 (decision_count (routing_digest self));
   as_bytes (routing_hash (routing_digest self)); as_bytes (output_digest self)]
  ++ encode_str_le (processor_id (equipment_profile self))
  ++ encode_str_le (engine_version (equipment_profile self))
  ++ encode_optional_str (ane_version (equipment_profile self))
  ++ [as_bytes (equipment_digest (equipment_profile self)); as_bytes (receipt_digest self)].

Definition to_canonical_bytes (self : Receipt) : list byte := concat (crypto_canonical_slices self).

(** ** The generator *)

Definition metadata_default : ReceiptMetadata := mkMetadata None None None 0 0 None.

Definition generator_new (model config : B3Hash) : ReceiptGenerator :=
  mkGenerator (context_compute model config) None routing_new None metadata_default false.

Definition receipt_generator_from_manifest (model manifest : B3Hash) : ReceiptGenerator :=
  generator_new model manifest.

Definition set_equipment_profile (processor engine : string) (self : ReceiptGenerator) :=
  self <| gen_equipment_profile := Some (equipment_compute processor engine None) |>.
Definition set_equipment_profile_with_ane (processor engine ane : string) (self : ReceiptGenerator) :=
  self <| gen_equipment_profile := Some (equipment_compute processor engine (Some ane)) |>.
Definition with_equipment_profile (profile : EquipmentProfile) (self : ReceiptGenerator) :=
  self <| gen_equipment_profile := Some profile |>.

Definition bind_input_tokens (tokens : list Z) (self : ReceiptGenerator) :=
  self <| gen_input_digest := Some (compute_input_digest tokens) |>
    <| gen_metadata := (gen_metadata self)
         <| input_token_count := Z.of_nat (length tokens) mod u32_mod |> |>.

Definition record_routing_decision (r : RoutingRecord) (self : ReceiptGenerator) :=
  self <| gen_routing_digest :=
    accumulate_canonical r (ctx_digest (gen_context_id self)) (gen_routing_digest self) |>.

Definition record_routing_step (s : Z) (token : option Z) (indices gates : list Z) (e : Z)
    (policy : option B3Hash) (self : ReceiptGenerator) :=
  record_routing_decision (mkRecord s token indices [] gates e policy None None None) self.

Definition record_routing_step_full (s : Z) (token : option Z) (indices : list Z) (ids : list string)
    (gates : list Z) (e : Z) (policy : option B3Hash) (b k : option string) (mask : option (list bool))
    (self : ReceiptGenerator) :=
  record_routing_decision (mkRecord s token indices ids gates e policy b k mask) self.

Definition set_metadata (m : ReceiptMetadata) (self : ReceiptGenerator) := self <| gen_metadata := m |>.
Definition set_tenant_id (t : string) (self : ReceiptGenerator) :=
  self <| gen_metadata := (gen_metadata self) <| tenant_id := Some t |> |>.
Definition set_trace_id (t : string) (self : ReceiptGenerator) :=
  self <| gen_metadata := (gen_metadata self) <| trace_id := Some t |> |>.
Definition set_stop_reason (t : string) (self : ReceiptGenerator) :=
  self <| gen_metadata := (gen_metadata self) <| stop_reason := Some t |> |>.

Definition finalize (output_tokens : list Z) (self : ReceiptGenerator) : result Receipt AosError :=
  if finalized self then Err (Validation "Receipt generator already finalized")
  else
    match gen_input_digest self, gen_equipment_profile self with
    | None, _ => Err (Validation "Input tokens not bound. Call bind_input_tokens first.")
    | Some _, None => Err (Validation "Equipment profile not set. Call set_equipment_profile first.")
    | Some input, Some equipment =>
        let output := compute_output_digest output_tokens in
        let m := (gen_metadata self) <| output_token_count := Z.of_nat (length output_tokens) mod u32_mod |> in
        Ok (mkReceipt CRYPTO_RECEIPT_SCHEMA_VERSION (gen_context_id self) input
              (gen_routing_digest self) output equipment
              (compute_crypto_digest (gen_context_id self) input (gen_routing_digest self) output equipment)
              m)
    end.

(** ** Adapter configurations *)

Record AdapterConfig : Type := mkAdapter {
  ac_id : string; ac_hash : B3Hash; ac_rank : Z; ac_alpha : Z
}.

Definition config_leb (a b : AdapterConfig) : bool := (ac_id a <=? ac_id b)%string.

Definition config_entry (a : AdapterConfig) : list byte :=
  concat [len_le (as_bytes_of (ac_id a)); as_bytes_of (ac_id a); as_bytes (ac_hash a);
          le_bytes 4 (ac_rank a); le_bytes 4 (ac_alpha a)].

Definition config_bytes (adapters : list AdapterConfig) : list byte :=
  counted config_entry (stable_sort config_leb adapters).

Definition compute_adapter_config_hash (adapters : list AdapterConfig) : B3Hash :=
  Hashing.hash (config_bytes adapters).

(** ** The receipt as input of a receipt digest *)

(** [build] is [BuildProvenance::cached().digest]. *)
Definition to_receipt_digest_input (build : B3Hash) (self : Receipt) : ReceiptDigestInput :=
  let m := metadata self in let e := equipment_profile self in
  with_build_provenance (Some build) None
  (ReceiptDigest.with_equipment_profile (Some (equipment_digest e)) (Some (processor_id e))
    (Some (engine_version e)) (ane_version e)
  (with_stop_controller (stop_reason m) None None
  (new (ctx_digest (context_id self)) (routing_hash (routing_digest self)) (output_digest self)
    (input_token_count m) 0 (input_token_count m) (output_token_count m) (output_token_count m)))).
End Receipts.

(** ** Cancellation *)

Inductive CancelSource : Type :=
| ClientDisconnect | RequestTimeout | PolicyViolation | ManualCancel | ResourceExhaustion.

Definition source_text (s : CancelSource) : string :=
  match s with
  | ClientDisconnect => "CLIENT_DISCONNECT" | RequestTimeout => "REQUEST_TIMEOUT"
  | PolicyViolation => "POLICY_VIOLATION" | ManualCancel => "MANUAL_CANCEL"
  | ResourceExhaustion => "RESOURCE_EXHAUSTION"
  end.

Definition source_from_str (s : string) : CancelSource :=
  if ((s =? "CLIENT_DISCONNECT") || (s =? "client_cancelled"))%string then ClientDisconnect
  else if ((s =? "REQUEST_TIMEOUT") || (s =? "timeout"))%string then RequestTimeout
  else if ((s =? "POLICY_VIOLATION") || (s =? "policy"))%string then PolicyViolation
  else if ((s =? "MANUAL_CANCEL") || (s =? "manual"))%string then ManualCancel
  else if ((s =? "RESOURCE_EXHAUSTION") || (s =? "resource"))%string then ResourceExhaustion
  else ClientDisconnect.

Record CancellationReceiptDigestParams : Type := mkParams {
  p_trace_id : string;
  p_partial_output_digest : B3Hash;
  p_partial_output_count : Z;
  p_stop_reason : string;
  p_cancellation_source : CancelSource;
  p_cancelled_at_token : Z;
  p_equipment_profile : option EquipmentProfile;
  p_context_digest : option B3Hash;
}.

Record CancellationReceipt : Type := mkCancellation {
  c_schema_version : Z;
  c_trace_id : string;
  partial_output_digest : B3Hash;
  partial_output_count : Z;
  c_stop_reason : string;
  cancellation_source : CancelSource;
  cancelled_at_token : Z;
  c_receipt_digest : B3Hash;
  c_signature : option (list byte);
  c_equipment_profile : option EquipmentProfile;
  c_context_digest : option B3Hash;
  c_tenant_id : option string;
  cancelled_at : option string;
}.

Record CancellationReceiptBuilder : Type := mkBuilder {
  b_trace_id : string;
  b_partial_tokens : list Z;
  b_cancellation_source : CancelSource;
  b_cancelled_at_token : Z;
  b_equipment_profile : option EquipmentProfile;
  b_context_digest : option B3Hash;
  b_tenant_id : option string;
}.

Definition builder_new (trace : string) (source : CancelSource) (at_token : Z) : CancellationReceiptBuilder :=
  mkBuilder trace [] source at_token None None None.
Definition with_partial_tokens (tokens : list Z) (self : CancellationReceiptBuilder) :=
  self <| b_partial_tokens := tokens |>.
Definition with_cancel_equipment (p : EquipmentProfile) (self : CancellationReceiptBuilder) :=
  self <| b_equipment_profile := Some p |>.
Definition with_context_digest (d : B3Hash) (self : CancellationReceiptBuilder) :=
  self <| b_context_digest := Some d |>.
Definition with_tenant_id (t : string) (self : CancellationReceiptBuilder) :=
  self <| b_tenant_id := Some t |>.

Section Cancellation.
Context `{Blake3}.

Definition cancellation_slices (p : CancellationReceiptDigestParams) : list (list byte) :=
  [le_bytes 1 CANCELLATION_RECEIPT_SCHEMA_VERSION] ++ encode_str_le (p_trace_id p)
  ++ [as_bytes (p_partial_output_digest p); le_bytes 4 (p_partial_output_count p)]
  ++ encode_str_le (p_stop_reason p) ++ encode_str_le (source_text (p_cancellation_source p))
  ++ [le_bytes 4 (p_cancelled_at_token p); marked (equipment_digest <$> p_equipment_profile p); marked (p_context_digest p)].

Definition compute_cancellation_digest (p : CancellationReceiptDigestParams) : B3Hash :=
  hash_multi (cancellation_slices p).

(** The parameters a receipt is checked with. *)
Definition cancellation_params (self : CancellationReceipt) : CancellationReceiptDigestParams :=
  mkParams (c_trace_id self) (partial_output_digest self) (partial_output_count self)
    (c_stop_reason self) (cancellation_source self) (cancelled_at_token self)
    (c_equipment_profile self) (c_context_digest self).

Definition verify_cancellation (self : CancellationReceipt) : bool :=
  bool_decide (c_receipt_digest self = compute_cancellation_digest (cancellation_params self)).

Definition cancellation_is_signed (self : CancellationReceipt) : bool :=
  match c_signature self with Some _ => true | None => false end.

Definition cancellation_to_canonical_bytes (self : CancellationReceipt) : list byte :=
  concat ([le_bytes 1 (c_schema_version self)] ++ encode_str_le (c_trace_id self)
    ++ [as_bytes (partial_output_digest self); le_bytes 4 (partial_output_count self)]
    ++ encode_str_le (c_stop_reason self) ++ encode_str_le (source_text (cancellation_source self))
    ++ [le_bytes 4 (cancelled_at_token self); as_bytes (c_receipt_digest self)]
    ++ optional_slices (c_signature self)).

(** [now] is [chrono::Utc::now().to_rfc3339()]. *)
Definition finalize_cancellation (now : string) (self : CancellationReceiptBuilder) : CancellationReceipt :=
  let digest := compute_output_digest (b_partial_tokens self) in
  let count := Z.of_nat (length (b_partial_tokens self)) mod u32_mod in
  let receipt_digest := compute_cancellation_digest
    (mkParams (b_trace_id self) digest count "CANCELLED" (b_cancellation_source self)
       (b_cancelled_at_token self) (b_equipment_profile self) (b_context_digest self)) in
  mkCancellation CANCELLATION_RECEIPT_SCHEMA_VERSION (b_trace_id self) digest count "CANCELLED"
    (b_cancellation_source self) (b_cancelled_at_token self) receipt_digest None
    (b_equipment_profile self) (b_context_digest self) (b_tenant_id self) (Some now).

Definition finalize_signed (now : string) (sign_fn : list byte -> result (list byte) AosError)
    (self : CancellationReceiptBuilder) : result CancellationReceipt AosError :=
  let receipt := finalize_cancellation now self in
  sig <-? sign_fn (as_bytes (c_receipt_digest receipt)) ;;
  Ok (receipt <| c_signature := Some sig |>).
End Cancellation.

(** ** Runs *)

Section Binding.
Context `{Blake3}.

(** A run, and the calls that make its receipt. *)
Record Run : Type := mkRun {
  r_model : B3Hash;
  r_config : B3Hash;
  r_input : list Z;
  r_equipment : EquipmentProfile;
  r_records : list RoutingRecord;
  r_output : list Z;
}.

Definition generator_of (r : Run) : ReceiptGenerator :=
  foldl (fun g x => record_routing_decision x g)
    (bind_input_tokens (r_input r) (with_equipment_profile (r_equipment r)
       (generator_new (r_model r) (r_config r))))
    (r_records r).

Definition generate (r : Run) : result Receipt AosError := finalize (r_output r) (generator_of r).

Definition run_context (r : Run) : B3Hash := ctx_digest (context_compute (r_model r) (r_config r)).

Definition run_decisions (r : Run) : list TokenDecision := map (decision_of (run_context r)) (r_records r).

Lemma recorded_chain rs : forall g,
  let g' := foldl (fun g x => record_routing_decision x g) g rs in
  gen_context_id g' = gen_context_id g /\ gen_equipment_profile g' = gen_equipment_profile g
  /\ gen_input_digest g' = gen_input_digest g /\ finalized g' = finalized g
  /\ routing_hash (gen_routing_digest g')
     = chain (routing_hash (gen_routing_digest g))
         (decision_steps (map (decision_of (ctx_digest (gen_context_id g))) rs)).
Proof.
  induction rs as [|x rs IH]; intros g; [done|]. cbn [foldl].
  destruct (IH (record_routing_decision x g)) as (H1 & H2 & H3 & H4 & H5).
  cbv zeta. rewrite H1, H2, H3, H4, H5. destruct g. done.
Qed.

(** The receipt of a run: it exists, and its digest is that of the components. *)
Lemma generate_receipt r :
  exists x, generate r = Ok x
    /\ context_id x = context_compute (r_model r) (r_config r)
    /\ input_digest x = compute_input_digest (r_input r)
    /\ output_digest x = compute_output_digest (r_output r)
    /\ equipment_profile x = r_equipment r
    /\ routing_hash (routing_digest x) = chain zero (decision_steps (run_decisions r))
    /\ receipt_digest x = compute_crypto_digest (context_id x) (input_digest x) (routing_digest x)
                            (output_digest x) (equipment_profile x).
Proof.
  unfold generate, generator_of, finalize.
  match goal with |- context [foldl _ ?g ?rs] =>
    destruct (recorded_chain rs g) as (H1 & H2 & H3 & H4 & H5) end.
  cbv zeta in H1, H2, H3, H4, H5. rewrite H1, H2, H3, H4. eexists. split; [reflexivity|].
  split_and!; try reflexivity. exact H5.
Qed.

(** Every run gets a receipt, and the receipt verifies. *)
Theorem generated_receipt_verifies r : exists x, generate r = Ok x /\ verify x = true.
Proof.
  destruct (generate_receipt r) as (x & Hx & _ & _ & _ & _ & _ & Hd). exists x. split; [done|].
  unfold verify. by apply bool_decide_eq_true.
Qed.

(** What a receipt says of one decision. *)
Definition record_view (r : RoutingRecord) :=
  (step r, adapter_ids r, gates_q15 r, policy_mask_digest r, allowed_mask r,
   default EmptyString (backend_id r), default EmptyString (kernel_version_id r)).

Record record_ok (r : RoutingRecord) : Prop := {
  ok_step : is_u32 (step r);
  ok_ids : Forall (fun s => short (Some s)) (adapter_ids r);
  ok_gates : Forall is_i16 (gates_q15 r);
  ok_id_count : Z.of_nat (length (adapter_ids r)) < u32_mod;
  ok_gate_count : Z.of_nat (length (gates_q15 r)) < u32_mod;
  ok_mask_count : Z.of_nat (length (default [] (allowed_mask r))) < u32_mod;
  ok_blobs : Forall (fun bs => Z.of_nat (length bs) < u32_mod)
    [encode_adapter_ids (adapter_ids r); encode_gates_q15 (gates_q15 r);
     default [] (encode_allowed_mask <$> allowed_mask r)];
  ok_strings : Forall short [None; backend_id r; kernel_version_id r];
}.

Lemma decision_of_ok ctx r : record_ok r -> decision_ok (decision_of ctx r).
Proof. intros []. constructor; [by apply Forall_singleton|done|done]. Qed.

Lemma mask_blob_inj (o o' : option (list bool)) :
  Z.of_nat (length (default [] o)) < u32_mod -> Z.of_nat (length (default [] o')) < u32_mod ->
  default [] (encode_allowed_mask <$> o) = default [] (encode_allowed_mask <$> o') -> o = o'.
Proof.
  destruct o as [m|], o' as [m'|]; intros Hm Hm' E; try done.
  change (encode_allowed_mask m = encode_allowed_mask m') in E. apply (f_equal decode_allowed_mask) in E. rewrite !mask_decodes in E by done. congruence.
Qed.

Lemma decision_view_record ctx ctx' r r' :
  record_ok r -> record_ok r' -> decision_view (decision_of ctx r) = decision_view (decision_of ctx' r') ->
  record_view r = record_view r'.
Proof.
  intros [] [] E.
  assert (adapter_ids r = adapter_ids r').
  { eapply (counted_inj _ _ id_delimits); [done..|]. exact (f_equal adapter_ids_blob E). }
  assert (gates_q15 r = gates_q15 r').
  { eapply (counted_inj _ _ i16_delimits); [done..|]. exact (f_equal gates_blob E). }
  assert (allowed_mask r = allowed_mask r').
  { apply mask_blob_inj; [done..|]. pose proof (f_equal allowed_mask_blob E) as Em. by injection Em. }
  pose proof (f_equal td_token_index E) as E1. pose proof (f_equal ReceiptDigest.policy_mask_digest E) as E2.
  pose proof (f_equal ReceiptDigest.backend_id E) as E3.
  pose proof (f_equal ReceiptDigest.kernel_version_id E) as E4.
  injection E3 as E3. injection E4 as E4. cbn [td_token_index decision_view decision_of] in E1.
  cbn [ReceiptDigest.policy_mask_digest decision_view decision_of] in E2.
  unfold record_view. by rewrite E1, E2, E3, E4, H0, H1, H2.
Qed.

(** The texts hashed for the receipt of a run. *)
Definition context_text (r : Run) : list byte := concat [as_bytes (r_model r); as_bytes (r_config r)].

Definition receipt_texts (r : Run) : list (list byte) :=
  match generate r with
  | Ok x => [concat (receipt_slices (context_id x) (input_digest x) (routing_digest x)
               (output_digest x) (equipment_profile x))]
  | Err _ => []
  end ++ [context_text r; output_bytes (r_input r); output_bytes (r_output r)]
  ++ run_texts zero (run_decisions r).

Record run_ok (r : Run) : Prop := {
  ok_input : Forall is_u32 (r_input r);
  ok_output : Forall is_u32 (r_output r);
  ok_input_count : Z.of_nat (length (r_input r)) < u32_mod;
  ok_output_count : Z.of_nat (length (r_output r)) < u32_mod;
  ok_records : Forall record_ok (r_records r);
}.

Lemma receipt_slices_inj c i r o e c' i' r' o' e' :
  concat (receipt_slices c i r o e) = concat (receipt_slices c' i' r' o' e') ->
  ctx_digest c = ctx_digest c' /\ i = i' /\ routing_hash r = routing_hash r' /\ o = o'
  /\ equipment_digest e = equipment_digest e'.
Proof.
  unfold receipt_slices. cbn [concat]. rewrite !app_nil_r. intros E.
  apply app_inj_1 in E as [_ E]; [|done].
  repeat (apply app_inj_1 in E as [?%as_bytes_inj E]; [|by rewrite !as_bytes_length]).
  apply as_bytes_inj in E. done.
Qed.

Lemma records_agree ctx ctx' l k :
  Forall record_ok l -> Forall record_ok k ->
  map decision_view (map (decision_of ctx) l) = map decision_view (map (decision_of ctx') k) ->
  map record_view l = map record_view k.
Proof.
  revert k. induction l as [|x l IH]; intros [|y k] Hl Hk E; try done.
  apply Forall_cons in Hl as [Hx Hl]. apply Forall_cons in Hk as [Hy Hk].
  apply (f_equal head) in E as Eh. apply (f_equal tail) in E. apply (inj Some) in Eh.
  cbn [map]. f_equal; [by apply (decision_view_record ctx ctx')|by apply IH].
Qed.

(** Records that name the adapters of their indices, each adapter by one name. *)
Definition names_indices (name : Z -> string) (r : RoutingRecord) : Prop :=
  adapter_ids r = map name (adapter_indices r).

Lemma indices_agree name l k :
  Inj (=) (=) name -> Forall (names_indices name) l -> Forall (names_indices name) k ->
  map record_view l = map record_view k -> map adapter_indices l = map adapter_indices k.
Proof.
  intros Hinj. revert k. induction l as [|x l IH]; intros [|y k] Hl Hk E; try done.
  apply Forall_cons in Hl as [Hx Hl]. apply Forall_cons in Hk as [Hy Hk].
  cbn [map] in *. injection E as _ Eids _ _ _ _ _ E. f_equal; [|by apply IH].
  rewrite Hx, Hy in Eids. by apply (inj (fmap name)) in Eids.
Qed.

(** [C9] A receipt binds what is recorded of a run: two runs of as many tokens whose
    receipts have one digest had the same model and adapter configuration, the same input
    and output tokens, equipment of the same digest and, step by step, the same adapter
    ids, gates, masks and backends. The adapter indices are not hashed: they agree too when
    the records name the adapters of their indices; a record that names none, as
    [record_routing_step] makes it, does not bind its adapters ([routing_step_unbound]). *)
Theorem receipt_binds_run r r' x x' :
  run_ok r -> run_ok r' -> length (r_records r) = length (r_records r') ->
  generate r = Ok x -> generate r' = Ok x' -> receipt_digest x = receipt_digest x' ->
  collision_free (receipt_texts r ++ receipt_texts r') ->
  r_model r = r_model r' /\ r_config r = r_config r' /\ r_input r = r_input r'
  /\ r_output r = r_output r' /\ equipment_digest (r_equipment r) = equipment_digest (r_equipment r')
  /\ map record_view (r_records r) = map record_view (r_records r')
  /\ (forall name, Inj (=) (=) name -> Forall (names_indices name) (r_records r) ->
      Forall (names_indices name) (r_records r') ->
      map adapter_indices (r_records r) = map adapter_indices (r_records r')).
Proof.
  intros Hr Hr' Hlen Hg Hg' Hd Hc.
  destruct (generate_receipt r) as (y & Hy & C1 & C2 & C3 & C4 & C5 & C6).
  destruct (generate_receipt r') as (y' & Hy' & C1' & C2' & C3' & C4' & C5' & C6').
  rewrite Hg in Hy. rewrite Hg' in Hy'. injection Hy as <-. injection Hy' as <-.
  unfold receipt_texts in Hc. rewrite Hg, Hg' in Hc.
  rewrite C6, C6' in Hd. apply (collision_free_inj _ _ _ Hc) in Hd; [|set_solver..].
  apply receipt_slices_inj in Hd as (Dc & Di & Dr & Do & De).
  rewrite C1, C1' in Dc. rewrite C2, C2' in Di. rewrite C3, C3' in Do. rewrite C4, C4' in De.
  rewrite C5, C5' in Dr.
  apply (collision_free_inj _ (context_text r) (context_text r') Hc) in Dc; [|set_solver..].
  apply (collision_free_inj _ (output_bytes (r_input r)) (output_bytes (r_input r')) Hc) in Di; [|set_solver..].
  apply (collision_free_inj _ (output_bytes (r_output r)) (output_bytes (r_output r')) Hc) in Do; [|set_solver..].
  destruct Hr as [I1 O1 I2 O2 R], Hr' as [I1' O1' I2' O2' R'].
  apply output_bytes_inj in Di, Do; [|done..].
  unfold context_text in Dc. cbn [concat] in Dc. rewrite !app_nil_r in Dc.
  apply as_bytes_app_inj in Dc as [Dm Dk].
  assert (map record_view (r_records r) = map record_view (r_records r')) as Ev.
  { apply run_head_agree in Dr as [_ Dr].
    - by eapply records_agree.
    - unfold run_decisions. by rewrite !length_map.
    - unfold run_decisions. apply Forall_map. eapply Forall_impl; [exact R|]. intros. by apply decision_of_ok.
    - unfold run_decisions. apply Forall_map. eapply Forall_impl; [exact R'|]. intros. by apply decision_of_ok.
    - eapply collision_free_subseteq; [|exact Hc]. intros m. rewrite !elem_of_app. tauto. }
  split_and!; try done. intros name Hinj Hn Hn'. by apply (indices_agree name).
Qed.
End Binding.

Lemma app_bytes a b : as_bytes_of (a +:+ b) = as_bytes_of a ++ as_bytes_of b.
Proof. induction a as [|x a IH]; [done|]. exact (f_equal (cons (Ascii.byte_of_ascii x)) IH). Qed.

(** Side condition of a string field listed as present. *)
Ltac field_range_str :=
  let Hr := fresh in intros ? Hr; destruct Hr;
  match goal with |- Z.of_nat (length (as_bytes_of ?s)) < _ => change (short (Some s)) end;
  eapply (proj1 (List.Forall_forall _ _)); [eassumption|simpl; tauto].

Section Unbound.
Context `{Blake3}.

(** [record_routing_step] records no adapter ids, and the indices it is given are not
    hashed: the receipt does not say which adapters were used, nor the input token. *)
Theorem routing_step_unbound s gates policy g token indices e token' indices' e' :
  record_routing_step s token indices gates e policy g
  = record_routing_step s token' indices' gates e' policy g.
Proof. done. Qed.

(** [verify] compares digests only: model, adapter configuration, processor and engine,
    the number of decisions, the schema version and the metadata of a receipt can be
    replaced and it still verifies. *)
Theorem verify_ignores_components x model config processor engine ane count version m :
  verify (x <| context_id := mkContext model config (ctx_digest (context_id x)) |>
            <| equipment_profile := mkEquipment processor engine ane (equipment_digest (equipment_profile x)) |>
            <| routing_digest := mkRouting count (routing_hash (routing_digest x)) |>
            <| schema_version := version |> <| metadata := m |>)
  = verify x.
Proof. by destruct x. Qed.

(** An equipment profile without Neural Engine and one whose version is "none" have one
    digest, and a NUL in a name moves the border between the names. *)
Theorem equipment_digest_ambiguous p e a b :
  equipment_digest (equipment_compute p e None) = equipment_digest (equipment_compute p e (Some "none"))
  /\ equipment_digest (equipment_compute (a +:+ String Ascii.zero b) p None)
     = equipment_digest (equipment_compute a (b +:+ String Ascii.zero p) None).
Proof.
  split; [done|]. unfold equipment_compute, hash_multi. cbn [equipment_digest]. f_equal.
  unfold equipment_slices. cbn [concat]. rewrite !app_bytes. cbn. by rewrite <- !(assoc_L (++)).
Qed.
End Unbound.

(** ** Adapter configurations *)

Record config_ok (a : AdapterConfig) : Prop := {
  config_u32 : Forall is_u32 [ac_rank a; ac_alpha a];
  config_id : Forall short [Some (ac_id a)];
}.

Lemma config_delimits : delimits config_ok (fun a => [config_entry a]) id.
Proof.
  intros a b r r' Ha Hb E. unfold config_entry in E. cbn [concat] in E.
  rewrite !app_nil_r, <- !(assoc_L (++)) in E.
  assert (Hd : delimits config_ok (fun a => [len_le (as_bytes_of (ac_id a)); as_bytes_of (ac_id a);
    as_bytes (ac_hash a); le_bytes 4 (ac_rank a); le_bytes 4 (ac_alpha a)]) id).
  { eapply delimits_view; [|eapply (delimits_string _ ac_id); [field_range_str|];
      delimit_field; delimit_field; delimit_field; apply delimits_nil].
    intros [] [] _ _ Ev. cbn in Ev. by injection Ev as -> -> -> ->. }
  apply (Hd a b r r' Ha Hb). cbn [concat]. by rewrite app_nil_r, <- !(assoc_L (++)).
Qed.

Lemma config_sort_canonical l k :
  NoDup (map ac_id l) -> l ≡ₚ k -> stable_sort config_leb l = stable_sort config_leb k.
Proof. intros Hn. apply (key_sort_canonical ac_id). intros x y. by apply nodup_key. Qed.

(** The configuration hash is one of the set of adapters: it does not depend on their
    order, and commits to id, hash, rank and alpha of each. *)
Theorem adapter_config_exact `{Blake3} l k :
  Forall config_ok l -> Forall config_ok k -> NoDup (map ac_id l) ->
  Z.of_nat (length l) < u32_mod -> Z.of_nat (length k) < u32_mod ->
  collision_free [config_bytes l; config_bytes k] ->
  (compute_adapter_config_hash l = compute_adapter_config_hash k <-> l ≡ₚ k).
Proof.
  intros Hl Hk Hn Nl Nk Hc. split.
  - intros E. apply (collision_free_inj _ _ _ Hc) in E; [|by left|right; by left].
    apply (counted_inj _ _ config_delimits) in E; [|by rewrite stable_sort_perm..].
    by rewrite <- (stable_sort_perm config_leb l), E, stable_sort_perm.
  - intros Hp. unfold compute_adapter_config_hash, config_bytes. by rewrite (config_sort_canonical l k Hn Hp).
Qed.

(** ** Cancellation receipts *)

Lemma source_round_trip s : source_from_str (source_text s) = s.
Proof. by destruct s. Qed.

Section Cancelled.
Context `{Blake3}.

Record params_ok (p : CancellationReceiptDigestParams) : Prop := {
  params_u32 : Forall is_u32 [p_partial_output_count p; p_cancelled_at_token p];
  params_str : Forall short [Some (p_trace_id p); Some (p_stop_reason p);
                             Some (source_text (p_cancellation_source p))];
}.

Definition params_view (p : CancellationReceiptDigestParams) :=
  (p_trace_id p, p_partial_output_digest p, p_partial_output_count p, p_stop_reason p,
   p_cancellation_source p, p_cancelled_at_token p, equipment_digest <$> p_equipment_profile p,
   p_context_digest p).

Lemma cancellation_text : delimits params_ok cancellation_slices params_view.
Proof.
  eapply delimits_view; [|unfold cancellation_slices, encode_str_le; cbn [app]; delimit_field;
    eapply (delimits_string _ p_trace_id); [field_range_str|]; do 2 delimit_field;
    eapply (delimits_string _ p_stop_reason); [field_range_str|];
    eapply (delimits_string _ (fun p => source_text (p_cancellation_source p))); [field_range_str|];
    delimit_field;
    eapply (delimits_marked _ (fun p => equipment_digest <$> p_equipment_profile p));
    eapply (delimits_marked _ p_context_digest); apply delimits_nil].
  intros a b _ _ E. injection E as E1 E2 E3 E4 E5 E6 E7 E8.
  apply (f_equal source_from_str) in E5. rewrite !source_round_trip in E5.
  unfold params_view. by rewrite E1, E2, E3, E4, E5, E6, E7, E8.
Qed.

(** A finalized cancellation receipt verifies, signed or not; the signed one states the
    partial output and carries the signature of its digest; signing fails as the signer does. *)
Theorem cancellation_verifies now sign_fn b :
  verify_cancellation (finalize_cancellation now b) = true
  /\ match finalize_signed now sign_fn b with
     | Ok y => verify_cancellation y = true
         /\ partial_output_digest y = compute_output_digest (b_partial_tokens b)
         /\ cancellation_is_signed y = true
         /\ sign_fn (as_bytes (c_receipt_digest y)) = Ok (default [] (c_signature y))
     | Err e => sign_fn (as_bytes (c_receipt_digest (finalize_cancellation now b))) = Err e
     end.
Proof.
  split; [by apply bool_decide_eq_true|]. unfold finalize_signed.
  destruct (sign_fn _) as [sig|e] eqn:Es; cbn [result_bind]; [|done].
  split_and!; [by apply bool_decide_eq_true|done..].
Qed.

(** Two cancellation receipts that verify with one digest agree in everything but the
    tenant, the time and the signature. *)
Theorem cancellation_receipts_exact c c' :
  verify_cancellation c = true -> verify_cancellation c' = true ->
  params_ok (cancellation_params c) -> params_ok (cancellation_params c') ->
  collision_free [concat (cancellation_slices (cancellation_params c));
                  concat (cancellation_slices (cancellation_params c'))] ->
  c_receipt_digest c = c_receipt_digest c' ->
  params_view (cancellation_params c) = params_view (cancellation_params c').
Proof.
  unfold verify_cancellation. intros Hv Hv' Hp Hp' Hc E. breflect. rewrite Hv, Hv' in E.
  apply (collision_free_inj _ _ _ Hc) in E; [|by left|right; by left].
  by apply (delimits_text _ _ _ _ _ cancellation_text).
Qed.

(** ** Canonical bytes *)

Lemma optional_str_slices o : encode_optional_str o = optional_slices (as_bytes_of <$> o).
Proof. by destruct o. Qed.

Definition receipt_view (x : Receipt) :=
  (schema_version x, context_id x, input_digest x, routing_digest x, output_digest x,
   equipment_profile x, receipt_digest x).

Record receipt_ok (x : Receipt) : Prop := {
  receipt_u8 : 0 <= schema_version x < 256;
  receipt_u32 : Forall is_u32 [decision_count (routing_digest x)];
  receipt_str : Forall short [Some (processor_id (equipment_profile x));
     Some (engine_version (equipment_profile x))];
  receipt_ane : Z.of_nat (length (default [] (as_bytes_of <$> ane_version (equipment_profile x)))) < u32_mod;
}.

Lemma ane_delimits {C} g (w : Receipt -> C) :
  delimits receipt_ok g w ->
  delimits receipt_ok (fun x => encode_optional_str (ane_version (equipment_profile x)) ++ g x)
    (fun x => (as_bytes_of <$> ane_version (equipment_profile x), w x)).
Proof.
  intros Hg a b r r' Ha Hb. rewrite !optional_str_slices.
  apply (delimits_optional receipt_ok (fun x => as_bytes_of <$> ane_version (equipment_profile x)) g w);
    [by intros ? []|done..].
Qed.

Lemma receipt_delimits : delimits receipt_ok crypto_canonical_slices receipt_view.
Proof.
  eapply delimits_view; [|unfold crypto_canonical_slices, encode_str_le; cbn [app];
    eapply (delimits_unsigned _ 1 schema_version); [by intros ? []|]; do 7 delimit_field;
    eapply (delimits_string _ (fun x => processor_id (equipment_profile x))); [field_range_str|];
    eapply (delimits_string _ (fun x => engine_version (equipment_profile x))); [field_range_str|];
    eapply ane_delimits; do 2 delimit_field; apply delimits_nil].
  intros [v [m k c] i [n h] o [p g e q] d md] [v' [m' k' c'] i' [n' h'] o' [p' g' e' q'] d' md'] _ _ E.
  cbn in E. injection E as -> -> -> -> -> -> -> -> -> -> Ee -> ->.
  unfold receipt_view. cbn. repeat f_equal.
  destruct e, e'; cbn in Ee; try done. injection Ee as Ee. f_equal. by apply as_bytes_of_inj.
Qed.

(** The canonical bytes of a receipt determine everything in it but the metadata. *)
Theorem canonical_bytes_exact x y :
  receipt_ok x -> receipt_ok y ->
  (to_canonical_bytes x = to_canonical_bytes y <-> receipt_view x = receipt_view y).
Proof.
  intros Hx Hy. split; intros E; [by apply (delimits_text _ _ _ _ _ receipt_delimits)|].
  destruct x, y. injection E as -> -> -> -> -> -> ->. done.
Qed.
End Cancelled.

(** ** Examples *)

Section Examples.
#[local] Existing Instance toy_blake3.

Ltac example_free := apply collision_freeb_sound; vm_compute; reflexivity.
Ltac example_range := constructor; repeat constructor; vm_compute; done.

Definition sample_record (n gate : Z) : RoutingRecord :=
  with_allowed_mask [true; false] (with_record_backend "mlx" None
    (with_adapter_ids ["legal"] (record_new n [0] [gate] 0))).

Definition sample_run (gate : Z) : Run :=
  mkRun (Hashing.hash [x01]) (Hashing.hash [x02]) [1; 7] (equipment_compute "M4" "0.20" None)
    [sample_record 0 32767; sample_record 1 gate] [9; 2].

Definition sample_issued (gate : Z) : Receipt :=
  match generate (sample_run gate) with
  | Ok x => x
  | Err _ => mkReceipt 0 (context_compute zero zero) zero routing_new zero
               (equipment_compute EmptyString EmptyString None) zero metadata_default
  end.

Lemma receipt_binds_run_witness :
  receipt_digest (sample_issued 100) <> receipt_digest (sample_issued 101).
Proof.
  intros E.
  destruct (receipt_binds_run (sample_run 100) (sample_run 101) (sample_issued 100) (sample_issued 101))
    as (_ & _ & _ & _ & _ & R & _);
    [example_range|example_range|reflexivity|reflexivity|reflexivity|exact E|example_free|].
  vm_compute in R. discriminate R.
Defined.

Definition adapters_ab : list AdapterConfig :=
  [mkAdapter "b" (Hashing.hash [x02]) 16 32; mkAdapter "a" (Hashing.hash [x01]) 8 16].

Lemma adapter_config_exact_witness :
  compute_adapter_config_hash adapters_ab = compute_adapter_config_hash (rev adapters_ab).
Proof.
  apply (adapter_config_exact adapters_ab (rev adapters_ab)).
  - repeat (apply Forall_cons; split; [example_range|]). by apply Forall_nil.
  - repeat (apply Forall_cons; split; [example_range|]). by apply Forall_nil.
  - vm_compute. repeat constructor; set_solver.
  - reflexivity.
  - reflexivity.
  - example_free.
  - apply Permutation_rev.
Defined.

Definition sample_cancelled (at_token : Z) : CancellationReceipt :=
  finalize_cancellation "2026-01-01T00:00:00Z"
    (with_tenant_id "acme" (with_partial_tokens [5; 6] (builder_new "t-1" ManualCancel at_token))).

Lemma cancellation_receipts_exact_witness :
  c_receipt_digest (sample_cancelled 2) <> c_receipt_digest (sample_cancelled 3).
Proof.
  intros E. apply (cancellation_receipts_exact (sample_cancelled 2) (sample_cancelled 3)) in E;
    [vm_compute in E; discriminate E|vm_compute; reflexivity|vm_compute; reflexivity
    |example_range|example_range|example_free].
Defined.

Definition sample_receipt (stop : string) : Receipt :=
  mkReceipt 1 (context_compute zero zero) zero (mkRouting 2 zero) zero
    (equipment_compute "M4" "0.20" (Some "ane-3")) zero (metadata_default <| stop_reason := Some stop |>).

Lemma sample_receipt_ok stop : receipt_ok (sample_receipt stop).
Proof.
  constructor; [by vm_compute|by repeat constructor|by repeat constructor|].
  change (Z.of_nat (length (as_bytes_of "ane-3")) < u32_mod). by vm_compute.
Qed.

Lemma canonical_bytes_exact_witness :
  to_canonical_bytes (sample_receipt "EOS") = to_canonical_bytes (sample_receipt "LENGTH").
Proof.
  apply (canonical_bytes_exact (sample_receipt "EOS") (sample_receipt "LENGTH")).
  - apply sample_receipt_ok.
  - apply sample_receipt_ok.
  - reflexivity.
Defined.
End Examples.
End CryptoReceipt.
