(* ===== verification/AdapterHeat.v ===== *)
(** * Heat states of adapters (adapteros-lora-lifecycle/src/state.rs, policy.rs,
    category_policies.rs)

    The ladder of heat states, the rules of categories for climbing and descending it, the
    record the lifecycle manager keeps per adapter, and the thresholds of promotion,
    demotion and eviction. A [SystemTime] or [Duration] is a [Z] of nanoseconds; the
    reading of the clock is an argument. Activation percentages, quality deltas and memory
    pressures are [f32]s of [Float32]. *)

From S2P Require Import Prelude Float32 Lifecycle.

Local Open Scope Z.
Local Open Scope aos.

Module AdapterHeat.

Definition from_secs (s : Z) : Z := s * 1000000000.

(** ** Data *)

Inductive AcquisitionState : Type :=
| NotCached
| Queued
| Downloading (progress_pct : Z)
| Verifying
| Available
| Failed.

Definition acq_is_available (self : AcquisitionState) : bool :=
  match self with Available => true | _ => false end.

Definition acq_is_downloading (self : AcquisitionState) : bool :=
  match self with Downloading _ => true | _ => false end.

Definition acq_progress_pct (self : AcquisitionState) : option Z :=
  match self with Downloading p => Some p | _ => None end.

(** The variant [Critical] of the source, as [PCritical]: [AllocationTier] has one too. *)
Inductive EvictionPriority : Type := Never | Low | Normal | High | PCritical.

Definition numeric_value (self : EvictionPriority) : Z :=
  match self with Never => 0 | Low => 1 | Normal => 2 | High => 3 | PCritical => 4 end.

Inductive AdapterHeatState : Type := Unloaded | Cold | Warm | Hot | Resident.

#[export] Instance heat_eq_dec : EqDecision AdapterHeatState.
Proof. solve_decision. Defined.

Inductive AllocationTier : Type := Extra | Critical.

#[export] Instance tier_eq_dec : EqDecision AllocationTier.
Proof. solve_decision. Defined.

(** [From<AdapterHeatState> for AllocationTier]. *)
Definition tier_of (state : AdapterHeatState) : AllocationTier :=
  match state with
  | Unloaded | Cold | Warm => Extra
  | Hot | Resident => Critical
  end.

(** ** Heat states *)

Definition promote (self : AdapterHeatState) : option AdapterHeatState :=
  match self with
  | Unloaded => Some Cold
  | Cold => Some Warm
  | Warm => Some Hot
  | Hot => Some Resident
  | Resident => None
  end.

Definition demote (self : AdapterHeatState) : option AdapterHeatState :=
  match self with
  | Unloaded => None
  | Cold => Some Unloaded
  | Warm => Some Cold
  | Hot => Some Warm
  | Resident => Some Hot
  end.

Definition ok_or {T E} (o : option T) (e : E) : result T E :=
  match o with Some t => Ok t | None => Err e end.

Definition cas_promote (self expected : AdapterHeatState) :
    result AdapterHeatState AdapterHeatState :=
  if decide (self <> expected) then Err self else ok_or (promote self) self.

Definition cas_demote (self expected : AdapterHeatState) :
    result AdapterHeatState AdapterHeatState :=
  if decide (self <> expected) then Err self else ok_or (demote self) self.

Definition is_loaded (self : AdapterHeatState) : bool :=
  match self with Unloaded => false | _ => true end.

Definition is_available (self : AdapterHeatState) : bool :=
  match self with Warm | Hot | Resident => true | _ => false end.

Definition is_pinned (self : AdapterHeatState) : bool :=
  match self with Resident => true | _ => false end.

Definition priority_boost (self : AdapterHeatState) : f32 :=
  match self with
  | Unloaded => f32_lit 0 1
  | Cold => f32_lit 0 1
  | Warm => f32_lit 1 10
  | Hot => f32_lit 3 10
  | Resident => f32_lit 5 10
  end.

(** The arms of the source's [match] in order: those on a state and a category, then the
    one on the category [ephemeral], then the rest. *)
Definition can_promote (self : AdapterHeatState) (category : string) : bool :=
  match self with
  | Cold =>
      if decide (category = "code") then true
      else if decide (category = "framework") then false
      else if decide (category = "codebase") then false
      else if decide (category = "ephemeral") then false
      else true
  | Warm =>
      if decide (category = "code") then true
      else if decide (category = "framework") then true
      else if decide (category = "codebase") then true
      else if decide (category = "ephemeral") then false
      else true
  | _ => if decide (category = "ephemeral") then false else true
  end.

Definition should_demote (self : AdapterHeatState) (category : string) (last_used : Z) : bool :=
  match self with
  | Hot =>
      if decide (category = "code") then from_secs (24 * 3600) <? last_used
      else if decide (category = "framework") then from_secs (12 * 3600) <? last_used
      else if decide (category = "codebase") then from_secs (4 * 3600) <? last_used
      else if decide (category = "ephemeral") then true
      else false
  | Warm =>
      if decide (category = "framework") then from_secs (6 * 3600) <? last_used
      else if decide (category = "codebase") then from_secs (2 * 3600) <? last_used
      else if decide (category = "ephemeral") then true
      else false
  | _ => if decide (category = "ephemeral") then true else false
  end.

Definition eviction_priority (self : AdapterHeatState) (category : string) : EvictionPriority :=
  match self with
  | Resident => Never
  | Cold | Warm =>
      if decide (category = "ephemeral") then PCritical
      else if decide (category = "codebase") then High
      else if decide (category = "framework") then Normal
      else if decide (category = "code") then Low
      else Normal
  | _ => if decide (category = "ephemeral") then PCritical else Normal
  end.

(** [Display] and [FromStr]. *)
Definition to_string (self : AdapterHeatState) : string :=
  match self with
  | Unloaded => "unloaded"
  | Cold => "cold"
  | Warm => "warm"
  | Hot => "hot"
  | Resident => "resident"
  end.

Definition from_str (s : string) : result AdapterHeatState string :=
  let l := Lifecycle.to_lowercase s in
  if decide (l = "unloaded") then Ok Unloaded
  else if decide (l = "cold") then Ok Cold
  else if decide (l = "warm") then Ok Warm
  else if decide (l = "hot") then Ok Hot
  else if decide (l = "resident") then Ok Resident
  else Err ("Invalid adapter state: '" +:+ s
            +:+ "'. Valid states: unloaded, cold, warm, hot, resident").

(** ** Records *)

Record AdapterHeatRecord : Type := mkRecord {
  adapter_id : string;
  adapter_idx : Z;
  state : AdapterHeatState;
  pinned : bool;
  memory_bytes : Z;
  category : string;
  scope : string;
  last_activated : option Z;
  activation_count : Z;
  parent_adapter_id : option string;
  is_safety_adapter : bool;
  domains : list string;
  acquisition_state : AcquisitionState;
  download_progress_pct : option Z;
  local_path : option string;
  repo_id : option string;
}.

Definition new_with_metadata (adapter_id : string) (adapter_idx : Z) (category scope : string)
    (parent_adapter_id : option string) (is_safety_adapter : bool) (domains : list string) :
    AdapterHeatRecord :=
  mkRecord adapter_id adapter_idx Unloaded false 0 category scope None 0 parent_adapter_id
    is_safety_adapter domains NotCached None None None.

Definition new_with_category (adapter_id : string) (adapter_idx : Z) (category scope : string) :
    AdapterHeatRecord :=
  mkRecord adapter_id adapter_idx Unloaded false 0 category scope None 0 None false [] NotCached
    None None None.

Definition new (adapter_id : string) (adapter_idx : Z) : AdapterHeatRecord :=
  mkRecord adapter_id adapter_idx Unloaded false 0 "code" "global" None 0 None false [] NotCached
    None None None.

(** [last_activated.elapsed().unwrap_or(0)]: a clock set back reads as no time at all. *)
Definition elapsed (now at_ : Z) : Z := Z.max 0 (now - at_).

Definition record_promote (self : AdapterHeatRecord) : AdapterHeatRecord * bool :=
  if can_promote (state self) (category self) then
    match promote (state self) with
    | Some new_state => (self <| state := new_state |>, true)
    | None => (self, false)
    end
  else (self, false).

Definition record_cas_promote (self : AdapterHeatRecord) (expected : AdapterHeatState) :
    AdapterHeatRecord * result bool AdapterHeatState :=
  if decide (state self <> expected) then (self, Err (state self))
  else if can_promote (state self) (category self) then
    match promote (state self) with
    | Some new_state => (self <| state := new_state |>, Ok true)
    | None => (self, Ok false)
    end
  else (self, Ok false).

(** The test of [demote] on the time of the last activation. *)
Definition too_recent (now : Z) (self : AdapterHeatRecord) : bool :=
  match last_activated self with
  | Some at_ => negb (should_demote (state self) (category self) (elapsed now at_))
  | None => false
  end.

Definition record_demote (now : Z) (self : AdapterHeatRecord) : AdapterHeatRecord * bool :=
  if pinned self then (self, false)
  else if too_recent now self then (self, false)
  else match demote (state self) with
       | Some new_state => (self <| state := new_state |>, true)
       | None => (self, false)
       end.

Definition record_cas_demote (now : Z) (self : AdapterHeatRecord) (expected : AdapterHeatState) :
    AdapterHeatRecord * result bool AdapterHeatState :=
  if decide (state self <> expected) then (self, Err (state self))
  else if pinned self then (self, Ok false)
  else if too_recent now self then (self, Ok false)
  else match demote (state self) with
       | Some new_state => (self <| state := new_state |>, Ok true)
       | None => (self, Ok false)
       end.

Definition pin (self : AdapterHeatRecord) : AdapterHeatRecord :=
  self <| pinned := true |> <| state := Resident |>.

Definition unpin (self : AdapterHeatRecord) : AdapterHeatRecord := self <| pinned := false |>.

(** The counter is a [u64]; an overflow is out of reach of a process. *)
Definition record_activation (now : Z) (self : AdapterHeatRecord) : AdapterHeatRecord :=
  self <| last_activated := Some now |> <| activation_count := activation_count self + 1 |>.

Definition record_eviction_priority (self : AdapterHeatRecord) : EvictionPriority :=
  eviction_priority (state self) (category self).

Definition should_evict (self : AdapterHeatRecord) (memory_pressure : f32) : bool :=
  if pinned self then false
  else match record_eviction_priority self with
       | Never => false
       | Low => f32_lt (f32_lit 9 10) memory_pressure
       | Normal => f32_lt (f32_lit 8 10) memory_pressure
       | High => f32_lt (f32_lit 7 10) memory_pressure
       | PCritical => f32_lt (f32_lit 5 10) memory_pressure
       end.

(** ** Thresholds of the lifecycle policy (policy.rs)

    The metrics of the profiler, of which the policy reads two. *)

Record AdapterMetrics : Type := mkMetrics {
  m_adapter_id : string;
  activation_pct : f32;
  quality_delta : f32;
}.

Record LifecyclePolicy : Type := mkPolicy {
  min_activation_pct : f32;
  promotion_threshold : f32;
  demotion_threshold : f32;
  min_quality_delta : f32;
  min_memory_headroom_pct : Z;
}.

Definition from_manifest (min_headroom_pct : Z) : LifecyclePolicy :=
  mkPolicy (f32_lit 2 1) (f32_lit 4 1) (f32_lit 1 1) (f32_lit 5 10) min_headroom_pct.

Definition policy_should_promote (self : LifecyclePolicy) (metrics : AdapterMetrics) : bool :=
  if f32_lt (activation_pct metrics) (promotion_threshold self) then false
  else if f32_lt (quality_delta metrics) (min_quality_delta self) then false
  else true.

Definition policy_should_demote (self : LifecyclePolicy) (metrics : AdapterMetrics) : bool :=
  if f32_lt (activation_pct metrics) (demotion_threshold self) then true
  else if f32_lt (quality_delta metrics) (f32_mul (min_quality_delta self) (f32_lit 5 10)) then true
  else false.

Definition policy_should_evict (self : LifecyclePolicy) (metrics : AdapterMetrics) : bool :=
  if f32_lt (activation_pct metrics) (min_activation_pct self) then true else false.

Inductive EvictionOrder : Type := EphemeralFirst | ColdLru | WarmLru.

Definition eviction_order_from_str (s : string) : option EvictionOrder :=
  if decide (s = "ephemeral_ttl") then Some EphemeralFirst
  else if decide (s = "cold_lru") then Some ColdLru
  else if decide (s = "warm_lru") then Some WarmLru
  else None.

(** ** Policies of categories (category_policies.rs) *)

Record CategoryPolicy : Type := mkCategoryPolicy {
  promote_after : Z;
  demote_after : Z;
  memory_limit : Z;
  policy_priority : EvictionPriority;
  auto_promote : bool;
  auto_demote : bool;
  max_in_memory : option Z;
  routing_priority : f32;
}.

Definition default_policy : CategoryPolicy :=
  mkCategoryPolicy (from_secs 3600) (from_secs 21600) (100 * 1024 * 1024) Normal true true None
    (f32_lit 1 1).

Definition CategoryPolicyManager : Type := gmap string CategoryPolicy.

Definition new_policies : CategoryPolicyManager :=
  <["ephemeral" := mkCategoryPolicy (from_secs 0) (from_secs 0) (50 * 1024 * 1024) PCritical false
      true (Some 20) (f32_lit 5 10)]>
  (<["codebase" := mkCategoryPolicy (from_secs 7200) (from_secs 14400) (300 * 1024 * 1024) High
      false true (Some 5) (f32_lit 8 10)]>
  (<["framework" := mkCategoryPolicy (from_secs 3600) (from_secs 43200) (150 * 1024 * 1024) Normal
      true true (Some 8) (f32_lit 1 1)]>
  (<["code" := mkCategoryPolicy (from_secs 1800) (from_secs 86400) (200 * 1024 * 1024) Low true
      false (Some 10) (f32_lit 12 10)]> ∅))).

Definition get_policy (self : CategoryPolicyManager) (category : string) : CategoryPolicy :=
  default default_policy (self !! category).

Definition update_policy (self : CategoryPolicyManager) (category : string)
    (policy : CategoryPolicy) : CategoryPolicyManager :=
  <[category := policy]> self.

Definition category_should_promote (self : CategoryPolicyManager) (category : string)
    (time_since_creation : Z) : bool :=
  let policy := get_policy self category in
  auto_promote policy && (promote_after policy <=? time_since_creation).

Definition category_should_demote (self : CategoryPolicyManager) (category : string)
    (time_since_last_use : Z) : bool :=
  let policy := get_policy self category in
  auto_demote policy && (demote_after policy <=? time_since_last_use).

Definition category_should_evict (self : CategoryPolicyManager) (category : string)
    (memory_pressure : f32) : bool :=
  match policy_priority (get_policy self category) with
  | Never => false
  | Low => f32_lt (f32_lit 9 10) memory_pressure
  | Normal => f32_lt (f32_lit 8 10) memory_pressure
  | High => f32_lt (f32_lit 7 10) memory_pressure
  | PCritical => f32_lt (f32_lit 5 10) memory_pressure
  end.

Definition get_memory_limit (self : CategoryPolicyManager) (category : string) : Z :=
  memory_limit (get_policy self category).

Definition get_routing_priority (self : CategoryPolicyManager) (category : string) : f32 :=
  routing_priority (get_policy self category).

Definition get_max_in_memory (self : CategoryPolicyManager) (category : string) : option Z :=
  max_in_memory (get_policy self category).

(** [HashMap::keys] has no order: the model answers a set. *)
Definition get_categories (self : CategoryPolicyManager) : gset string := dom self.

(** ** Ladders *)

(** The height of a state. *)
Definition rank (self : AdapterHeatState) : nat :=
  match self with Unloaded => 0 | Cold => 1 | Warm => 2 | Hot => 3 | Resident => 4 end%nat.

#[export] Instance rank_inj : Inj (=) (=) rank.
Proof. intros [] []; done. Qed.

Lemma promote_rank s s' : promote s = Some s' <-> rank s' = S (rank s).
Proof. destruct s, s'; simpl; split; intros; simplify_eq; done. Qed.

Lemma demote_promote s s' : demote s' = Some s <-> promote s = Some s'.
Proof. destruct s, s'; simpl; split; intros; simplify_eq; done. Qed.

Lemma demote_rank s s' : demote s = Some s' -> rank s = S (rank s').
Proof. by intros ?%demote_promote%promote_rank. Qed.

(** [AdapterHeatState] and [AdapterHeatRecord] agree on what a step is: one rung, and
    only when the rules of the category allow it. *)
Lemma record_promote_spec r :
  record_promote r
  = match promote (state r) with
    | Some s' => if can_promote (state r) (category r) then (r <| state := s' |>, true) else (r, false)
    | None => (r, false)
    end.
Proof.
  unfold record_promote. destruct (can_promote _ _), (promote _); done.
Qed.

Lemma record_demote_ok now r r' :
  record_demote now r = (r', true) ->
  pinned r = false /\ too_recent now r = false
  /\ exists s', demote (state r) = Some s' /\ r' = r <| state := s' |>.
Proof.
  unfold record_demote. destruct (pinned r); [done|]. destruct (too_recent now r); [done|].
  destruct (demote (state r)); intros [= <-]; eauto.
Qed.

Lemma record_demote_no now r r' : record_demote now r = (r', false) -> r' = r.
Proof. unfold record_demote. branch; by intros [= <-]. Qed.

Lemma record_promote_no r r' : record_promote r = (r', false) -> r' = r.
Proof. rewrite record_promote_spec. branch; by intros [= <-]. Qed.

(** Residents never become demotable with time, except in the category [ephemeral]. *)
Lemma resident_recent c d : c <> "ephemeral" -> should_demote Resident c d = false.
Proof. intros H. simpl. by rewrite decide_False. Qed.

Lemma resident_never_demoted now r :
  state r = Resident -> category r <> "ephemeral" -> is_Some (last_activated r) ->
  record_demote now r = (r, false).
Proof.
  intros Hs Hc [at_ Ha]. unfold record_demote, too_recent. rewrite Ha, Hs, resident_recent by done.
  by destruct (pinned r).
Qed.

(** ** Text form *)

Lemma heat_from_str_ok s l : from_str l = Ok s <-> Lifecycle.to_lowercase l = to_string s.
Proof.
  unfold from_str. repeat case_decide; destruct s; simpl; split; intros; simplify_eq; congruence.
Qed.

Lemma from_str_to_string s : from_str (to_string s) = Ok s.
Proof. by destruct s. Qed.

End AdapterHeat.
