(* ===== verification/ActivationTracker.v ===== *)
(** * Activation percentages (adapteros-lora-lifecycle/src/activation_tracker.rs)

    A window of the latest routing decisions, the number of them that chose each adapter,
    and the percentages last reported. Adapter indices are [u16]s, kept as [Z]. A
    [HashMap] of which the code sorts what it iterates is a finite map. *)

From S2P Require Import Prelude Float32.

Local Open Scope Z.
Local Open Scope aos.

Module ActivationTracker.

Record ActivationTracker : Type := mkTracker {
  window_size : nat;
  history : list (list Z);
  counts : gmap Z nat;
  last_percentages : gmap Z f32;
}.

Definition EPSILON : f32 := f32_lit 5 100.

(** [assert!(window_size > 0)]: a panic is [None]. *)
Definition new (window_size : nat) : option ActivationTracker :=
  if (0 <? window_size)%nat then Some (mkTracker window_size [] ∅ ∅) else None.

(** [Vec::dedup]: runs of equal elements become one. *)
Fixpoint dedup (l : list Z) : list Z :=
  match l with
  | [] => []
  | x :: l' =>
      match dedup l' with
      | [] => [x]
      | y :: k => if decide (x = y) then y :: k else x :: y :: k
      end
  end.

Definition dedup_sorted (values : list Z) : list Z := dedup (stable_sort Z.leb values).

Definition push_history (entry : list Z) (self : ActivationTracker) : ActivationTracker :=
  self <| history := history self ++ [entry] |>.

(** [*self.counts.entry(id).or_insert(0) += 1]. *)
Definition count_up (m : gmap Z nat) (id : Z) : gmap Z nat := <[id := S (default 0%nat (m !! id))]> m.

(** One adapter of an entry that leaves the window. *)
Definition count_down (m : gmap Z nat) (id : Z) : gmap Z nat :=
  match m !! id with
  | Some count =>
      let count := if (0 <? count)%nat then (count - 1)%nat else count in
      if (count =? 0)%nat then delete id m else <[id := count]> m
  | None => m
  end.

(** [while self.history.len() > self.window_size]: an entry goes in each round, so that
    the length of the history is fuel enough. *)
Fixpoint evict_old (fuel : nat) (window : nat) (h : list (list Z)) (m : gmap Z nat) :
    list (list Z) * gmap Z nat :=
  if (window <? length h)%nat then
    match fuel, h with
    | S fuel, old :: h' => evict_old fuel window h' (fold_left count_down old m)
    | _, _ => (h, m)
    end
  else (h, m).

(** [(count as f32 / decisions as f32) * 100.0]. *)
Definition percentage (count decisions : nat) : f32 :=
  f32_mul (f32_div (f32_of_Z (Z.of_nat count)) (f32_of_Z (Z.of_nat decisions))) (f32_lit 100 1).

Definition pct_of (m : gmap Z f32) (id : Z) : f32 := default (f32_lit 0 1) (m !! id).

(** The percentages of one round that differ from those of the round before, by id. *)
Definition changes (last current : gmap Z f32) : list (Z * f32) :=
  map (fun id => (id, pct_of current id))
    (List.filter
       (fun id => f32_lt EPSILON (f32_abs (f32_sub (pct_of current id) (pct_of last id))))
       (stable_sort Z.leb (elements (dom last ∪ dom current)))).

Definition record_decision (self : ActivationTracker) (selected : list Z) :
    ActivationTracker * list (Z * f32) :=
  let unique := dedup_sorted selected in
  let self := push_history unique self in
  let up := fold_left count_up unique (counts self) in
  let '(h, m) := evict_old (length (history self)) (window_size self) (history self) up in
  let decisions := length h in
  let current :=
    if (0 <? decisions)%nat then (fun count => percentage count decisions) <$> m else ∅ in
  let changed := changes (last_percentages self) current in
  let kept := filter (fun p => f32_lt (f32_lit 0 1) p.2 = true) current in
  (mkTracker (window_size self) h m kept, changed).

Definition activation_pct (self : ActivationTracker) (adapter_id : Z) : f32 :=
  pct_of (last_percentages self) adapter_id.

Definition decision_count (self : ActivationTracker) : nat := length (history self).

(** ** Windows of decisions

    The number of entries of a window that name an adapter. *)

Definition occurrences (id : Z) (h : list (list Z)) : nat :=
  length (filter (fun e => id ∈ e) h).

Definition counted (h : list (list Z)) (m : gmap Z nat) : Prop :=
  forall id, m !! id = if (occurrences id h =? 0)%nat then None else Some (occurrences id h).

Lemma occurrences_app id h k : occurrences id (h ++ k) = (occurrences id h + occurrences id k)%nat.
Proof. unfold occurrences. by rewrite filter_app, length_app. Qed.

Lemma occurrences_single id e : occurrences id [e] = if decide (id ∈ e) then 1%nat else 0%nat.
Proof. unfold occurrences. by rewrite filter_cons, filter_nil; case_decide. Qed.

Lemma dedup_runs_elem l x : x ∈ dedup l <-> x ∈ l.
Proof.
  induction l as [|y l IH]; simpl; [done|]. rewrite elem_of_cons, <- IH.
  destruct (dedup l) as [|z k]; [set_solver|]. case_decide; set_solver.
Qed.

Lemma dedup_ascending l :
  StronglySorted (fun a b => (a <=? b) = true) l -> StronglySorted Z.lt (dedup l).
Proof.
  induction 1 as [|x l _ IH Hx]; simpl; [constructor|].
  assert (Forall (Z.le x) (dedup l)) as Hle.
  { apply Forall_forall. intros y Hy. rewrite dedup_runs_elem in Hy. rewrite Forall_forall in Hx. specialize (Hx _ Hy). simpl in Hx. lia. }
  destruct (dedup l) as [|y k]; [by repeat constructor|]. case_decide as Hne; [done|].
  constructor; [done|]. apply Forall_cons in Hle as [Hxy _]. apply StronglySorted_inv in IH as [_ Hyk].
  constructor; [lia|]. eapply Forall_impl; [exact Hyk|]. intros z; simpl; lia.
Qed.

Lemma ascending_nodup l : StronglySorted Z.lt l -> NoDup l.
Proof.
  induction 1 as [|x l _ IH Hx]; constructor; [|done].
  intros H. rewrite Forall_forall in Hx. specialize (Hx _ H). lia.
Qed.

Lemma dedup_sorted_spec l : NoDup (dedup_sorted l) /\ forall x, x ∈ dedup_sorted l <-> x ∈ l.
Proof.
  unfold dedup_sorted. split.
  - apply ascending_nodup, dedup_ascending, stable_sort_sorted; intros *; rewrite ?Z.leb_le, ?Z.leb_gt; lia.
  - intros x. by rewrite dedup_runs_elem, stable_sort_perm.
Qed.

Lemma count_up_lookup m l id :
  NoDup l ->
  fold_left count_up l m !! id
  = if decide (id ∈ l) then Some (S (default 0%nat (m !! id))) else m !! id.
Proof.
  intros H. revert m. induction H as [|x l Hx _ IH]; intros m; cbn [fold_left].
  - case_decide; set_solver.
  - rewrite IH. unfold count_up. destruct (decide (id = x)) as [->|Hne].
    + rewrite lookup_insert_eq. repeat case_decide; set_solver.
    + rewrite lookup_insert_ne by done. repeat case_decide; set_solver.
Qed.

Lemma count_down_lookup m x id :
  count_down m x !! id
  = if decide (id = x) then match m !! x with Some (S (S n)) => Some (S n) | _ => None end
    else m !! id.
Proof.
  unfold count_down. case_decide as E.
  - subst id. destruct (m !! x) as [[|[|n]]|] eqn:Em; simpl; rewrite ?lookup_delete_eq, ?lookup_insert_eq; auto.
  - destruct (m !! x) as [[|[|n]]|]; simpl;
      rewrite ?lookup_delete_ne, ?lookup_insert_ne by done; done.
Qed.

Lemma counts_down_lookup m l id :
  NoDup l ->
  fold_left count_down l m !! id
  = if decide (id ∈ l) then match m !! id with Some (S (S n)) => Some (S n) | _ => None end
    else m !! id.
Proof.
  intros H. revert m. induction H as [|x l Hx _ IH]; intros m; cbn [fold_left].
  - case_decide; set_solver.
  - rewrite IH, count_down_lookup. destruct (decide (id = x)) as [->|Hne].
    + repeat case_decide; set_solver.
    + repeat case_decide; set_solver.
Qed.

(** ** The reference: percentages read off the window

    The latest [w] decisions, and the share of them that name an adapter. *)

Definition window (w : nat) (ds : list (list Z)) : list (list Z) :=
  drop (length ds - w) (map dedup_sorted ds).

Definition share (win : list (list Z)) (id : Z) : f32 :=
  if (occurrences id win =? 0)%nat then f32_lit 0 1
  else percentage (occurrences id win) (length win).

Definition percentages (h : list (list Z)) (m : gmap Z nat) : gmap Z f32 :=
  if (0 <? length h)%nat then (fun count => percentage count (length h)) <$> m else ∅.

Lemma counted_app h m e :
  NoDup e -> counted h m -> counted (h ++ [e]) (fold_left count_up e m).
Proof.
  intros He H id. rewrite count_up_lookup, occurrences_app, occurrences_single by done.
  rewrite (H id). repeat case_decide; destruct (occurrences id h) as [|n]; simpl; try done.
  - f_equal; lia.
  - rewrite (Nat.add_0_r n). done.
Qed.

Lemma counted_cons h m e :
  NoDup e -> counted (e :: h) m -> counted h (fold_left count_down e m).
Proof.
  intros He H id. rewrite counts_down_lookup by done. rewrite (H id).
  change (e :: h) with ([e] ++ h). rewrite occurrences_app, occurrences_single.
  repeat case_decide; simpl; try done. by destruct (occurrences id h) as [|n].
Qed.

Lemma evict_old_spec fuel w h m :
  (length h - w <= fuel)%nat -> Forall NoDup h -> counted h m ->
  exists m', evict_old fuel w h m = (drop (length h - w) h, m') /\ counted (drop (length h - w) h) m'.
Proof.
  revert h m. induction fuel as [|fuel IH]; intros h m Hf Hn Hc.
  - replace (length h - w)%nat with 0%nat by lia. exists m. split; [|done].
    unfold evict_old. by rewrite (proj2 (Nat.ltb_ge _ _)) by lia.
  - cbn [evict_old]. destruct (w <? length h)%nat eqn:E; breflect.
    + destruct h as [|e h]; [simpl in E; lia|]. apply Forall_cons in Hn as [He Hn].
      destruct (IH h (fold_left count_down e m)) as (m' & -> & Hm'); [simpl in *; lia|done|by apply counted_cons|].
      exists m'. replace (length (e :: h) - w)%nat with (S (length h - w)) by (simpl in *; lia). done.
    + replace (length h - w)%nat with 0%nat by lia. by exists m.
Qed.

(** What holds of a tracker between decisions. *)
Record tracks (w : nat) (ds : list (list Z)) (t : ActivationTracker) : Prop := {
  tr_size : window_size t = w;
  tr_history : history t = window w ds;
  tr_counts : counted (history t) (counts t);
  tr_last : last_percentages t
            = filter (fun p => f32_lt (f32_lit 0 1) p.2 = true) (percentages (history t) (counts t));
}.

Lemma window_nodup w ds : Forall NoDup (window w ds).
Proof.
  unfold window. apply Forall_drop, Forall_forall. intros e He.
  apply list_elem_of_fmap in He as (d & -> & _). apply dedup_sorted_spec.
Qed.

Lemma window_length w ds : length (window w ds) = Nat.min w (length ds).
Proof. unfold window. rewrite length_drop, length_map. lia. Qed.

Lemma window_snoc w ds d :
  (0 < w)%nat ->
  window w (ds ++ [d])
  = drop (length (window w ds ++ [dedup_sorted d]) - w) (window w ds ++ [dedup_sorted d]).
Proof.
  intros Hw. rewrite length_app, window_length. unfold window. simpl length.
  rewrite length_app, map_app. simpl. destruct (decide (w <= length ds)%nat).
  - replace (length ds + 1 - w)%nat with (S (length ds - w)) by lia.
    replace (Nat.min w (length ds) + 1 - w)%nat with 1%nat by lia.
    rewrite <- (drop_app_le _ [dedup_sorted d]) by (rewrite length_map; lia).
    by rewrite drop_drop, Nat.add_1_r.
  - replace (length ds + 1 - w)%nat with 0%nat by lia.
    replace (Nat.min w (length ds) + 1 - w)%nat with 0%nat by lia.
    by replace (length ds - w)%nat with 0%nat by lia.
Qed.

Lemma tracks_new w t : new w = Some t -> tracks w [] t /\ (0 < w)%nat.
Proof.
  unfold new. destruct (0 <? w)%nat eqn:E; [|done]. breflect. intros [= <-].
  split; [|done]. split; done.
Qed.

Lemma tracks_step w ds t sel :
  (0 < w)%nat -> tracks w ds t ->
  tracks w (ds ++ [sel]) (record_decision t sel).1
  /\ (record_decision t sel).2
     = changes (last_percentages t)
         (percentages (history (record_decision t sel).1) (counts (record_decision t sel).1)).
Proof.
  intros Hw [Hs Hh Hc Hl]. destruct t as [w0 h c l].
  cbn [history window_size counts last_percentages] in *. subst w0.
  destruct (dedup_sorted_spec sel) as [Hn _].
  destruct (evict_old_spec (length (h ++ [dedup_sorted sel])) w
    (h ++ [dedup_sorted sel]) (fold_left count_up (dedup_sorted sel) c))
    as (m & E & Hm); [lia| |by apply counted_app|].
  { apply Forall_app. split; [rewrite Hh; apply window_nodup|by repeat constructor]. }
  unfold record_decision, push_history, set_field.
  cbn [history window_size counts last_percentages]. rewrite E. cbn beta iota zeta.
  cbn [history window_size counts last_percentages fst snd]. split; [|done].
  subst h. rewrite <- window_snoc in * by done. by split.
Qed.

Definition run (t : ActivationTracker) (ds : list (list Z)) : ActivationTracker :=
  fold_left (fun t d => (record_decision t d).1) ds t.

Lemma tracks_run w ds t : new w = Some t -> tracks w ds (run t ds) /\ (0 < w)%nat.
Proof.
  intros [H0 Hw]%tracks_new. split; [|done]. unfold run. induction ds as [|d ds IH] using rev_ind; [done|].
  rewrite fold_left_app. simpl. by apply tracks_step.
Qed.

(** ** Percentages of the windows in use are positive *)

Definition positive_up_to (n : nat) : bool :=
  forallb (fun d => forallb (fun c => f32_lt (f32_lit 0 1) (percentage c d)) (seq 1 d)) (seq 1 n).

Lemma positive_200 : positive_up_to 200 = true.
Proof. by vm_compute. Qed.

Lemma positive_pair n c d :
  positive_up_to n = true -> (1 <= c <= d)%nat -> (d <= n)%nat ->
  f32_lt (f32_lit 0 1) (percentage c d) = true.
Proof.
  unfold positive_up_to. intros H Hc Hd. rewrite forallb_forall in H.
  assert (In d (seq 1 n)) as Id%H by (apply in_seq; lia).
  rewrite forallb_forall in Id. apply Id, in_seq. lia.
Qed.

Lemma percentage_positive c d :
  (1 <= c <= d)%nat -> (d <= 200)%nat -> f32_lt (f32_lit 0 1) (percentage c d) = true.
Proof.
  intros. by apply (positive_pair 200 c d positive_200).
Qed.

Lemma occurrences_le id h : (occurrences id h <= length h)%nat.
Proof. apply length_filter. Qed.

Lemma percentages_share h m id :
  counted h m -> pct_of (percentages h m) id = share h id.
Proof.
  intros H. unfold pct_of, percentages, share. pose proof (occurrences_le id h).
  destruct (0 <? length h)%nat eqn:E; breflect.
  - rewrite lookup_fmap, (H id). by destruct (occurrences id h =? 0)%nat.
  - rewrite lookup_empty. destruct (occurrences id h =? 0)%nat eqn:E0; [done|]. breflect. lia.
Qed.

Lemma kept_share h m id :
  (length h <= 200)%nat -> counted h m ->
  pct_of (filter (fun p => f32_lt (f32_lit 0 1) p.2 = true) (percentages h m)) id = share h id.
Proof.
  intros Hl H. rewrite <- (percentages_share h m id H). unfold pct_of.
  rewrite map_lookup_filter. destruct (percentages h m !! id) as [p|] eqn:E; [|done]. simpl.
  assert (f32_lt (f32_lit 0 1) p = true) as Hp; [|by rewrite option_guard_True].
  unfold percentages in E. destruct (0 <? length h)%nat eqn:E0; [|done]. breflect.
  rewrite lookup_fmap, (H id) in E. pose proof (occurrences_le id h).
  destruct (occurrences id h =? 0)%nat eqn:E1; [done|]. breflect. simpl in E. simplify_eq.
  apply percentage_positive; lia.
Qed.

Lemma changes_spec last cur :
  (forall id p, (id, p) ∈ changes last cur
     <-> p = pct_of cur id
         /\ f32_lt EPSILON (f32_abs (f32_sub (pct_of cur id) (pct_of last id))) = true)
  /\ StronglySorted Z.lt (map fst (changes last cur)).
Proof.
  set (keys := stable_sort Z.leb (elements (dom last ∪ dom cur))).
  set (test := fun id => f32_lt EPSILON (f32_abs (f32_sub (pct_of cur id) (pct_of last id)))).
  assert (StronglySorted Z.lt keys) as Hk.
  { assert (StronglySorted (fun a b => (a <=? b) = true) keys) as Hs
      by (apply stable_sort_sorted; intros *; rewrite ?Z.leb_le, ?Z.leb_gt; lia).
    assert (NoDup keys) as Hn by (unfold keys; rewrite stable_sort_perm; apply NoDup_elements).
    clear -Hs Hn. induction Hs as [|x l _ IH Hx]; [constructor|]. apply NoDup_cons in Hn as [Hx' Hn].
    constructor; [auto|]. rewrite Forall_forall in Hx |- *. intros y Hy. specialize (Hx _ Hy). simpl in Hx.
    assert (x <> y) by (by intros ->). lia. }
  split.
  - intros id p. unfold changes. fold keys. rewrite list_elem_of_fmap. split.
    + intros (i & [= -> ->] & Hi). apply list_elem_of_In, filter_In in Hi as [_ Hi]. done.
    + intros [-> Hi]. exists id. split; [done|]. apply list_elem_of_In, filter_In. split; [|done].
      apply list_elem_of_In. unfold keys. rewrite stable_sort_perm. apply elem_of_elements, elem_of_union.
      destruct (last !! id) eqn:El; [left; by eapply elem_of_dom_2|].
      destruct (cur !! id) eqn:Ec; [right; by eapply elem_of_dom_2|].
      exfalso. unfold pct_of in Hi. rewrite El, Ec in Hi. vm_compute in Hi. done.
  - unfold changes. fold keys. rewrite map_map, map_id. fold test. clear -Hk.
    induction Hk as [|x l _ IH Hx]; simpl; [constructor|]. destruct (test x); [|done].
    constructor; [done|]. rewrite Forall_forall in Hx |- *.
    intros y Hy. apply Hx. by apply list_elem_of_In, filter_In, proj1, list_elem_of_In in Hy.
Qed.

(** ** What is reported *)

(** [C22] After any sequence of decisions, with a window of at most 200 as the lifecycle
    manager has it, the incremental tracker holds the latest decisions of the window, each
    adapter's percentage is its share of them computed from scratch, and a decision reports
    exactly the adapters, in ascending order, whose share moved by more than the threshold,
    with their new share. *)
Theorem activation_exact w ds t0 sel :
  (w <= 200)%nat -> new w = Some t0 ->
  let t := run t0 ds in
  history t = window w ds
  /\ (forall id, activation_pct t id = share (window w ds) id)
  /\ (forall id p, (id, p) ∈ (record_decision t sel).2
        <-> p = share (window w (ds ++ [sel])) id
            /\ f32_lt EPSILON (f32_abs (f32_sub p (share (window w ds) id))) = true)
  /\ StronglySorted Z.lt (map fst (record_decision t sel).2).
Proof.
  intros Hw H0 t. destruct (tracks_run w ds t0 H0) as [Ht Hp]. fold t in Ht.
  assert (length (window w ds) <= 200)%nat as Hl by (rewrite window_length; lia).
  destruct (tracks_step w ds t sel Hp Ht) as [Ht' ->]. destruct Ht as [Hs Hh Hc Hlast].
  destruct Ht' as [_ Hh' Hc' _].
  destruct (changes_spec (last_percentages t)
    (percentages (history (record_decision t sel).1) (counts (record_decision t sel).1))) as [Hch Hss].
  assert (forall id, pct_of (last_percentages t) id = share (window w ds) id) as Hpct.
  { intros id. rewrite Hlast, kept_share, Hh; [done|by rewrite Hh|done]. }
  split; [done|]. split; [exact Hpct|]. split; [|exact Hss].
  intros id p. rewrite (Hch id p), percentages_share, Hh', Hpct by done.
  split; intros [-> H]; done.
Qed.

Section Examples.
(** The decisions of the test [honors_rolling_window]. *)
Lemma activation_exact_witness :
  let t := run (mkTracker 2 [] ∅ ∅) [[0]; [1; 0]] in
  activation_pct t 0 = f32_lit 100 1
  /\ (record_decision t [1]).2 = [(0, f32_lit 50 1); (1, f32_lit 100 1)]
  /\ (forall id, activation_pct t id = share (window 2 [[0]; [1; 0]]) id).
Proof.
  destruct (activation_exact 2 [[0]; [1; 0]] (mkTracker 2 [] ∅ ∅) [1]) as (_ & H & _); [lia|done|].
  split; [|split]; [by vm_compute|by vm_compute|exact H].
Defined.
End Examples.

End ActivationTracker.
