(* ===== verification/LifecycleManager.v ===== *)
(** * The adapter lifecycle manager (adapteros-lora-lifecycle/src/lib.rs; the registry of
    loaded adapters of loader.rs)

    The manager keeps a heat record per adapter, the registry of what is loaded, the value
    K of the router, and writes through to the database. The database is the class
    [LifecycleDb] of the calls made of it, the files of adapters the class [AdapterSource];
    [log] is what the telemetry answers to an event (always [Ok] without telemetry). A
    [HashMap] is iterated in the order [iter]. Where a method lets go of its locks, what
    other threads do to the manager is [others n] at the [n]-th such place. Log lines and
    the behaviour events of the database (training data, whose failures are ignored) have no
    effect on the state; nor have the background writes of activation percentages. *)

From S2P Require Import Prelude Hashing Float32 AdapterHeat ActivationTracker.
Import AdapterHeat.

Local Open Scope Z.
Local Open Scope aos.

Module LifecycleManager.

(** ** What the manager calls *)

(** The calls on the database. Those that write answer with the database afterwards, which
    may have changed although the call reports an error. *)
Class LifecycleDb (DB : Type) : Type := {
  (** [check_adapter_consistency]: [is_ready] and the message. *)
  check_adapter_consistency : DB -> string -> result (bool * option string) AosError;
  update_adapter_state_tx : DB -> string -> string -> string -> DB * result unit AosError;
  update_adapter_memory_tx : DB -> string -> Z -> DB * result unit AosError;
  (** The statements on [pinned_adapters], with the errors they are given there. *)
  insert_pin : DB -> string -> string -> option string -> option string -> string ->
      DB * result unit AosError;
  delete_pin : DB -> string -> string -> DB * result unit AosError;
  (** The two statements of [record_adapter_activation]; only a missing pool is an error. *)
  persist_activation : DB -> string -> Z -> DB * result unit AosError;
  (** [find_expired_adapters]: the names of the rows. *)
  find_expired_adapters : DB -> result (list string) AosError;
}.

(** The file of an adapter, found, parsed and its signature verified: its path, its
    weights, and its size in memory. *)
Class AdapterSource : Type :=
  read_adapter : string -> result (string * list byte * Z) string.

Section Manager.
Context {DB : Type} {D : LifecycleDb DB} {S : AdapterSource} {B : Blake3} {X : Hex}.
Context (log : string -> result unit AosError).
Context (iter : gmap Z AdapterHeatRecord -> list (Z * AdapterHeatRecord)).

(** ** The loader *)

Record AdapterHandle : Type := mkHandle {
  h_adapter_id : Z;
  h_path : string;
  h_memory_bytes : Z;
}.

Record AdapterLoader : Type := mkLoader {
  loaded : gmap Z (AdapterHandle * list byte);
  expected_hashes : gmap string B3Hash;
}.

Definition register_hash (self : AdapterLoader) (adapter_name : string) (hash : B3Hash) :
    AdapterLoader :=
  self <| expected_hashes := <[adapter_name := hash]> (expected_hashes self) |>.

Definition expected_hash (self : AdapterLoader) (adapter_name : string) : result B3Hash AosError :=
  ok_or (expected_hashes self !! adapter_name)
    (Lifecycle ("Missing expected hash for adapter " +:+ adapter_name)).

(** [load_adapter] for one caller: the errors inside the single flight are texts, and
    leave it as [AosError::Lifecycle]. *)
Definition load_adapter (self : AdapterLoader) (adapter_id : Z) (adapter_name : string) :
    AdapterLoader * result AdapterHandle AosError :=
  match loaded self !! adapter_id with
  | Some (handle, _) => (self, Ok handle)
  | None =>
      match read_adapter adapter_name with
      | Err e => (self, Err (Lifecycle e))
      | Ok (path, weights, memory_bytes) =>
          match expected_hash self adapter_name with
          | Err e => (self, Err (Lifecycle (error_text e)))
          | Ok expected =>
              let actual := hash weights in
              if decide (actual <> expected) then
                (self, Err (Lifecycle ("Adapter hash mismatch for " +:+ adapter_name
                   +:+ ": expected b3:" +:+ to_short_hex expected +:+ ", got b3:" +:+ to_short_hex actual)))
              else
                let handle := mkHandle adapter_id path memory_bytes in
                (self <| loaded := <[adapter_id := (handle, weights)]> (loaded self) |>, Ok handle)
          end
      end
  end.

(** The asynchronous load asks for the expected hash before it enters the flight. *)
Definition load_adapter_async (self : AdapterLoader) (adapter_id : Z) (adapter_name : string) :
    AdapterLoader * result AdapterHandle AosError :=
  match expected_hash self adapter_name with
  | Err e => (self, Err e)
  | Ok _ => load_adapter self adapter_id adapter_name
  end.

Definition unload_adapter (self : AdapterLoader) (adapter_id : Z) :
    AdapterLoader * result unit AosError :=
  match loaded self !! adapter_id with
  | Some _ => (self <| loaded := delete adapter_id (loaded self) |>, Ok tt)
  | None => (self, Err (Lifecycle ("Adapter " +:+ pretty adapter_id +:+ " not loaded")))
  end.

Definition loader_is_loaded (self : AdapterLoader) (adapter_id : Z) : bool :=
  bool_decide (is_Some (loaded self !! adapter_id)).

Definition loaded_count (self : AdapterLoader) : nat := size (loaded self).

(** ** The manager *)

(** [KReductionExecutionRecord], less its time stamp. *)
Record KReductionExecutionRecord : Type := mkExecution {
  x_request_id : string;
  x_old_k : Z;
  x_new_k : Z;
  x_approved : bool;
  x_executed : bool;
  x_adapters_unloaded : list Z;
  x_failure_reason : option string;
}.

Record LifecycleManager : Type := mkManager {
  states : gmap Z AdapterHeatRecord;
  policy : LifecyclePolicy;
  loader : AdapterLoader;
  current_k : Z;
  category_policies : CategoryPolicyManager;
  db : option DB;
  activation_tracker : ActivationTracker.ActivationTracker;
  active_stack : option (string * list string);
  k_reduction_history : list KReductionExecutionRecord;
}.

(** [enumerate()] with [idx as u16]: the names beyond 65536 wrap around. *)
Definition initial_states (adapter_names : list string) : gmap Z AdapterHeatRecord :=
  fold_left (fun m p => <[(Z.of_nat p.1 mod 2 ^ 16) := AdapterHeat.new p.2 (Z.of_nat p.1 mod 2 ^ 16)]> m)
    (imap (fun i name => (i, name)) adapter_names) ∅.

(** [new] and [new_with_db]. *)
Definition new_manager (adapter_names : list string) (adapter_hashes : gmap string B3Hash)
    (min_headroom_pct : Z) (initial_k : Z) (db : option DB) : LifecycleManager :=
  mkManager (initial_states adapter_names) (from_manifest min_headroom_pct)
    (mkLoader ∅ adapter_hashes) initial_k new_policies db
    (ActivationTracker.mkTracker 200 [] ∅ ∅) None [].

Definition set_record (adapter_id : Z) (record : AdapterHeatRecord) (self : LifecycleManager) :
    LifecycleManager :=
  self <| states := <[adapter_id := record]> (states self) |>.

(** The first record of an iteration whose adapter has the name. *)
Definition find_name (self : LifecycleManager) (name : string) : option (Z * AdapterHeatRecord) :=
  List.find (fun p => bool_decide (adapter_id p.2 = name)) (iter (states self)).

Definition get_adapter_id_by_name (self : LifecycleManager) (name : string) : option Z :=
  option_map fst (find_name self name).

Definition get_adapter_idx (self : LifecycleManager) (name : string) : option Z :=
  option_map fst (find_name self name).

Definition not_found (adapter_id : Z) : AosError :=
  Lifecycle ("Adapter " +:+ pretty adapter_id +:+ " not found").

Definition ensure_sql_kv_ready (self : LifecycleManager) (adapter_id : string) :
    result unit AosError :=
  match db self with
  | None => Ok tt
  | Some d =>
      status <-? check_adapter_consistency d adapter_id;;
      if negb status.1 then
        Err (Validation ("Adapter " +:+ adapter_id +:+ " blocked: "
             +:+ default "KV consistency check failed" status.2))
      else Ok tt
  end.

(** [if let Some(ref db) = self.db { write(db)? }]. *)
Definition persist (self : LifecycleManager) (write : DB -> DB * result unit AosError) :
    LifecycleManager * result unit AosError :=
  match db self with
  | None => (self, Ok tt)
  | Some d => let '(d, r) := write d in (self <| db := Some d |>, r)
  end.

(** [update_adapter_state_tx(..).map_err(|e| Database(what: e))]. *)
Definition write_state (name : string) (new_state : AdapterHeatState) (reason what : string)
    (d : DB) : DB * result unit AosError :=
  let '(d, r) := update_adapter_state_tx d name (to_string new_state) reason in
  (d, match r with
      | Ok _ => Ok tt
      | Err e => Err (Database (what +:+ ": " +:+ error_text e))
      end).

(** *** Pinning *)

Definition pin_adapter (others : nat -> LifecycleManager -> LifecycleManager)
    (adapter_id_ : Z) (tenant_id pinned_by : string) (pinned_until reason : option string)
    (self : LifecycleManager) : LifecycleManager * result unit AosError :=
  match states self !! adapter_id_ with
  | None => (self, Err (not_found adapter_id_))
  | Some record =>
      let name := adapter_id record in
      let self := others 0%nat self in
      match ensure_sql_kv_ready self name with
      | Err e => (self, Err e)
      | Ok _ =>
          let '(self, r) :=
            persist self (fun d => insert_pin d tenant_id name pinned_until reason pinned_by) in
          match r with
          | Err e => (self, Err e)
          | Ok _ =>
              let self := others 1%nat self in
              match states self !! adapter_id_ with
              | None => (self, Err (not_found adapter_id_))
              | Some record =>
                  (set_record adapter_id_ (pin record) self, log "adapter_promoted")
              end
          end
      end
  end.

Definition unpin_adapter (others : nat -> LifecycleManager -> LifecycleManager)
    (adapter_id_ : Z) (tenant_id : string) (self : LifecycleManager) :
    LifecycleManager * result unit AosError :=
  match states self !! adapter_id_ with
  | None => (self, Err (not_found adapter_id_))
  | Some record =>
      let name := adapter_id record in
      let self := others 0%nat self in
      match ensure_sql_kv_ready self name with
      | Err e => (self, Err e)
      | Ok _ =>
          let '(self, r) := persist self (fun d => delete_pin d tenant_id name) in
          match r with
          | Err e => (self, Err e)
          | Ok _ =>
              let self := others 1%nat self in
              match states self !! adapter_id_ with
              | None => (self, Err (not_found adapter_id_))
              | Some record => (set_record adapter_id_ (unpin record) self, Ok tt)
              end
          end
      end
  end.

(** *** Promotion and demotion by hand

    The new state is computed from the record read first, and written to whatever record is
    there at the end. *)

Definition cannot_promote (record : AdapterHeatRecord) (suffix : string) : AosError :=
  Lifecycle ("Cannot promote adapter " +:+ adapter_id record +:+ " from "
    +:+ to_string (state record) +:+ suffix).

Definition promote_check (record : AdapterHeatRecord) : result AdapterHeatState AosError :=
  if negb (can_promote (state record) (category record)) then
    Err (cannot_promote record (" (category: " +:+ category record +:+ ")"))
  else ok_or (promote (state record)) (cannot_promote record EmptyString).

Definition demote_check (now : Z) (record : AdapterHeatRecord) : result AdapterHeatState AosError :=
  if pinned record then
    Err (Lifecycle ("Cannot demote pinned adapter " +:+ adapter_id record))
  else if too_recent now record then
    Err (Lifecycle ("Cannot demote adapter " +:+ adapter_id record +:+ " from "
      +:+ to_string (state record) +:+ " (not enough time since last activation)"))
  else ok_or (demote (state record))
         (Lifecycle ("Cannot demote adapter " +:+ adapter_id record +:+ " from "
            +:+ to_string (state record))).

(** Steps 2 to 4 of [promote_adapter] and [demote_adapter]. *)
Definition write_through (others : nat -> LifecycleManager -> LifecycleManager)
    (adapter_id_ : Z) (name : string) (new_state : AdapterHeatState) (reason what event : string)
    (self : LifecycleManager) : LifecycleManager * result unit AosError :=
  let self := others 0%nat self in
  match ensure_sql_kv_ready self name with
  | Err e => (self, Err e)
  | Ok _ =>
      let '(self, r) := persist self (write_state name new_state reason what) in
      match r with
      | Err e => (self, Err e)
      | Ok _ =>
          let self := others 1%nat self in
          match states self !! adapter_id_ with
          | None => (self, Err (not_found adapter_id_))
          | Some record =>
              (set_record adapter_id_ (record <| state := new_state |>) self, log event)
          end
      end
  end.

Definition promote_adapter (others : nat -> LifecycleManager -> LifecycleManager)
    (adapter_id_ : Z) (self : LifecycleManager) : LifecycleManager * result unit AosError :=
  match states self !! adapter_id_ with
  | None => (self, Err (not_found adapter_id_))
  | Some record =>
      match promote_check record with
      | Err e => (self, Err e)
      | Ok new_state =>
          write_through others adapter_id_ (adapter_id record) new_state "manual_promotion"
            "Failed to persist adapter promotion" "adapter_promoted" self
      end
  end.

Definition demote_adapter (others : nat -> LifecycleManager -> LifecycleManager) (now : Z)
    (adapter_id_ : Z) (self : LifecycleManager) : LifecycleManager * result unit AosError :=
  match states self !! adapter_id_ with
  | None => (self, Err (not_found adapter_id_))
  | Some record =>
      match demote_check now record with
      | Err e => (self, Err e)
      | Ok new_state =>
          write_through others adapter_id_ (adapter_id record) new_state "manual_demotion"
            "Failed to persist adapter demotion" "adapter_demoted" self
      end
  end.

(** *** Transitions by policy *)

Definition update_adapter_state (others : nat -> LifecycleManager -> LifecycleManager)
    (adapter_id_ : Z) (new_state : AdapterHeatState) (reason : string) (self : LifecycleManager) :
    LifecycleManager * result unit AosError :=
  match states self !! adapter_id_ with
  | None => (self, Ok tt)
  | Some record =>
      let name := adapter_id record in
      let self := others 0%nat self in
      let '(self, r) := persist self
        (write_state name new_state reason "Failed to persist adapter state update") in
      match r with
      | Err e => (self, Err e)
      | Ok _ =>
          let self := others 1%nat self in
          match states self !! adapter_id_ with
          | None => (self, Ok tt)
          | Some record =>
              (set_record adapter_id_ (record <| state := new_state |>) self,
               log "adapter_state_transition")
          end
      end
  end.

Definition auto_promote_adapter (others : nat -> LifecycleManager -> LifecycleManager)
    (adapter_id_ : Z) (self : LifecycleManager) : LifecycleManager * result unit AosError :=
  match states self !! adapter_id_ with
  | None => (self, Ok tt)
  | Some record =>
      if can_promote (state record) (category record) then
        match promote (state record) with
        | Some next => update_adapter_state others adapter_id_ next "auto_promotion" self
        | None => (self, Ok tt)
        end
      else (self, Ok tt)
  end.

Definition auto_demote_adapter (others : nat -> LifecycleManager -> LifecycleManager) (now : Z)
    (adapter_id_ : Z) (self : LifecycleManager) : LifecycleManager * result unit AosError :=
  match states self !! adapter_id_ with
  | None => (self, Ok tt)
  | Some record =>
      match last_activated record with
      | None => (self, Ok tt)
      | Some at_ =>
          if should_demote (state record) (category record) (elapsed now at_) then
            match demote (state record) with
            | Some next => update_adapter_state others adapter_id_ next "auto_demotion" self
            | None => (self, Ok tt)
            end
          else (self, Ok tt)
      end
  end.

(** One metric of [evaluate_transitions]. *)
Definition evaluate_metric (now : Z) (metric : AdapterMetrics) (self : LifecycleManager) :
    LifecycleManager * result unit AosError :=
  match find_name self (m_adapter_id metric) with
  | None => (self, Ok tt)
  | Some (id, record) =>
      if pinned record then (self, Ok tt)
      else if policy_should_promote (policy self) metric then
        let '(record, promoted) := record_promote record in
        (set_record id record self, if promoted then log "adapter_promoted" else Ok tt)
      else if policy_should_demote (policy self) metric then
        let '(record, demoted) := record_demote now record in
        (set_record id record self, if demoted then log "adapter_demoted" else Ok tt)
      else (self, Ok tt)
  end.

(** The loop, under the lock of the states; a telemetry error ends it. *)
Fixpoint evaluate_transitions (now : Z) (metrics : list AdapterMetrics) (self : LifecycleManager) :
    LifecycleManager * result unit AosError :=
  match metrics with
  | [] => (self, Ok tt)
  | metric :: metrics =>
      let '(self, r) := evaluate_metric now metric self in
      match r with Err e => (self, Err e) | Ok _ => evaluate_transitions now metrics self end
  end.

(** *** Eviction *)

Definition evicted (record : AdapterHeatRecord) : AdapterHeatRecord :=
  record <| state := Unloaded |> <| memory_bytes := 0 |>.

Definition set_loader (l : AdapterLoader) (self : LifecycleManager) : LifecycleManager :=
  self <| loader := l |>.

(** The part of [evict_adapter] under the lock, answering [None] for an unknown adapter. *)
Definition evict_locked (adapter_id_ : Z) (self : LifecycleManager) :
    LifecycleManager * result (option string) AosError :=
  match states self !! adapter_id_ with
  | None => (self, Ok None)
  | Some record =>
      if pinned record then
        (self, Err (Lifecycle ("Cannot evict pinned adapter: " +:+ adapter_id record)))
      else
        let '(l, r) := unload_adapter (loader self) adapter_id_ in
        let self := set_loader l self in
        match r with
        | Err e =>
            if negb (str_contains "not loaded" (error_text e)) then (self, Err e)
            else (set_record adapter_id_ (evicted record) self, Ok (Some (adapter_id record)))
        | Ok _ => (set_record adapter_id_ (evicted record) self, Ok (Some (adapter_id record)))
        end
  end.

(** The writes after it, whose failures are logged. *)
Definition persist_eviction (name : string) (self : LifecycleManager) : LifecycleManager :=
  let '(self, _) :=
    persist self (fun d => update_adapter_state_tx d name "unloaded" "eviction") in
  let '(self, _) := persist self (fun d => update_adapter_memory_tx d name 0) in
  self.

Definition evict_adapter (others : nat -> LifecycleManager -> LifecycleManager)
    (adapter_id_ : Z) (self : LifecycleManager) : LifecycleManager * result unit AosError :=
  let '(self, r) := evict_locked adapter_id_ self in
  match r with
  | Err e => (self, Err e)
  | Ok None => (self, Ok tt)
  | Ok (Some name) =>
      let self := others 0%nat self in
      (persist_eviction name self, log "adapter_evicted")
  end.

(** [reduce_k], under the lock of K: the events may fail, before and after the change. *)
Definition reduce_k (self : LifecycleManager) : LifecycleManager * result unit AosError :=
  match log "k_reduction_request" with
  | Err e => (self, Err e)
  | Ok _ =>
      if (1 <? current_k self) then
        match log "k_reduction_evaluation" with
        | Err e => (self, Err e)
        | Ok _ =>
            let self := self <| current_k := current_k self - 1 |> in
            match log "k_reduction_execution" with
            | Err e => (self, Err e)
            | Ok _ => (self, log "k_reduction_completion")
            end
        end
      else
        match log "k_reduction_completion" with
        | Err e => (self, Err e)
        | Ok _ => (self, Err (MemoryPressure "Cannot reduce K below 1"))
        end
  end.

(** The candidates of [handle_memory_pressure]: the adapters not pinned that have a
    metric, least active first. *)
Definition pressure_candidates (metrics : list AdapterMetrics) (self : LifecycleManager) :
    list (Z * AdapterMetrics) :=
  stable_sort (fun a b => f32_leb (activation_pct a.2) (activation_pct b.2))
    (omap (fun p : Z * AdapterHeatRecord =>
       if pinned p.2 then None
       else option_map (fun m => (p.1, m))
              (List.find (fun m => bool_decide (m_adapter_id m = adapter_id p.2)) metrics))
     (iter (states self))).

Definition pressure_evicts (self : LifecycleManager) (p : Z * AdapterMetrics) : bool :=
  match states self !! p.1 with
  | Some record => bool_decide (state record = Cold) || policy_should_evict (policy self) p.2
  | None => false
  end.

Definition handle_memory_pressure (metrics : list AdapterMetrics) (self : LifecycleManager) :
    LifecycleManager * result unit AosError :=
  match List.find (pressure_evicts self) (pressure_candidates metrics self) with
  | Some (id, _) =>
      match states self !! id with
      | None => (self, Ok tt)
      | Some record =>
          let self := set_record id (evicted record) self in
          match log "adapter_evicted" with
          | Err e => (self, Err e)
          | Ok _ =>
              let '(l, r) := unload_adapter (loader self) id in
              (set_loader l self, r)
          end
      end
  | None => reduce_k self
  end.

(** [states.values().map(|r| r.memory_bytes).sum()]. *)
Definition get_total_memory_usage (self : LifecycleManager) : Z :=
  sumZ (map (fun p => memory_bytes p.2) (iter (states self))).

(** The name of the record under an index of the iteration, looked up again by name. *)
Definition get_eviction_candidates (tier : AllocationTier) (self : LifecycleManager) : list string :=
  omap (fun p : Z * AdapterHeatRecord =>
    if bool_decide (tier_of (state p.2) = tier) && negb (pinned p.2) then
      option_map (fun _ => adapter_id p.2) (get_adapter_id_by_name self (adapter_id p.2))
    else None) (iter (states self)).

(** The errors of single evictions are logged. *)
Definition evict_by_name (others : nat -> LifecycleManager -> LifecycleManager) (name : string)
    (self : LifecycleManager) : LifecycleManager * result unit AosError :=
  match get_adapter_id_by_name self name with
  | Some id => evict_adapter others id self
  | None => (self, Ok tt)
  end.

Definition evict_by_tier (others : nat -> LifecycleManager -> LifecycleManager)
    (tier : AllocationTier) (self : LifecycleManager) : LifecycleManager :=
  fold_left (fun self name => (evict_by_name others name self).1)
    (get_eviction_candidates tier self) self.

(** The expired adapters of the database are evicted first; an error of theirs is
    returned. *)
Fixpoint evict_expired (others : nat -> LifecycleManager -> LifecycleManager)
    (names : list string) (self : LifecycleManager) : LifecycleManager * result unit AosError :=
  match names with
  | [] => (self, Ok tt)
  | name :: names =>
      let '(self, r) := evict_by_name others name self in
      match r with Err e => (self, Err e) | Ok _ => evict_expired others names self end
  end.

Definition expired_names (self : LifecycleManager) : list string :=
  match db self with
  | Some d => match find_expired_adapters d with Ok names => names | Err _ => [] end
  | None => []
  end.

Definition check_memory_pressure (others : nat -> LifecycleManager -> LifecycleManager)
    (total_memory : Z) (self : LifecycleManager) : LifecycleManager * result unit AosError :=
  let memory_pressure := f32_div (f32_of_Z (get_total_memory_usage self)) (f32_of_Z total_memory) in
  let '(self, r) := evict_expired others (expired_names self) self in
  match r with
  | Err e => (self, Err e)
  | Ok _ =>
      let self :=
        if f32_lt (f32_lit 95 100) memory_pressure then evict_by_tier others Critical self
        else if f32_lt (f32_lit 85 100) memory_pressure then evict_by_tier others Extra self
        else self in
      if f32_lt (f32_lit 9 10) memory_pressure then reduce_k self else (self, Ok tt)
  end.

(** *** Registration and loading *)

(** [states.keys().max().map(|k| k + 1).unwrap_or(0)]; [None] when the largest index is
    that of the type. *)
Definition next_index (self : LifecycleManager) : option Z :=
  match map fst (map_to_list (states self)) with
  | [] => Some 0
  | k :: ks =>
      let m := fold_left Z.max ks k in
      if m + 1 <? 2 ^ 16 then Some (m + 1) else None
  end.

(** [get_or_reload]: under the lock of the states. *)
Definition get_or_reload (name : string) (self : LifecycleManager) :
    LifecycleManager * result unit AosError :=
  match find_name self name with
  | None => (self, Ok tt)
  | Some (id, record) =>
      if decide (state record = Unloaded) then
        let '(l, r) := load_adapter (loader self) (adapter_idx record) name in
        let self := set_loader l self in
        match r with
        | Err e => (self, Err e)
        | Ok _ => (set_record id (record <| state := Cold |>) self, Ok tt)
        end
      else (self, Ok tt)
  end.

Definition get_or_reload_async (others : nat -> LifecycleManager -> LifecycleManager)
    (name : string) (self : LifecycleManager) : LifecycleManager * result unit AosError :=
  match find_name self name with
  | None => (self, Ok tt)
  | Some (_, record) =>
      if decide (state record = Unloaded) then
        let self := others 0%nat self in
        let '(l, r) := load_adapter_async (loader self) (adapter_idx record) name in
        let self := set_loader l self in
        match r with
        | Err e => (self, Err e)
        | Ok _ =>
            let self := others 1%nat self in
            match find_name self name with
            | Some (id, record) =>
                if decide (state record = Unloaded) then
                  (set_record id (record <| state := Cold |>) self, Ok tt)
                else (self, Ok tt)
            | None => (self, Ok tt)
            end
        end
      else (self, Ok tt)
  end.

(** [preload_adapter] repeats [get_or_reload]; [warmup_cache] ignores its errors. *)
Definition warmup_cache (adapter_ids : list string) (self : LifecycleManager) : LifecycleManager :=
  fold_left (fun self name => (get_or_reload name self).1) adapter_ids self.

Definition register_adapter (others : nat -> LifecycleManager -> LifecycleManager)
    (name : string) (hash : B3Hash) (category_ : option string) (load_immediately : bool)
    (self : LifecycleManager) : option (LifecycleManager * Z) :=
  next_idx ← next_index self;
  let self := others 0%nat self in
  let self := set_loader (register_hash (loader self) name hash) self in
  let self := others 1%nat self in
  let record := (AdapterHeat.new name next_idx) <| category := default "code" category_ |> in
  let self := set_record next_idx record self in
  let self :=
    if load_immediately then
      let self := others 2%nat self in
      let self :=
        match states self !! next_idx with
        | Some record => set_record next_idx (record_promote record).1 self
        | None => self
        end in
      let self := others 3%nat self in
      (get_or_reload name self).1
    else self in
  Some (self, next_idx).

(** *** Activations *)

Definition record_adapter_activation (others : nat -> LifecycleManager -> LifecycleManager)
    (now : Z) (adapter_id_ : Z) (self : LifecycleManager) :
    LifecycleManager * result unit AosError :=
  match states self !! adapter_id_ with
  | None => (self, Ok tt)
  | Some record =>
      let record := record_activation now record in
      let self := others 0%nat (set_record adapter_id_ record self) in
      let '(self, r) := persist self
        (fun d => persist_activation d (adapter_id record) (activation_count record)) in
      match r with Err e => (self, Err e) | Ok _ => (self, log "adapter_activated") end
  end.

(** The adapters whose share changed, as they are recorded. *)
Definition router_updates (changed : list (Z * f32)) (self : LifecycleManager) :
    list (Z * AdapterHeatRecord * f32) :=
  omap (fun c : Z * f32 =>
    option_map (fun record => (c.1, record, c.2)) (states self !! c.1)) changed.

(** The test on an update, with the state and the pin read before the evictions began. *)
Definition low_activation (self : LifecycleManager) (u : Z * AdapterHeatRecord * f32) : bool :=
  f32_lt u.2 (min_activation_pct (policy self)) && is_loaded (state u.1.2) && negb (pinned u.1.2).

Definition record_router_decision (others : nat -> LifecycleManager -> LifecycleManager)
    (selected : list Z) (self : LifecycleManager) : LifecycleManager :=
  let '(tracker, changed) := ActivationTracker.record_decision (activation_tracker self) selected in
  let self := self <| activation_tracker := tracker |> in
  let self := others 0%nat self in
  let updates := router_updates changed self in
  fold_left (fun self u =>
    if low_activation self u then (evict_adapter others u.1.1 self).1 else self) updates self.

Definition set_activation_window (window : nat) (self : LifecycleManager) : option LifecycleManager :=
  tracker ← ActivationTracker.new window;
  Some (self <| activation_tracker := tracker |>).

(** *** Stacks *)

(** The loop of [activate_stack]; the adapters need not be loaded. *)
Fixpoint check_stack (adapter_ids : list string) (self : LifecycleManager) : result unit AosError :=
  match adapter_ids with
  | [] => Ok tt
  | name :: adapter_ids =>
      _ <-? ensure_sql_kv_ready self name;;
      match find_name self name with
      | Some _ => check_stack adapter_ids self
      | None => Err (NotFound ("Adapter " +:+ name +:+ " not found in lifecycle manager"))
      end
  end.

Definition activate_stack (stack_name : string) (adapter_ids : list string)
    (self : LifecycleManager) : LifecycleManager * result unit AosError :=
  match check_stack adapter_ids self with
  | Err e => (self, Err e)
  | Ok _ =>
      (self <| active_stack := Some (stack_name, adapter_ids) |>, log "lifecycle.stack_activated")
  end.

Definition deactivate_stack (self : LifecycleManager) : LifecycleManager * result unit AosError :=
  match active_stack self with
  | Some _ => (self <| active_stack := None |>, log "lifecycle.stack_deactivated")
  | None => (self, Ok tt)
  end.

(** *** Queries *)

Definition get_state (self : LifecycleManager) (adapter_id_ : Z) : option AdapterHeatState :=
  option_map state (states self !! adapter_id_).

Definition get_available_adapters (self : LifecycleManager) : list Z :=
  map fst (List.filter (fun p => is_available (state p.2)) (iter (states self))).

Definition get_loaded_adapters (self : LifecycleManager) : list (Z * string * AdapterHeatState) :=
  map (fun p => (p.1, adapter_id p.2, state p.2))
    (List.filter (fun p => is_loaded (state p.2)) (iter (states self))).

Definition get_adapters_by_state (self : LifecycleManager) (s : AdapterHeatState) :
    list AdapterHeatRecord :=
  List.filter (fun r => bool_decide (state r = s)) (map snd (iter (states self))).

Definition get_adapters_by_category (self : LifecycleManager) (c : string) :
    list AdapterHeatRecord :=
  List.filter (fun r => bool_decide (category r = c)) (map snd (iter (states self))).

Definition get_memory_usage_by_category (self : LifecycleManager) : gmap string Z :=
  fold_left (fun usage p =>
    <[category p.2 := default 0 (usage !! category p.2) + memory_bytes p.2]> usage)
    (iter (states self)) ∅.

Definition get_priority_boosts (self : LifecycleManager) : gmap Z f32 :=
  (fun r => priority_boost (state r)) <$> states self.

(** ** Operations and their interleavings *)

Inductive Op : Type :=
| Pin (id : Z) (tenant_id pinned_by : string) (pinned_until reason : option string)
| Unpin (id : Z) (tenant_id : string)
| Promote (id : Z)
| Demote (now id : Z)
| Update (id : Z) (s : AdapterHeatState) (reason : string)
| AutoPromote (id : Z)
| AutoDemote (now id : Z)
| Evaluate (now : Z) (metrics : list AdapterMetrics)
| Evict (id : Z)
| Pressure (metrics : list AdapterMetrics)
| CheckPressure (total_memory : Z)
| EvictTier (tier : AllocationTier)
| Reload (name : string)
| ReloadAsync (name : string)
| Warmup (names : list string)
| Register (name : string) (hash : B3Hash) (category_ : option string) (load_immediately : bool)
| Activation (now id : Z)
| RouterDecision (selected : list Z)
| Activate (stack_name : string) (adapter_ids : list string)
| Deactivate
| ReduceK.

Definition exec (others : nat -> LifecycleManager -> LifecycleManager) (op : Op)
    (m : LifecycleManager) : LifecycleManager :=
  match op with
  | Pin id t p u r => (pin_adapter others id t p u r m).1
  | Unpin id t => (unpin_adapter others id t m).1
  | Promote id => (promote_adapter others id m).1
  | Demote now id => (demote_adapter others now id m).1
  | Update id s r => (update_adapter_state others id s r m).1
  | AutoPromote id => (auto_promote_adapter others id m).1
  | AutoDemote now id => (auto_demote_adapter others now id m).1
  | Evaluate now metrics => (evaluate_transitions now metrics m).1
  | Evict id => (evict_adapter others id m).1
  | Pressure metrics => (handle_memory_pressure metrics m).1
  | CheckPressure total => (check_memory_pressure others total m).1
  | EvictTier tier => evict_by_tier others tier m
  | Reload name => (get_or_reload name m).1
  | ReloadAsync name => (get_or_reload_async others name m).1
  | Warmup names => warmup_cache names m
  | Register name h c l =>
      match register_adapter others name h c l m with Some (m, _) => m | None => m end
  | Activation now id => (record_adapter_activation others now id m).1
  | RouterDecision selected => record_router_decision others selected m
  | Activate name ids => (activate_stack name ids m).1
  | Deactivate => (deactivate_stack m).1
  | ReduceK => (reduce_k m).1
  end.

(** Runs of operations that satisfy [allowed]: one after the other, and within each other
    wherever a method lets go of its locks. *)
Inductive run (allowed : Op -> Prop) : LifecycleManager -> LifecycleManager -> Prop :=
| run_done m : run allowed m m
| run_op others op m m' :
    allowed op -> (forall n m, run allowed m (others n m)) ->
    run allowed (exec others op m) m' -> run allowed m m'.

Lemma run_invariant allowed (I : LifecycleManager -> Prop) m m' :
  (forall others op m, allowed op -> (forall n m, I m -> I (others n m)) -> I m -> I (exec others op m)) ->
  run allowed m m' -> I m -> I m'.
Proof. intros H R. induction R as [|others op m m' Ha _ IH _ IHR]; [done|]. eauto. Qed.

(** *** What an operation writes

    Every change of a record is one of a few; [kept] says that an invariant survives each
    of them, as far as the operations allowed make them. A state computed from one record
    may be written to a later one. *)

Definition pending (allowed : Op -> Prop) (id : Z) (r0 : AdapterHeatRecord) (s : AdapterHeatState) : Prop :=
  ((allowed (Promote id) \/ allowed (AutoPromote id)) /\ promote_check r0 = Ok s)
  \/ (exists now, allowed (Demote now id) /\ demote_check now r0 = Ok s)
  \/ (exists now at_, allowed (AutoDemote now id) /\ last_activated r0 = Some at_
      /\ should_demote (state r0) (category r0) (elapsed now at_) = true /\ demote (state r0) = Some s)
  \/ (exists reason, allowed (Update id s reason)).

Record kept (allowed : Op -> Prop) (I : LifecycleManager -> Prop) : Prop := {
  k_db m d : I m -> I (m <| db := d |>);
  k_load m i name : I m -> I (set_loader (load_adapter (loader m) i name).1 m);
  k_hash m name h : I m -> I (set_loader (register_hash (loader m) name h) m);
  k_unload m i r :
    I m -> states m !! i = Some r -> pinned r = false ->
    I (set_loader (unload_adapter (loader m) i).1 m);
  k_k m : 1 < current_k m -> I m -> I (m <| current_k := current_k m - 1 |>);
  k_tracker m t : I m -> I (m <| activation_tracker := t |>);
  k_stack m s : I m -> I (m <| active_stack := s |>);
  k_evict m i r : I m -> states m !! i = Some r -> pinned r = false -> I (set_record i (evicted r) m);
  k_reload m i r :
    I m -> states m !! i = Some r -> state r = Unloaded -> I (set_record i (r <| state := Cold |>) m);
  k_promote m i r :
    pinned r = false \/ (exists name h c l, allowed (Register name h c l)) ->
    I m -> states m !! i = Some r -> I (set_record i (record_promote r).1 m);
  k_demote m i r now :
    pinned r = false -> I m -> states m !! i = Some r -> I (set_record i (record_demote now r).1 m);
  k_activation m i r now :
    I m -> states m !! i = Some r -> I (set_record i (record_activation now r) m);
  k_unpin m i r t : allowed (Unpin i t) -> I m -> states m !! i = Some r -> I (set_record i (unpin r) m);
  k_pin m i r t p u w :
    allowed (Pin i t p u w) -> I m -> states m !! i = Some r -> I (set_record i (pin r) m);
  k_pending m0 m i r0 r s :
    I m0 -> states m0 !! i = Some r0 -> pending allowed i r0 s ->
    I m -> states m !! i = Some r -> I (set_record i (r <| state := s |>) m);
  k_register m name h i c l :
    allowed (Register name h c l) -> I m ->
    I (set_record i ((AdapterHeat.new name i) <| category := default "code" c |>) m);
}.

Hypothesis iter_perm : forall m, iter m ≡ₚ map_to_list m.

Lemma iter_lookup m i r : (i, r) ∈ iter m <-> m !! i = Some r.
Proof. rewrite iter_perm. apply elem_of_map_to_list. Qed.

Lemma find_name_some m name i r :
  find_name m name = Some (i, r) -> states m !! i = Some r /\ adapter_id r = name.
Proof.
  unfold find_name. intros [Hin Hn]%List.find_some. case_bool_decide; [|done].
  split; [|done]. by apply iter_lookup, list_elem_of_In.
Qed.

Lemma states_set_loader l m : states (set_loader l m) = states m.
Proof. by destruct m. Qed.
Lemma states_set_record i r m : states (set_record i r m) = <[i := r]> (states m).
Proof. by destruct m. Qed.
Lemma loader_set_loader l m : loader (set_loader l m) = l.
Proof. by destruct m. Qed.
Lemma loader_set_record i r m : loader (set_record i r m) = loader m.
Proof. by destruct m. Qed.

Section Kept.
Context (allowed : Op -> Prop) (I : LifecycleManager -> Prop) (K : kept allowed I).
Context (others : nat -> LifecycleManager -> LifecycleManager).
Context (HO : forall n m, I m -> I (others n m)).

Lemma persist_kept m w : I m -> I (persist m w).1.
Proof. unfold persist. intros. destruct (db m); [|done]. destruct (w _). by apply (k_db _ _ K). Qed.

Lemma write_through_kept m0 m i r0 s reason what event :
  I m0 -> states m0 !! i = Some r0 -> pending allowed i r0 s -> I m ->
  I (write_through others i (adapter_id r0) s reason what event m).1.
Proof.
  intros H0 Hr Hp Hm. unfold write_through. apply (HO 0%nat) in Hm.
  destruct (ensure_sql_kv_ready _ _); [|done].
  pose proof (persist_kept _ (write_state (adapter_id r0) s reason what) Hm) as Hm'.
  destruct (persist _ _) as [m1 [|]]; [|done]. cbn in *. apply (HO 1%nat) in Hm'.
  destruct (states (others 1%nat m1) !! i) as [r|] eqn:E; [|done]. by apply (k_pending _ _ K m0 _ i r0 r s).
Qed.

Lemma update_kept m i r0 s reason :
  I m -> states m !! i = Some r0 -> pending allowed i r0 s ->
  I (update_adapter_state others i s reason m).1.
Proof.
  intros Hm Hr Hp. unfold update_adapter_state. rewrite Hr. pose proof (HO 0%nat _ Hm) as H1.
  pose proof (persist_kept _ (write_state (adapter_id r0) s reason "Failed to persist adapter state update") H1) as H2.
  destruct (persist _ _) as [m1 [|]]; [|done]. cbn in *. apply (HO 1%nat) in H2.
  destruct (states (others 1%nat m1) !! i) as [r|] eqn:E; [|done]. by apply (k_pending _ _ K m _ i r0 r s).
Qed.

Lemma evict_kept m i : I m -> I (evict_adapter others i m).1.
Proof.
  intros Hm. unfold evict_adapter, evict_locked. destruct (states m !! i) as [r|] eqn:E; [|done].
  destruct (pinned r) eqn:Ep; [done|].
  pose proof (k_unload _ _ K m i r Hm E Ep) as Hu.
  assert (I (set_record i (evicted r) (set_loader (unload_adapter (loader m) i).1 m))) as He.
  { apply (k_evict _ _ K); [done|by rewrite states_set_loader|done]. }
  assert (forall name m', I m' -> I (persist_eviction name (others 0%nat m'))) as Hpe.
  { intros name m' H'%(HO 0%nat). unfold persist_eviction.
    pose proof (persist_kept _ (fun d => update_adapter_state_tx d name "unloaded" "eviction") H') as H1.
    destruct (persist _ _) as [m1 ?]. cbn in H1.
    pose proof (persist_kept _ (fun d => update_adapter_memory_tx d name 0) H1) as H2.
    by destruct (persist _ _). }
  destruct (unload_adapter (loader m) i) as [l [|e]]; [by apply Hpe|].
  destruct (negb _); [done|by apply Hpe].
Qed.

Lemma evict_name_kept m name : I m -> I (evict_by_name others name m).1.
Proof. intros. unfold evict_by_name. destruct (get_adapter_id_by_name m name); [by apply evict_kept|done]. Qed.

Lemma evict_tier_kept m t : I m -> I (evict_by_tier others t m).
Proof.
  unfold evict_by_tier. generalize (get_eviction_candidates t m). intros l. revert m.
  induction l as [|n l IH]; intros m Hm; [done|]. by apply IH, evict_name_kept.
Qed.

Lemma evict_expired_kept m names : I m -> I (evict_expired others names m).1.
Proof.
  revert m. induction names as [|n names IH]; intros m Hm; [done|]. cbn [evict_expired].
  pose proof (evict_name_kept m n Hm) as H. destruct (evict_by_name others n m) as [m' [|]]; [by apply IH|done].
Qed.

Lemma reduce_k_kept m : I m -> I (reduce_k m).1.
Proof.
  intros. unfold reduce_k. destruct (log _); [|done]. destruct (1 <? current_k m) eqn:E; breflect.
  - destruct (log "k_reduction_evaluation"); [|done].
    destruct (log "k_reduction_execution"); by apply (k_k _ _ K).
  - by destruct (log "k_reduction_completion").
Qed.

Lemma reload_kept m name : I m -> I (get_or_reload name m).1.
Proof.
  intros Hm. unfold get_or_reload. destruct (find_name m name) as [[i r]|] eqn:E; [|done].
  apply find_name_some in E as [E _]. case_decide; [|done].
  pose proof (k_load _ _ K m (adapter_idx r) name Hm) as Hl.
  destruct (load_adapter _ _ _) as [l [h|e]]; [|done].
  apply (k_reload _ _ K); [done|by rewrite states_set_loader|done].
Qed.

Lemma load_async_kept m i name : I m -> I (set_loader (load_adapter_async (loader m) i name).1 m).
Proof.
  intros Hm. unfold load_adapter_async. destruct (expected_hash _ _); [by apply (k_load _ _ K)|].
  cbn [fst]. by destruct m.
Qed.

Lemma reload_async_kept m name : I m -> I (get_or_reload_async others name m).1.
Proof.
  intros Hm. unfold get_or_reload_async. destruct (find_name m name) as [[i r]|]; [|done].
  case_decide; [|done]. apply (HO 0%nat) in Hm. pose proof (load_async_kept _ (adapter_idx r) name Hm) as H1.
  destruct (load_adapter_async _ _ _) as [l [h|e]]; [|done]. apply (HO 1%nat) in H1. cbn [fst] in H1.
  destruct (find_name _ name) as [[i' r']|] eqn:E'; [|done]. apply find_name_some in E' as [E' _].
  case_decide; [|done]. by apply (k_reload _ _ K).
Qed.

Lemma evaluate_kept m now metrics : I m -> I (evaluate_transitions now metrics m).1.
Proof.
  revert m. induction metrics as [|x metrics IH]; intros m Hm; [done|]. cbn [evaluate_transitions].
  assert (I (evaluate_metric now x m).1) as H.
  { unfold evaluate_metric. destruct (find_name m _) as [[i r]|] eqn:E; [|done].
    apply find_name_some in E as [E _]. destruct (pinned r) eqn:Ep; [done|].
    destruct (policy_should_promote _ _); [|destruct (policy_should_demote _ _); [|done]].
    - pose proof (k_promote _ _ K m i r (or_introl Ep) Hm E). by destruct (record_promote r).
    - pose proof (k_demote _ _ K m i r now Ep Hm E). by destruct (record_demote now r). }
  destruct (evaluate_metric now x m) as [m' [|]]; [by apply IH|done].
Qed.

Lemma pressure_kept m metrics : I m -> I (handle_memory_pressure metrics m).1.
Proof.
  intros Hm. unfold handle_memory_pressure. destruct (List.find _ _) as [[i x]|] eqn:E; [|by apply reduce_k_kept].
  apply List.find_some in E as [E _]. destruct (states m !! i) as [r|] eqn:Er; [|done].
  assert (pinned r = false) as Hp.
  { unfold pressure_candidates in E. apply list_elem_of_In in E. rewrite stable_sort_perm in E.
    apply list_elem_of_omap in E as ([i' r'] & Hin & Hr'). apply iter_lookup in Hin. simpl in *.
    destruct (pinned r') eqn:Ep'; [done|]. destruct (List.find _ _); simplify_eq/=. done. }
  pose proof (k_evict _ _ K m i r Hm Er Hp) as H. destruct (log _); [|done].
  assert (states (set_record i (evicted r) m) !! i = Some (evicted r)) as Er'
    by (rewrite states_set_record; apply lookup_insert_eq).
  pose proof (k_unload _ _ K _ i (evicted r) H Er') as Hu. destruct (unload_adapter _ _). apply Hu.
  by destruct r.
Qed.

Lemma pin_kept m i t p u w :
  allowed (Pin i t p u w) -> I m -> I (pin_adapter others i t p u w m).1.
Proof.
  intros Ha Hm. unfold pin_adapter. destruct (states m !! i) as [r0|]; [|done].
  apply (HO 0%nat) in Hm. destruct (ensure_sql_kv_ready _ _); [|done].
  pose proof (persist_kept _ (fun d => insert_pin d t (adapter_id r0) u w p) Hm) as H1.
  destruct (persist _ _) as [m1 [|]]; [|done]. cbn in *. apply (HO 1%nat) in H1.
  destruct (states (others 1%nat m1) !! i) as [r|] eqn:E; [|done]. by apply (k_pin _ _ K _ _ r t p u w).
Qed.

Lemma unpin_kept m i t : allowed (Unpin i t) -> I m -> I (unpin_adapter others i t m).1.
Proof.
  intros Ha Hm. unfold unpin_adapter. destruct (states m !! i) as [r0|]; [|done].
  apply (HO 0%nat) in Hm. destruct (ensure_sql_kv_ready _ _); [|done].
  pose proof (persist_kept _ (fun d => delete_pin d t (adapter_id r0)) Hm) as H1.
  destruct (persist _ _) as [m1 [|]]; [|done]. cbn in *. apply (HO 1%nat) in H1.
  destruct (states (others 1%nat m1) !! i) as [r|] eqn:E; [|done]. by apply (k_unpin _ _ K _ _ r t).
Qed.

Lemma promote_kept m i : allowed (Promote i) -> I m -> I (promote_adapter others i m).1.
Proof.
  intros Ha Hm. unfold promote_adapter. destruct (states m !! i) as [r0|] eqn:E; [|done].
  destruct (promote_check r0) as [s|] eqn:Es; [|done].
  apply (write_through_kept m); [done|done|left; by auto|done].
Qed.

Lemma demote_kept m now i : allowed (Demote now i) -> I m -> I (demote_adapter others now i m).1.
Proof.
  intros Ha Hm. unfold demote_adapter. destruct (states m !! i) as [r0|] eqn:E; [|done].
  destruct (demote_check now r0) as [s|] eqn:Es; [|done].
  apply (write_through_kept m); [done|done|right; left; by exists now|done].
Qed.

Lemma auto_promote_kept m i : allowed (AutoPromote i) -> I m -> I (auto_promote_adapter others i m).1.
Proof.
  intros Ha Hm. unfold auto_promote_adapter. destruct (states m !! i) as [r0|] eqn:E; [|done].
  destruct (can_promote _ _) eqn:Ec; [|done]. destruct (promote (state r0)) as [s|] eqn:Es; [|done].
  apply (update_kept m i r0); [done|done|left; split; [by right|]]. unfold promote_check. by rewrite Ec, Es.
Qed.

Lemma auto_demote_kept m now i :
  allowed (AutoDemote now i) -> I m -> I (auto_demote_adapter others now i m).1.
Proof.
  intros Ha Hm. unfold auto_demote_adapter. destruct (states m !! i) as [r0|] eqn:E; [|done].
  destruct (last_activated r0) as [at_|] eqn:Ea; [|done]. destruct (should_demote _ _ _) eqn:Ed; [|done].
  destruct (demote (state r0)) as [s|] eqn:Es; [|done].
  apply (update_kept m i r0); [done|done|right; right; left; by exists now, at_].
Qed.

Lemma activation_kept m now i : I m -> I (record_adapter_activation others now i m).1.
Proof.
  intros Hm. unfold record_adapter_activation. destruct (states m !! i) as [r|] eqn:E; [|done].
  pose proof (HO 0%nat _ (k_activation _ _ K m i r now Hm E)) as H1.
  pose proof (persist_kept _ (fun d => persist_activation d
    (adapter_id (record_activation now r)) (activation_count (record_activation now r))) H1) as H2.
  by destruct (persist _ _) as [m1 [|]].
Qed.

Lemma router_kept m sel : I m -> I (record_router_decision others sel m).
Proof.
  intros Hm. unfold record_router_decision. destruct (ActivationTracker.record_decision _ _) as [t ch].
  assert (I (others 0%nat (m <| activation_tracker := t |>))) as H1 by (by apply HO, (k_tracker _ _ K)).
  revert H1. generalize (others 0%nat (m <| activation_tracker := t |>)). intros m1.
  generalize (router_updates ch m1). intros l. revert m1.
  induction l as [|u l IH]; intros m1 H1; [done|]. cbn [fold_left]. apply IH.
  destruct (low_activation _ _); [by apply evict_kept|done].
Qed.

Lemma check_pressure_kept m total : I m -> I (check_memory_pressure others total m).1.
Proof.
  intros Hm. unfold check_memory_pressure. pose proof (evict_expired_kept m (expired_names m) Hm) as H1.
  destruct (evict_expired _ _ _) as [m1 [|]]; [|done]. cbn in H1.
  set (m2 := if f32_lt (f32_lit 95 100) _ then _ else _).
  assert (I m2) as H2 by (unfold m2; repeat case_match; auto using evict_tier_kept).
  case_match; [by apply reduce_k_kept|done].
Qed.

Lemma register_kept m name h c l m' i :
  allowed (Register name h c l) -> I m -> register_adapter others name h c l m = Some (m', i) -> I m'.
Proof.
  intros Ha Hm. unfold register_adapter. destruct (next_index m) as [n|]; [|done]. cbn.
  assert (I (others 1%nat (set_loader (register_hash (loader (others 0%nat m)) name h) (others 0%nat m))))
    as H1 by (by apply HO, (k_hash _ _ K), HO).
  revert H1. generalize (others 1%nat (set_loader (register_hash (loader (others 0%nat m)) name h) (others 0%nat m))).
  intros m1 H1. pose proof (k_register _ _ K m1 name h n c l Ha H1) as H2.
  destruct l; intros [= <- <-]; [|done]. apply reload_kept, HO. apply (HO 2%nat) in H2.
  destruct (states (others 2%nat _) !! n) as [r|] eqn:E; [|done].
  apply (k_promote _ _ K); [right; by exists name, h, c, true|done|done].
Qed.

Lemma exec_kept op m : allowed op -> I m -> I (exec others op m).
Proof.
  intros Ha Hm. destruct op; cbn [exec].
  - by apply pin_kept.
  - by apply unpin_kept.
  - by apply promote_kept.
  - by apply demote_kept.
  - destruct (states m !! id) as [r|] eqn:E; [|by unfold update_adapter_state; rewrite E].
    apply (update_kept m id r); [done|done|right; right; right; by exists reason].
  - by apply auto_promote_kept.
  - by apply auto_demote_kept.
  - by apply evaluate_kept.
  - by apply evict_kept.
  - by apply pressure_kept.
  - by apply check_pressure_kept.
  - by apply evict_tier_kept.
  - by apply reload_kept.
  - by apply reload_async_kept.
  - clear Ha. revert m Hm. unfold warmup_cache. induction names as [|n names IH]; intros m Hm; [done|].
    cbn [fold_left]. by apply IH, reload_kept.
  - destruct (register_adapter _ _ _ _ _ _) as [[m' i]|] eqn:E; [|done]. by eapply register_kept.
  - by apply activation_kept.
  - by apply router_kept.
  - unfold activate_stack. destruct (check_stack _ _); [|done]. by apply (k_stack _ _ K).
  - unfold deactivate_stack. destruct (active_stack m); [|done]. by apply (k_stack _ _ K).
  - by apply reduce_k_kept.
Qed.
End Kept.

Lemma run_kept allowed I m m' : kept allowed I -> run allowed m m' -> I m -> I m'.
Proof. intros K. apply run_invariant. intros others op m0 Ha Ho Hm. by apply (exec_kept allowed). Qed.

(** An invariant of the records on their own. *)
Definition records (Q : AdapterHeatRecord -> Prop) (m : LifecycleManager) : Prop :=
  map_Forall (fun _ => Q) (states m).

Lemma records_set Q m i r : records Q m -> Q r -> records Q (set_record i r m).
Proof.
  unfold records. rewrite states_set_record. intros. by apply map_Forall_insert_2.
Qed.

Lemma records_states Q m m' : states m' = states m -> records Q m -> records Q m'.
Proof. unfold records. by intros ->. Qed.

(** ** The memory that is never counted *)

Definition uncounted (r : AdapterHeatRecord) : Prop := memory_bytes r = 0.

(** An invariant of the records that reads nothing an operation changes but the state. *)
Lemma uncounted_kept : kept (fun _ => True) (records uncounted).
Proof.
  assert (forall m i r r', records uncounted m -> states m !! i = Some r ->
    (uncounted r -> uncounted r') -> records uncounted (set_record i r' m)) as Hset.
  { intros m i r r' Hm Hr Hq. apply records_set; [done|]. apply Hq, (Hm i r Hr). }
  split; intros;
    try (eapply records_states; [|eassumption]; first [by destruct m|apply states_set_loader]);
    try (eapply Hset; [eassumption|eassumption|]; unfold uncounted).
  - by destruct r.
  - by destruct r.
  - rewrite record_promote_spec. intros Hr. repeat case_match; by destruct r.
  - unfold record_demote. intros Hr. repeat case_match; by destruct r.
  - by destruct r.
  - by destruct r.
  - by destruct r.
  - by destruct r.
  - by apply records_set.
Qed.

Lemma total_zero m : records uncounted m -> get_total_memory_usage m = 0.
Proof.
  intros H. unfold get_total_memory_usage.
  assert (forall l, (forall p, p ∈ l -> memory_bytes p.2 = 0) -> sumZ (map (fun p : Z * AdapterHeatRecord => memory_bytes p.2) l) = 0) as Hs.
  { intros l. induction l as [|p l IH]; intros Hl; [done|]. simpl. rewrite Hl, IH; [done| |left].
    intros q Hq. apply Hl. by right. }
  apply Hs. intros [i r] Hp%iter_lookup. by apply (H i r).
Qed.

Lemma initial_uncounted names hashes headroom k d :
  records uncounted (new_manager names hashes headroom k d).
Proof.
  unfold records, new_manager, initial_states. cbn [states].
  generalize (imap (fun i name => (i, name)) names). intros l.
  assert (forall m : gmap Z AdapterHeatRecord, map_Forall (fun _ => uncounted) m -> map_Forall (fun _ => uncounted)
    (fold_left (fun m (p : nat * string) => <[Z.of_nat p.1 mod 2 ^ 16 :=
       AdapterHeat.new p.2 (Z.of_nat p.1 mod 2 ^ 16)]> m) l m)) as H.
  { induction l as [|p l IH]; intros m Hm; [done|]. cbn [fold_left]. by apply IH, map_Forall_insert_2. }
  apply H, map_Forall_empty.
Qed.

(** No operation ever gives an adapter a size in memory, whatever is loaded: after any
    operations, interleaved in any way, the total memory usage is zero, so that the memory
    check evicts nothing for pressure and never lowers K, whatever the memory of the machine. *)
Theorem pressure_never_seen names hashes headroom k d m others total :
  run (fun _ => True) (new_manager names hashes headroom k d) m -> expired_names m = [] ->
  get_total_memory_usage m = 0 /\ check_memory_pressure others total m = (m, Ok tt).
Proof.
  intros R He. assert (records uncounted m) as Hm.
  { eapply run_kept; [apply uncounted_kept|exact R|apply initial_uncounted]. }
  split; [by apply total_zero|]. unfold check_memory_pressure. rewrite He, total_zero by done.
  cbn [evict_expired]. by rewrite !f32_zero_share by done.
Qed.

(** ** Pins *)

(** The operations that leave the pin of adapter [i] alone: it is not unpinned, nor moved
    by hand or by the automatic transitions; no adapter is registered meanwhile. *)
Definition spares (i : Z) (op : Op) : Prop :=
  match op with
  | Unpin j _ | Promote j | AutoPromote j | Demote _ j | AutoDemote _ j | Update j _ _ => j <> i
  | Register _ _ _ _ => False
  | _ => True
  end.

Definition held (i : Z) (e : option (AdapterHandle * list byte)) (m : LifecycleManager) : Prop :=
  (exists r, states m !! i = Some r /\ pinned r = true /\ state r = Resident)
  /\ (is_Some e -> loaded (loader m) !! i = e).

Lemma held_set i e m j r r' :
  held i e m -> states m !! j = Some r ->
  (j = i -> pinned r = true -> state r = Resident -> pinned r' = true /\ state r' = Resident) ->
  held i e (set_record j r' m).
Proof.
  intros [(ri & Hi & Hp & Hs) Hl] Hj H. split; [|by rewrite loader_set_record].
  rewrite states_set_record. destruct (decide (j = i)) as [->|Hne].
  - simplify_eq. exists r'. rewrite lookup_insert_eq. destruct (H eq_refl Hp Hs). done.
  - exists ri. by rewrite lookup_insert_ne.
Qed.

Lemma held_states i e m m' :
  states m' = states m -> loader m' = loader m -> held i e m -> held i e m'.
Proof. unfold held. by intros -> ->. Qed.

Lemma load_keeps l i j name e :
  loaded l !! i = Some e -> loaded (load_adapter l j name).1 !! i = Some e.
Proof.
  intros H. unfold load_adapter. destruct (loaded l !! j) as [[h w]|] eqn:E; [done|].
  destruct (read_adapter name) as [[[p w] n]|]; [|done].
  destruct (expected_hash l name); [|done]. case_decide; [done|]. cbn [fst].
  assert (j <> i) by (by intros ->; rewrite E in H).
  destruct l. cbn. by rewrite lookup_insert_ne.
Qed.

Lemma held_kept i e : kept (spares i) (held i e).
Proof.
  split; intros; try (eapply held_states; [| |eassumption]; by destruct m).
  - destruct H as [H Hl]. split; [by rewrite states_set_loader|]. rewrite loader_set_loader.
    intros [x Hx]. rewrite Hx in *. by apply load_keeps, Hl.
  - destruct H as [H Hl]. split; [by rewrite states_set_loader|]. rewrite loader_set_loader.
    unfold register_hash. destruct (loader m); by apply Hl.
  - destruct H as [(r' & Hr & Hp & Hs) Hl]. split; [rewrite states_set_loader; by exists r'|].
    rewrite loader_set_loader. intros He. rewrite <- (Hl He). unfold unload_adapter.
    assert (i0 <> i) by (intros ->; congruence).
    destruct (loaded (loader m) !! i0); [|done]. destruct (loader m). cbn. by rewrite lookup_delete_ne.
  - eapply held_set; [done|done|]. intros; congruence.
  - eapply held_set; [done|done|]. intros; congruence.
  - destruct H as [Hp|(? & ? & ? & ? & [])]. eapply held_set; [done|done|]. intros; congruence.
  - eapply held_set; [done|done|]. intros; congruence.
  - eapply held_set; [done|done|]. by destruct r.
  - eapply held_set; [done|done|]. by intros ->.
  - eapply held_set; [done|done|]. by destruct r.
  - eapply held_set; [done|done|]. intros ->. exfalso.
    destruct H1 as [[[Ha|Ha] _]|[(? & Ha & _)|[(? & ? & Ha & _)|[? Ha]]]]; by apply Ha.
Qed.

(** [C13] A pinned adapter stays pinned, resident, and, if it was loaded, loaded, whatever
    evictions, pressure, transitions by policy, router decisions and reloads run and
    interleave, as long as nobody unpins it or moves it by name. *)
Theorem pins_hold i m m' r :
  run (spares i) m m' -> states m !! i = Some r -> pinned r = true -> state r = Resident ->
  (exists r', states m' !! i = Some r' /\ pinned r' = true /\ state r' = Resident)
  /\ (is_Some (loaded (loader m) !! i) -> loaded (loader m') !! i = loaded (loader m) !! i).
Proof.
  intros R Hi Hp Hs. apply (run_kept _ (held i (loaded (loader m) !! i)) m m' (held_kept _ _) R).
  split; [by exists r|done].
Qed.

(** ** Categories that stay on the ground

    Adapters of these categories never get past [Cold] by promotion. *)
Definition grounded (c : string) : Prop := c = "framework" \/ c = "codebase" \/ c = "ephemeral".

Definition on_ground (i : Z) (c : string) (m : LifecycleManager) : Prop :=
  exists r, states m !! i = Some r /\ category r = c /\ (rank (state r) <= 1)%nat.

(** The operations that do not lift adapter [i] by decree. *)
Definition earns (i : Z) (op : Op) : Prop :=
  match op with
  | Pin j _ _ _ _ | Update j _ _ => j <> i
  | Register _ _ _ _ => False
  | _ => True
  end.

Lemma grounded_promote c s s' :
  grounded c -> can_promote s c = true -> promote s = Some s' -> (rank s <= 1)%nat -> (rank s' <= 1)%nat.
Proof.
  intros Hc Hp Hs Hr. destruct s; simpl in *; simplify_eq; simpl; try lia.
  exfalso. destruct Hc as [->|[->| ->]]; simpl in Hp; discriminate Hp.
Qed.

Lemma demote_rank_le s s' n : demote s = Some s' -> (rank s <= n)%nat -> (rank s' <= n)%nat.
Proof. intros ->%demote_rank. lia. Qed.

Lemma ground_set i c m j r r' :
  on_ground i c m -> states m !! j = Some r ->
  (j = i -> category r = c -> (rank (state r) <= 1)%nat -> category r' = c /\ (rank (state r') <= 1)%nat) ->
  on_ground i c (set_record j r' m).
Proof.
  intros (ri & Hi & Hc & Hs) Hj H. unfold on_ground. rewrite states_set_record.
  destruct (decide (j = i)) as [->|Hne].
  - rewrite Hi in Hj. injection Hj as <-. exists r'. rewrite lookup_insert_eq.
    destruct (H eq_refl Hc Hs). done.
  - exists ri. by rewrite lookup_insert_ne.
Qed.

Lemma ground_states i c m m' : states m' = states m -> on_ground i c m -> on_ground i c m'.
Proof. unfold on_ground. by intros ->. Qed.

(** The state an operation computed from a record on the ground is on the ground. *)
Lemma pending_ground i c r0 s :
  grounded c -> category r0 = c -> (rank (state r0) <= 1)%nat -> pending (earns i) i r0 s ->
  (rank s <= 1)%nat.
Proof.
  intros Hc <- Hr0. intros [[_ H]|[(now & _ & H)|[(now & a & _ & _ & _ & H)|[reason H]]]].
  - unfold promote_check in H. destruct (can_promote _ _) eqn:Ep; [|done]. cbn in H.
    destruct (promote (state r0)) eqn:E; [|done]. simplify_eq/=. by eapply grounded_promote.
  - unfold demote_check in H. destruct (pinned r0); [done|]. destruct (too_recent now r0); [done|].
    destruct (demote (state r0)) eqn:E; [|done]. simplify_eq/=. by eapply demote_rank_le.
  - by eapply demote_rank_le.
  - by destruct H.
Qed.

Lemma ground_kept i c : grounded c -> kept (earns i) (on_ground i c).
Proof.
  intros Hg. split; intros;
    try (eapply ground_states; [|eassumption]; first [by destruct m|apply states_set_loader]).
  - eapply ground_set; [done|done|]. intros -> ? ?. destruct r; simpl in *. auto with lia.
  - eapply ground_set; [done|done|]. intros -> ? ?. destruct r; simpl in *. auto with lia.
  - eapply ground_set; [done|done|]. intros -> Hc Hr. rewrite record_promote_spec.
    destruct (promote (state r)) eqn:Ep; [|done]. destruct (can_promote _ _) eqn:Ec; [|done].
    destruct r; simpl in *; subst. split; [done|]. by eapply grounded_promote.
  - eapply ground_set; [done|done|]. intros -> Hc Hr. unfold record_demote.
    destruct (pinned r), (too_recent now r), (demote (state r)) eqn:Ed; try done.
    destruct r; simpl in *; subst. split; [done|]. by eapply demote_rank_le.
  - eapply ground_set; [done|done|]. by destruct r.
  - eapply ground_set; [done|done|]. by destruct r.
  - eapply ground_set; [done|done|]. by intros ->.
  - destruct H as (r1 & Hi & Hc & Hr). eapply ground_set; [done|done|]. intros -> Hcr _.
    rewrite Hi in H0. injection H0 as <-. split; [by destruct r|].
    assert (rank s <= 1)%nat by (by eapply (pending_ground i c r1)). by destruct r.
Qed.

(** An adapter of the category framework, codebase or ephemeral that starts unloaded or
    cold never becomes available for routing, however often it is activated, promoted by
    hand, by policy or automatically, in any interleaving: only a pin or a state set by
    decree makes it so. *)
Theorem grounded_never_available i m m' r :
  run (earns i) m m' -> states m !! i = Some r -> grounded (category r) -> (rank (state r) <= 1)%nat ->
  i ∉ get_available_adapters m'.
Proof.
  intros R Hi Hc Hr.
  assert (on_ground i (category r) m') as (r' & Hi' & _ & Hr').
  { apply (run_kept _ (on_ground i (category r)) m m' (ground_kept i _ Hc) R). by exists r. }
  unfold get_available_adapters. intros ([j x] & -> & Hin)%list_elem_of_fmap. simpl in *.
  apply list_elem_of_In, filter_In in Hin as [Hin Ha]. apply list_elem_of_In, iter_lookup in Hin.
  rewrite Hi' in Hin. injection Hin as <-.
  cbn [snd] in Ha. destruct (state r'); simpl in *; first [done|lia].
Qed.

(** ** K *)

Lemma k_kept k : 1 <= k -> kept (fun _ => True) (fun m => 1 <= current_k m <= k).
Proof.
  intros Hk. split; intros; try by destruct m.
  destruct m. cbn in *. lia.
Qed.

(** No operation raises K, and none lowers it below one, in any interleaving. *)
Theorem k_bounded m m' :
  run (fun _ => True) m m' -> 1 <= current_k m -> 1 <= current_k m' <= current_k m.
Proof. intros R Hk. apply (run_kept _ _ m m' (k_kept _ Hk) R). lia. Qed.

(** ** One operation at a time *)

Definition quiet (n : nat) (m : LifecycleManager) : LifecycleManager := m.

Lemma persist_fields m w :
  states (persist m w).1 = states m /\ loader (persist m w).1 = loader m
  /\ current_k (persist m w).1 = current_k m.
Proof. unfold persist. destruct (db m); [|done]. destruct (w _). by destruct m. Qed.

(** What the database says of the state of an adapter, and the law of the write. *)
Context (row_state : DB -> string -> option string).
Hypothesis state_written : forall d name s reason d',
  update_adapter_state_tx d name s reason = (d', Ok tt) -> row_state d' name = Some s.

(** A transition by hand, as it ends. *)
Definition written (check : AdapterHeatRecord -> result AdapterHeatState AosError) (i : Z)
    (m : LifecycleManager) (p : LifecycleManager * result unit AosError) : Prop :=
  loader p.1 = loader m
  /\ match p.2 with
     | Ok _ =>
         exists r s, states m !! i = Some r /\ check r = Ok s
         /\ states p.1 = <[i := r <| state := s |>]> (states m)
         /\ forall d, db p.1 = Some d -> row_state d (adapter_id r) = Some (to_string s)
     | Err _ => states p.1 = states m
     end.

Lemma write_through_written check i m r s reason what event :
  (forall e, log e = Ok tt) -> states m !! i = Some r -> check r = Ok s ->
  written check i m (write_through quiet i (adapter_id r) s reason what event m).
Proof.
  intros Hlog Hr Hs. unfold write_through, quiet. destruct (ensure_sql_kv_ready _ _); [|by split].
  destruct (persist_fields m (write_state (adapter_id r) s reason what)) as (Hst & Hl & _).
  destruct (persist m (write_state (adapter_id r) s reason what)) as [m1 [[]|e]] eqn:Ep; [|by split].
  cbn in Hst, Hl. rewrite Hst, Hr. split; [by rewrite <- Hl; destruct m1|]. cbn [snd]. rewrite Hlog.
  exists r, s. split; [done|]. split; [done|]. cbn [fst]. rewrite states_set_record, Hst.
  split; [done|]. intros d Hd. unfold persist in Ep. destruct (db m) as [d0|] eqn:Ed.
  - unfold write_state in Ep. destruct (update_adapter_state_tx d0 _ _ _) as [d1 [[]|]] eqn:Eu; simplify_eq/=.
    assert (d = d1) as -> by (destruct m; cbn in Hd; congruence). by eapply state_written.
  - simplify_eq. destruct m1. cbn in *. congruence.
Qed.

(** A promotion or demotion by hand that succeeds moves the adapter by exactly the rung
    its rules allow, and the database row says the same; one that fails, for its rules, for
    the consistency check or for the database, changes no state. Neither loads nor unloads
    anything. *)
Theorem transitions_written_through now i m :
  (forall e, log e = Ok tt) ->
  written promote_check i m (promote_adapter quiet i m)
  /\ written (demote_check now) i m (demote_adapter quiet now i m).
Proof.
  intros Hlog. unfold promote_adapter, demote_adapter.
  destruct (states m !! i) as [r|] eqn:Er; [|by repeat split].
  split.
  - destruct (promote_check r) as [s|] eqn:Es; [|by split]. by apply write_through_written.
  - destruct (demote_check now r) as [s|] eqn:Es; [|by split]. by apply write_through_written.
Qed.

(** *** Eviction *)

Lemma prefix_self n : String.prefix n n = true.
Proof. induction n as [|c n IH]; simpl; [done|]. by destruct (Ascii.ascii_dec c c). Qed.

Lemma str_contains_app n a b : str_contains n b = true -> str_contains n (a +:+ b) = true.
Proof. intros H. induction a as [|c a IH]; simpl; [done|by rewrite IH, orb_true_r]. Qed.

Lemma str_contains_self n : str_contains n n = true.
Proof. pose proof (prefix_self n) as H. destruct n; simpl in *; [done|by rewrite H]. Qed.

Lemma not_loaded_text (i : Z) :
  str_contains "not loaded" (error_text (Lifecycle ("Adapter " +:+ pretty i +:+ " not loaded"))) = true.
Proof.
  cbn [error_text]. do 3 apply str_contains_app. apply (str_contains_app "not loaded" " "), str_contains_self.
Qed.

(** The registry after an unload, whether or not the adapter was in it. *)
Lemma unload_loaded l i : loaded (unload_adapter l i).1 = delete i (loaded l).
Proof.
  unfold unload_adapter. destruct (loaded l !! i) eqn:E; [by destruct l|]. cbn. by rewrite delete_id.
Qed.

(** Evicting an adapter, with nothing interleaved: one that is not known is left alone,
    a pinned one is refused and nothing changes; any other ends unloaded, with no memory and
    out of the registry, also when it was not in it, and no other adapter is touched; the
    answer is that of the telemetry. *)
Theorem heat_eviction_exact i m :
  let p := evict_adapter quiet i m in
  match states m !! i with
  | None => p = (m, Ok tt)
  | Some r =>
      if pinned r then p = (m, Err (Lifecycle ("Cannot evict pinned adapter: " +:+ adapter_id r)))
      else p.2 = log "adapter_evicted"
           /\ states p.1 = <[i := r <| state := Unloaded |> <| memory_bytes := 0 |>]> (states m)
           /\ loaded (loader p.1) = delete i (loaded (loader m))
           /\ current_k p.1 = current_k m
  end.
Proof.
  unfold evict_adapter, evict_locked. destruct (states m !! i) as [r|] eqn:Er; [|done].
  destruct (pinned r); [done|]. pose proof (unload_loaded (loader m) i) as Hl.
  assert (forall m1 name, states (persist_eviction name m1) = states m1
    /\ loader (persist_eviction name m1) = loader m1 /\ current_k (persist_eviction name m1) = current_k m1) as Hp.
  { intros m1 name. unfold persist_eviction.
    pose proof (persist_fields m1 (fun d => update_adapter_state_tx d name "unloaded" "eviction")) as (H1 & H2 & H3).
    destruct (persist m1 _) as [m2 ?]. cbn in H1, H2, H3.
    pose proof (persist_fields m2 (fun d => update_adapter_memory_tx d name 0)) as (H4 & H5 & H6).
    destruct (persist m2 _) as [m3 ?]. cbn in *. repeat split; congruence. }
  assert (forall l, l = (unload_adapter (loader m) i).1 ->
    let m1 := persist_eviction (adapter_id r) (set_record i (evicted r) (set_loader l m)) in
    states m1 = <[i := r <| state := Unloaded |> <| memory_bytes := 0 |>]> (states m)
    /\ loaded (loader m1) = delete i (loaded (loader m)) /\ current_k m1 = current_k m) as Hd.
  { intros l -> m1. unfold m1. destruct (Hp (set_record i (evicted r) (set_loader (unload_adapter (loader m) i).1 m))
      (adapter_id r)) as (-> & -> & ->).
    rewrite states_set_record, states_set_loader, loader_set_record, loader_set_loader, Hl. by destruct m. }
  unfold quiet. pose proof (not_loaded_text i) as Ht. unfold unload_adapter in *.
  destruct (loaded (loader m) !! i) as [x|].
  - cbn [fst snd]. split; [done|]. by apply Hd.
  - rewrite Ht. cbn [negb fst snd]. split; [done|]. by apply Hd.
Qed.

(** *** Registration *)

(** Registering an adapter under a new name to be loaded immediately does not load it,
    unless its category is ephemeral: the record is promoted to [Cold] first, and loading
    leaves records that are not unloaded alone. It goes on like that: the adapter counts as
    loaded, and no reload ever reads its file. *)
Theorem registered_never_loaded name h c m m' i :
  register_adapter quiet name h c true m = Some (m', i) ->
  find_name m name = None -> c <> Some "ephemeral" ->
  get_state m' i = Some Cold /\ loaded (loader m') = loaded (loader m)
  /\ get_or_reload name m' = (m', Ok tt).
Proof.
  unfold register_adapter, quiet. destruct (next_index m) as [n|]; [|done]. cbn [mbind option_bind].
  set (r0 := (AdapterHeat.new name n) <| category := default "code" c |>).
  set (m1 := set_record n r0 (set_loader (register_hash (loader m) name h) m)).
  intros E Hf Hc.
  assert (states m1 !! n = Some r0) as Hm1 by (unfold m1; rewrite states_set_record; apply lookup_insert_eq).
  cbn zeta in E. rewrite Hm1 in E.
  assert (category r0 = default "code" c /\ state r0 = Unloaded /\ adapter_id r0 = name) as (Hcat & Hs & Hn) by done.
  assert ((record_promote r0).1 = r0 <| state := Cold |>) as Hpr.
  { rewrite record_promote_spec, Hs, Hcat. simpl. rewrite decide_False; [done|].
    intros Hd. destruct c; simpl in Hd; simplify_eq. }
  rewrite Hpr in E. set (m2 := set_record n (r0 <| state := Cold |>) m1) in E.
  assert (get_or_reload name m2 = (m2, Ok tt)) as Hr.
  { unfold get_or_reload. destruct (find_name m2 name) as [[j r]|] eqn:Ef; [|done].
    apply find_name_some in Ef as [Ej Ejn]. unfold m2, m1 in Ej.
    rewrite !states_set_record, states_set_loader, insert_insert_eq in Ej.
    destruct (decide (j = n)) as [->|Hne].
    - rewrite lookup_insert_eq in Ej. injection Ej as <-. by rewrite decide_False by done.
    - rewrite lookup_insert_ne in Ej by done. exfalso. unfold find_name in Hf.
      assert (In (j, r) (iter (states m))) as Hin by (by apply list_elem_of_In, iter_lookup).
      pose proof (List.find_none _ _ Hf _ Hin) as Hno. cbn in Hno.
      by rewrite bool_decide_eq_true_2 in Hno. }
  rewrite Hr in E. cbn [fst] in E. injection E as <- <-. split; [|split].
  - unfold get_state, m2. by rewrite states_set_record, lookup_insert_eq.
  - unfold m2, m1. rewrite !loader_set_record, loader_set_loader. by destruct (loader m).
  - exact Hr.
Qed.

(** *** Memory pressure *)

(** An adapter that the memory pressure handler may evict, with the metric it goes by. *)
Definition evictable (metrics : list AdapterMetrics) (m : LifecycleManager) (i : Z)
    (r : AdapterHeatRecord) (x : AdapterMetrics) : Prop :=
  states m !! i = Some r /\ pinned r = false
  /\ List.find (fun y => bool_decide (m_adapter_id y = adapter_id r)) metrics = Some x
  /\ (state r = Cold \/ policy_should_evict (policy m) x = true).

Lemma candidates_elem metrics m i x :
  (i, x) ∈ pressure_candidates metrics m
  <-> exists r, states m !! i = Some r /\ pinned r = false
      /\ List.find (fun y => bool_decide (m_adapter_id y = adapter_id r)) metrics = Some x.
Proof.
  unfold pressure_candidates. rewrite stable_sort_perm, list_elem_of_omap. split.
  - intros ([j r] & Hj%iter_lookup & H). simpl in *. exists r. destruct (pinned r) eqn:Ep; [done|].
    destruct (List.find _ _) eqn:Ef; by simplify_eq/=.
  - intros (r & Hi & Hp & Hf). exists (i, r). split; [by apply iter_lookup|]. simpl. by rewrite Hp, Hf.
Qed.

Lemma candidates_evictable metrics m i x :
  (i, x) ∈ pressure_candidates metrics m /\ pressure_evicts m (i, x) = true
  <-> exists r, evictable metrics m i r x.
Proof.
  rewrite candidates_elem. unfold pressure_evicts, evictable. cbn [fst snd]. split.
  - intros [(r & Hi & Hp & Hf) He]. rewrite Hi in He. exists r. repeat split; try done.
    apply orb_true_iff in He as [He|He]; [|by right]. case_bool_decide; [by left|done].
  - intros (r & Hi & Hp & Hf & He). split; [by exists r|]. rewrite Hi. apply orb_true_iff.
    destruct He as [->|He]; [left; by apply bool_decide_eq_true_2|by right].
Qed.

Lemma pressure_candidates_sorted metrics m :
  (forall x, x ∈ metrics -> f32_is_nan (activation_pct x) = false) ->
  StronglySorted (fun a b => f32_key_leb (activation_pct a.2) (activation_pct b.2) = true)
    (pressure_candidates metrics m).
Proof.
  intros Hn. unfold pressure_candidates.
  rewrite (stable_sort_ext _ (fun a b => f32_key_leb (activation_pct a.2) (activation_pct b.2))).
  - apply (stable_sort_sorted (fun a b : Z * AdapterMetrics => _)).
    + intros a b. apply f32_key_leb_total.
    + intros a b c. apply f32_key_leb_trans.
  - intros a b Ha Hb.
    assert (forall p, p ∈ pressure_candidates metrics m -> f32_is_nan (activation_pct p.2) = false) as Hc.
    { intros [j x] (r & _ & _ & Hf)%candidates_elem. apply Hn. simpl.
      by apply List.find_some, proj1, list_elem_of_In in Hf. }
    apply f32_leb_key; apply Hc; unfold pressure_candidates; by rewrite stable_sort_perm.
Qed.

(** Whether the telemetry takes an event of the manager. *)
Definition logged (e : string) : bool := match log e with Ok _ => true | Err _ => false end.

(** Lowering K, whatever the telemetry does: nothing but K changes, and K falls by one, never
    below one, once the request and its evaluation are told. *)
Definition lowers_k (m : LifecycleManager) (p : LifecycleManager * result unit AosError) : Prop :=
  let falls := (1 <? current_k m) && logged "k_reduction_request" && logged "k_reduction_evaluation" in
  p.1 = m <| current_k := if falls then current_k m - 1 else current_k m |>
  /\ (p.2 = Ok tt <->
      falls && logged "k_reduction_execution" && logged "k_reduction_completion" = true)
  /\ (current_k m <= 1 -> logged "k_reduction_request" = true -> logged "k_reduction_completion" = true ->
      p.2 = Err (MemoryPressure "Cannot reduce K below 1")).

Lemma reduce_k_lowers m : lowers_k m (reduce_k m).
Proof.
  assert (Hs : m <| current_k := current_k m |> = m) by (by destruct m).
  unfold lowers_k, reduce_k, logged. cbn zeta.
  destruct (log "k_reduction_request") as [[]|] eqn:E1; [|rewrite andb_false_r; cbn [andb]; by rewrite Hs].
  destruct (Z.ltb_spec 1 (current_k m)) as [Hk|Hk]; cbn [andb].
  - destruct (log "k_reduction_evaluation") as [[]|]; [|rewrite Hs; repeat split; (done || lia)].
    destruct (log "k_reduction_execution") as [[]|]; [|repeat split; (done || lia)].
    destruct (log "k_reduction_completion") as [[]|]; repeat split; (done || lia).
  - rewrite Hs. destruct (log "k_reduction_completion") as [[]|]; by repeat split.
Qed.

(** [C14] Under memory pressure one adapter is evicted: one that is not pinned and is cold or
    hardly used, and of those one of least activity, where no activity is NaN; its eviction
    fails, after its record was written, when the telemetry does, and then it stays loaded,
    or when nothing of it was loaded. Exactly when there is no such adapter K is lowered
    instead: by one if it is more than one and the telemetry takes the request and its
    evaluation; a K of one stays, which is an error. *)
Theorem pressure_exact metrics m :
  (forall x, x ∈ metrics -> f32_is_nan (activation_pct x) = false) ->
  let p := handle_memory_pressure metrics m in
  (lowers_k m p /\ forall i r x, ~ evictable metrics m i r x)
  \/ (exists i r x, evictable metrics m i r x
      /\ (forall j r' y, evictable metrics m j r' y ->
            f32_lt (activation_pct y) (activation_pct x) = false)
      /\ states p.1 = <[i := r <| state := Unloaded |> <| memory_bytes := 0 |>]> (states m)
      /\ current_k p.1 = current_k m
      /\ match log "adapter_evicted" with
         | Err e => loader p.1 = loader m /\ p.2 = Err e
         | Ok _ => loaded (loader p.1) = delete i (loaded (loader m))
             /\ p.2 = if loader_is_loaded (loader m) i then Ok tt
                      else Err (Lifecycle ("Adapter " +:+ pretty i +:+ " not loaded"))
         end).
Proof.
  intros Hn p. unfold p, handle_memory_pressure.
  destruct (List.find _ _) as [[i x]|] eqn:Ef.
  - right. assert (Hfs := Ef). apply List.find_some in Ef as [Hin He]. apply list_elem_of_In in Hin.
    destruct (proj1 (candidates_evictable metrics m i x)) as [r Hr]; [done|].
    assert (Hr' := Hr). destruct Hr as (Hi & Hp & Hf & Hc). rewrite Hi.
    exists i, r, x. split; [done|]. split.
    { intros j r' y Hy.
      assert ((j, y) ∈ pressure_candidates metrics m /\ pressure_evicts m (j, y) = true) as [Hj Hjp]
        by (apply candidates_evictable; by exists r').
      assert (f32_is_nan (activation_pct x) = false /\ f32_is_nan (activation_pct y) = false) as [Hx Hyn].
      { split; apply Hn; eapply list_elem_of_In, List.find_some; [exact Hf|apply Hy]. }
      destruct (find_sorted_least _ _ _ _ (pressure_candidates_sorted metrics m Hn) Hfs _ Hj Hjp) as [E|Hle].
      * injection E as -> ->. apply f32_lt_irrefl.
      * cbn in Hle. rewrite <- f32_leb_key, f32_leb_lt in Hle by done. by apply negb_true_iff. }
    destruct (log "adapter_evicted") as [u|e].
    2: { cbn [fst snd]. rewrite states_set_record. split_and!; [by destruct r|by destruct m..|done]. }
    rewrite loader_set_record. pose proof (unload_loaded (loader m) i) as Hl.
    pose proof (eq_refl (unload_adapter (loader m) i).2) as Hu. unfold unload_adapter at 2 in Hu.
    destruct (unload_adapter (loader m) i) as [l res]. cbn [fst snd] in *. split_and!.
    + rewrite states_set_loader, states_set_record. by destruct r.
    + by destruct m.
    + by rewrite loader_set_loader.
    + rewrite Hu. unfold loader_is_loaded. destruct (loaded (loader m) !! i); cbn [snd].
      * by rewrite bool_decide_eq_true_2.
      * by rewrite bool_decide_eq_false_2 by (by intros [? ?]).
  - left. split; [apply reduce_k_lowers|]. intros i r x Hr.
    destruct (proj2 (candidates_evictable metrics m i x)) as [Hj Hp]; [by exists r|].
    apply list_elem_of_In in Hj. pose proof (List.find_none _ _ Ef _ Hj). congruence.
Qed.

(** An adapter that is unloaded already is evicted again: when it is the least active,
    every call is an error and changes nothing, however long the pressure lasts and whatever
    else could be evicted. *)
Theorem pressure_blocked metrics m i r x :
  (forall e, log e = Ok tt) ->
  List.find (pressure_evicts m) (pressure_candidates metrics m) = Some (i, x) ->
  states m !! i = Some r -> state r = Unloaded -> memory_bytes r = 0 ->
  loaded (loader m) !! i = None ->
  handle_memory_pressure metrics m
  = (m, Err (Lifecycle ("Adapter " +:+ pretty i +:+ " not loaded"))).
Proof.
  intros Hlog Hf Hi Hs Hm Hl. unfold handle_memory_pressure. rewrite Hf, Hi, Hlog.
  assert (evicted r = r) as -> by (destruct r; cbn in *; by subst).
  assert (set_record i r m = m) as -> by (unfold set_record; destruct m; cbn in *; by rewrite insert_id).
  unfold unload_adapter. rewrite Hl. by destruct m.
Qed.

(** ** Interleaved with others *)

(** A pin that lands between the two halves of an operation. *)
Definition during (op : LifecycleManager -> LifecycleManager) (n : nat) (m : LifecycleManager) :
    LifecycleManager :=
  if (n =? 1)%nat then op m else m.

Lemma pin_alone i t p u w m r :
  db m = None -> states m !! i = Some r ->
  (pin_adapter quiet i t p u w m).1 = set_record i (pin r) m.
Proof.
  intros Hd Hr. unfold pin_adapter, quiet, ensure_sql_kv_ready, persist. by rewrite Hr, Hd, Hr.
Qed.

(** A pin that completes while the adapter is being moved by hand is undone: the adapter
    is pinned, but in the state computed before the pin. The same happens to an automatic
    demotion with no interleaving at all, for an ephemeral adapter. *)
Theorem pin_overwritten now i t p u w m r s :
  (forall e, log e = Ok tt) -> db m = None -> states m !! i = Some r ->
  (demote_check now r = Ok s ->
   states (demote_adapter (during (fun m => (pin_adapter quiet i t p u w m).1)) now i m).1 !! i
   = Some ((pin r) <| state := s |>))
  /\ (forall at_, pinned r = true -> state r = Resident -> category r = "ephemeral" ->
      last_activated r = Some at_ ->
      states (auto_demote_adapter quiet now i m).1 !! i = Some (r <| state := Hot |>)).
Proof.
  intros Hlog Hd Hr. split.
  - intros Hs. unfold demote_adapter. rewrite Hr, Hs. unfold write_through, ensure_sql_kv_ready, persist, during.
    cbn [Nat.eqb]. rewrite Hd, (pin_alone _ _ _ _ _ _ r Hd Hr), states_set_record, lookup_insert_eq.
    cbn [fst]. by rewrite states_set_record, lookup_insert_eq.
  - intros at_ Hp Hs Hc Ha. unfold auto_demote_adapter. rewrite Hr, Ha, Hs, Hc. simpl.
    unfold update_adapter_state, persist, quiet. rewrite Hr, Hd, Hr. cbn [fst].
    by rewrite states_set_record, lookup_insert_eq.
Qed.

(** An eviction that completes while the adapter is being promoted by hand leaves it
    recorded in the state it was promoted to, with nothing loaded. *)
Theorem eviction_overwritten i m r s :
  (forall e, log e = Ok tt) -> db m = None -> states m !! i = Some r -> pinned r = false ->
  promote_check r = Ok s ->
  let m' := (promote_adapter (during (fun m => (evict_adapter quiet i m).1)) i m).1 in
  get_state m' i = Some s /\ loader_is_loaded (loader m') i = false.
Proof.
  intros Hlog Hd Hr Hp Hs m'. unfold m', promote_adapter. rewrite Hr, Hs.
  unfold write_through, ensure_sql_kv_ready, persist, during. cbn [Nat.eqb]. rewrite Hd.
  assert (Hu := unload_loaded (loader m) i). assert (Ht := not_loaded_text i).
  set (me := (evict_adapter quiet i m).1).
  assert (states me !! i = Some (evicted r) /\ loaded (loader me) = delete i (loaded (loader m))) as [H1 H2].
  { unfold me, evict_adapter, evict_locked. rewrite Hr, Hp. unfold unload_adapter in *.
    assert (forall l name, let m1 := set_record i (evicted r) (set_loader l m) in
      states (persist_eviction name m1) = states m1 /\ loader (persist_eviction name m1) = l) as Hpe.
    { intros l name m1. unfold persist_eviction, persist.
      assert (db m1 = None) as -> by (unfold m1; by destruct m). assert (db m1 = None) as Hd1 by (unfold m1; by destruct m).
      rewrite Hd1. split; [done|]. unfold m1. by rewrite loader_set_record, loader_set_loader. }
    destruct (loaded (loader m) !! i) as [y|]; [|rewrite Ht]; cbn [negb fst snd] in *; unfold quiet;
      match goal with |- context [persist_eviction ?n (set_record i _ (set_loader ?l m))] =>
        destruct (Hpe l n) as [-> ->] end; rewrite states_set_record, lookup_insert_eq; done. }
  rewrite H1. cbn [fst]. unfold get_state, loader_is_loaded.
  rewrite states_set_record, loader_set_record, lookup_insert_eq, H2, lookup_delete_eq. split; [by destruct r|].
  by apply bool_decide_eq_false_2; intros [? ?].
Qed.
End Manager.

(** ** Examples

    A database of one table, a directory of files named after their adapters, and a
    telemetry that takes everything. *)
Section Examples.
#[local] Existing Instance toy_blake3.
#[local] Existing Instance hex_lower.

#[local] Instance table : LifecycleDb (gmap string string) := {|
  check_adapter_consistency _ _ := Ok (true, None);
  update_adapter_state_tx d name s _ := (<[name := s]> d, Ok tt);
  update_adapter_memory_tx d _ _ := (d, Ok tt);
  insert_pin d _ _ _ _ _ := (d, Ok tt);
  delete_pin d _ _ := (d, Ok tt);
  persist_activation d _ _ := (d, Ok tt);
  find_expired_adapters _ := Ok [];
|}.

#[local] Instance directory : AdapterSource := fun name => Ok (name, [x01], 1%Z).

Definition ok (_ : string) : result unit AosError := Ok tt.
Definition order (m : gmap Z AdapterHeatRecord) : list (Z * AdapterHeatRecord) := map_to_list m.

Lemma order_perm m : order m ≡ₚ map_to_list m.
Proof. done. Qed.

Definition files : gmap string B3Hash :=
  <["a" := hash [x01]]> (<["b" := hash [x01]]> ∅).

Definition fresh : LifecycleManager (DB := gmap string string) :=
  new_manager ["a"; "b"] files 15 3 None.

(** Adapter 0 pinned and loaded. *)
Definition with_pin : LifecycleManager (DB := gmap string string) :=
  set_record 0 (pin (AdapterHeat.new "a" 0))
    (set_loader (load_adapter (loader fresh) 0 "a").1 fresh).

Lemma pins_hold_witness :
  let m' := exec ok order quiet (Evict 0) with_pin in
  (exists r', states m' !! 0 = Some r' /\ pinned r' = true /\ state r' = Resident)
  /\ loaded (loader m') !! 0 = Some (mkHandle 0 "a" 1, [x01]).
Proof.
  destruct (pins_hold ok order order_perm 0 with_pin (exec ok order quiet (Evict 0) with_pin)
    (pin (AdapterHeat.new "a" 0))) as [H1 H2];
    [|reflexivity|reflexivity|reflexivity|].
  - apply (run_op _ _ _ quiet (Evict 0)); [exact I|intros; apply run_done|apply run_done].
  - split; [exact H1|]. rewrite H2; [reflexivity|]. vm_compute. eexists; reflexivity.
Defined.

Lemma pressure_never_seen_witness :
  let m := exec ok order quiet (Reload "a") fresh in
  loaded_count (loader m) = 1%nat
  /\ get_total_memory_usage order m = 0 /\ check_memory_pressure ok order quiet 1 m = (m, Ok tt).
Proof.
  split; [vm_compute; reflexivity|].
  apply (pressure_never_seen ok order order_perm ["a"; "b"] files 15 3 None);
    [|reflexivity].
  apply (run_op _ _ _ quiet (Reload "a")); [exact I|intros; apply run_done|apply run_done].
Defined.

(** An adapter of the category [framework]. *)
Definition with_framework : LifecycleManager (DB := gmap string string) :=
  set_record 0 ((AdapterHeat.new "a" 0) <| category := "framework" |>) fresh.

Lemma grounded_never_available_witness :
  let m' := exec ok order quiet (Promote 0) (exec ok order quiet (Promote 0) with_framework) in
  get_state m' 0 = Some Cold /\ 0 ∉ get_available_adapters order m'.
Proof.
  split; [vm_compute; reflexivity|].
  apply (grounded_never_available ok order order_perm 0 with_framework _
    ((AdapterHeat.new "a" 0) <| category := "framework" |>)); [|reflexivity|left; reflexivity|apply Nat.le_0_l].
  apply (run_op _ _ _ quiet (Promote 0)); [exact I|intros; apply run_done|].
  apply (run_op _ _ _ quiet (Promote 0)); [exact I|intros; apply run_done|apply run_done].
Defined.

Definition register_c : option (LifecycleManager * Z) :=
  register_adapter order quiet "c" (hash [x01]) None true fresh.

Lemma registered_never_loaded_witness :
  match register_c with
  | Some (m', i) => get_state m' i = Some Cold /\ loaded (loader m') = ∅
  | None => False
  end.
Proof.
  destruct register_c as [[m' i]|] eqn:E; [|vm_compute in E; discriminate E].
  destruct (registered_never_loaded order order_perm "c" (hash [x01]) None fresh m' i E)
    as (H1 & H2 & _); [reflexivity|discriminate|].
  split; [exact H1|]. rewrite H2. reflexivity.
Defined.

(** Adapter 0 unloaded and hardly used, adapter 1 cold and loaded. *)
Definition sparse : list AdapterMetrics :=
  [mkMetrics "a" (f32_lit 1 2) (f32_lit 1 1); mkMetrics "b" (f32_lit 1 1) (f32_lit 1 1)].

Definition one_loaded : LifecycleManager (DB := gmap string string) := exec ok order quiet (Reload "b") fresh.

Lemma pressure_blocked_witness :
  loaded_count (loader one_loaded) = 1%nat
  /\ handle_memory_pressure ok order sparse one_loaded
     = (one_loaded, Err (Lifecycle "Adapter 0 not loaded")).
Proof.
  split; [vm_compute; reflexivity|].
  apply (pressure_blocked ok order sparse one_loaded 0 (AdapterHeat.new "a" 0)
    (mkMetrics "a" (f32_lit 1 2) (f32_lit 1 1))); vm_compute; reflexivity.
Defined.

Lemma pressure_exact_witness :
  let p := handle_memory_pressure ok order [mkMetrics "b" (f32_lit 1 1) (f32_lit 1 1)] one_loaded in
  p.2 = Ok tt /\ loaded_count (loader p.1) = 0%nat
  /\ (lowers_k ok one_loaded p \/ exists i r x,
        evictable [mkMetrics "b" (f32_lit 1 1) (f32_lit 1 1)] one_loaded i r x
        /\ states p.1 = <[i := r <| state := Unloaded |> <| memory_bytes := 0 |>]> (states one_loaded)).
Proof.
  split; [vm_compute; reflexivity|]. split; [vm_compute; reflexivity|].
  destruct (pressure_exact ok order order_perm [mkMetrics "b" (f32_lit 1 1) (f32_lit 1 1)] one_loaded)
    as [[E _]|(i & r & x & He & _ & Hs & _)]; [|left; exact E|right; eexists i, r, x; split; [exact He|exact Hs]].
  intros x Hx. apply list_elem_of_singleton in Hx. rewrite Hx. reflexivity.
Defined.

Lemma heat_eviction_exact_witness :
  (evict_adapter ok quiet 1 one_loaded).2 = Ok tt
  /\ loaded (loader (evict_adapter ok quiet 1 one_loaded).1) = delete 1 (loaded (loader one_loaded)).
Proof.
  destruct (heat_eviction_exact ok 1 one_loaded) as (H1 & _ & H2 & _). split; [exact H1|exact H2].
Defined.

Lemma transitions_written_through_witness :
  let m := fresh <| db := Some ∅ |> in
  let p := promote_adapter ok quiet 0 m in
  p.2 = Ok tt /\ written (fun d n => d !! n) promote_check 0 m p.
Proof.
  intros m p. split; [reflexivity|].
  destruct (transitions_written_through ok (fun d n => d !! n)) with (now := 0) (i := 0) (m := m) as [H _];
    [|reflexivity|exact H].
  intros d n s reason d' E. injection E as <-. apply lookup_insert_eq.
Defined.

Lemma pin_overwritten_witness :
  let r := (AdapterHeat.new "b" 1) <| state := Cold |> in
  states (demote_adapter ok (during (fun m => (pin_adapter ok quiet 1 "t" "u" None None m).1)) 0 1 one_loaded).1 !! 1
  = Some ((pin r) <| state := Unloaded |>).
Proof.
  intros r. destruct (pin_overwritten ok 0 1 "t" "u" None None one_loaded r Unloaded) as [H _];
    [reflexivity|reflexivity|vm_compute; reflexivity|]. apply H. reflexivity.
Defined.

Lemma eviction_overwritten_witness :
  let m' := (promote_adapter ok (during (fun m => (evict_adapter ok quiet 1 m).1)) 1 one_loaded).1 in
  get_state m' 1 = Some Warm /\ loader_is_loaded (loader m') 1 = false.
Proof.
  apply (eviction_overwritten ok 1 one_loaded ((AdapterHeat.new "b" 1) <| state := Cold |>) Warm);
    vm_compute; reflexivity.
Defined.

Lemma k_bounded_witness :
  let m' := exec ok order quiet ReduceK (exec ok order quiet ReduceK (exec ok order quiet ReduceK fresh)) in
  current_k m' = 1 /\ 1 <= current_k m' <= 3.
Proof.
  split; [vm_compute; reflexivity|]. apply (k_bounded ok order order_perm fresh); [|vm_compute; discriminate].
  do 3 (apply (run_op _ _ _ quiet ReduceK); [exact I|intros; apply run_done|]). apply run_done.
Defined.
End Examples.
End LifecycleManager.
