(* ===== verification/KReduction.v ===== *)
(** * The reduction of K (adapteros-memory/src/k_reduction_protocol.rs,
    k_reduction_integration.rs; adapteros-lora-lifecycle/src/k_reduction_coordinator.rs, and
    the polling, execution and rollback of lib.rs)

    Under memory pressure the memory manager asks for a smaller K, a decision maker answers
    with the adapters to unload, and the lifecycle manager unloads them or rolls back. An
    [Instant] is a [Z] of nanoseconds; ids of requests and time stamps are arguments, and
    stamps that nothing reads are left out; the telemetry may refuse the events of each
    operation on an adapter. [fmt2] is the rendering of an [f32] with two
    decimals in the texts of answers. *)

From S2P Require Import Prelude Hashing Float32 AdapterHeat LifecycleManager.
Import AdapterHeat LifecycleManager.

Local Open Scope Z.
Local Open Scope aos.

Module KReduction.

(** ** The protocol (k_reduction_protocol.rs) *)

Record KReductionRequest : Type := mkRequest {
  request_id : string;
  target_k : Z;
  req_current_k : Z;
  pressure_level : f32;
  bytes_to_free : Z;
  headroom_pct : f32;
  req_reason : string;
}.

Definition is_valid (self : KReductionRequest) : bool :=
  (0 <? target_k self) && (target_k self <? req_current_k self).

Definition estimated_memory_freed (self : KReductionRequest) (avg_adapter_size : Z) : Z :=
  u64_saturating_mul (saturating_sub (req_current_k self) (target_k self)) avg_adapter_size.

Record KReductionResponse : Type := mkResponse {
  resp_id : string;
  approved : bool;
  new_k : Z;
  adapters_to_unload : list Z;
  resp_reason : string;
  estimated_freed : Z;
}.

Definition approve (request_id : string) (new_k : Z) (adapters_to_unload : list Z)
    (estimated_freed : Z) (reason : string) : KReductionResponse :=
  mkResponse request_id true new_k adapters_to_unload reason estimated_freed.

Definition reject (request_id : string) (current_k : Z) (reason : string) : KReductionResponse :=
  mkResponse request_id false current_k [] reason 0.

Record KReductionDecision : Type := mkDecision {
  d_request : KReductionRequest;
  d_response : KReductionResponse;
  executed : bool;
  actual_freed : option Z;
  failure_reason : option string;
}.

Definition new_decision (request : KReductionRequest) (response : KReductionResponse) :
    KReductionDecision :=
  mkDecision request response false None None.

Definition mark_executed (actual_freed_ : Z) (self : KReductionDecision) : KReductionDecision :=
  self <| executed := true |> <| actual_freed := Some actual_freed_ |>.

Definition mark_failed (reason : string) (self : KReductionDecision) : KReductionDecision :=
  self <| executed := false |> <| failure_reason := Some reason |>.

(** The trait [KReductionDecisionMaker], with the two methods that have defaults. *)
Class KReductionDecisionMaker : Type := evaluate_request : KReductionRequest -> KReductionResponse.

Definition can_reduce_further (current_k min_k : Z) : bool := min_k <? current_k.

Definition calculate_target_k (current_k : Z) (pressure_level : f32) (available_adapters : Z) : Z :=
  let reduction_factor := f32_min (f32_mul pressure_level (f32_lit 10 1)) (f32_lit 9 10) in
  let target :=
    f32_as_usize (f32_mul (f32_of_Z current_k) (f32_sub (f32_lit 1 1) reduction_factor)) in
  Z.min (Z.max target 1) available_adapters.

Section Protocol.
Context (fmt2 : f32 -> string).

(** [DefaultKReductionDecisionMaker]: the tests all makers begin with, and its answer. *)
Definition below_threshold (pressure threshold : f32) : string :=
  "Pressure level " +:+ fmt2 pressure +:+ " below critical threshold " +:+ fmt2 threshold.

Definition default_decision_maker (min_k : Z) (critical_threshold : f32) : KReductionDecisionMaker :=
  fun request =>
    if negb (is_valid request) then
      reject (request_id request) (req_current_k request)
        "Invalid K reduction request: target >= current"
    else if target_k request <? min_k then
      reject (request_id request) (req_current_k request)
        ("Cannot reduce K below minimum: " +:+ pretty min_k)
    else if f32_lt (pressure_level request) critical_threshold then
      reject (request_id request) (req_current_k request)
        (below_threshold (pressure_level request) critical_threshold)
    else
      approve (request_id request) (target_k request)
        (map (fun i => i mod 2 ^ 16) (seqZ (target_k request) (req_current_k request - target_k request)))
        (estimated_memory_freed request (1024 * 1024))
        ("K reduction approved: " +:+ pretty (req_current_k request) +:+ " -> "
           +:+ pretty (target_k request) +:+ ", pressure: "
           +:+ fmt2 (f32_mul (pressure_level request) (f32_lit 100 1)) +:+ "%").

Record KReductionTimeoutConfig : Type := mkTimeouts {
  request_timeout_ms : Z;
  evaluation_timeout_ms : Z;
  execution_timeout_ms : Z;
}.

Definition default_timeouts : KReductionTimeoutConfig := mkTimeouts 5000 10000 15000.

Record LockOrderingContext : Type := mkLock {
  acquired_at : Z;
  owner : string;
  expected_duration_us : Z;
}.

Inductive KReductionStatus : Type :=
| Pending
| Evaluating
| Approved
| Executing
| Completed
| Failed
| TimedOut
| DeadlockRecovered.

Record KReductionCoordinator : Type := mkCoordinator {
  decision_history : list KReductionDecision;
  max_history_size : nat;
  timeout_config : KReductionTimeoutConfig;
  pending_requests : gmap string (Z * KReductionStatus);
  lock_ordering : list LockOrderingContext;
}.

Definition with_config (max_history_size : nat) (timeout_config : KReductionTimeoutConfig) :
    KReductionCoordinator :=
  mkCoordinator [] max_history_size timeout_config ∅ [].

Definition from_millis (ms : Z) : Z := ms * 1000000.

(** [if let Some((_, status)) = pending.get_mut(&request_id)]. *)
Definition set_status (id : string) (status : KReductionStatus) (self : KReductionCoordinator) :
    KReductionCoordinator :=
  match pending_requests self !! id with
  | Some (at_, _) => self <| pending_requests := <[id := (at_, status)]> (pending_requests self) |>
  | None => self
  end.

Definition check_and_handle_deadlock (now : Z) (self : KReductionCoordinator) : bool :=
  existsb (fun l => from_millis 5000 <? Z.max 0 (now - acquired_at l)) (lock_ordering self).

(** Whole milliseconds of a duration ([as_millis]). *)
Definition as_millis (d : Z) : Z := d / 1000000.

(** [process_request], at the clock readings when it inserts the request and when it checks
    for deadlock, with an evaluation that takes [eval_duration]. *)
Definition process_request {M : KReductionDecisionMaker} (inserted now eval_duration : Z)
    (request : KReductionRequest) (self : KReductionCoordinator) :
    KReductionCoordinator * KReductionResponse :=
  let id := request_id request in
  let self := self <| pending_requests := <[id := (inserted, Pending)]> (pending_requests self) |> in
  if check_and_handle_deadlock now self then
    (set_status id DeadlockRecovered self,
     reject id (req_current_k request) "K reduction aborted: deadlock detected")
  else
    let self := set_status id Evaluating self in
    let response := evaluate_request request in
    if from_millis (evaluation_timeout_ms (timeout_config self)) <? eval_duration then
      (set_status id TimedOut self,
       reject id (req_current_k request)
         ("K reduction evaluation timeout: took " +:+ pretty (as_millis eval_duration)
          +:+ "ms, limit " +:+ pretty (evaluation_timeout_ms (timeout_config self)) +:+ "ms"))
    else if approved response then (set_status id Approved self, response)
    else (set_status id Failed self, response).

Definition record_lock_acquisition (now : Z) (owner : string) (expected_duration_us : Z)
    (self : KReductionCoordinator) : KReductionCoordinator :=
  let locks := lock_ordering self ++ [mkLock now owner expected_duration_us] in
  self <| lock_ordering := if (100 <? length locks)%nat then drop 1 locks else locks |>.

Definition get_status (id : string) (self : KReductionCoordinator) : option KReductionStatus :=
  option_map snd (pending_requests self !! id).

(** The time a request may take in its status. *)
Definition timeout_of (config : KReductionTimeoutConfig) (status : KReductionStatus) : Z :=
  match status with
  | Evaluating => from_millis (evaluation_timeout_ms config)
  | Executing => from_millis (execution_timeout_ms config)
  | _ => from_millis (request_timeout_ms config)
  end.

Definition expired (config : KReductionTimeoutConfig) (now : Z) (p : Z * KReductionStatus) : bool :=
  timeout_of config p.2 <? Z.max 0 (now - p.1).

(** The requests reported are those of a [HashMap]: a set. *)
Definition check_timeouts (now : Z) (self : KReductionCoordinator) :
    KReductionCoordinator * gset string :=
  let out := filter (fun p => expired (timeout_config self) now p.2 = true) (pending_requests self) in
  (self <| pending_requests :=
     filter (fun p => expired (timeout_config self) now p.2 = false) (pending_requests self) |>,
   dom out).

Definition record_decision (decision : KReductionDecision) (self : KReductionCoordinator) :
    KReductionCoordinator :=
  let h := decision_history self ++ [decision] in
  self <| decision_history := if (max_history_size self <? length h)%nat then drop 1 h else h |>.

Definition clear_history (self : KReductionCoordinator) : KReductionCoordinator :=
  self <| decision_history := [] |>.

Record KReductionStats : Type := mkStats {
  total_decisions : nat;
  n_approved : nat;
  n_executed : nat;
  total_memory_freed : Z;
  approval_rate : f32;
  execution_rate : f32;
}.

Definition rate (n of_ : nat) : f32 :=
  if (0 <? of_)%nat then f32_div (f32_of_Z (Z.of_nat n)) (f32_of_Z (Z.of_nat of_)) else f32_lit 0 1.

(** The sum of the bytes freed is a [u64]; an overflow is out of reach of a machine. *)
Definition get_stats (self : KReductionCoordinator) : KReductionStats :=
  let h := decision_history self in
  let a := length (List.filter (fun d => approved (d_response d)) h) in
  let x := length (List.filter executed h) in
  mkStats (length h) a x (sumZ (omap actual_freed h)) (rate a (length h)) (rate x a).

(** ** The lifecycle manager's side (k_reduction_coordinator.rs) *)

Record LifecycleKReductionCoordinator : Type := mkLifecycleCoordinator {
  coord_current_k : Z;
  min_k : Z;
  critical_pressure_threshold : f32;
}.

Context (iter : gmap Z AdapterHeatRecord -> list (Z * AdapterHeatRecord)).

(** Pinned and resident adapters are skipped; the others go by activations, ties in the
    order the map is iterated. *)
Definition unloadable (p : Z * AdapterHeatRecord) : bool :=
  negb (pinned p.2) && match state p.2 with Resident => false | _ => true end.

Definition by_activation (states : gmap Z AdapterHeatRecord) : list (Z * AdapterHeatRecord) :=
  stable_sort (fun a b => activation_count a.2 <=? activation_count b.2) (iter states).

Definition select_adapters_for_unload (target_k current_k : Z)
    (states : gmap Z AdapterHeatRecord) : list Z :=
  map fst (take (Z.to_nat (current_k - target_k)) (List.filter unloadable (by_activation states))).

Definition coord_evaluate (self : LifecycleKReductionCoordinator) (request : KReductionRequest)
    (states : gmap Z AdapterHeatRecord) : KReductionResponse :=
  if negb (is_valid request) then
    reject (request_id request) (coord_current_k self) "Invalid K reduction request: target >= current"
  else if target_k request <? min_k self then
    reject (request_id request) (coord_current_k self)
      ("Target K (" +:+ pretty (target_k request) +:+ ") below minimum K ("
       +:+ pretty (min_k self) +:+ ")")
  else if f32_lt (pressure_level request) (critical_pressure_threshold self) then
    reject (request_id request) (coord_current_k self)
      (below_threshold (pressure_level request) (critical_pressure_threshold self))
  else
    let chosen := select_adapters_for_unload (target_k request) (req_current_k request) states in
    let wanted := req_current_k request - target_k request in
    if negb (Z.of_nat (length chosen) =? wanted) then
      reject (request_id request) (coord_current_k self)
        ("Could not find enough unloadable adapters: need " +:+ pretty wanted
         +:+ ", found " +:+ pretty (length chosen))
    else
      approve (request_id request) (target_k request) chosen
        (Z.of_nat (length chosen) * 1024 * 1024)
        ("K reduction approved: " +:+ pretty (req_current_k request) +:+ " -> "
         +:+ pretty (target_k request) +:+ ", unloading " +:+ pretty (length chosen)
         +:+ " adapters").

Definition set_current_k (k : Z) (self : LifecycleKReductionCoordinator) :
    LifecycleKReductionCoordinator :=
  self <| coord_current_k := k |>.

Definition coord_can_reduce_further (self : LifecycleKReductionCoordinator) (proposed_k : Z) : bool :=
  min_k self <=? proposed_k.

(** The coordinator the manager makes; nothing sets its K afterwards. *)
Definition manager_coordinator (initial_k : Z) : LifecycleKReductionCoordinator :=
  mkLifecycleCoordinator initial_k 2 (f32_lit 7 10).

(** ** Execution and rollback (lib.rs) *)

Context {DB : Type} {D : LifecycleDb DB} {Src : AdapterSource} {B : Blake3} {X : Hex}.
(** What the telemetry makes of the events of the n-th operation on an adapter. *)
Context (log : nat -> string -> result unit AosError).
#[local] Notation Manager := (LifecycleManager (DB := DB)).

(** The adapters unloaded are promoted again, last first, as far as that goes; [n]
    operations came before. *)
Fixpoint reload_all (others : nat -> Manager -> Manager) (n : nat) (ids : list Z) (m : Manager) : Manager :=
  match ids with
  | [] => m
  | id :: ids =>
      reload_all others (S n) ids
        (match states m !! id with
         | Some _ => (promote_adapter (log n) others id m).1
         | None => m
         end)
  end.

Definition rollback_k_reduction (others : nat -> Manager -> Manager) (unloaded : list Z) (old_k : Z)
    (m : Manager) : Manager :=
  reload_all others (S (length unloaded)) (rev unloaded) (m <| current_k := old_k |>).

(** The first loop: [done] are the adapters unloaded so far. *)
Fixpoint unload_all (others : nat -> Manager -> Manager) (ids done : list Z) (m : Manager) :
    Manager * result (list Z) (AosError * list Z) :=
  match ids with
  | [] => (m, Ok done)
  | id :: ids =>
      let '(m, r) := evict_adapter (log (length done)) others id m in
      match r with
      | Ok _ => unload_all others ids (done ++ [id]) m
      | Err e => (m, Err (e, done))
      end
  end.

(** The telemetry of the reduction is logged when it fails. *)
Definition execute_k_reduction (others : nat -> Manager -> Manager) (response : KReductionResponse)
    (m : Manager) : Manager * result unit AosError :=
  let old_k := current_k m in
  let '(m, r) := unload_all others (adapters_to_unload response) [] m in
  match r with
  | Err (e, unloaded) => (rollback_k_reduction others unloaded old_k m, Err e)
  | Ok _ => (m <| current_k := new_k response |>, Ok tt)
  end.

Definition add_execution (x : KReductionExecutionRecord) (m : Manager) : Manager :=
  m <| k_reduction_history := k_reduction_history m ++ [x] |>.

(** One request of [poll_k_reduction_events]. *)
Definition process_event (others : nat -> Manager -> Manager) (coordinator : LifecycleKReductionCoordinator)
    (request : KReductionRequest) (m : Manager) : Manager :=
  let response := coord_evaluate coordinator request (states m) in
  if approved response then
    let '(m, r) := execute_k_reduction others response m in
    add_execution
      (mkExecution (request_id request) (req_current_k request) (new_k response) true (is_ok r)
         (adapters_to_unload response)
         (match r with Ok _ => None | Err e => Some (error_text e) end)) m
  else
    add_execution
      (mkExecution (request_id request) (req_current_k request) (req_current_k request) false false []
         (Some (resp_reason response))) m.

Definition clear_k_reduction_history (m : Manager) : Manager := m <| k_reduction_history := [] |>.

(** ** Theorems on the protocol *)

Inductive CoordOp : Type :=
| Process (maker : KReductionDecisionMaker) (inserted now eval_duration : Z) (request : KReductionRequest)
| Lock (now : Z) (owner : string) (expected_duration_us : Z)
| Timeouts (now : Z)
| Decide (decision : KReductionDecision)
| Clear.

Definition coord_exec (op : CoordOp) (c : KReductionCoordinator) : KReductionCoordinator :=
  match op with
  | Process maker i n e r => (@process_request maker i n e r c).1
  | Lock now o x => record_lock_acquisition now o x c
  | Timeouts now => (check_timeouts now c).1
  | Decide d => record_decision d c
  | Clear => clear_history c
  end.

Definition coord_run (ops : list CoordOp) (c : KReductionCoordinator) : KReductionCoordinator :=
  fold_left (fun c op => coord_exec op c) ops c.

Definition is_lock (op : CoordOp) : bool := match op with Lock _ _ _ => true | _ => false end.

Lemma set_status_fields id s c :
  lock_ordering (set_status id s c) = lock_ordering c
  /\ decision_history (set_status id s c) = decision_history c
  /\ max_history_size (set_status id s c) = max_history_size c
  /\ timeout_config (set_status id s c) = timeout_config c.
Proof. unfold set_status. destruct (pending_requests c !! id) as [[]|]; by destruct c. Qed.

Lemma set_status_pending id s c :
  pending_requests (set_status id s c)
  = match pending_requests c !! id with
    | Some (at_, _) => <[id := (at_, s)]> (pending_requests c)
    | None => pending_requests c
    end.
Proof. unfold set_status. destruct (pending_requests c !! id) as [[]|]; by destruct c. Qed.

(** What processing a request leaves behind: its status alone. *)
Lemma process_fields {M : KReductionDecisionMaker} i n e r c :
  let c' := (process_request i n e r c).1 in
  lock_ordering c' = lock_ordering c /\ decision_history c' = decision_history c
  /\ max_history_size c' = max_history_size c /\ timeout_config c' = timeout_config c
  /\ exists s, (s = DeadlockRecovered \/ s = TimedOut \/ s = Approved \/ s = Failed)
     /\ pending_requests c' = <[request_id r := (i, s)]> (pending_requests c).
Proof.
  intros c'. unfold c', process_request.
  set (c1 := c <| pending_requests := _ |>).
  assert (Hc1 : lock_ordering c1 = lock_ordering c /\ decision_history c1 = decision_history c
    /\ max_history_size c1 = max_history_size c /\ timeout_config c1 = timeout_config c
    /\ pending_requests c1 = <[request_id r := (i, Pending)]> (pending_requests c))
    by (unfold c1; by destruct c).
  destruct Hc1 as (L & H & X0 & T & P). clearbody c1.
  assert (forall s c2, lock_ordering c2 = lock_ordering c -> decision_history c2 = decision_history c ->
    max_history_size c2 = max_history_size c -> timeout_config c2 = timeout_config c ->
    (exists s0, pending_requests c2 = <[request_id r := (i, s0)]> (pending_requests c)) ->
    let c3 := set_status (request_id r) s c2 in
    lock_ordering c3 = lock_ordering c /\ decision_history c3 = decision_history c
    /\ max_history_size c3 = max_history_size c /\ timeout_config c3 = timeout_config c
    /\ pending_requests c3 = <[request_id r := (i, s)]> (pending_requests c)) as Hs.
  { intros s c2 H1 H2 H3 H4 [s0 H5] c3. unfold c3.
    destruct (set_status_fields (request_id r) s c2) as (-> & -> & -> & ->).
    rewrite set_status_pending, H5, lookup_insert_eq, insert_insert_eq. done. }
  assert (Hend : forall s c2, (s = DeadlockRecovered \/ s = TimedOut \/ s = Approved \/ s = Failed) ->
    lock_ordering c2 = lock_ordering c -> decision_history c2 = decision_history c ->
    max_history_size c2 = max_history_size c -> timeout_config c2 = timeout_config c ->
    (exists s0, pending_requests c2 = <[request_id r := (i, s0)]> (pending_requests c)) ->
    let c3 := set_status (request_id r) s c2 in
    lock_ordering c3 = lock_ordering c /\ decision_history c3 = decision_history c
    /\ max_history_size c3 = max_history_size c /\ timeout_config c3 = timeout_config c
    /\ exists s, (s = DeadlockRecovered \/ s = TimedOut \/ s = Approved \/ s = Failed)
       /\ pending_requests c3 = <[request_id r := (i, s)]> (pending_requests c)).
  { intros s c2 Hor H1 H2 H3 H4 H5 c3. destruct (Hs s c2 H1 H2 H3 H4 H5) as (? & ? & ? & ? & ?).
    repeat split; try done. by exists s. }
  destruct (check_and_handle_deadlock n c1); [apply Hend; eauto|].
  destruct (Hs Evaluating c1) as (L2 & H2 & X2 & T2 & P2); eauto.
  destruct (_ <? e); [apply Hend; eauto 6|].
  destruct (approved _); apply Hend; eauto 6.
Qed.

(** The lock [l] is still remembered, with fewer than a hundred recorded after it. *)
Definition remembers (l : LockOrderingContext) (n : nat) (c : KReductionCoordinator) : Prop :=
  exists pre post, lock_ordering c = pre ++ l :: post /\ (length post <= n)%nat.

Lemma lock_remembers l n c now o x :
  (S n < 100)%nat -> remembers l n c -> remembers l (S n) (record_lock_acquisition now o x c).
Proof.
  intros Hn (pre & post & E & Hp). unfold remembers, record_lock_acquisition.
  set (locks := lock_ordering c ++ [mkLock now o x]).
  assert (locks = pre ++ l :: (post ++ [mkLock now o x])) as El
    by (unfold locks; by rewrite E, <- app_assoc).
  assert (length (post ++ [mkLock now o x]) <= S n)%nat as Hl by (rewrite length_app; simpl; lia).
  assert (forall ls, lock_ordering (c <| lock_ordering := ls |>) = ls) as Hf by (by destruct c).
  rewrite Hf. destruct (100 <? length locks)%nat eqn:E1; breflect; [|by exists pre, (post ++ [mkLock now o x])].
  destruct pre as [|p pre]; [|exists pre, (post ++ [mkLock now o x]); by rewrite El].
  exfalso. rewrite El in E1. simpl in E1. lia.
Qed.

Lemma exec_remembers l n op c :
  ((if is_lock op then S n else n) < 100)%nat -> remembers l n c ->
  remembers l (if is_lock op then S n else n) (coord_exec op c).
Proof.
  intros Hn Hr. destruct op; simpl in *; try (by destruct c); [|by apply lock_remembers].
  unfold remembers in *. by destruct (@process_fields maker inserted now eval_duration request c) as (-> & _).
Qed.

Lemma run_remembers l n ops c :
  (n + length (List.filter is_lock ops) < 100)%nat -> remembers l n c ->
  remembers l (n + length (List.filter is_lock ops)) (coord_run ops c).
Proof.
  revert n c. induction ops as [|op ops IH]; intros n c Hn Hr; simpl in *.
  - by rewrite Nat.add_0_r.
  - pose proof (exec_remembers l n op c) as He. destruct (is_lock op); simpl in *.
    + rewrite <- Nat.add_succ_comm. apply IH; [lia|]. apply He; [lia|done].
    + apply IH; [lia|]. apply He; [lia|done].
Qed.

(** An acquired lock is never taken off the list of locks held: once it is five seconds
    old, every request is refused as a deadlock, whatever the decision maker would say,
    until a hundred more locks have been recorded. *)
Theorem stale_lock_rejects {M : KReductionDecisionMaker} c acquired o x ops inserted now e request :
  let c' := coord_run ops (record_lock_acquisition acquired o x c) in
  (length (List.filter is_lock ops) < 100)%nat ->
  acquired + from_millis 5000 < now ->
  (process_request inserted now e request c').2
  = reject (request_id request) (req_current_k request) "K reduction aborted: deadlock detected".
Proof.
  intros c' Hops Hnow.
  assert (remembers (mkLock acquired o x) 0 (record_lock_acquisition acquired o x c)) as H0.
  { unfold remembers, record_lock_acquisition.
    assert (forall ls, lock_ordering (c <| lock_ordering := ls |>) = ls) as -> by (by destruct c).
    destruct (100 <? _)%nat eqn:E1; [|by exists (lock_ordering c), []].
    destruct (lock_ordering c) as [|l ls]; [discriminate E1|by exists ls, []]. }
  destruct (run_remembers _ 0 ops _ Hops H0) as (pre & post & E & _). fold c' in E.
  unfold process_request. set (c1 := c' <| pending_requests := _ |>).
  assert (lock_ordering c1 = lock_ordering c') as E1 by (unfold c1; by destruct c').
  assert (check_and_handle_deadlock now c1 = true) as ->; [|done].
  unfold check_and_handle_deadlock. rewrite E1, E. apply existsb_exists.
  exists (mkLock acquired o x). split; [apply in_app_iff; right; by left|].
  cbn [acquired_at]. apply Z.ltb_lt. lia.
Qed.

(** The status a request ends with. *)
Definition settled (s : KReductionStatus) : Prop :=
  s = DeadlockRecovered \/ s = TimedOut \/ s = Approved \/ s = Failed.

(** Requests are not taken off the pending list when they are answered: whatever the
    answer, the request is reported as timed out by the first check after its time, and
    only then forgotten. No request is ever seen executing or completed. *)
Theorem answered_requests_time_out {M : KReductionDecisionMaker} c inserted now e request later :
  let c' := (process_request inserted now e request c).1 in
  inserted + from_millis (request_timeout_ms (timeout_config c)) < later ->
  0 <= request_timeout_ms (timeout_config c) ->
  (exists s, get_status (request_id request) c' = Some s /\ settled s)
  /\ request_id request ∈ (check_timeouts later c').2
  /\ get_status (request_id request) (check_timeouts later c').1 = None.
Proof.
  intros c' Hl H0. destruct (process_fields inserted now e request c) as (_ & _ & _ & Ht & s & Hs & Hp).
  fold c' in Ht, Hp.
  assert (pending_requests c' !! request_id request = Some (inserted, s)) as Hi by (rewrite Hp; apply lookup_insert_eq).
  assert (expired (timeout_config c') later (inserted, s) = true) as Hx.
  { unfold expired. rewrite Ht. cbn [fst snd]. apply Z.ltb_lt.
    assert (timeout_of (timeout_config c) s = from_millis (request_timeout_ms (timeout_config c))) as ->
      by (destruct Hs as [->|[->|[->| ->]]]; done).
    unfold from_millis in *. lia. }
  split; [|split].
  - exists s. unfold get_status. by rewrite Hi.
  - unfold check_timeouts. cbn [snd]. apply elem_of_dom. exists (inserted, s).
    by apply map_lookup_filter_Some.
  - unfold get_status, check_timeouts. cbn [fst].
    assert (forall ps, pending_requests (c' <| pending_requests := ps |>) = ps) as -> by (by destruct c').
    rewrite (map_lookup_filter_None_2 (M := gmap string)); [done|]. right. intros y Hy. rewrite Hi in Hy.
    injection Hy as <-. cbn. by rewrite Hx.
Qed.

Lemma exec_history c op :
  (length (decision_history c) <= max_history_size c)%nat ->
  (length (decision_history (coord_exec op c)) <= max_history_size (coord_exec op c))%nat
  /\ max_history_size (coord_exec op c) = max_history_size c.
Proof.
  intros H. destruct op; cbn [coord_exec].
  - destruct (@process_fields maker inserted now eval_duration request c) as (_ & -> & -> & _). done.
  - unfold record_lock_acquisition. by destruct c.
  - unfold check_timeouts. by destruct c.
  - unfold record_decision.
    assert (forall h, decision_history (c <| decision_history := h |>) = h
      /\ max_history_size (c <| decision_history := h |>) = max_history_size c) as Hf by (by destruct c).
    destruct (Hf (if (max_history_size c <? length (decision_history c ++ [decision]))%nat
      then drop 1 (decision_history c ++ [decision]) else decision_history c ++ [decision])) as [-> ->].
    split; [|done]. destruct (_ <? _)%nat eqn:E; breflect; [|lia].
    rewrite length_drop. rewrite length_app in *. simpl in *. lia.
  - unfold clear_history. destruct c; simpl in *. split; [lia|done].
Qed.

Lemma history_bounded max config ops :
  (length (decision_history (coord_run ops (with_config max config))) <= max)%nat.
Proof.
  assert (forall c, max_history_size c = max -> (length (decision_history c) <= max)%nat ->
    (length (decision_history (coord_run ops c)) <= max)%nat) as H.
  { induction ops as [|op ops IH]; intros c Hm Hc; [done|]. rewrite <- Hm in Hc.
    destruct (exec_history c op Hc) as [He Hs]. cbn. apply IH; [congruence|]. congruence. }
  apply H; [done|]. simpl. lia.
Qed.

(** ** Which adapters are chosen *)

Hypothesis iter_perm : forall m, iter m ≡ₚ map_to_list m.

Lemma by_activation_perm s : by_activation s ≡ₚ map_to_list s.
Proof. unfold by_activation. by rewrite stable_sort_perm, iter_perm. Qed.

Lemma by_activation_sorted s :
  StronglySorted (fun a b => (activation_count a.2 <=? activation_count b.2) = true) (by_activation s).
Proof.
  apply (stable_sort_sorted (fun a b : Z * AdapterHeatRecord => activation_count a.2 <=? activation_count b.2));
    intros *; rewrite ?Z.leb_le, ?Z.leb_gt; lia.
Qed.

Lemma filter_sorted {A} (R : A -> A -> Prop) (p : A -> bool) l :
  StronglySorted R l -> StronglySorted R (List.filter p l).
Proof.
  induction 1 as [|x l _ IH Hx]; simpl; [constructor|]. destruct (p x); [|done]. constructor; [done|].
  rewrite Forall_forall in Hx |- *. intros y Hy. apply Hx.
  by apply list_elem_of_In, filter_In, proj1, list_elem_of_In in Hy.
Qed.

Lemma sorted_take_drop {A} (R : A -> A -> Prop) l n x y :
  StronglySorted R l -> x ∈ take n l -> y ∈ drop n l -> R x y.
Proof.
  intros H. revert n. induction H as [|z l _ IH Hz]; intros [|n] Hx Hy; simpl in *; try (by set_solver).
  apply elem_of_cons in Hx as [->|Hx]; [|by eapply IH].
  rewrite Forall_forall in Hz. apply Hz. by eapply subseteq_drop.
Qed.

(** What is selected from a map of records: known, distinct adapters that may be unloaded,
    and none that may be unloaded and was left out is less active. *)
Definition selected (n : nat) (s : gmap Z AdapterHeatRecord) (ids : list Z) : Prop :=
  length ids = n /\ NoDup ids
  /\ (forall i, i ∈ ids -> exists r, s !! i = Some r /\ unloadable (i, r) = true)
  /\ (forall i r j r', i ∈ ids -> s !! i = Some r -> j ∉ ids -> s !! j = Some r' ->
        unloadable (j, r') = true -> activation_count r <= activation_count r').

Lemma select_selected t k s :
  let ids := select_adapters_for_unload t k s in
  selected (length ids) s ids /\ (length ids <= Z.to_nat (k - t))%nat
  /\ ((length ids < Z.to_nat (k - t))%nat ->
      length ids = length (List.filter unloadable (map_to_list s))).
Proof.
  intros ids. set (us := List.filter unloadable (by_activation s)).
  assert (ids = map fst (take (Z.to_nat (k - t)) us)) as E by done.
  assert (forall p, p ∈ us <-> s !! p.1 = Some p.2 /\ unloadable p = true) as Hus.
  { intros [i r]. unfold us. rewrite list_elem_of_In, filter_In, <- list_elem_of_In, by_activation_perm.
    by rewrite elem_of_map_to_list. }
  assert (NoDup (map fst us)) as Hnd.
  { assert (NoDup (map fst (by_activation s))) as H
      by (rewrite by_activation_perm; apply NoDup_fst_map_to_list).
    unfold us. clear -H. induction (by_activation s) as [|p l IH]; simpl in *; [done|].
    apply NoDup_cons in H as [Hp H]. destruct (unloadable p); [|by apply IH]. simpl.
    apply NoDup_cons. split; [|by apply IH]. intros (q & Eq & Hq)%list_elem_of_fmap.
    apply Hp. rewrite Eq. apply list_elem_of_In, filter_In, proj1, list_elem_of_In in Hq.
    by apply list_elem_of_fmap_2. }
  assert (StronglySorted (fun a b => (activation_count a.2 <=? activation_count b.2) = true) us) as Hs
    by apply filter_sorted, by_activation_sorted.
  split; [|split].
  - split; [done|]. split; [|split].
    + rewrite E, <- firstn_map. by eapply sublist_NoDup, sublist_take.
    + rewrite E. intros i ([j r] & -> & Hj)%list_elem_of_fmap. exists r. apply Hus. by eapply subseteq_take.
    + rewrite E. intros i r j r' Hi Hr Hj Hr' Hu.
      apply list_elem_of_fmap in Hi as ([i0 r0] & -> & Hi). simpl in *.
      assert (s !! i0 = Some r0) as Hr0 by (apply (Hus (i0, r0)); by eapply subseteq_take).
      rewrite Hr in Hr0. injection Hr0 as ->.
      assert ((j, r') ∈ us) as Hjin by (by apply Hus).
      rewrite <- (take_drop (Z.to_nat (k - t)) us) in Hjin. apply elem_of_app in Hjin as [Hjin|Hjin].
      * exfalso. apply Hj. by apply (list_elem_of_fmap_2 fst) in Hjin.
      * pose proof (sorted_take_drop _ _ _ _ _ Hs Hi Hjin) as H. simpl in H. lia.
  - rewrite E, length_map, length_take. lia.
  - rewrite E, length_map, length_take. intros H.
    assert (us ≡ₚ List.filter unloadable (map_to_list s)) as Hp by (unfold us; by rewrite by_activation_perm).
    rewrite <- (Permutation_length Hp). lia.
Qed.

(** The lifecycle side approves a request exactly when it is valid, keeps the minimal K,
    comes at critical pressure and there are enough adapters to unload; it then answers with
    the target, and as many distinct adapters as K falls by, none pinned or resident, and
    none more active than one left out. *)
Theorem evaluation_exact self request s :
  let resp := coord_evaluate self request s in
  (approved resp = true <->
     0 < target_k request < req_current_k request /\ min_k self <= target_k request
     /\ f32_lt (pressure_level request) (critical_pressure_threshold self) = false
     /\ req_current_k request - target_k request
        <= Z.of_nat (length (List.filter unloadable (map_to_list s))))
  /\ (approved resp = true ->
        new_k resp = target_k request
        /\ selected (Z.to_nat (req_current_k request - target_k request)) s (adapters_to_unload resp))
  /\ (approved resp = false -> new_k resp = coord_current_k self /\ adapters_to_unload resp = []).
Proof.
  intros resp. unfold resp, coord_evaluate, is_valid.
  set (ids := select_adapters_for_unload (target_k request) (req_current_k request) s).
  destruct (select_selected (target_k request) (req_current_k request) s) as (Hsel & Hle & Hlt). fold ids in Hsel, Hle, Hlt.
  destruct (0 <? target_k request) eqn:E1, (target_k request <? req_current_k request) eqn:E2;
    simpl; breflect; try (split; [split; [done|lia]|done]).
  destruct (target_k request <? min_k self) eqn:E3; simpl; breflect; [split; [split; [done|lia]|done]|].
  destruct (f32_lt _ _) eqn:E4; simpl; [split; [split; [done|naive_solver]|done]|].
  assert (length ids <= length (List.filter unloadable (map_to_list s)))%nat as Hub.
  { destruct (decide (length ids < Z.to_nat (req_current_k request - target_k request))%nat); [lia|].
    assert (length ids = length (take (Z.to_nat (req_current_k request - target_k request))
      (List.filter unloadable (by_activation s)))) as -> by (unfold ids, select_adapters_for_unload; by rewrite length_map).
    rewrite length_take. assert (List.filter unloadable (by_activation s) ≡ₚ List.filter unloadable (map_to_list s)) as Hp
      by (by rewrite by_activation_perm).
    rewrite (Permutation_length Hp). lia. }
  destruct (Z.of_nat (length ids) =? _) eqn:E5; simpl; breflect.
  - split; [split; [intros _; repeat split; try done; lia|done]|]. split; [|done]. intros _. split; [done|].
    replace (Z.to_nat _) with (length ids) by lia. done.
  - split; [split; [done|]|done]. intros (_ & _ & _ & H). exfalso. lia.
Qed.

(** ** Execution *)

Definition evicts (ids : list Z) (m m' : Manager) : Prop :=
  (forall j, states m' !! j = if decide (j ∈ ids) then evicted <$> states m !! j else states m !! j)
  /\ (forall j, loaded (loader m') !! j = if decide (j ∈ ids) then None else loaded (loader m) !! j)
  /\ current_k m' = current_k m /\ k_reduction_history m' = k_reduction_history m
  /\ (db m = None -> db m' = None).

Lemma persist_history m w : k_reduction_history (persist (DB := DB) m w).1 = k_reduction_history m.
Proof. unfold persist. destruct (db m); [|done]. destruct (w _). by destruct m. Qed.

Lemma evict_history t id m : k_reduction_history (evict_adapter t quiet id m).1 = k_reduction_history m.
Proof.
  unfold evict_adapter, evict_locked, quiet. destruct (states m !! id) as [r|]; [|done]. destruct (pinned r); [done|].
  assert (forall l name, k_reduction_history (persist_eviction name (set_record id (evicted r) (set_loader l m)))
    = k_reduction_history m) as H.
  { intros l name. unfold persist_eviction.
    pose proof (persist_history (set_record id (evicted r) (set_loader l m))
      (fun d => update_adapter_state_tx d name "unloaded" "eviction")) as H1.
    destruct (persist _ _) as [m1 ?]. cbn [fst] in H1.
    pose proof (persist_history m1 (fun d => update_adapter_memory_tx d name 0)) as H2.
    destruct (persist _ _) as [m2 ?]. cbn [fst] in H2. rewrite H2, H1. by destruct m. }
  destruct (unload_adapter _ _) as [l [|e]]; [apply H|]. destruct (negb _); [by destruct m|apply H].
Qed.

Lemma evict_db t id m : db m = None -> db (evict_adapter t quiet id m).1 = None.
Proof.
  intros Hd. unfold evict_adapter, evict_locked, quiet. destruct (states m !! id) as [r|]; [|done]. destruct (pinned r); [done|].
  assert (forall l name, db (persist_eviction name (set_record id (evicted r) (set_loader l m))) = None) as H.
  { intros l name. unfold persist_eviction, persist.
    assert (db (set_record id (evicted r) (set_loader l m)) = None) as H1 by (by destruct m). by rewrite !H1. }
  destruct (unload_adapter _ _) as [l [|e]]; [apply H|]. destruct (negb _); [by destruct m|apply H].
Qed.

Lemma evict_one l id m r :
  states m !! id = Some r -> pinned r = false ->
  (evict_adapter l quiet id m).2 = l "adapter_evicted" /\ evicts [id] m (evict_adapter l quiet id m).1.
Proof.
  clear iter_perm.
  intros Hr Hp. pose proof (heat_eviction_exact l id m) as H. cbn zeta in H. rewrite Hr, Hp in H.
  destruct H as (H2 & Hs & Hl & Hk). split; [done|].
  split; [|split; [|split; [done|split; [apply evict_history|apply evict_db]]]].
  - intros j. rewrite Hs. destruct (decide (j = id)) as [->|Hne].
    + rewrite lookup_insert_eq, decide_True, Hr by set_solver. done.
    + by rewrite lookup_insert_ne, decide_False by set_solver.
  - intros j. rewrite Hl. destruct (decide (j = id)) as [->|Hne].
    + by rewrite lookup_delete_eq, decide_True by set_solver.
    + by rewrite lookup_delete_ne, decide_False by set_solver.
Qed.

Lemma evicts_trans id ids m m1 m2 :
  id ∉ ids -> evicts [id] m m1 -> evicts ids m1 m2 -> evicts (id :: ids) m m2.
Proof.
  clear iter_perm.
  intros Hn (S1 & L1 & K1 & H1 & D1) (S2 & L2 & K2 & H2 & D2).
  split; [|split; [|split; [congruence|split; [congruence|auto]]]].
  - intros j. rewrite S2, S1. repeat case_decide; set_solver.
  - intros j. rewrite L2, L1. repeat case_decide; set_solver.
Qed.

(** The evictions from the [n]-th on are told, [k] of them. *)
Definition told (n k : nat) : Prop := forall i, (n <= i < n + k)%nat -> log i "adapter_evicted" = Ok tt.

Definition unpinned_in (m : Manager) (ids : list Z) : Prop :=
  forall i, i ∈ ids -> exists r, states m !! i = Some r /\ pinned r = false.

Lemma unload_some ids rest done m :
  told (length done) (length ids) -> NoDup ids -> unpinned_in m ids ->
  exists m', evicts ids m m' /\ unload_all quiet (ids ++ rest) done m = unload_all quiet rest (done ++ ids) m'.
Proof.
  clear iter_perm.
  intros Hlog Hn. revert done m Hlog. induction Hn as [|id ids Hid Hn IH]; intros done m Hlog Hk.
  - exists m. rewrite app_nil_r. split; [|done]. split; [|split; [|done]]; intros j; by rewrite decide_False by set_solver.
  - destruct (Hk id) as (r & Hr & Hp); [set_solver|].
    destruct (evict_one (log (length done)) id m r Hr Hp) as [H2 He]. rewrite Hlog in H2 by (simpl; lia).
    cbn [unload_all app]. destruct (evict_adapter _ quiet id m) as [m1 r1]. cbn [fst snd] in H2, He. subst r1.
    destruct (IH (done ++ [id]) m1) as (m' & He' & ->).
    { intros i Hi. apply Hlog. rewrite length_app in Hi. simpl in *. lia. }
    { intros i Hi. destruct (Hk i) as (ri & Hri & Hpi); [set_solver|]. exists ri. destruct He as [-> _].
      rewrite decide_False by set_solver. done. }
    exists m'. split; [by eapply evicts_trans|]. by rewrite <- app_assoc.
Qed.

Lemma chosen_unloadable coordinator request (m : Manager) :
  approved (coord_evaluate coordinator request (states m)) = true ->
  NoDup (adapters_to_unload (coord_evaluate coordinator request (states m)))
  /\ new_k (coord_evaluate coordinator request (states m)) = target_k request
  /\ forall i, i ∈ adapters_to_unload (coord_evaluate coordinator request (states m)) ->
       exists r, states m !! i = Some r /\ pinned r = false.
Proof.
  destruct (select_selected (target_k request) (req_current_k request) (states m)) as ((_ & Hn & Hi & _) & _ & _).
  unfold coord_evaluate. repeat (case_match; [done|]). intros _. split; [done|]. split; [done|].
  intros i Hin. destruct (Hi i Hin) as (r & Hr & Hu). exists r. split; [done|].
  unfold unloadable in Hu. by apply andb_true_iff, proj1, negb_true_iff in Hu.
Qed.

(** Between [m] and [m'] only the records of [ids] may differ. *)
Definition touches (ids : list Z) (m m' : Manager) : Prop :=
  (forall j, j ∉ ids -> states m' !! j = states m !! j) /\ loader m' = loader m
  /\ current_k m' = current_k m /\ k_reduction_history m' = k_reduction_history m.

Lemma promote_touches l id m : touches [id] m (promote_adapter l quiet id m).1.
Proof.
  clear iter_perm.
  unfold promote_adapter. destruct (states m !! id) as [r|]; [|done]. destruct (promote_check r) as [x|]; [|done].
  unfold write_through, quiet. destruct (ensure_sql_kv_ready _ _); [|done].
  match goal with |- context [persist m ?w] => destruct (persist_fields m w) as (Hs & Hl & Hk);
    pose proof (persist_history m w) as Hh; destruct (persist m w) as [m1 [?|e]]; cbn [fst] in * end; [|unfold touches; by rewrite Hs].
  destruct (states m1 !! id) as [r1|]; [|unfold touches; cbn [fst]; by rewrite Hs].
  unfold touches. cbn [fst]. rewrite states_set_record, Hs. split; [|by rewrite <- Hl, <- Hk, <- Hh; destruct m1].
  intros j Hj. rewrite lookup_insert_ne; [done|set_solver].
Qed.

Lemma reload_touches ids : forall n m, touches ids m (reload_all quiet n ids m).
Proof.
  clear iter_perm. induction ids as [|id ids IH]; intros n m; cbn [reload_all]; [done|].
  assert (H : touches [id] m (match states m !! id with
    | Some _ => (promote_adapter (log n) quiet id m).1 | None => m end))
    by (destruct (states m !! id); [apply promote_touches|done]).
  destruct H as (S1 & L1 & K1 & H1). destruct (IH (S n) (match states m !! id with
    | Some _ => (promote_adapter (log n) quiet id m).1 | None => m end)) as (S2 & L2 & K2 & H2).
  split; [|split; [congruence|split; congruence]]. intros j Hj. rewrite S2, S1; set_solver.
Qed.

(** The outcome of an approved request whose evictions are told. *)
Definition reduced (request : KReductionRequest) (ids : list Z) (m m' : Manager) : Prop :=
  (forall j, states m' !! j = if decide (j ∈ ids) then evicted <$> states m !! j else states m !! j)
  /\ (forall j, loaded (loader m') !! j = if decide (j ∈ ids) then None else loaded (loader m) !! j)
  /\ current_k m' = target_k request
  /\ k_reduction_history m' = k_reduction_history m
       ++ [mkExecution (request_id request) (req_current_k request) (target_k request) true true ids None].

(** Its outcome when the telemetry refuses the event of the eviction of [i], after those of
    [pre]. *)
Definition half_reduced (request : KReductionRequest) (pre : list Z) (i : Z) (ids : list Z) (e : AosError)
    (m m' : Manager) : Prop :=
  states m' !! i = evicted <$> states m !! i
  /\ (forall j, j ∉ i :: pre -> states m' !! j = states m !! j)
  /\ (forall j, loaded (loader m') !! j = if decide (j ∈ i :: pre) then None else loaded (loader m) !! j)
  /\ current_k m' = current_k m
  /\ k_reduction_history m' = k_reduction_history m
       ++ [mkExecution (request_id request) (req_current_k request) (target_k request) true false ids
             (Some (error_text e))].

(** The outcome of a refused one. *)
Definition refused (request : KReductionRequest) (reason : string) (m m' : Manager) : Prop :=
  states m' = states m /\ loader m' = loader m /\ current_k m' = current_k m
  /\ k_reduction_history m' = k_reduction_history m
       ++ [mkExecution (request_id request) (req_current_k request) (req_current_k request) false false
             [] (Some reason)].

Lemma unload_stops pre i post m e :
  NoDup (pre ++ i :: post) -> unpinned_in m (pre ++ i :: post) ->
  told 0 (length pre) -> log (length pre) "adapter_evicted" = Err e ->
  exists m1, evicts (i :: pre) m m1 /\ unload_all quiet (pre ++ i :: post) [] m = (m1, Err (e, pre)).
Proof.
  clear iter_perm. intros Hn Hu Ht He. apply NoDup_app in Hn as (Hn & Hd & Hn'). apply NoDup_cons in Hn' as [Hi _].
  assert (i ∉ pre) as Hip by (intros Hin; apply (Hd i Hin); by left).
  destruct (unload_some pre (i :: post) [] m Ht Hn) as (m1 & E1 & ->).
  { intros j Hj. apply Hu. set_solver. }
  destruct (Hu i) as (r & Hr & Hp); [set_solver|].
  assert (states m1 !! i = Some r) as Hr1 by (destruct E1 as [-> _]; by rewrite decide_False).
  destruct (evict_one (log (length pre)) i m1 r Hr1 Hp) as [H2 E2]. rewrite He in H2.
  cbn [unload_all app]. destruct (evict_adapter _ quiet i m1) as [m2 r2]. cbn [fst snd] in H2, E2. subst r2.
  exists m2. split; [|done]. destruct E1 as (S1 & L1 & K1 & H1 & D1), E2 as (S2 & L2 & K2 & H2 & D2).
  split; [|split; [|split; [congruence|split; [congruence|auto]]]]; intros j.
  - rewrite S2, S1. repeat case_decide; set_solver.
  - rewrite L2, L1. repeat case_decide; set_solver.
Qed.

Lemma rolled_back request ids pre i e m m1 :
  i ∉ pre -> evicts (i :: pre) m m1 ->
  half_reduced request pre i ids e m
    (add_execution (mkExecution (request_id request) (req_current_k request) (target_k request) true false ids
       (Some (error_text e))) (rollback_k_reduction quiet pre (current_k m) m1)).
Proof.
  clear iter_perm. intros Hip (S1 & L1 & K1 & H1 & _). unfold rollback_k_reduction.
  assert (states (m1 <| current_k := current_k m |>) = states m1
    /\ loader (m1 <| current_k := current_k m |>) = loader m1
    /\ current_k (m1 <| current_k := current_k m |>) = current_k m
    /\ k_reduction_history (m1 <| current_k := current_k m |>) = k_reduction_history m1)
    as (E1 & E2 & E3 & E4) by (by destruct m1).
  destruct (reload_touches (rev pre) (S (length pre)) (m1 <| current_k := current_k m |>)) as (S2 & L2 & K2 & H2).
  revert S2 L2 K2 H2. generalize (reload_all quiet (S (length pre)) (rev pre) (m1 <| current_k := current_k m |>)).
  intros m2 S2 L2 K2 H2. rewrite E1 in S2. unfold half_reduced, add_execution. destruct m2. cbn in *. subst.
  rewrite E2, E3, E4, H1. split_and!; [| |exact L1|done..].
  - rewrite S2, S1, decide_True; [done|by left|]. by rewrite <- Permutation_rev.
  - intros j Hj. rewrite S2, S1, decide_False; [done|done|]. rewrite <- Permutation_rev. set_solver.
Qed.

(** [C23] A request processed with nothing interleaved ends in one of three ways. Approved, it is
    executed: exactly the adapters chosen are unloaded and out of the registry, no other is
    touched, and K is the target, if the telemetry takes the event of every eviction. At the
    first it does not take, the reduction stops and is rolled back: that adapter and those
    before it are out of the registry, it stays unloaded, those before it may be promoted
    again, no other is touched, and K is as before. Refused, the request changes neither
    adapters nor K. Each way the history gets the entry that says so. *)
Theorem reduction_exact coordinator request (m : Manager) :
  let resp := coord_evaluate coordinator request (states m) in
  let ids := adapters_to_unload resp in
  let m' := process_event quiet coordinator request m in
  if approved resp then
    (told 0 (length ids) -> reduced request ids m m')
    /\ (forall pre i post e, ids = pre ++ i :: post -> told 0 (length pre) ->
         log (length pre) "adapter_evicted" = Err e -> half_reduced request pre i ids e m m')
  else refused request (resp_reason resp) m m'.
Proof.
  intros resp ids m'. unfold m', process_event. fold resp.
  destruct (approved resp) eqn:Ea; [|by destruct m].
  destruct (chosen_unloadable coordinator request m Ea) as (Hn & Hk & Hi). fold resp ids in Hn, Hk, Hi.
  unfold execute_k_reduction. fold ids. split.
  - intros Ht. destruct (unload_some ids [] [] m Ht Hn Hi) as (m1 & (S1 & L1 & K1 & H1 & _) & E).
    rewrite app_nil_r in E. rewrite E. cbn [unload_all]. rewrite Hk.
    unfold reduced. destruct m1. cbn in *. subst. done.
  - intros pre i post e E Ht He. rewrite E in Hn, Hi.
    destruct (unload_stops pre i post m e Hn Hi Ht He) as (m1 & Hev & Hu).
    rewrite <- E in Hu. rewrite Hu, Hk. apply rolled_back; [|done].
    apply NoDup_app in Hn as (_ & Hd & _). intros Hin. apply (Hd i Hin). by left.
Qed.

(** *** Rollback *)

Lemma promote_quiet l id (m : Manager) r s :
  db m = None -> states m !! id = Some r -> promote_check r = Ok s ->
  (promote_adapter l quiet id m).1 = set_record id (r <| state := s |>) m.
Proof.
  intros Hd Hr Hs. unfold promote_adapter. rewrite Hr, Hs.
  unfold write_through, ensure_sql_kv_ready, persist, quiet. by rewrite Hd, Hr.
Qed.

(** The adapters of [ids] one rung up from [Unloaded], and nothing else changed. *)
Definition raised (ids : list Z) (m m' : Manager) : Prop :=
  (forall j, states m' !! j
     = if decide (j ∈ ids) then (fun r => r <| state := Cold |>) <$> states m !! j else states m !! j)
  /\ loader m' = loader m /\ current_k m' = current_k m /\ db m' = db m.

Lemma reload_raises ids n m :
  db m = None -> NoDup ids ->
  (forall i, i ∈ ids -> exists r, states m !! i = Some r /\ state r = Unloaded /\ category r <> "ephemeral") ->
  raised ids m (reload_all quiet n ids m).
Proof.
  clear iter_perm.
  intros Hd Hn. revert n m Hd. induction Hn as [|id ids Hid Hn IH]; intros n m Hd Hk.
  - split; [|done]. intros j. by rewrite decide_False by set_solver.
  - destruct (Hk id) as (r & Hr & Hs & Hc); [set_solver|].
    assert (promote_check r = Ok Cold) as Hp.
    { unfold promote_check. rewrite Hs. simpl. by rewrite decide_False. }
    cbn [reload_all]. rewrite Hr, (promote_quiet (log n) id m r Cold Hd Hr Hp).
    destruct (IH (S n) (set_record id (r <| state := Cold |>) m)) as (Hst & Hl & Hcur & Hdb); [by destruct m| |].
    + intros i Hi. destruct (Hk i) as (ri & Hri & H2); [set_solver|]. exists ri. split; [|done].
      rewrite states_set_record, lookup_insert_ne; [done|]. by intros ->.
    + split; [|rewrite Hl, Hcur, Hdb; by destruct m]. intros j.
      rewrite Hst, states_set_record. destruct (decide (j = id)) as [->|Hne].
      * rewrite lookup_insert_eq. rewrite (decide_False (P := id ∈ ids)) by done.
        rewrite decide_True by set_solver. by rewrite Hr.
      * rewrite lookup_insert_ne by done. repeat case_decide; set_solver.
Qed.

Lemma evict_pinned l id (m : Manager) r :
  states m !! id = Some r -> pinned r = true ->
  evict_adapter l quiet id m = (m, Err (Lifecycle ("Cannot evict pinned adapter: " +:+ adapter_id r))).
Proof. intros Hr Hp. unfold evict_adapter, evict_locked. by rewrite Hr, Hp. Qed.

(** When an adapter chosen for unloading was pinned after the choice, the reduction fails
    and is rolled back: K is as before, but the adapters unloaded until then are recorded as
    [Cold], whatever they were, and none of them is loaded again. *)
Theorem rollback_loads_nothing response (m : Manager) pre j rj post :
  told 0 (length pre) -> db m = None ->
  adapters_to_unload response = pre ++ j :: post -> NoDup pre -> j ∉ pre ->
  (forall i, i ∈ pre -> exists r, states m !! i = Some r /\ pinned r = false /\ category r <> "ephemeral") ->
  states m !! j = Some rj -> pinned rj = true ->
  let p := execute_k_reduction quiet response m in
  p.2 = Err (Lifecycle ("Cannot evict pinned adapter: " +:+ adapter_id rj))
  /\ current_k p.1 = current_k m
  /\ (forall i, i ∈ pre -> get_state p.1 i = Some Cold /\ loaded (loader p.1) !! i = None)
  /\ (forall i, i ∉ pre -> states p.1 !! i = states m !! i
        /\ loaded (loader p.1) !! i = loaded (loader m) !! i).
Proof.
  clear iter_perm.
  intros Hlog Hd E Hn Hj Hpre Hrj Hpj p. unfold p, execute_k_reduction. rewrite E.
  destruct (unload_some pre (j :: post) [] m Hlog Hn) as (m1 & (S1 & L1 & K1 & H1 & D1) & ->).
  { intros i Hi. destruct (Hpre i Hi) as (r & ? & ? & _). by exists r. }
  cbn [unload_all app]. assert (states m1 !! j = Some rj) as Hj1 by (by rewrite S1, decide_False).
  rewrite (evict_pinned _ j m1 rj Hj1 Hpj). cbn [fst snd]. split; [done|].
  unfold rollback_k_reduction. set (m2 := m1 <| current_k := current_k m |>).
  assert (states m2 = states m1 /\ loader m2 = loader m1 /\ current_k m2 = current_k m /\ db m2 = None)
    as (Es & El & Ek & Ed) by (pose proof (D1 Hd); unfold m2; by destruct m1).
  destruct (reload_raises (rev pre) (S (length pre)) m2 Ed) as (Hst & Hl & Hcur & _).
  { by rewrite <- Permutation_rev. }
  { intros i Hi. rewrite <- Permutation_rev in Hi. destruct (Hpre i Hi) as (r & Hr & _ & Hc).
    exists (evicted r). rewrite Es, S1, decide_True, Hr by done. by destruct r. }
  split; [congruence|]. split.
  - intros i Hi. unfold get_state. rewrite Hst, Hl, El, L1, Es, S1, !decide_True by (by rewrite <- ?Permutation_rev).
    destruct (Hpre i Hi) as (r & Hr & _ & _). rewrite Hr. by destruct r.
  - intros i Hi. rewrite Hst, Hl, El, L1, Es, S1, !decide_False by (by rewrite <- ?Permutation_rev). done.
Qed.

(** Adapters that are not loaded count as adapters to unload: with every adapter unloaded
    and nothing in the registry, a request is still approved, with a promise of memory to be
    freed, as long as there are enough of them. *)
Theorem unloaded_counted coordinator request (m : Manager) :
  (forall i r, states m !! i = Some r -> pinned r = false /\ state r = Unloaded) ->
  loaded (loader m) = ∅ ->
  0 < target_k request < req_current_k request -> min_k coordinator <= target_k request ->
  f32_lt (pressure_level request) (critical_pressure_threshold coordinator) = false ->
  req_current_k request - target_k request <= Z.of_nat (size (states m)) ->
  let resp := coord_evaluate coordinator request (states m) in
  approved resp = true
  /\ estimated_freed resp = (req_current_k request - target_k request) * 1024 * 1024.
Proof.
  intros Hall _ Hk Hmin Hp Hn resp.
  assert (List.filter unloadable (map_to_list (states m)) = map_to_list (states m)) as Hf.
  { assert (forall l, (forall p, p ∈ l -> unloadable p = true) -> List.filter unloadable l = l) as Hl.
    { induction l as [|p l IH]; intros Hp'; simpl; [done|].
      rewrite Hp' by (by left). f_equal. apply IH. intros q Hq. apply Hp'. by right. }
    apply Hl. intros [i r] Hi%elem_of_map_to_list. destruct (Hall i r Hi) as [H1 H2].
    unfold unloadable. simpl. by rewrite H1, H2. }
  destruct (select_selected (target_k request) (req_current_k request) (states m)) as (_ & Hle & Hlt).
  rewrite Hf in Hlt. rewrite length_map_to_list in Hlt.
  set (ids := select_adapters_for_unload (target_k request) (req_current_k request) (states m)) in *.
  assert (Z.of_nat (length ids) = req_current_k request - target_k request) as Hlen by lia.
  unfold resp, coord_evaluate, is_valid. fold ids.
  rewrite (proj2 (Z.ltb_lt _ _)), (proj2 (Z.ltb_lt (target_k request) _)), (proj2 (Z.ltb_ge _ _)), Hp, Hlen by lia.
  rewrite Z.eqb_refl. done.
Qed.
End Protocol.

(** One poll of the manager: the requests are those drained from the channel before the first
    is processed, each with its telemetry; [None] is a channel not wired yet. *)
Definition poll_k_reduction_events {DB : Type} `{LifecycleDb DB, AdapterSource, Blake3, Hex}
    (fmt2 : f32 -> string) (iter : gmap Z AdapterHeatRecord -> list (Z * AdapterHeatRecord))
    (log : nat -> nat -> string -> result unit AosError)
    (others : nat -> LifecycleManager -> LifecycleManager (DB := DB))
    (coordinator : LifecycleKReductionCoordinator) (channel : option (list KReductionRequest))
    (m : LifecycleManager) : LifecycleManager * nat :=
  match channel with
  | None => (m, 0%nat)
  | Some requests =>
      (fold_left (fun m p => process_event fmt2 iter (log p.1) others coordinator p.2 m)
         (combine (seq 0 (length requests)) requests) m, length requests)
  end.

(** ** How far K falls at once

    The comment speaks of a tenth per unit of pressure; pressures run from zero to one. *)

Definition percent (n : Z) : f32 := f32_lit n 100.

(** From a tenth of the pressure on, nine tenths of K go at once. *)
Lemma calculate_target_overshoots :
  map (fun p => calculate_target_k 100 (percent p) 100) (seqZ 1 100)
  = [90; 80; 70; 60; 50; 40; 30; 20; 10] ++ replicate 91 10.
Proof. by vm_compute. Qed.

(** ** The channel between the managers (k_reduction_integration.rs)

    The bounded queue of the channel crate: first in, first out, full at its capacity,
    closed when the other half is dropped. *)

Inductive SendError : Type := ChannelFull | ChannelClosed | SendTimeout.
Inductive RecvError : Type := Empty | Disconnected | RecvTimeout.

Record KReductionChannelStats : Type := mkChannelStats {
  total_requests_sent : Z;
  total_requests_received : Z;
  total_approved : Z;
  total_rejected : Z;
  total_dropped : Z;
}.

Record Channel : Type := mkChannel {
  queue : list KReductionRequest;
  buffer_size : nat;
  receiver_dropped : bool;
  senders_dropped : bool;
  stats : KReductionChannelStats;
}.

Definition create_channel (buffer_size : nat) : Channel :=
  mkChannel [] buffer_size false false (mkChannelStats 0 0 0 0 0).

Definition count_sent (c : Channel) : Channel :=
  c <| stats := (stats c) <| total_requests_sent := total_requests_sent (stats c) + 1 |> |>.
Definition count_received (c : Channel) : Channel :=
  c <| stats := (stats c) <| total_requests_received := total_requests_received (stats c) + 1 |> |>.
Definition count_dropped (c : Channel) : Channel :=
  c <| stats := (stats c) <| total_dropped := total_dropped (stats c) + 1 |> |>.

(** [send]: [try_send] of the channel. *)
Definition send (request : KReductionRequest) (c : Channel) : Channel * result unit SendError :=
  if receiver_dropped c then (count_dropped c, Err ChannelClosed)
  else if (length (queue c) <? buffer_size c)%nat then
    (count_sent (c <| queue := queue c ++ [request] |>), Ok tt)
  else (c, Err ChannelFull).

(** [send_with_timeout]: a full channel is waited for, until the time is over or, within it,
    [others] make room or drop the receiver. *)
Definition send_with_timeout (others : Channel -> Channel) (request : KReductionRequest) (c : Channel) :
    Channel * result unit SendError :=
  let c := if receiver_dropped c || (length (queue c) <? buffer_size c)%nat then c else others c in
  if receiver_dropped c then (count_dropped c, Err ChannelClosed)
  else if (length (queue c) <? buffer_size c)%nat then
    (count_sent (c <| queue := queue c ++ [request] |>), Ok tt)
  else (c, Err SendTimeout).

(** [pending_requests] of the sender: [Sender::capacity], the places that are free. *)
Definition sender_pending (c : Channel) : nat := buffer_size c - length (queue c).

Definition receiver_pending (c : Channel) : nat := length (queue c).

Definition try_recv (c : Channel) : Channel * result KReductionRequest RecvError :=
  match queue c with
  | request :: q => (count_received (c <| queue := q |>), Ok request)
  | [] => (c, Err (if senders_dropped c then Disconnected else Empty))
  end.

(** [recv], where it does not go on waiting: [None] when the channel is closed. *)
Definition recv (others : Channel -> Channel) (c : Channel) : Channel * option KReductionRequest :=
  let c := match queue c with [] => if senders_dropped c then c else others c | _ => c end in
  match queue c with
  | request :: q => (count_received (c <| queue := q |>), Some request)
  | [] => (c, None)
  end.

(** [recv_with_timeout]: as [recv], until the time is over. *)
Definition recv_with_timeout (others : Channel -> Channel) (c : Channel) :
    Channel * result (option KReductionRequest) RecvError :=
  let c := match queue c with [] => if senders_dropped c then c else others c | _ => c end in
  match queue c with
  | request :: q => (count_received (c <| queue := q |>), Ok (Some request))
  | [] => (c, if senders_dropped c then Ok None else Err RecvTimeout)
  end.

Definition is_closed (c : Channel) : bool := receiver_dropped c.

Definition reset_stats (c : Channel) : Channel := c <| stats := mkChannelStats 0 0 0 0 0 |>.

Definition record_decision_outcome (approved : bool) (c : Channel) : Channel :=
  if approved then c <| stats := (stats c) <| total_approved := total_approved (stats c) + 1 |> |>
  else c <| stats := (stats c) <| total_rejected := total_rejected (stats c) + 1 |> |>.

(** What goes through a channel: sends and receives in any order, with what they answered. *)
Inductive ChannelOp : Type := Send (request : KReductionRequest) | Receive.

Definition channel_step (s : Channel * list KReductionRequest * list KReductionRequest) (op : ChannelOp) :
    Channel * list KReductionRequest * list KReductionRequest :=
  let '(c, sent, received) := s in
  match op with
  | Send r => let '(c, x) := send r c in (c, if is_ok x then sent ++ [r] else sent, received)
  | Receive => let '(c, x) := try_recv c in
      (c, sent, match x with Ok r => received ++ [r] | Err _ => received end)
  end.

Definition channel_run (ops : list ChannelOp) (n : nat) :
    Channel * list KReductionRequest * list KReductionRequest :=
  fold_left channel_step ops (create_channel n, [], []).

(** What has been accepted, in order, is what has been received followed by what waits; no
    more wait than there is room, and the counters agree. The sender's number of pending
    requests is that of the free places. *)
Lemma channel_fifo ops n :
  let '(c, sent, received) := channel_run ops n in
  sent = received ++ queue c /\ (length (queue c) <= n)%nat
  /\ total_requests_sent (stats c) = Z.of_nat (length sent)
  /\ total_requests_received (stats c) = Z.of_nat (length received)
  /\ (sender_pending c + receiver_pending c = n)%nat.
Proof.
  assert (forall s, (let '(c, sent, received) := s in
      sent = received ++ queue c /\ (length (queue c) <= n)%nat /\ buffer_size c = n
      /\ total_requests_sent (stats c) = Z.of_nat (length sent)
      /\ total_requests_received (stats c) = Z.of_nat (length received)) ->
    let '(c, sent, received) := fold_left channel_step ops s in
    sent = received ++ queue c /\ (length (queue c) <= n)%nat /\ buffer_size c = n
    /\ total_requests_sent (stats c) = Z.of_nat (length sent)
    /\ total_requests_received (stats c) = Z.of_nat (length received)) as H.
  { induction ops as [|op ops IH]; intros s Hs; [done|]. cbn [fold_left]. apply IH. clear IH.
    destruct s as [[[q b rd sd [a1 a2 a3 a4 a5]] sent] received]. cbn in Hs. destruct Hs as (-> & Hl & -> & -> & ->).
    destruct op as [r|]; cbn -[Nat.ltb].
    - unfold send. cbn -[Nat.ltb]. destruct rd; cbn -[Nat.ltb]; [done|]. destruct (length q <? n)%nat eqn:E; cbn; breflect; [|by repeat split].
      rewrite !length_app, app_assoc. simpl. repeat split; lia || done.
    - destruct q as [|r q]; cbn in *; [done|]. rewrite <- app_assoc. rewrite !length_app. simpl.
      repeat split; try done; lia. }
  specialize (H (create_channel n, [], [])). unfold channel_run.
  destruct (fold_left _ _ _) as [[c sent] received]. destruct H as (H1 & H2 & H3 & H4 & H5); [by repeat split; simpl; lia|].
  repeat split; try done. unfold sender_pending, receiver_pending. lia.
Qed.

(** ** Examples *)
Section Examples.
#[local] Existing Instance toy_blake3.
#[local] Existing Instance hex_lower.
#[local] Existing Instance table.
#[local] Existing Instance directory.

(** Texts of numbers do not matter here. *)
Definition no_digits (_ : f32) : string := EmptyString.

Definition ask (target current : Z) : KReductionRequest :=
  mkRequest "r" target current (percent 85) 0 (percent 10) "test".

Definition maker : KReductionDecisionMaker := default_decision_maker no_digits 2 (percent 70).

Lemma stale_lock_rejects_witness :
  let c := coord_run [Decide (new_decision (ask 8 10) (maker (ask 8 10)))]
    (record_lock_acquisition 0 "w" 10 (with_config 100 default_timeouts)) in
  approved (maker (ask 8 10)) = true
  /\ (@process_request maker 6000000000 6000000000 0 (ask 8 10) c).2
     = reject "r" 10 "K reduction aborted: deadlock detected".
Proof.
  split; [vm_compute; reflexivity|].
  apply (@stale_lock_rejects maker (with_config 100 default_timeouts) 0 "w" 10);
    [cbn; lia|vm_compute; reflexivity].
Defined.

Lemma answered_requests_time_out_witness :
  let c := (@process_request maker 0 0 0 (ask 8 10) (with_config 100 default_timeouts)).1 in
  get_status "r" c = Some Approved /\ "r" ∈ (check_timeouts 6000000000 c).2.
Proof.
  split; [vm_compute; reflexivity|].
  destruct (@answered_requests_time_out maker (with_config 100 default_timeouts) 0 0 0 (ask 8 10) 6000000000)
    as (_ & H & _); [vm_compute; reflexivity|vm_compute; discriminate|exact H].
Defined.

(** Three adapters, two loaded and warm. *)
Definition three : LifecycleManager (DB := gmap string string) :=
  new_manager ["a"; "b"; "c"] (<["a" := hash [x01]]> (<["b" := hash [x01]]> (<["c" := hash [x01]]> ∅))) 15 4 None.

Definition two_warm : LifecycleManager (DB := gmap string string) :=
  fold_left (fun m op => exec ok order quiet op m) [Reload "a"; Reload "b"; Promote 0; Promote 1] three.

Definition coordinator : LifecycleKReductionCoordinator := manager_coordinator 4.

Lemma evaluation_exact_witness :
  approved (coord_evaluate no_digits order coordinator (ask 2 4) (states two_warm)) = true
  /\ selected 2 (states two_warm)
       (adapters_to_unload (coord_evaluate no_digits order coordinator (ask 2 4) (states two_warm))).
Proof.
  destruct (evaluation_exact no_digits order order_perm coordinator (ask 2 4) (states two_warm)) as (_ & H & _).
  assert (approved (coord_evaluate no_digits order coordinator (ask 2 4) (states two_warm)) = true) as E
    by (vm_compute; reflexivity).
  split; [exact E|]. apply (H E).
Defined.

(** The telemetry takes the event of the first eviction only. *)
Definition full_after_one (n : nat) (_ : string) : result unit AosError :=
  match n with 0%nat => Ok tt | _ => Err (Worker "telemetry full") end.

(** Two adapters loaded and three recorded; two are to go. In the second run the telemetry
    refuses the second eviction: both are out, and K stays. *)
Lemma reduction_exact_witness :
  let ids := adapters_to_unload (coord_evaluate no_digits order coordinator (ask 2 4) (states two_warm)) in
  reduced (ask 2 4) ids two_warm (process_event no_digits order (fun _ => ok) quiet coordinator (ask 2 4) two_warm)
  /\ exists i j, ids = [i; j]
  /\ half_reduced (ask 2 4) [i] j ids (Worker "telemetry full") two_warm
       (process_event no_digits order full_after_one quiet coordinator (ask 2 4) two_warm).
Proof.
  assert (approved (coord_evaluate no_digits order coordinator (ask 2 4) (states two_warm)) = true) as E
    by (vm_compute; reflexivity).
  pose proof (reduction_exact no_digits order (fun _ => ok) order_perm coordinator (ask 2 4) two_warm) as H.
  pose proof (reduction_exact no_digits order full_after_one order_perm coordinator (ask 2 4) two_warm) as H'.
  cbn zeta in H, H'. rewrite E in H, H'. destruct H as [H _], H' as [_ H']. cbn zeta.
  split; [apply H; intros i _; reflexivity|].
  assert (exists i j, adapters_to_unload
    (coord_evaluate no_digits order coordinator (ask 2 4) (states two_warm)) = [i; j]) as (i & j & Eids)
    by (vm_compute; do 2 eexists; reflexivity).
  exists i, j. split; [exact Eids|]. apply (H' [i] j [] (Worker "telemetry full")); [exact Eids| |reflexivity].
  intros k Hk. destruct k; [reflexivity|]. cbn in Hk. lia.
Defined.

(** Adapter 1 is pinned after it was chosen. *)
Definition chosen : KReductionResponse := approve "r" 2 [0; 1] 0 EmptyString.
Definition pinned_since : LifecycleManager (DB := gmap string string) := exec ok order quiet (Pin 1 "t" "u" None None) two_warm.

Lemma rollback_loads_nothing_witness :
  get_state two_warm 0 = Some Warm
  /\ let p := execute_k_reduction (fun _ => ok) quiet chosen pinned_since in
     current_k p.1 = 4 /\ get_state p.1 0 = Some Cold /\ loaded (loader p.1) !! 0 = None.
Proof.
  split; [vm_compute; reflexivity|].
  destruct (rollback_loads_nothing (fun _ => ok) chosen pinned_since [0] 1
    (pin ((AdapterHeat.new "b" 1) <| state := Warm |>)) []) as (_ & Hk & H0 & _);
    [intros i _; reflexivity|vm_compute; reflexivity|reflexivity|by repeat constructor; set_solver|set_solver|
    |vm_compute; reflexivity|reflexivity|].
  - intros i Hi. apply list_elem_of_singleton in Hi. rewrite Hi.
    exists ((AdapterHeat.new "a" 0) <| state := Warm |>). split; [vm_compute; reflexivity|].
    split; [reflexivity|discriminate].
  - destruct (H0 0) as [H1 H2]; [by left|]. split; [exact Hk|]. split; [exact H1|exact H2].
Defined.

Lemma unloaded_counted_witness :
  approved (coord_evaluate no_digits order coordinator (ask 2 4) (states three)) = true.
Proof.
  destruct (unloaded_counted no_digits order order_perm coordinator (ask 2 4) three) as [H _];
    [|vm_compute; reflexivity|vm_compute; split; reflexivity|vm_compute; discriminate|vm_compute; reflexivity
     |vm_compute; discriminate|exact H].
  intros i r Hr. apply elem_of_map_to_list in Hr. vm_compute in Hr.
  repeat (apply elem_of_cons in Hr as [Hr|Hr]; [injection Hr as -> ->; split; reflexivity|]).
  by apply elem_of_nil in Hr.
Defined.
End Examples.
End KReduction.
