(* ===== verification/TtlManager.v ===== *)
(** * Expiry of ephemeral adapters (adapteros-lora-lifecycle/src/ttl_manager.rs)

    Records with an expiry, their extension, eviction of what is expired, and a bounded log
    of evictions. A [DateTime] is a [Z] of nanoseconds, the clock an argument; the chrono
    crate is the class [Chrono], whose addition of hours panics ([None]) out of its range. *)

From S2P Require Import Prelude.

Local Open Scope Z.
Local Open Scope aos.

Module TtlManager.

(** [t + Duration::hours(h)] for an [i64] number of hours. *)
Class Chrono : Type := add_hours : Z -> Z -> option Z.

Definition hour : Z := 3600 * 1000000000.

Class ChronoLaws (C : Chrono) : Prop :=
  add_hours_exact : forall t h t', add_hours t h = Some t' -> t' = t + h * hour.

Record TtlRecord : Type := mkTtl {
  adapter_id : string;
  tenant_id : string;
  expires_at : Z;
  ttl_hours : Z;
  last_extension : option Z;
}.

Record EvictionAuditEntry : Type := mkAudit {
  e_adapter_id : string;
  e_tenant_id : string;
  evicted_at : Z;
  reason : string;
}.

(** The records are a [BTreeMap]: iterated in the order of the ids. *)
Record TtlManager : Type := mkTtlManager {
  records : gmap string TtlRecord;
  eviction_audit : list EvictionAuditEntry;
  audit_capacity : nat;
}.

Definition new (audit_capacity : nat) : TtlManager := mkTtlManager ∅ [] audit_capacity.

Definition track (now : Z) (record : TtlRecord) (self : TtlManager) : TtlManager * result unit string :=
  if expires_at record <=? now then (self, Err "Adapter pin TTL is in the past")
  else (self <| records := <[adapter_id record := record]> (records self) |>, Ok tt).

(** [h as i64]. *)
Definition as_i64 (h : Z) : Z := if h <? 2 ^ 63 then h else h - 2 ^ 64.

Section Chrono.
Context {C : Chrono}.

(** The clock is read twice. *)
Definition extend_ttl (now now' : Z) (id : string) (additional_hours : Z) (self : TtlManager) :
    option TtlManager :=
  match records self !! id with
  | Some record =>
      max_expiry ← add_hours now 72;
      new_expiry ← add_hours (expires_at record) (as_i64 additional_hours);
      Some (self <| records := <[id :=
        record <| expires_at := Z.min new_expiry max_expiry |> <| last_extension := Some now' |>]>
        (records self) |>)
  | None => Some self
  end.
End Chrono.

Definition push_audit (entry : EvictionAuditEntry) (self : TtlManager) : TtlManager :=
  let audit := if (length (eviction_audit self) =? audit_capacity self)%nat
               then drop 1 (eviction_audit self) else eviction_audit self in
  self <| eviction_audit := audit ++ [entry] |>.

Definition ttl_expired (now : Z) (record : TtlRecord) : bool := expires_at record <=? now.

Definition audit_of (now : Z) (record : TtlRecord) : EvictionAuditEntry :=
  mkAudit (adapter_id record) (tenant_id record) now "ttl_expired".

(** One id of the loop of [evict_expired]. *)
Definition evict_id (now : Z) (s : TtlManager * list EvictionAuditEntry) (id : string) :
    TtlManager * list EvictionAuditEntry :=
  let '(self, entries) := s in
  match records self !! id with
  | Some record =>
      let entry := audit_of now record in
      (push_audit entry (self <| records := delete id (records self) |>), entries ++ [entry])
  | None => s
  end.

Definition expired_ids (now : Z) (self : TtlManager) : list string :=
  stable_sort String.leb
    (elements (dom (filter (fun p => ttl_expired now p.2 = true) (records self)))).

Definition evict_expired (now : Z) (self : TtlManager) : TtlManager * list EvictionAuditEntry :=
  fold_left (evict_id now) (expired_ids now self) (self, []).

Definition active_records (self : TtlManager) : list TtlRecord :=
  omap (fun id => records self !! id) (stable_sort String.leb (elements (dom (records self)))).

Definition audit_log (self : TtlManager) : list EvictionAuditEntry := eviction_audit self.

(** ** What eviction does *)

Lemma expired_elem now self id :
  id ∈ expired_ids now self <-> exists r, records self !! id = Some r /\ ttl_expired now r = true.
Proof.
  unfold expired_ids. rewrite stable_sort_perm, elem_of_elements, elem_of_dom. split.
  - intros [r [Hr Hx]%map_lookup_filter_Some]. by exists r.
  - intros (r & Hr & Hx). exists r. by apply map_lookup_filter_Some.
Qed.

Lemma expired_nodup now self : NoDup (expired_ids now self).
Proof. unfold expired_ids. rewrite stable_sort_perm. apply NoDup_elements. Qed.

Lemma omap_same {A B} (f g : A -> option B) (l : list A) :
  (forall x, x ∈ l -> f x = g x) -> omap f l = omap g l.
Proof.
  induction l as [|x l IH]; intros H; simpl; [done|]. rewrite H by (by left).
  destruct (g x); [f_equal|]; apply IH; intros; apply H; by right.
Qed.

(** The log after entries are pushed. *)
Definition logged (capacity : nat) (log entries : list EvictionAuditEntry) : list EvictionAuditEntry :=
  fold_left (fun log e => (if (length log =? capacity)%nat then drop 1 log else log) ++ [e]) entries log.

Lemma evict_loop now ids self entries :
  NoDup ids -> (forall id, id ∈ ids -> is_Some (records self !! id)) ->
  let es := map (audit_of now) (omap (fun id => records self !! id) ids) in
  let '(self', entries') := fold_left (evict_id now) ids (self, entries) in
  entries' = entries ++ es
  /\ eviction_audit self' = logged (audit_capacity self) (eviction_audit self) es
  /\ audit_capacity self' = audit_capacity self
  /\ forall id, records self' !! id = if decide (id ∈ ids) then None else records self !! id.
Proof.
  intros H. revert self entries. induction H as [|id ids Hid Hn IH]; intros self entries Hk es.
  - subst es. simpl. rewrite app_nil_r. repeat split.
  - destruct (Hk id) as [r Hr]; [by left|].
    set (self1 := push_audit (audit_of now r) (self <| records := delete id (records self) |>)).
    assert (records self1 = delete id (records self) /\ audit_capacity self1 = audit_capacity self
      /\ eviction_audit self1 = logged (audit_capacity self) (eviction_audit self) [audit_of now r]) as (R1 & C1 & A1)
      by (unfold self1; by destruct self).
    assert (forall id', id' ∈ ids -> records self1 !! id' = records self !! id') as Hsame.
    { intros id' Hi. rewrite R1, lookup_delete_ne; [done|]. by intros ->. }
    specialize (IH self1 (entries ++ [audit_of now r])). cbn [fold_left evict_id]. rewrite Hr. fold self1.
    destruct (fold_left (evict_id now) ids (self1, entries ++ [audit_of now r])) as [self' entries'].
    destruct IH as (-> & -> & -> & Hrec).
    { intros id' Hi. rewrite Hsame by done. apply Hk. by right. }
    assert (omap (fun id => records self1 !! id) ids = omap (fun id => records self !! id) ids) as Eo.
    { by apply omap_same. }
    unfold es. rewrite Eo, C1, A1. cbn [omap list_omap]. rewrite Hr. cbn [map]. split; [|split; [done|split; [done|]]].
    + by rewrite <- app_assoc.
    + intros id'. rewrite Hrec, R1. destruct (decide (id' = id)) as [->|Hne].
      * rewrite lookup_delete_eq. repeat case_decide; set_solver.
      * rewrite lookup_delete_ne by done. repeat case_decide; set_solver.
Qed.

(** The latest entries, when the log has a capacity. *)
Lemma logged_latest capacity log entries :
  (0 < capacity)%nat -> (length log <= capacity)%nat ->
  logged capacity log entries = drop (length (log ++ entries) - capacity) (log ++ entries).
Proof.
  intros Hc. revert log. induction entries as [|e entries IH]; intros log Hl; simpl.
  - rewrite app_nil_r. by replace (length log - capacity)%nat with 0%nat by lia.
  - destruct (length log =? capacity)%nat eqn:E; breflect; rewrite IH by (rewrite ?length_app, ?length_drop; simpl; lia).
    + destruct log as [|x log]; simpl in *; [lia|]. rewrite drop_0, <- app_assoc. simpl.
      rewrite !length_app. simpl. replace (S (length log + S (length entries)) - capacity)%nat
        with (S (length log + S (length entries) - capacity)) by lia. done.
    + by rewrite <- app_assoc.
Qed.

(** Without a capacity nothing is ever dropped: the log is dropped from only when it is
    exactly full. *)
Lemma logged_unbounded log entries :
  (0 < length log)%nat -> logged 0 log entries = log ++ entries.
Proof.
  revert log. induction entries as [|e entries IH]; intros log Hl; simpl; [by rewrite app_nil_r|].
  rewrite (proj2 (Nat.eqb_neq _ _)) by lia. rewrite IH by (rewrite length_app; simpl; lia). by rewrite <- app_assoc.
Qed.

(** Eviction removes exactly the records that are expired, in ascending order of their
    ids, and reports each; the log keeps the latest entries, as many as its capacity, and
    with a capacity of zero, as the default manager has it, all of them for ever. *)
Theorem expiry_exact now self :
  (length (eviction_audit self) <= audit_capacity self)%nat \/ audit_capacity self = 0%nat ->
  let '(self', entries) := evict_expired now self in
  entries = map (audit_of now) (omap (fun id => records self !! id) (expired_ids now self))
  /\ (forall id, records self' !! id
       = match records self !! id with
         | Some r => if ttl_expired now r then None else Some r
         | None => None
         end)
  /\ eviction_audit self'
     = let all := eviction_audit self ++ entries in
       if (audit_capacity self =? 0)%nat then all else drop (length all - audit_capacity self) all.
Proof.
  intros Hc. unfold evict_expired.
  pose proof (evict_loop now (expired_ids now self) self [] (expired_nodup now self)) as H.
  destruct (fold_left _ _ _) as [self' entries]. destruct H as (-> & -> & _ & Hr).
  { intros id (r & Hr & _)%expired_elem. by exists r. }
  cbn [app]. split; [done|]. split.
  - intros id. rewrite Hr. destruct (records self !! id) as [r|] eqn:E; [|by case_decide].
    destruct (ttl_expired now r) eqn:Ex; case_decide as Hd; try done.
    + exfalso. apply Hd, expired_elem. by exists r.
    + apply expired_elem in Hd as (r' & Hr' & Hx). congruence.
  - set (es := map _ _). destruct (audit_capacity self =? 0)%nat eqn:E; breflect.
    + rewrite E. destruct (eviction_audit self) as [|a l]; [|by apply logged_unbounded; simpl; lia].
      destruct es as [|e es]; [done|]. simpl. by rewrite (logged_unbounded [e]) by (simpl; lia).
    + destruct Hc as [Hc|Hc]; [|done]. apply logged_latest; lia.
Qed.

(** ** Extension *)

(** An extension can shorten: a record that expires later than seventy-two hours from
    now is cut back to that, however many hours it was to be given, and a number of hours
    beyond the signed range counts backwards. *)
Theorem extension_shortens {C : Chrono} {L : ChronoLaws C} now now' id h r self self' :
  extend_ttl now now' id h self = Some self' -> records self !! id = Some r ->
  now + 72 * hour < expires_at r \/ 2 ^ 63 <= h < 2 ^ 64 ->
  exists r', records self' !! id = Some r' /\ expires_at r' < expires_at r.
Proof.
  unfold extend_ttl. intros E Hr H. rewrite Hr in E.
  destruct (add_hours now 72) as [m|] eqn:Em; [|done]. cbn in E.
  destruct (add_hours (expires_at r) (as_i64 h)) as [n|] eqn:En; [|done]. cbn in E. injection E as <-.
  apply add_hours_exact in Em, En. subst m n.
  exists (r <| expires_at := Z.min (expires_at r + as_i64 h * hour) (now + 72 * hour) |> <| last_extension := Some now' |>).
  split; [destruct self; apply lookup_insert_eq|].
  assert (expires_at (r <| expires_at := Z.min (expires_at r + as_i64 h * hour) (now + 72 * hour) |>
    <| last_extension := Some now' |>) = Z.min (expires_at r + as_i64 h * hour) (now + 72 * hour)) as -> by (by destruct r).
  destruct H as [H|H]; [lia|]. unfold as_i64, hour. destruct (h <? 2 ^ 63) eqn:Eh; breflect; lia.
Qed.

(** ** Examples *)
Section Examples.
#[local] Instance unchecked : Chrono := fun t h => Some (t + h * hour).

#[local] Instance unchecked_laws : ChronoLaws unchecked.
Proof. by intros t h t' [= <-]. Qed.

Definition two : TtlManager :=
  mkTtlManager (<["a" := mkTtl "a" "t" 10 1 None]> (<["b" := mkTtl "b" "t" 20 1 None]> ∅))
    [] 1.

Lemma expiry_exact_witness :
  let p := evict_expired 20 two in
  map e_adapter_id p.2 = ["a"; "b"] /\ map e_adapter_id (eviction_audit p.1) = ["b"]
  /\ records p.1 !! "a" = None.
Proof.
  split; [vm_compute; reflexivity|]. split; [vm_compute; reflexivity|].
  pose proof (expiry_exact 20 two (or_introl (Nat.le_0_l 1))) as H.
  destruct (evict_expired 20 two) as [self' entries]. destruct H as (_ & H & _). apply (H "a").
Defined.

Definition far : TtlManager := mkTtlManager (<["a" := mkTtl "a" "t" (100 * hour) 1 None]> ∅) [] 1.

Lemma extension_shortens_witness :
  match extend_ttl 0 0 "a" 1 far with
  | Some self' => exists r', records self' !! "a" = Some r' /\ expires_at r' < 100 * hour
  | None => False
  end.
Proof.
  destruct (extend_ttl 0 0 "a" 1 far) as [self'|] eqn:E; [|vm_compute in E; discriminate E].
  apply (extension_shortens 0 0 "a" 1 (mkTtl "a" "t" (100 * hour) 1 None) far self' E); [reflexivity|left; reflexivity].
Defined.
End Examples.
End TtlManager.
