(* ===== verification/BufferPool.v ===== *)
(** * Buffers and tensor conversions (adapteros-memory/src/buffer_pool.rs)

    A pool of byte buffers by size class, and a cache of tensors converted between memory
    layouts. The half-precision numbers of the half crate are the class [HalfFloat]: the two
    conversions, on the little-endian bytes of the numbers. A clock reading is an argument;
    the [HashMap] of conversions is iterated in the order [iter]; what other threads do
    between the lookup and the insertion of a conversion is [others]. A panic is [None].
    Poisoned locks are recovered with the state they had, so that only a counter sees them. *)

From S2P Require Import Prelude Hashing.

Local Open Scope Z.
Local Open Scope aos.

Module BufferPool.

(** ** Data *)

Record BufferPoolConfig : Type := mkConfig {
  max_pool_size : nat;
  max_buffer_size : Z;
  enable_conversion_cache : bool;
  max_conversion_cache_size : nat;
}.

Definition default_config : BufferPoolConfig := mkConfig 64 (128 * 1024 * 1024) true 32.

(** A pooled buffer is empty: what is kept is its capacity. *)
Record PooledBuffer : Type := mkPooled {
  capacity : Z;
  p_last_accessed : Z;
  reuse_count : Z;
}.

Inductive TensorFormat : Type := Metal | CoreML | Mlx.

#[export] Instance TensorFormat_eq_dec : EqDecision TensorFormat.
Proof. solve_decision. Defined.
#[export] Instance TensorFormat_countable : Countable TensorFormat.
Proof.
  refine (inj_countable' (fun f => match f with Metal => 0 | CoreML => 1 | Mlx => 2 end)%nat
    (fun n => match n with 0 => Metal | 1 => CoreML | _ => Mlx end)%nat _).
  by intros [].
Defined.

(** Height, width, channels. *)
Definition Shape : Type := nat * nat * nat.

(** [ConversionKey]: the formats and the shape. *)
Definition ConversionKey : Type := TensorFormat * TensorFormat * Shape.

#[export] Instance ConversionKey_eq_dec : EqDecision ConversionKey.
Proof. unfold ConversionKey, Shape. apply _. Defined.
#[export] Instance ConversionKey_countable : Countable ConversionKey.
Proof. unfold ConversionKey_eq_dec, ConversionKey, Shape. apply _. Defined.

Record CachedConversion : Type := mkCached {
  c_data : list byte;
  c_last_accessed : Z;
  size_bytes : Z;
}.

Record BufferPool : Type := mkPool {
  config : BufferPoolConfig;
  buffers : gmap Z (list PooledBuffer);
  conversion_cache : gmap ConversionKey CachedConversion;
  total_pooled_bytes : Z;
  total_cache_bytes : Z;
}.

Definition new (config : BufferPoolConfig) : BufferPool := mkPool config ∅ ∅ 0 0.

(** A [Vec<u8>]: its bytes and its capacity. *)
Record Buffer : Type := mkBuffer {
  bytes : list byte;
  buf_capacity : Z;
}.

(** ** The pool of buffers *)

(** [while bucket < size { bucket *= 2 }]: [None] when the doubling leaves the type. The
    bucket starts at 2^10, so that 54 rounds are enough. *)
Fixpoint bucket_loop (fuel : nat) (bucket size : Z) : option Z :=
  if bucket <? size then
    match fuel with
    | O => None
    | S fuel => b ← u64_checked_mul bucket 2; bucket_loop fuel b size
    end
  else Some bucket.

Definition size_bucket (self : BufferPoolConfig) (size : Z) : option Z :=
  b ← bucket_loop 54 1024 size;
  Some (Z.min b (max_buffer_size self)).

(** [Vec::resize(size, 0)] of an empty vector; [grow] is the capacity the allocator gives one
    that is too small. *)
Definition zeros (size : Z) : list byte := replicate (Z.to_nat size) x00.

Definition acquire_buffer (grow : Z -> Z -> Z) (size : Z) (self : BufferPool) :
    option (BufferPool * result Buffer AosError) :=
  if max_buffer_size (config self) <? size then
    Some (self, Err (Memory ("Requested buffer size " +:+ pretty size +:+ " exceeds max "
      +:+ pretty (max_buffer_size (config self)))))
  else
    bucket ← size_bucket (config self) size;
    match buffers self !! bucket with
    | Some (pooled :: queue) =>
        Some (self <| buffers := <[bucket := queue]> (buffers self) |>
                   <| total_pooled_bytes := saturating_sub (total_pooled_bytes self) (capacity pooled) |>,
              Ok (mkBuffer (zeros size)
                    (if size <=? capacity pooled then capacity pooled else grow (capacity pooled) size)))
    | _ => Some (self, Ok (mkBuffer (zeros size) (if size <=? bucket then bucket else grow bucket size)))
    end.

(** The oldest buffer of a full class goes ([pop_back]); the buffer given back is cleared and
    dropped, and one of its capacity is allocated in its place. *)
Definition release_buffer (now : Z) (buffer : Buffer) (self : BufferPool) : option BufferPool :=
  let cap := buf_capacity buffer in
  if max_buffer_size (config self) <? cap then Some self
  else
    bucket ← size_bucket (config self) cap;
    let queue := default [] (buffers self !! bucket) in
    let '(queue, total) :=
      if (max_pool_size (config self) <=? length queue)%nat then
        match last queue with
        | Some old => (removelast queue, saturating_sub (total_pooled_bytes self) (capacity old))
        | None => (queue, total_pooled_bytes self)
        end
      else (queue, total_pooled_bytes self) in
    Some (self <| buffers := <[bucket := mkPooled cap now 0 :: queue]> (buffers self) |>
               <| total_pooled_bytes := total + cap |>).

(** ** Tensor conversions *)

Class HalfFloat : Type := {
  (** [f16::from_f32] and [to_le_bytes], of the four bytes of an [f32]. *)
  half_of_single : byte -> byte -> byte -> byte -> byte * byte;
  (** [f16::from_le_bytes], [to_f32] and [to_le_bytes]. *)
  single_of_half : byte -> byte -> byte * byte * byte * byte;
}.

Section Conversion.
Context {H : HalfFloat}.

(** [bytemuck::cast_slice::<u8, f32>]: a panic when the length does not fit; the slice is
    assumed aligned. *)
Fixpoint cast_slice (data : list byte) : option (list (byte * byte * byte * byte)) :=
  match data with
  | [] => Some []
  | a :: b :: c :: d :: data => l ← cast_slice data; Some ((a, b, c, d) :: l)
  | _ => None
  end.

Definition half_bytes (v : byte * byte * byte * byte) : list byte :=
  let '(a, b, c, d) := v in let '(x, y) := half_of_single a b c d in [x; y].

Definition single_bytes (x y : byte) : list byte :=
  let '(a, b, c, d) := single_of_half x y in [a; b; c; d].

(** Three nested loops that append to an output, in which an index out of range panics. *)
Definition loop3 {A} (n1 n2 n3 : nat) (f : nat -> nat -> nat -> option (list A)) : option (list A) :=
  l ← mapM (fun p : nat * nat * nat => f p.1.1 p.1.2 p.2)
    (flat_map (fun i => flat_map (fun j => map (fun k => (i, j, k)) (seq 0 n3)) (seq 0 n2)) (seq 0 n1));
  Some (concat l).

(** Row-major singles to channel-first halves. *)
Definition metal_to_coreml (data : list byte) (shape : Shape) : option (list byte) :=
  let '(h, w, c) := shape in
  input ← cast_slice data;
  loop3 c h w (fun ch y x => v ← input !! (y * w * c + x * c + ch)%nat; Some (half_bytes v)).

(** And back. *)
Definition coreml_to_metal (data : list byte) (shape : Shape) : option (list byte) :=
  let '(h, w, c) := shape in
  loop3 h w c (fun y x ch =>
    let idx := ((ch * h * w + y * w + x) * 2)%nat in
    a ← data !! idx; b ← data !! (idx + 1)%nat; Some (single_bytes a b)).

Definition format_text (f : TensorFormat) : string :=
  match f with Metal => "Metal" | CoreML => "CoreML" | Mlx => "Mlx" end.

Definition perform_conversion (data : list byte) (from to : TensorFormat) (shape : Shape) :
    option (result (list byte) AosError) :=
  match from, to with
  | Metal, CoreML => o ← metal_to_coreml data shape; Some (Ok o)
  | CoreML, Metal => o ← coreml_to_metal data shape; Some (Ok o)
  | Metal, Mlx => Some (Ok data)
  | Mlx, Metal => Some (Ok data)
  | CoreML, Mlx => o ← coreml_to_metal data shape; Some (Ok o)
  | Mlx, CoreML => o ← metal_to_coreml data shape; Some (Ok o)
  | _, _ => Some (Err (Memory ("Unsupported conversion: " +:+ format_text from +:+ " -> " +:+ format_text to)))
  end.

Context (iter : gmap ConversionKey CachedConversion -> list (ConversionKey * CachedConversion)).

(** [min_by_key]: the first of least age in the iteration. *)
Definition min_by_access (l : list (ConversionKey * CachedConversion)) :
    option (ConversionKey * CachedConversion) :=
  match l with
  | [] => None
  | p :: l => Some (fold_left (fun best q =>
      if c_last_accessed q.2 <? c_last_accessed best.2 then q else best) l p)
  end.

Definition evict_oldest_conversion (self : BufferPool) : BufferPool :=
  match min_by_access (iter (conversion_cache self)) with
  | Some (key, entry) =>
      self <| conversion_cache := delete key (conversion_cache self) |>
           <| total_cache_bytes := saturating_sub (total_cache_bytes self) (size_bytes entry) |>
  | None => self
  end.

(** The insertion of a conversion, under the lock of the cache. *)
Definition insert_conversion (now : Z) (key : ConversionKey) (converted : list byte)
    (self : BufferPool) : BufferPool :=
  let self :=
    if (max_conversion_cache_size (config self) <=? size (conversion_cache self))%nat
    then evict_oldest_conversion self else self in
  let n := Z.of_nat (length converted) in
  self <| conversion_cache := <[key := mkCached converted now n]> (conversion_cache self) |>
       <| total_cache_bytes := total_cache_bytes self + n |>.

Definition convert_tensor_format (others : BufferPool -> BufferPool) (now now' : Z)
    (data : list byte) (from to : TensorFormat) (shape : Shape) (self : BufferPool) :
    option (BufferPool * result (list byte) AosError) :=
  if decide (from = to) then Some (self, Ok data)
  else if negb (enable_conversion_cache (config self)) then
    r ← perform_conversion data from to shape; Some (self, r)
  else
    let key : ConversionKey := (from, to, shape) in
    match conversion_cache self !! key with
    | Some cached =>
        Some (self <| conversion_cache :=
                <[key := cached <| c_last_accessed := now |>]> (conversion_cache self) |>,
              Ok (c_data cached))
    | None =>
        r ← perform_conversion data from to shape;
        match r with
        | Err e => Some (self, Err e)
        | Ok converted => Some (insert_conversion now' key converted (others self), Ok converted)
        end
    end.

(** ** Statistics and clearing *)

Record BufferPoolStats : Type := mkStats {
  buffer_count : nat;
  st_total_pooled_bytes : Z;
  cache_entries : nat;
  st_total_cache_bytes : Z;
}.

Definition pooled (self : BufferPool) : list PooledBuffer :=
  concat (map snd (map_to_list (buffers self))).

Definition stats (self : BufferPool) : BufferPoolStats :=
  mkStats (length (pooled self)) (total_pooled_bytes self) (size (conversion_cache self))
    (total_cache_bytes self).

Definition clear (self : BufferPool) : BufferPool := mkPool (config self) ∅ ∅ 0 0.

(** ** Accounting *)

Definition total_of {K V} `{Countable K} (f : V -> Z) (m : gmap K V) : Z :=
  sumZ (map (fun p => f p.2) (map_to_list m)).

Lemma total_delete {K V} `{Countable K} (f : V -> Z) (m : gmap K V) k v :
  m !! k = Some v -> total_of f m = f v + total_of f (delete k m).
Proof. intros Hk. unfold total_of. by rewrite <- (map_to_list_delete m k v Hk). Qed.

Lemma total_insert {K V} `{Countable K} (f : V -> Z) (m : gmap K V) k v :
  total_of f (<[k := v]> m) = total_of f m - from_option f 0 (m !! k) + f v.
Proof.
  rewrite <- insert_delete_eq. unfold total_of at 1.
  rewrite map_to_list_insert by apply lookup_delete_eq. cbn [map sumZ]. fold (total_of f (delete k m)).
  destruct (m !! k) as [w|] eqn:E; cbn [from_option snd].
  - rewrite (total_delete f m k w E). lia.
  - rewrite delete_id by done. lia.
Qed.

Lemma total_nonneg {K V} `{Countable K} (f : V -> Z) (m : gmap K V) :
  (forall k v, m !! k = Some v -> 0 <= f v) -> 0 <= total_of f m.
Proof.
  intros Hm. apply sumZ_map_nonneg. intros [k v] Hin. apply (Hm k). by apply elem_of_map_to_list, list_elem_of_In.
Qed.

Definition queue_total (q : list PooledBuffer) : Z := sumZ (map capacity q).

(** What holds of a pool between operations. *)
Record accounted (self : BufferPool) : Prop := {
  a_pooled : total_pooled_bytes self = total_of queue_total (buffers self);
  a_queues : forall b q, buffers self !! b = Some q ->
    (length q <= Nat.max 1 (max_pool_size (config self)))%nat
    /\ forall p, p ∈ q -> 0 <= capacity p <= max_buffer_size (config self)
         /\ size_bucket (config self) (capacity p) = Some b;
  a_cache : total_cache_bytes self = total_of size_bytes (conversion_cache self);
  a_entries : (size (conversion_cache self) <= Nat.max 1 (max_conversion_cache_size (config self)))%nat;
  a_sizes : forall k v, conversion_cache self !! k = Some v -> size_bytes v = Z.of_nat (length (c_data v));
}.

Lemma new_accounted config : accounted (new config).
Proof. split; try done. simpl. rewrite map_size_empty. lia. Qed.

Lemma clear_pool_accounted self : accounted (clear self).
Proof. split; try done. simpl. rewrite map_size_empty. lia. Qed.

Lemma queue_total_nonneg q : (forall p, p ∈ q -> 0 <= capacity p) -> 0 <= queue_total q.
Proof. intros Hq. apply sumZ_map_nonneg. intros p Hp%list_elem_of_In. by apply Hq. Qed.

Lemma total_queue_bound self b q :
  accounted self -> buffers self !! b = Some q -> queue_total q <= total_of queue_total (buffers self).
Proof.
  intros A Hb. rewrite (total_delete queue_total (buffers self) b q Hb).
  assert (0 <= total_of queue_total (delete b (buffers self))); [|lia].
  apply total_nonneg. intros k v Hk%lookup_delete_Some. apply queue_total_nonneg. intros p Hp.
  destruct (a_queues _ A k v) as [_ Hv]; [by destruct Hk|]. by apply Hv.
Qed.

Lemma acquire_accounted grow size self self' r :
  accounted self -> acquire_buffer grow size self = Some (self', r) -> accounted self'.
Proof.
  intros A. unfold acquire_buffer. case_match; [by intros [= <- _]|].
  destruct (size_bucket (config self) size) as [b|]; [|done]. cbn.
  destruct (buffers self !! b) as [[|p q]|] eqn:Eb; [by intros [= <- _]| |by intros [= <- _]].
  intros E. assert (Hq := total_queue_bound self b (p :: q) A Eb).
  destruct (a_queues _ A b _ Eb) as [Hlen Hp].
  assert (0 <= queue_total q) as Hq0 by (apply queue_total_nonneg; intros; apply Hp; by right).
  pose proof (total_insert queue_total (buffers self) b q) as Ht. rewrite Eb in Ht.
  cbn [from_option] in Ht. unfold queue_total at 3 in Ht. unfold queue_total at 1 in Hq. cbn [map sumZ] in Ht, Hq.
  fold (queue_total q) in Ht, Hq. destruct A as [A1 A2 A3 A4 A5]. destruct self as [cf bs cc tp tc]. cbn in *.
  injection E as <- _. split; cbn; try done.
  - unfold saturating_sub. rewrite A1. lia.
  - intros b' q' Hb'. destruct (decide (b' = b)) as [->|Hne].
    + rewrite lookup_insert_eq in Hb'. injection Hb' as <-. split; [lia|]. intros; apply Hp; by right.
    + rewrite lookup_insert_ne in Hb' by done. by apply A2.
Qed.

(** The queue of a class after a full one lost its oldest buffer, and the bytes lost. *)
Lemma drop_oldest q (old : PooledBuffer) :
  last q = Some old -> q = removelast q ++ [old] /\ queue_total q = queue_total (removelast q) + capacity old.
Proof.
  intros Hl. assert (q = removelast q ++ [old]) as E.
  { destruct q as [|x q] using rev_ind; [done|]. rewrite last_snoc in Hl. injection Hl as ->.
    by rewrite removelast_last. }
  split; [done|]. unfold queue_total. rewrite E at 1. rewrite map_app, sumZ_app. simpl. lia.
Qed.

Lemma release_accounted now buffer self self' :
  accounted self -> 0 <= buf_capacity buffer -> release_buffer now buffer self = Some self' -> accounted self'.
Proof.
  intros A Hcap. unfold release_buffer. destruct (_ <? _) eqn:Ec; [by intros [= <-]|]. breflect.
  destruct (size_bucket (config self) (buf_capacity buffer)) as [b|] eqn:Es; [|done]. cbn.
  set (q := default [] (buffers self !! b)).
  assert (from_option queue_total 0 (buffers self !! b) = queue_total q) as Hdef
    by (unfold q; by destruct (buffers self !! b)).
  assert (queue_total q <= total_of queue_total (buffers self)) as Hq.
  { unfold q. destruct (buffers self !! b) as [q0|] eqn:Eb; [by apply (total_queue_bound self b)|].
    apply total_nonneg. intros k v Hk. apply queue_total_nonneg. intros p Hp. by apply (a_queues _ A k v Hk). }
  assert ((length q <= Nat.max 1 (max_pool_size (config self)))%nat
    /\ forall p, p ∈ q -> 0 <= capacity p <= max_buffer_size (config self)
         /\ size_bucket (config self) (capacity p) = Some b) as [Hlen Hp].
  { unfold q. destruct (buffers self !! b) as [q0|] eqn:Eb; [by apply (a_queues _ A)|]. split; [simpl; lia|]. set_solver. }
  clearbody q.
  set (out := if (max_pool_size (config self) <=? length q)%nat then _ else _).
  assert (exists q', out = (q', total_pooled_bytes self - queue_total q + queue_total q')
    /\ (S (length q') <= Nat.max 1 (max_pool_size (config self)))%nat /\ (forall p, p ∈ q' -> p ∈ q)) as (q' & -> & Hl' & Hin').
  { unfold out. destruct (max_pool_size (config self) <=? length q)%nat eqn:Ef; breflect.
    - destruct (last q) as [old|] eqn:El.
      + destruct (drop_oldest q old El) as [E Ht]. exists (removelast q). split; [|split].
        * f_equal. unfold saturating_sub. rewrite (a_pooled _ A).
          assert (0 <= queue_total (removelast q)); [|lia].
          apply queue_total_nonneg. intros p Hin. apply Hp. rewrite E. apply elem_of_app. by left.
        * apply (f_equal length) in E. rewrite length_app in E. simpl in E. lia.
        * intros p Hin. rewrite E. apply elem_of_app. by left.
      + apply last_None in El. subst q. exists []. simpl. split; [f_equal; lia|]. split; [lia|set_solver].
    - exists q. split; [f_equal; lia|]. split; [lia|done]. }
  intros E. pose proof (total_insert queue_total (buffers self) b
    (mkPooled (buf_capacity buffer) now 0 :: q')) as Ht. rewrite Hdef in Ht.
  unfold queue_total at 4 in Ht. cbn [map sumZ capacity] in Ht. fold (queue_total q') in Ht.
  destruct A as [A1 A2 A3 A4 A5]. destruct self as [cf bs cc tp tc]. cbn in *. injection E as <-.
  split; cbn; try done; [lia|]. intros b' x Hb'. destruct (decide (b' = b)) as [->|Hne].
  - rewrite lookup_insert_eq in Hb'. injection Hb' as <-. split; [simpl; lia|].
    intros p [->|Hin]%elem_of_cons; [by split|]. by apply Hp, Hin'.
  - rewrite lookup_insert_ne in Hb' by done. by apply A2.
Qed.

Hypothesis iter_perm : forall m, iter m ≡ₚ map_to_list m.

Lemma min_spec l p :
  min_by_access l = Some p -> p ∈ l /\ forall q, q ∈ l -> c_last_accessed p.2 <= c_last_accessed q.2.
Proof.
  destruct l as [|x l]; [done|]. intros [= <-]. revert x.
  induction l as [|y l IH]; intros x; cbn [fold_left].
  - split; [by left|]. intros q Hq. apply list_elem_of_singleton in Hq. subst. lia.
  - destruct (c_last_accessed y.2 <? c_last_accessed x.2) eqn:E; breflect;
      [destruct (IH y) as [Hin Hle]|destruct (IH x) as [Hin Hle]]; split.
    + by right.
    + intros q [->|Hq]%elem_of_cons; [|by apply Hle].
      assert (c_last_accessed (fold_left (fun best q => if c_last_accessed q.2 <? c_last_accessed best.2 then q else best) l y).2
        <= c_last_accessed y.2) by (apply Hle; by left). lia.
    + apply elem_of_cons in Hin as [->|Hin]; [by left|by right; right].
    + intros q [->|[->|Hq]%elem_of_cons]%elem_of_cons; [by apply Hle; left| |by apply Hle; right].
      assert (c_last_accessed (fold_left (fun best q => if c_last_accessed q.2 <? c_last_accessed best.2 then q else best) l x).2
        <= c_last_accessed x.2) by (apply Hle; by left). lia.
Qed.

Lemma iter_entry m k v : (k, v) ∈ iter m <-> m !! k = Some v.
Proof. rewrite iter_perm. apply elem_of_map_to_list. Qed.

Lemma cached_size_nonneg self k v : accounted self -> conversion_cache self !! k = Some v -> 0 <= size_bytes v.
Proof. intros A Hk. rewrite (a_sizes _ A k v Hk). lia. Qed.

Lemma evict_accounted self :
  accounted self ->
  accounted (evict_oldest_conversion self)
  /\ config (evict_oldest_conversion self) = config self
  /\ size (conversion_cache (evict_oldest_conversion self)) = (size (conversion_cache self) - 1)%nat
  /\ (forall k, conversion_cache self !! k = None -> conversion_cache (evict_oldest_conversion self) !! k = None).
Proof.
  intros A. unfold evict_oldest_conversion. destruct (min_by_access _) as [[k v]|] eqn:E.
  - apply min_spec in E as [Hin%iter_entry _].
    assert (Hs := cached_size_nonneg self k v A Hin). assert (Ht := total_delete size_bytes _ k v Hin).
    assert (0 <= total_of size_bytes (delete k (conversion_cache self))) as Hn.
    { apply total_nonneg. intros k' v' Hk'%lookup_delete_Some. apply (cached_size_nonneg self k' v' A), Hk'. }
    assert (size (delete k (conversion_cache self)) = (size (conversion_cache self) - 1)%nat) as Hsz
      by (rewrite map_size_delete, Hin; lia).
    destruct A as [A1 A2 A3 A4 A5]. destruct self as [cf bs cc tp tc]. cbn in *.
    split; [split; cbn; try done|split; [done|split; [done|]]].
    + unfold saturating_sub. lia.
    + lia.
    + intros k' v' [_ Hk']%lookup_delete_Some. by apply (A5 k').
    + intros k' Hk'. apply lookup_delete_None. by right.
  - split; [done|split; [done|split; [|done]]].
    destruct (iter (conversion_cache self)) as [|? ?] eqn:Ei; [|done].
    pose proof (Permutation_length (iter_perm (conversion_cache self))) as Hl. rewrite Ei in Hl. simpl in Hl.
    rewrite length_map_to_list in Hl. lia.
Qed.

Lemma insert_conversion_accounted now key converted self :
  accounted self -> conversion_cache self !! key = None ->
  accounted (insert_conversion now key converted self).
Proof.
  intros A Hk. unfold insert_conversion.
  set (self1 := if (max_conversion_cache_size (config self) <=? size (conversion_cache self))%nat then _ else _).
  assert (accounted self1 /\ conversion_cache self1 !! key = None
    /\ (S (size (conversion_cache self1)) <= Nat.max 1 (max_conversion_cache_size (config self1)))%nat) as (A1 & Hk1 & Hsz).
  { unfold self1. pose proof (a_entries _ A). destruct (_ <=? _)%nat eqn:E; breflect.
    - destruct (evict_accounted self A) as (Ae & Hc & Hs & Hnone). split; [done|]. split; [by apply Hnone|].
      rewrite Hc, Hs. lia.
    - split; [done|]. split; [done|]. lia. }
  clearbody self1. pose proof (total_insert size_bytes (conversion_cache self1) key
    (mkCached converted now (Z.of_nat (length converted)))) as Ht. rewrite Hk1 in Ht. cbn in Ht.
  destruct A1 as [P1 P2 P3 P4 P5]. destruct self1 as [cf bs cc tp tc]. cbn in *.
  split; cbn; try done; [lia| |].
  - rewrite map_size_insert, Hk1. lia.
  - intros k v Hv. apply lookup_insert_Some in Hv as [[<- <-]|[_ Hv]]; [done|by apply (P5 k)].
Qed.

Lemma convert_accounted now now' data from to shape self self' r :
  accounted self ->
  convert_tensor_format (fun p => p) now now' data from to shape self = Some (self', r) -> accounted self'.
Proof.
  intros A. unfold convert_tensor_format. case_decide; [by intros [= <- _]|].
  destruct (enable_conversion_cache _); cbn [negb].
  - cbn zeta. set (key := (from, to, shape) : ConversionKey). clearbody key.
    destruct (conversion_cache self !! key) as [e|] eqn:Ek.
    + intros [= <- _]. pose proof (total_insert size_bytes (conversion_cache self) key
        (e <| c_last_accessed := now |>)) as Ht. rewrite Ek in Ht.
      assert (size_bytes (e <| c_last_accessed := now |>) = size_bytes e
        /\ c_data (e <| c_last_accessed := now |>) = c_data e) as [He Hd] by (by destruct e).
      cbn [from_option] in Ht. rewrite He in Ht.
      destruct A as [A1 A2 A3 A4 A5]. destruct self as [cf bs cc tp tc]. cbn in *. split; cbn; try done; [lia| |].
      * rewrite map_size_insert, Ek. done.
      * intros k v Hv. apply lookup_insert_Some in Hv as [[<- <-]|[_ Hv]]; [|by apply (A5 k)].
        rewrite He, Hd. by apply (A5 key).
    + destruct (perform_conversion data from to shape) as [[c|e]|]; cbn; intros E; simplify_eq; try done.
      by apply insert_conversion_accounted.
  - destruct (perform_conversion data from to shape); cbn; intros E; simplify_eq. done.
Qed.

(** ** Runs *)

Inductive PoolOp : Type :=
| Acquire (grow : Z -> Z -> Z) (size : Z)
| Release (now : Z) (buffer : Buffer)
| Convert (now now' : Z) (data : list byte) (from to : TensorFormat) (shape : Shape)
| Clear.

Definition pool_op (op : PoolOp) (self : BufferPool) : option BufferPool :=
  match op with
  | Acquire grow size => option_map fst (acquire_buffer grow size self)
  | Release now buffer => release_buffer now buffer self
  | Convert now now' data from to shape =>
      option_map fst (convert_tensor_format (fun p => p) now now' data from to shape self)
  | Clear => Some (clear self)
  end.

(** A capacity is not negative. *)
Definition sound (op : PoolOp) : Prop :=
  match op with Release _ buffer => 0 <= buf_capacity buffer | _ => True end.

Fixpoint pool_run (ops : list PoolOp) (self : BufferPool) : option BufferPool :=
  match ops with
  | [] => Some self
  | op :: ops => self ← pool_op op self; pool_run ops self
  end.

Lemma op_accounted op self self' :
  accounted self -> sound op -> pool_op op self = Some self' -> accounted self'.
Proof.
  intros A Hs. destruct op; cbn [pool_op].
  - destruct (acquire_buffer _ _ _) as [[p r]|] eqn:E; [|done]. intros [= <-]. by eapply acquire_accounted.
  - by apply release_accounted.
  - destruct (convert_tensor_format _ _ _ _ _ _ _ _) as [[p r]|] eqn:E; [|done]. intros [= <-]. by eapply convert_accounted.
  - intros [= <-]. apply clear_pool_accounted.
Qed.

Lemma run_accounted ops self self' :
  accounted self -> Forall sound ops -> pool_run ops self = Some self' -> accounted self'.
Proof.
  intros A Hs. revert self A. induction Hs as [|op ops Hop _ IH]; intros self A; cbn [pool_run].
  - by intros [= <-].
  - destruct (pool_op op self) as [p|] eqn:E; cbn; [|done]. apply IH. by eapply op_accounted.
Qed.

(** [C34] After any operations, one at a time, the byte counters are the sums over what is
    pooled and cached; each class of buffers holds at most the configured size of the pool,
    and the cache at most its own, or one where that is zero (the classes together may hold
    more than the size of the pool); and a pooled buffer is in the class of its capacity and
    within the largest size. *)
Theorem pool_accounted cfg ops self :
  pool_run ops (new cfg) = Some self -> Forall sound ops ->
  total_pooled_bytes self = total_of queue_total (buffers self)
  /\ total_cache_bytes self = total_of (fun v => Z.of_nat (length (c_data v))) (conversion_cache self)
  /\ (size (conversion_cache self) <= Nat.max 1 (max_conversion_cache_size (config self)))%nat
  /\ (forall b q, buffers self !! b = Some q ->
        (length q <= Nat.max 1 (max_pool_size (config self)))%nat
        /\ forall p, p ∈ q -> size_bucket (config self) (capacity p) = Some b
             /\ capacity p <= max_buffer_size (config self)).
Proof.
  intros R Hs. destruct (run_accounted ops _ _ (new_accounted cfg) Hs R) as [A1 A2 A3 A4 A5].
  split; [done|]. split; [|split; [done|]].
  - rewrite A3. unfold total_of. f_equal. apply map_ext_in. intros [k v] Hin.
    apply (A5 k). by apply elem_of_map_to_list, list_elem_of_In.
  - intros b q Hb. destruct (A2 b q Hb) as [Hl Hp]. split; [done|]. intros p Hin. by destruct (Hp p Hin) as [[_ ?] ?].
Qed.

(** ** Buffers are clean *)

Lemma bucket_loop_ge fuel b size r : bucket_loop fuel b size = Some r -> size <= r.
Proof.
  revert b. induction fuel as [|fuel IH]; intros b; simpl; destruct (b <? size) eqn:E; breflect; try done.
  - by intros [= <-].
  - destruct (u64_checked_mul b 2); [apply IH|done].
  - by intros [= <-].
Qed.

(** An acquired buffer has the size asked for and holds nothing but zeros, whatever was
    in the buffers given back before; its capacity is at least its size. *)
Theorem acquired_clean grow n self self' b :
  (forall c s, s <= grow c s) -> 0 <= n -> acquire_buffer grow n self = Some (self', Ok b) ->
  Z.of_nat (length (bytes b)) = n /\ (forall x, x ∈ bytes b -> x = x00) /\ n <= buf_capacity b.
Proof.
  intros Hg Hn. unfold acquire_buffer, zeros. case_match; [done|].
  destruct (size_bucket _ _) as [k|]; [|done]. cbn.
  assert (forall c, Z.of_nat (length (zeros n)) = n /\ (forall x, x ∈ zeros n -> x = x00)
    /\ n <= (if n <=? c then c else grow c n)) as Hz.
  { intros c. unfold zeros. rewrite length_replicate. split; [lia|]. split.
    - intros x Hx. by apply elem_of_replicate in Hx as [-> _].
    - destruct (n <=? c) eqn:E; breflect; [done|apply Hg]. }
  destruct (buffers self !! k) as [[|p q]|]; intros [= _ <-]; apply Hz.
Qed.

(** ** Layouts *)

(** Blocks of one length, end to end. *)
Lemma concat_lookup {A} (l : list (list A)) m n t :
  (forall b, b ∈ l -> length b = m) -> (t < m)%nat -> concat l !! (n * m + t)%nat = b ← l !! n; b !! t.
Proof.
  intros Hl Ht. revert n. induction l as [|b l IH]; intros n; [by destruct n|].
  assert (length b = m) as Hb by (apply Hl; by left). simpl concat.
  destruct n as [|n].
  - rewrite lookup_app_l by (simpl; lia). done.
  - rewrite lookup_app_r by (simpl; lia). rewrite Hb.
    replace (S n * m + t - m)%nat with (n * m + t)%nat by (simpl; lia). apply IH. intros b' Hb'. apply Hl. by right.
Qed.

Lemma concat_constant_length {A} (l : list (list A)) m :
  (forall b, b ∈ l -> length b = m) -> length (concat l) = (length l * m)%nat.
Proof.
  induction l as [|b l IH]; intros Hl; [done|]. simpl. rewrite length_app, IH by (intros; apply Hl; by right).
  rewrite (Hl b) by (by left). lia.
Qed.

Definition triples (n1 n2 n3 : nat) : list (nat * nat * nat) :=
  flat_map (fun i => flat_map (fun j => map (fun k => (i, j, k)) (seq 0 n3)) (seq 0 n2)) (seq 0 n1).

Lemma flat_map_seq m n : flat_map (fun i => seq (i * m) m) (seq 0 n) = seq 0 (n * m).
Proof.
  induction n as [|n IH]; [done|]. rewrite seq_S, flat_map_app, IH. simpl flat_map. rewrite app_nil_r.
  replace (S n * m)%nat with (n * m + m)%nat by (simpl; lia). by rewrite (seq_app (n * m) m).
Qed.

Lemma map_add_seq j n : map (Nat.add j) (seq 0 n) = seq j n.
Proof. pose proof (fmap_add_seq j 0 n) as E. by rewrite Nat.add_0_r in E. Qed.

(** The triples are met in the order of their positions. *)
Lemma triples_positions n1 n2 n3 :
  map (fun p => (p.1.1 * n2 + p.1.2) * n3 + p.2)%nat (triples n1 n2 n3) = seq 0 (n1 * n2 * n3).
Proof.
  rewrite <- Nat.mul_assoc, <- flat_map_seq. unfold triples. rewrite !flat_map_concat_map, concat_map, map_map.
  f_equal. apply map_ext. intros i. rewrite flat_map_concat_map, concat_map, map_map.
  rewrite <- (map_add_seq (i * (n2 * n3))), <- flat_map_seq, flat_map_concat_map, concat_map, map_map.
  f_equal. apply map_ext. intros j. rewrite map_map, <- (map_add_seq (j * n3)), map_map.
  apply map_ext. intros k. cbn [fst snd]. lia.
Qed.

Lemma triples_lookup n1 n2 n3 i j k :
  (i < n1)%nat -> (j < n2)%nat -> (k < n3)%nat ->
  triples n1 n2 n3 !! ((i * n2 + j) * n3 + k)%nat = Some (i, j, k).
Proof.
  intros Hi Hj Hk. unfold triples. rewrite flat_map_concat_map.
  assert (forall i' : nat, length (flat_map (fun j' => map (fun k' => (i', j', k')) (seq 0 n3)) (seq 0 n2)) = (n2 * n3)%nat) as Hb.
  { intros i'. rewrite (flat_map_constant_length (c := n3)); [by rewrite length_seq|].
    intros x _. by rewrite length_map, length_seq. }
  replace ((i * n2 + j) * n3 + k)%nat with (i * (n2 * n3) + (j * n3 + k))%nat by lia.
  rewrite (concat_lookup _ (n2 * n3)); [|by intros b (x & -> & _)%list_elem_of_fmap|nia].
  rewrite list_lookup_fmap, lookup_seq_lt by done. cbn. rewrite flat_map_concat_map.
  rewrite (concat_lookup _ n3); [|intros b (x & -> & _)%list_elem_of_fmap; by rewrite length_map, length_seq|done].
  rewrite list_lookup_fmap, lookup_seq_lt by done. cbn.
  by rewrite list_lookup_fmap, lookup_seq_lt.
Qed.

Lemma triples_elem n1 n2 n3 i j k :
  (i, j, k) ∈ triples n1 n2 n3 -> (i < n1)%nat /\ (j < n2)%nat /\ (k < n3)%nat.
Proof.
  unfold triples. rewrite list_elem_of_In, in_flat_map. intros (i' & Hi & E). apply in_flat_map in E as (j' & Hj & E).
  apply in_map_iff in E as (k' & E & Hk). apply in_seq in Hi, Hj, Hk. injection E as -> -> ->. lia.
Qed.

Lemma position_lt n1 n2 n3 i j k :
  (i < n1)%nat -> (j < n2)%nat -> (k < n3)%nat -> (i * n2 * n3 + j * n3 + k < n1 * n2 * n3)%nat.
Proof.
  intros Hi Hj Hk. assert (j * n3 + n3 <= n2 * n3)%nat by nia.
  assert (i * (n2 * n3) + n2 * n3 <= n1 * (n2 * n3))%nat by nia. lia.
Qed.

(** The loops, when no step panics. *)
Lemma loop3_total {A} n1 n2 n3 (f : nat -> nat -> nat -> option (list A)) g :
  (forall i j k, (i < n1)%nat -> (j < n2)%nat -> (k < n3)%nat -> f i j k = Some (g i j k)) ->
  loop3 n1 n2 n3 f = Some (concat (map (fun p => g p.1.1 p.1.2 p.2) (triples n1 n2 n3))).
Proof.
  intros Hf. unfold loop3. fold (triples n1 n2 n3).
  assert (mapM (fun p : nat * nat * nat => f p.1.1 p.1.2 p.2) (triples n1 n2 n3)
    = Some (map (fun p => g p.1.1 p.1.2 p.2) (triples n1 n2 n3))) as ->; [|done].
  apply mapM_Some. apply Forall2_fmap_r, Forall_Forall2_diag. apply Forall_forall.
  intros [[i j] k] (Hi & Hj & Hk)%triples_elem. by apply Hf.
Qed.

Lemma half_bytes_length v : length (half_bytes v) = 2%nat.
Proof. destruct v as [[[a b] c] d]. simpl. by destruct (half_of_single a b c d). Qed.

(** A single rounded to a half and widened again. *)
Definition through_half (v : byte * byte * byte * byte) : list byte :=
  let '(a, b, c, d) := v in let '(x, y) := half_of_single a b c d in single_bytes x y.

Lemma through_half_bytes v a b :
  half_bytes v !! 0%nat = Some a -> half_bytes v !! 1%nat = Some b -> single_bytes a b = through_half v.
Proof.
  destruct v as [[[p q] r] s]. simpl. destruct (half_of_single p q r s) as [x y]. by intros [= <-] [= <-].
Qed.

(** [C33] A tensor taken from the row-major layout to the channel-first one and back has every
    number where it was, rounded to half precision; neither conversion panics on a buffer of
    the shape's size. *)
Theorem layouts_round_trip data input h w c :
  cast_slice data = Some input -> length input = (h * w * c)%nat ->
  exists o, metal_to_coreml data (h, w, c) = Some o /\ length o = (2 * (h * w * c))%nat
    /\ coreml_to_metal o (h, w, c) = Some (flat_map through_half input).
Proof.
  intros Hd Hl. set (at_ := fun n => default (x00, x00, x00, x00) (input !! n)).
  assert (forall n, (n < h * w * c)%nat -> input !! n = Some (at_ n)) as Hat.
  { intros n Hn. unfold at_. destruct (input !! n) eqn:E; [done|]. apply lookup_ge_None in E. lia. }
  set (blocks := map (fun p => half_bytes (at_ (p.1.2 * w * c + p.2 * c + p.1.1)%nat)) (triples c h w)).
  exists (concat blocks).
  assert (forall b, b ∈ blocks -> length b = 2%nat) as Hb
    by (intros b (x & -> & _)%list_elem_of_fmap; apply half_bytes_length).
  assert (forall y x ch t, (y < h)%nat -> (x < w)%nat -> (ch < c)%nat -> (t < 2)%nat ->
    concat blocks !! ((ch * h * w + y * w + x) * 2 + t)%nat
    = half_bytes (at_ (y * w * c + x * c + ch)%nat) !! t) as Hlook.
  { intros y x ch t Hy Hx Hch Ht. rewrite (concat_lookup _ 2) by done. unfold blocks.
    replace (ch * h * w + y * w + x)%nat with ((ch * h + y) * w + x)%nat by lia.
    by rewrite list_lookup_fmap, triples_lookup. }
  split; [|split].
  - unfold metal_to_coreml. rewrite Hd. cbn.
    rewrite (loop3_total _ _ _ _ (fun ch y x => half_bytes (at_ (y * w * c + x * c + ch)%nat))); [done|].
    intros ch y x Hch Hy Hx. by rewrite Hat by (by apply position_lt).
  - rewrite (concat_constant_length _ 2) by done. unfold blocks. rewrite length_map.
    rewrite <- (length_map (fun p => (p.1.1 * h + p.1.2) * w + p.2)%nat), triples_positions, length_seq. lia.
  - unfold coreml_to_metal.
    rewrite (loop3_total _ _ _ _ (fun y x ch => through_half (at_ ((y * w + x) * c + ch)%nat))).
    + f_equal. rewrite flat_map_concat_map. f_equal.
      rewrite <- (map_map (fun p => (p.1.1 * w + p.1.2) * c + p.2)%nat (fun n => through_half (at_ n))), triples_positions.
      apply list_eq. intros n. rewrite !list_lookup_fmap. destruct (decide (n < h * w * c)%nat) as [Hn|Hn].
      * by rewrite lookup_seq_lt, Hat.
      * rewrite lookup_seq_ge by lia. rewrite (proj2 (lookup_ge_None input n)) by lia. done.
    + intros y x ch Hy Hx Hch. pose proof (Hlook y x ch 0%nat Hy Hx Hch) as H0.
      pose proof (Hlook y x ch 1%nat Hy Hx Hch) as H1. rewrite Nat.add_0_r in H0. rewrite H0, H1 by lia.
      replace ((y * w + x) * c + ch)%nat with (y * w * c + x * c + ch)%nat by lia.
      set (v := at_ _). destruct (half_bytes v) as [|a [|b [|? ?]]] eqn:Ev; try (pose proof (half_bytes_length v) as L; by rewrite Ev in L).
      cbn. f_equal. apply through_half_bytes; by rewrite Ev.
Qed.

(** The size of the pool bounds each class and not the pool: buffers of two classes given back
    are both pooled, whatever the size is. *)
Theorem pool_size_per_class cfg now1 now2 b1 b2 k1 k2 :
  size_bucket cfg (buf_capacity b1) = Some k1 -> size_bucket cfg (buf_capacity b2) = Some k2 -> k1 <> k2 ->
  buf_capacity b1 <= max_buffer_size cfg -> buf_capacity b2 <= max_buffer_size cfg ->
  exists self1 self2, release_buffer now1 b1 (new cfg) = Some self1
    /\ release_buffer now2 b2 self1 = Some self2 /\ length (pooled self2) = 2%nat.
Proof.
  intros H1 H2 Hne Hc1 Hc2. unfold release_buffer at 1. cbn [config new].
  rewrite (proj2 (Z.ltb_ge _ _)), H1 by done. cbn -[size_bucket]. rewrite lookup_empty. cbn -[size_bucket].
  assert (E : (if (max_pool_size cfg <=? 0)%nat then ([], 0) else ([], 0)) = (([] : list PooledBuffer), 0))
    by by destruct (_ <=? 0)%nat.
  rewrite E. eexists. eexists. split; [done|]. unfold release_buffer. cbn -[size_bucket].
  rewrite (proj2 (Z.ltb_ge _ _)), H2 by done. cbn -[size_bucket].
  rewrite lookup_insert_ne, lookup_empty by done. cbn -[size_bucket].
  destruct (_ <=? 0)%nat; (split; [done|]); unfold pooled; cbn;
    rewrite map_to_list_insert by (by rewrite lookup_insert_ne, lookup_empty); cbn;
    by rewrite map_to_list_insert, map_to_list_empty by apply lookup_empty.
Qed.

(** Two tensors of one shape, converted between the same formats: the second gets the
    conversion of the first, whatever its bytes, because the key of the cache does not see
    them. *)
Theorem conversion_confuses_tensors now1 now1' now2 now2' data1 data2 from to shape self self1 out :
  from ≠ to -> enable_conversion_cache (config self) = true ->
  convert_tensor_format (fun p => p) now1 now1' data1 from to shape self = Some (self1, Ok out) ->
  exists self2, convert_tensor_format (fun p => p) now2 now2' data2 from to shape self1 = Some (self2, Ok out).
Proof.
  intros Hne Hc. unfold convert_tensor_format at 1. rewrite decide_False, Hc by done. cbn -[insert_conversion].
  set (key := (from, to, shape) : ConversionKey). intros E.
  assert (exists e, conversion_cache self1 !! key = Some e /\ c_data e = out
    /\ enable_conversion_cache (config self1) = true) as (e & He & <- & Hc1).
  { destruct (conversion_cache self !! key) as [e|].
    - injection E as <- <-. exists (e <| c_last_accessed := now1 |>). destruct self as [cf bs cc tp tc]. cbn in *.
      rewrite lookup_insert_eq. by destruct e.
    - destruct (perform_conversion data1 from to shape) as [[o|o]|]; cbn in E; simplify_eq.
      unfold insert_conversion. set (self0 := if (_ <=? _)%nat then _ else _).
      assert (config self0 = config self) as Hc0.
      { unfold self0, evict_oldest_conversion. destruct (_ <=? _)%nat; [|done].
        destruct (min_by_access _) as [[k v]|]; [|done]. by destruct self. }
      clearbody self0. exists (mkCached out now1' (Z.of_nat (length out))). destruct self0 as [cf bs cc tp tc].
      cbn in *. rewrite lookup_insert_eq. by rewrite Hc0. }
  unfold convert_tensor_format. rewrite decide_False, Hc1 by done. cbn -[insert_conversion]. fold key.
  rewrite He. by eexists.
Qed.
End Conversion.

(** ** Examples *)
Section Examples.
(** Numbers cut to their upper half. *)
#[local] Instance truncating : HalfFloat := {
  half_of_single a b c d := (c, d);
  single_of_half x y := (x00, x00, x, y);
}.

Definition in_order (m : gmap ConversionKey CachedConversion) : list (ConversionKey * CachedConversion) :=
  map_to_list m.

Definition one_each : BufferPoolConfig := mkConfig 1 4096 true 1.

Definition tensor : list byte := [x01; x02; x03; x04; x05; x06; x07; x08].
Definition other_tensor : list byte := [x00; x00; x00; x00; x00; x00; x00; x00].

Definition busy : list PoolOp :=
  [Release 1 (mkBuffer [] 2000); Release 2 (mkBuffer [x01] 1500); Acquire (fun _ s => s) 100;
   Convert 3 4 tensor Metal CoreML (1, 1, 2)%nat; Convert 5 6 tensor Metal CoreML (2, 1, 1)%nat].

Lemma pool_accounted_witness :
  match pool_run in_order busy (new one_each) with
  | Some self => total_pooled_bytes self = 1500 /\ total_pooled_bytes self = total_of queue_total (buffers self)
      /\ total_cache_bytes self = 4 /\ (size (conversion_cache self) <= 1)%nat
  | None => False
  end.
Proof.
  destruct (pool_run in_order busy (new one_each)) as [self|] eqn:E; [|vm_compute in E; discriminate E].
  assert (Forall sound busy) as Hs by (repeat constructor; simpl; discriminate).
  destruct (pool_accounted in_order (fun m => reflexivity _) one_each busy self E Hs) as (H1 & _ & H3 & _).
  vm_compute in E. injection E as <-. split; [reflexivity|]. split; [exact H1|]. split; [reflexivity|exact H3].
Defined.

Lemma pool_size_per_class_witness :
  exists self1 self2, release_buffer 1 (mkBuffer [] 1000) (new one_each) = Some self1
    /\ release_buffer 2 (mkBuffer [] 2000) self1 = Some self2 /\ length (pooled self2) = 2%nat.
Proof.
  apply (pool_size_per_class one_each 1 2 _ _ 1024 2048); [reflexivity|reflexivity|discriminate|discriminate|discriminate].
Defined.

Lemma acquired_clean_witness :
  match acquire_buffer (fun _ s => s) 3 (new one_each) with
  | Some (_, Ok b) => Z.of_nat (length (bytes b)) = 3 /\ 3 <= buf_capacity b
  | _ => False
  end.
Proof.
  destruct (acquire_buffer (fun _ s => s) 3 (new one_each)) as [[self' [b|e]]|] eqn:E;
    [|vm_compute in E; discriminate E|vm_compute in E; discriminate E].
  destruct (acquired_clean (fun _ s => s) 3 (new one_each) self' b) as (H1 & _ & H3);
    [intros c s; lia|lia|exact E|]. split; [exact H1|exact H3].
Defined.

Lemma layouts_round_trip_witness :
  exists o, metal_to_coreml tensor (1, 1, 2)%nat = Some o /\ length o = 4%nat
    /\ coreml_to_metal o (1, 1, 2)%nat = Some [x00; x00; x03; x04; x00; x00; x07; x08].
Proof.
  destruct (layouts_round_trip tensor [(x01, x02, x03, x04); (x05, x06, x07, x08)] 1 1 2 eq_refl eq_refl)
    as (o & H1 & H2 & H3).
  exists o. split; [exact H1|]. split; [exact H2|exact H3].
Defined.

Lemma conversion_confuses_tensors_witness :
  match convert_tensor_format in_order (fun p => p) 1 1 tensor Metal CoreML (1, 1, 2)%nat (new one_each) with
  | Some (self1, Ok out) =>
      exists self2, convert_tensor_format in_order (fun p => p) 2 2 other_tensor Metal CoreML (1, 1, 2)%nat self1
        = Some (self2, Ok out)
  | _ => False
  end.
Proof.
  destruct (convert_tensor_format in_order (fun p => p) 1 1 tensor Metal CoreML (1, 1, 2)%nat (new one_each))
    as [[self1 [out|e]]|] eqn:E; [|vm_compute in E; discriminate E|vm_compute in E; discriminate E].
  apply (conversion_confuses_tensors in_order 1 1 2 2 tensor other_tensor Metal CoreML (1, 1, 2)%nat (new one_each));
    [discriminate|reflexivity|exact E].
Defined.

(** The second of the two is not the conversion of its bytes. *)
Example confused :
  metal_to_coreml tensor (1, 1, 2)%nat = Some [x03; x04; x07; x08]
  /\ metal_to_coreml other_tensor (1, 1, 2)%nat = Some [x00; x00; x00; x00].
Proof. by vm_compute. Qed.
End Examples.
End BufferPool.
