(* ===== verification/TenantIsolation.v ===== *)
(** * Tenant isolation (adapteros-core/src/tenant_isolation)

    Whether a caller may access a resource of a tenant: rules that allow, deny or abstain,
    and the engine that combines them. A rule is a record of its name and its function; the
    extension map of the configuration is read by nothing and left out. *)

From S2P Require Import Prelude.

Local Open Scope aos.

Module TenantIsolation.

(** ** Data (types.rs) *)

Record TenantIsolationConfig : Type := mkConfig {
  dev_mode_admin_all_tenants : bool;
  dev_mode_bypass_overrides_denies : bool;
  admin_role_names : list string;
  use_roles_claim : bool;
  admin_tenant_wildcard : string;
  allow_admin_wildcard : bool;
  allow_admin_tenant_grants : bool;
}.

Definition default_config : TenantIsolationConfig :=
  mkConfig false true ["admin"] false "*" true true.

Record TenantPrincipal : Type := mkPrincipal {
  p_tenant_id : string;
  role : string;
  roles : list string;
  admin_tenants : list string;
  subject_id : option string;
  subject_email : option string;
}.

Definition principal_new (tenant_id role : string) (admin_tenants : list string) : TenantPrincipal :=
  mkPrincipal tenant_id role [] admin_tenants None None.

Definition has_role (self : TenantPrincipal) (r : string) (cfg : TenantIsolationConfig) : bool :=
  if bool_decide (role self = r) then true
  else if negb (use_roles_claim cfg) then false
  else existsb (fun r' => bool_decide (r' = r)) (roles self).

Definition is_admin (self : TenantPrincipal) (cfg : TenantIsolationConfig) : bool :=
  existsb (fun admin_role => has_role self admin_role cfg) (admin_role_names cfg).

Record TenantIsolationTarget : Type := mkTarget {
  t_tenant_id : string;
  resource_kind : option string;
  resource_id : option string;
}.

Inductive TenantIsolationAction : Type := Unspecified | Read | Write | Admin.

Section Requests.
(** The type of JSON values, for the attributes of a request. *)
Context {Value : Type}.

Record TenantIsolationRequest : Type := mkRequest {
  principal : TenantPrincipal;
  target : TenantIsolationTarget;
  action : TenantIsolationAction;
  attributes : option Value;
}.

Definition request_new (principal : TenantPrincipal) (target_tenant_id : string) : TenantIsolationRequest :=
  mkRequest principal (mkTarget target_tenant_id None None) Unspecified None.

Inductive TenantIsolationDecision : Type := Allow | Deny.

Inductive TenantIsolationReason : Type :=
| SameTenant
| DevModeAdminBypass
| AdminWildcardGrant
| AdminExplicitGrant
| TenantMismatch
| DeniedByRule.

Record TenantIsolationRuleDecision : Type := mkRuleDecision {
  d_reason : TenantIsolationReason;
  d_details : option string;
}.

Inductive TenantIsolationRuleEffect : Type :=
| Abstain
| EAllow (decision : TenantIsolationRuleDecision)
| EAllowOverride (decision : TenantIsolationRuleDecision)
| EDeny (decision : TenantIsolationRuleDecision).

Record TenantIsolationVerdict : Type := mkVerdict {
  decision : TenantIsolationDecision;
  reason : TenantIsolationReason;
  rule_id : option string;
  details : option string;
}.

Definition allowed (reason : TenantIsolationReason) (rule_id details : option string) :=
  mkVerdict Allow reason rule_id details.

Definition denied (reason : TenantIsolationReason) (rule_id details : option string) :=
  mkVerdict Deny reason rule_id details.

Definition is_allowed (v : TenantIsolationVerdict) : bool :=
  match decision v with Allow => true | Deny => false end.

Record TenantIsolationViolation : Type := mkViolation {
  message : string;
  principal_tenant_id : string;
  resource_tenant_id : string;
  principal_role : option string;
  v_reason : TenantIsolationReason;
  v_rule_id : option string;
  v_details : option string;
}.

Definition violation_new (principal_tenant_id resource_tenant_id : string) (principal_role : option string)
    (reason : TenantIsolationReason) (rule_id details : option string) : TenantIsolationViolation :=
  mkViolation ("Tenant isolation violation: user tenant '" +:+ principal_tenant_id
      +:+ "' cannot access resource tenant '" +:+ resource_tenant_id +:+ "'")
    principal_tenant_id resource_tenant_id principal_role reason rule_id details.

Definition violation_error (v : TenantIsolationViolation) : AosError := Authz (message v).

(** ** The rules (rules.rs) *)

Record TenantIsolationRule : Type := mkRule {
  id : string;
  evaluate_rule : TenantIsolationRequest -> TenantIsolationConfig -> TenantIsolationRuleEffect;
}.

Definition SameTenantRule : TenantIsolationRule :=
  mkRule "tenant.same_tenant" (fun request _ =>
    if bool_decide (p_tenant_id (principal request) = t_tenant_id (target request))
    then EAllow (mkRuleDecision SameTenant None) else Abstain).

Definition DevModeAdminBypassRule : TenantIsolationRule :=
  mkRule "tenant.dev_mode_admin_bypass" (fun request cfg =>
    if negb (dev_mode_admin_all_tenants cfg) then Abstain
    else if negb (is_admin (principal request) cfg) then Abstain
    else
      let decision := mkRuleDecision DevModeAdminBypass None in
      if dev_mode_bypass_overrides_denies cfg then EAllowOverride decision else EAllow decision).

Definition AdminWildcardGrantRule : TenantIsolationRule :=
  mkRule "tenant.admin_wildcard_grant" (fun request cfg =>
    if negb (allow_admin_wildcard cfg) then Abstain
    else if negb (is_admin (principal request) cfg) then Abstain
    else if existsb (fun t => bool_decide (t = admin_tenant_wildcard cfg)) (admin_tenants (principal request))
    then EAllow (mkRuleDecision AdminWildcardGrant None) else Abstain).

Definition AdminExplicitGrantRule : TenantIsolationRule :=
  mkRule "tenant.admin_explicit_grant" (fun request cfg =>
    if negb (allow_admin_tenant_grants cfg) then Abstain
    else if negb (is_admin (principal request) cfg) then Abstain
    else if existsb (fun t => bool_decide (t = t_tenant_id (target request))) (admin_tenants (principal request))
    then EAllow (mkRuleDecision AdminExplicitGrant None) else Abstain).

(** ** The engine (engine.rs) *)

Record TenantIsolationEngine : Type := mkEngine {
  config : TenantIsolationConfig;
  rules : list TenantIsolationRule;
}.

(** The builder is an engine that is not finished; [build] is the identity. *)
Definition builder (config : TenantIsolationConfig) : TenantIsolationEngine :=
  mkEngine config [SameTenantRule; DevModeAdminBypassRule; AdminWildcardGrantRule; AdminExplicitGrantRule].

Definition with_rule (rule : TenantIsolationRule) (b : TenantIsolationEngine) : TenantIsolationEngine :=
  mkEngine (config b) (rules b ++ [rule]).

Definition with_rule_first (rule : TenantIsolationRule) (b : TenantIsolationEngine) : TenantIsolationEngine :=
  mkEngine (config b) (rule :: rules b).

Definition engine_new (config : TenantIsolationConfig) : TenantIsolationEngine := builder config.

(** [best_allow_override], [best_deny] and [best_allow] of the loop. *)
Definition Best : Type := option (string * TenantIsolationRuleDecision).

Definition if_none (best : Best) (found : string * TenantIsolationRuleDecision) : Best :=
  match best with None => Some found | Some _ => best end.

Definition consider (request : TenantIsolationRequest) (cfg : TenantIsolationConfig)
    (best : Best * Best * Best) (rule : TenantIsolationRule) : Best * Best * Best :=
  let '(over, deny, allow) := best in
  match evaluate_rule rule request cfg with
  | Abstain => best
  | EAllow d => (over, deny, if_none allow (id rule, d))
  | EAllowOverride d => (if_none over (id rule, d), deny, allow)
  | EDeny d => (over, if_none deny (id rule, d), allow)
  end.

Definition evaluate (self : TenantIsolationEngine) (request : TenantIsolationRequest) : TenantIsolationVerdict :=
  let '(over, deny, allow) :=
    fold_left (consider request (config self)) (rules self) (None, None, None) in
  match over, deny, allow with
  | Some (rule_id, d), _, _ => allowed (d_reason d) (Some rule_id) (d_details d)
  | None, Some (rule_id, d), _ => denied (d_reason d) (Some rule_id) (d_details d)
  | None, None, Some (rule_id, d) => allowed (d_reason d) (Some rule_id) (d_details d)
  | None, None, None => denied TenantMismatch None None
  end.

Definition check (self : TenantIsolationEngine) (request : TenantIsolationRequest) : bool :=
  is_allowed (evaluate self request).

Definition validate (self : TenantIsolationEngine) (request : TenantIsolationRequest) :
    result unit TenantIsolationViolation :=
  let verdict := evaluate self request in
  if is_allowed verdict then Ok tt
  else Err (violation_new (p_tenant_id (principal request)) (t_tenant_id (target request))
              (Some (role (principal request))) (reason verdict) (rule_id verdict) (details verdict)).

(** ** What the engine decides *)

(** The first rule with an effect of a kind, in the order of the rules. *)
Definition overrides (request : TenantIsolationRequest) (cfg : TenantIsolationConfig) (r : TenantIsolationRule) : Best :=
  match evaluate_rule r request cfg with EAllowOverride d => Some (id r, d) | _ => None end.
Definition denies (request : TenantIsolationRequest) (cfg : TenantIsolationConfig) (r : TenantIsolationRule) : Best :=
  match evaluate_rule r request cfg with EDeny d => Some (id r, d) | _ => None end.
Definition allows (request : TenantIsolationRequest) (cfg : TenantIsolationConfig) (r : TenantIsolationRule) : Best :=
  match evaluate_rule r request cfg with EAllow d => Some (id r, d) | _ => None end.

Definition first (f : TenantIsolationRule -> Best) (rs : list TenantIsolationRule) : Best := head (omap f rs).

Lemma first_none f rs : first f rs = None <-> forall r, r ∈ rs -> f r = None.
Proof.
  unfold first. rewrite <- Forall_forall. induction rs as [|r rs IH]; [done|]. cbn [omap list_omap].
  rewrite Forall_cons. destruct (f r) eqn:E; cbn [head]; [split; [done|by intros [? _]]|]. rewrite IH. naive_solver.
Qed.

Lemma consider_first request cfg rs over deny allow :
  fold_left (consider request cfg) rs (over, deny, allow)
  = (match over with None => first (overrides request cfg) rs | _ => over end,
     match deny with None => first (denies request cfg) rs | _ => deny end,
     match allow with None => first (allows request cfg) rs | _ => allow end).
Proof.
  revert over deny allow. induction rs as [|r rs IH]; intros over deny allow; cbn [fold_left].
  - by destruct over, deny, allow.
  - unfold consider at 2. unfold overrides, denies, allows, first in *. cbn [omap list_omap].
    destruct (evaluate_rule r request cfg); rewrite IH; by destruct over, deny, allow.
Qed.

(** The verdict is exact, for any rules: an override decides if there is one, then a
    denial, then an allowance, and without any of them access is denied; of several rules of
    the deciding kind the first gives the reason. *)
Theorem verdict_exact self request :
  let over := first (overrides request (config self)) (rules self) in
  let deny := first (denies request (config self)) (rules self) in
  let allow := first (allows request (config self)) (rules self) in
  evaluate self request =
    match over, deny, allow with
    | Some (i, d), _, _ => mkVerdict Allow (d_reason d) (Some i) (d_details d)
    | None, Some (i, d), _ => mkVerdict Deny (d_reason d) (Some i) (d_details d)
    | None, None, Some (i, d) => mkVerdict Allow (d_reason d) (Some i) (d_details d)
    | None, None, None => mkVerdict Deny TenantMismatch None None
    end.
Proof. 
  unfold evaluate. rewrite consider_first.
  by destruct (first (overrides request (config self)) (rules self)) as [[]|],
    (first (denies request (config self)) (rules self)) as [[]|], (first (allows request (config self)) (rules self)) as [[]|].
Qed.

Lemma check_first self request :
  check self request =
    match first (overrides request (config self)) (rules self), first (denies request (config self)) (rules self),
          first (allows request (config self)) (rules self) with
    | Some _, _, _ => true
    | None, Some _, _ => false
    | None, None, Some _ => true
    | None, None, None => false
    end.
Proof.
  unfold check, evaluate. rewrite consider_first.
  by destruct (first (overrides request (config self)) (rules self)) as [[]|],
    (first (denies request (config self)) (rules self)) as [[]|], (first (allows request (config self)) (rules self)) as [[]|].
Qed.

Lemma first_permutation f rs rs' : rs ≡ₚ rs' -> is_Some (first f rs) -> is_Some (first f rs').
Proof.
  intros Hp H. destruct (first f rs') eqn:E; [done|]. rewrite (proj2 (first_none f rs)) in H; [by destruct H|].
  intros r Hr. apply (proj1 (first_none f rs') E). by rewrite <- Hp.
Qed.

(** Whether access is granted does not depend on the order of the rules. *)
Theorem rule_order_irrelevant cfg rs rs' request :
  rs ≡ₚ rs' -> check (mkEngine cfg rs) request = check (mkEngine cfg rs') request.
Proof.
  intros Hp. rewrite !check_first. cbn [config rules].
  assert (forall f, (exists x, first f rs = Some x) <-> (exists x, first f rs' = Some x)) as Hf.
  { intros f. split; intros H; [by apply (first_permutation f rs rs' Hp)|by apply (first_permutation f rs' rs (symmetry Hp))]. }
  assert (forall f, match first f rs with Some _ => True | None => False end
    <-> match first f rs' with Some _ => True | None => False end) as Hm.
  { intros f. specialize (Hf f). destruct (first f rs), (first f rs'); naive_solver. }
  pose proof (Hm (overrides request cfg)). pose proof (Hm (denies request cfg)). pose proof (Hm (allows request cfg)).
  destruct (first (overrides request cfg) rs), (first (overrides request cfg) rs'); try tauto;
  destruct (first (denies request cfg) rs), (first (denies request cfg) rs'); try tauto;
  destruct (first (allows request cfg) rs), (first (allows request cfg) rs'); tauto.
Qed.

(** ** The default rules *)

Lemma existsb_elem (s : string) l : existsb (fun t => bool_decide (t = s)) l = true <-> s ∈ l.
Proof.
  rewrite existsb_exists, list_elem_of_In. split.
  - intros (x & Hx & E). apply bool_decide_eq_true in E. by subst.
  - intros H. exists s. split; [done|]. by apply bool_decide_eq_true.
Qed.

(** A principal is an administrator by its role, or by its roles where they count. *)
Lemma is_admin_spec self cfg :
  is_admin self cfg = true
  <-> exists r, r ∈ admin_role_names cfg /\ (role self = r \/ (use_roles_claim cfg = true /\ r ∈ roles self)).
Proof.
  unfold is_admin, has_role. rewrite existsb_exists. split.
  - intros (r & Hr & H). exists r. split; [by apply list_elem_of_In|]. case_bool_decide; [by left|].
    destruct (use_roles_claim cfg); [|done]. right. split; [done|]. by apply existsb_elem.
  - intros (r & Hr & H). exists r. split; [by apply list_elem_of_In|]. case_bool_decide; [done|].
    destruct H as [E|[-> H]]; [done|]. by apply existsb_elem.
Qed.

(** What an administrator may be granted beyond its own tenant. *)
Definition granted (cfg : TenantIsolationConfig) (p : TenantPrincipal) (tenant : string) : Prop :=
  dev_mode_admin_all_tenants cfg = true
  \/ (allow_admin_wildcard cfg = true /\ admin_tenant_wildcard cfg ∈ admin_tenants p)
  \/ (allow_admin_tenant_grants cfg = true /\ tenant ∈ admin_tenants p).

(** The default rules with others before and after them. *)
Definition extended (cfg : TenantIsolationConfig) (before after : list TenantIsolationRule) : TenantIsolationEngine :=
  fold_right with_rule_first (fold_left (fun b r => with_rule r b) after (builder cfg)) before.

Lemma extended_rules cfg before after :
  config (extended cfg before after) = cfg
  /\ rules (extended cfg before after) = before ++ rules (builder cfg) ++ after.
Proof.
  unfold extended. assert (forall b, config (fold_left (fun b r => with_rule r b) after b) = config b
    /\ rules (fold_left (fun b r => with_rule r b) after b) = rules b ++ after) as Ha.
  { induction after as [|r after IH]; intros b; cbn [fold_left]; [by rewrite app_nil_r|].
    destruct (IH (with_rule r b)) as [-> ->]. cbn. by rewrite <- app_assoc. }
  destruct (Ha (builder cfg)) as [Hc Hr].
  induction before as [|r before IH]; cbn [fold_right app]; [done|]. destruct IH as [IH1 IH2].
  unfold with_rule_first at 1 3. cbn [config rules]. split; [exact IH1|]. by rewrite IH2.
Qed.

(** A rule of others that may deny but does not allow. *)
Definition restrictive (r : TenantIsolationRule) : Prop :=
  forall request cfg d, evaluate_rule r request cfg <> EAllow d /\ evaluate_rule r request cfg <> EAllowOverride d.

Lemma default_allows request cfg r :
  r ∈ rules (builder cfg) -> (overrides request cfg r <> None \/ allows request cfg r <> None) ->
  p_tenant_id (principal request) = t_tenant_id (target request)
  \/ (is_admin (principal request) cfg = true /\ granted cfg (principal request) (t_tenant_id (target request))).
Proof.
  intros Hr H. unfold overrides, allows, granted in *.
  repeat (apply elem_of_cons in Hr as [->|Hr]); cbn [evaluate_rule SameTenantRule DevModeAdminBypassRule
    AdminWildcardGrantRule AdminExplicitGrantRule] in H.
  - case_bool_decide; [by left|naive_solver].
  - right. destruct (dev_mode_admin_all_tenants cfg); [|naive_solver]. destruct (is_admin _ _); [by auto|naive_solver].
  - right. destruct (allow_admin_wildcard cfg); [|naive_solver]. destruct (is_admin _ _); [|naive_solver].
    destruct (existsb _ _) eqn:E; [|naive_solver]. apply existsb_elem in E. by auto.
  - right. destruct (allow_admin_tenant_grants cfg); [|naive_solver]. destruct (is_admin _ _); [|naive_solver].
    destruct (existsb _ _) eqn:E; [|naive_solver]. apply existsb_elem in E. by auto.
  - by apply elem_of_nil in Hr.
Qed.

(** [C16] Tenants are isolated: whatever restrictive rules are added, before or after the
    default ones, a caller gets at a resource only of its own tenant, or as an administrator
    to whom the configuration grants the tenant. *)
Theorem tenants_isolated cfg before after request :
  Forall restrictive before -> Forall restrictive after ->
  check (extended cfg before after) request = true ->
  p_tenant_id (principal request) = t_tenant_id (target request)
  \/ (is_admin (principal request) cfg = true /\ granted cfg (principal request) (t_tenant_id (target request))).
Proof.
  intros Hb Ha Hc. rewrite check_first in Hc.
  destruct (extended_rules cfg before after) as [Hcf Hr]. rewrite Hcf, Hr in Hc.
  assert (exists r, r ∈ before ++ rules (builder cfg) ++ after
    /\ (overrides request cfg r <> None \/ allows request cfg r <> None)) as (r & Hin & Hx).
  { destruct (first (overrides request cfg) _) eqn:E1.
    - destruct (decide (Forall (fun r => overrides request cfg r = None) (before ++ rules (builder cfg) ++ after))) as [F|F].
      + rewrite Forall_forall in F. apply first_none in F. congruence.
      + apply not_Forall_Exists in F; [|apply _]. apply Exists_exists in F as (r & ? & ?). naive_solver.
    - destruct (first (denies request cfg) _); [done|]. destruct (first (allows request cfg) _) eqn:E3; [|done].
      destruct (decide (Forall (fun r => allows request cfg r = None) (before ++ rules (builder cfg) ++ after))) as [F|F].
      + rewrite Forall_forall in F. apply first_none in F. congruence.
      + apply not_Forall_Exists in F; [|apply _]. apply Exists_exists in F as (r & ? & ?). naive_solver. }
  assert (restrictive r -> False) as Hno.
  { intros Hres. destruct Hx as [Hx|Hx]; apply Hx; [unfold overrides|unfold allows];
      destruct (evaluate_rule r request cfg) eqn:E; try done; exfalso; by destruct (Hres request cfg decision0). }
  apply elem_of_app in Hin as [Hin|[Hin|Hin]%elem_of_app].
  - exfalso. rewrite Forall_forall in Hb. by apply Hno, Hb.
  - by apply (default_allows request cfg r).
  - exfalso. rewrite Forall_forall in Ha. by apply Hno, Ha.
Qed.

(** By default access is granted exactly to the own tenant and to administrators for the
    tenants they are granted. *)
Theorem default_access_exact cfg request :
  check (engine_new cfg) request = true
  <-> p_tenant_id (principal request) = t_tenant_id (target request)
      \/ (is_admin (principal request) cfg = true /\ granted cfg (principal request) (t_tenant_id (target request))).
Proof.
  rewrite check_first. change (config (engine_new cfg)) with cfg.
  change (rules (engine_new cfg)) with (rules (builder cfg)). split.
  - intros Hc. assert (exists r, r ∈ rules (builder cfg)
      /\ (overrides request cfg r <> None \/ allows request cfg r <> None)) as (r & Hr & Hx).
    { destruct (first (overrides request cfg) (rules (builder cfg))) as [x|] eqn:E1; [|destruct (first (denies request cfg) (rules (builder cfg))); [done|];
        destruct (first (allows request cfg) (rules (builder cfg))) as [x|] eqn:E2; [|done]].
      - apply head_Some_elem_of, list_elem_of_omap in E1 as (r & Hr & Hx). exists r. split; [done|]. left. congruence.
      - apply head_Some_elem_of, list_elem_of_omap in E2 as (r & Hr & Hx). exists r. split; [done|]. right. congruence. }
    by apply (default_allows request cfg r).
  - intros H. assert (first (denies request cfg) (rules (builder cfg)) = None) as Hd.
    { apply first_none. intros r Hr. unfold denies.
      repeat (apply elem_of_cons in Hr as [->|Hr]); cbn; try (by repeat case_match).
      by apply elem_of_nil in Hr. }
    rewrite Hd.
    destruct (first (overrides request cfg) (rules (builder cfg))) eqn:Eo; [done|].
    destruct (first (allows request cfg) (rules (builder cfg))) eqn:Ea; [done|]. exfalso.
    assert (forall r, r ∈ rules (builder cfg) -> evaluate_rule r request cfg = Abstain) as Habs.
    { intros r Hr. pose proof (proj1 (first_none _ _) Eo r Hr) as H1. pose proof (proj1 (first_none _ _) Ea r Hr) as H2.
      pose proof (proj1 (first_none _ _) Hd r Hr) as H3. unfold overrides, allows, denies in *.
      by destruct (evaluate_rule r request cfg). }
    pose proof (Habs SameTenantRule ltac:(by left)) as A1.
    pose proof (Habs DevModeAdminBypassRule ltac:(by right; left)) as A2.
    pose proof (Habs AdminWildcardGrantRule ltac:(by right; right; left)) as A3.
    pose proof (Habs AdminExplicitGrantRule ltac:(by right; right; right; left)) as A4.
    cbn in A1, A2, A3, A4. destruct H as [E|[Ha Hg]]; [by rewrite bool_decide_true in A1|].
    rewrite Ha in A2, A3, A4. cbn [negb] in *. destruct Hg as [E|[[E Hin%existsb_elem]|[E Hin%existsb_elem]]].
    + rewrite E in A2. cbn [negb] in A2. by destruct (dev_mode_bypass_overrides_denies cfg).
    + rewrite E, Hin in A3. done.
    + rewrite E, Hin in A4. done.
Qed.

(** A denial stands against every allowance but an override; the bypass of the
    development mode is one by default, and lets administrators past every denial. *)
Theorem denial_stands self request :
  (forall r, r ∈ rules self -> denies request (config self) r <> None ->
     (forall r', r' ∈ rules self -> overrides request (config self) r' = None) ->
     check self request = false)
  /\ (DevModeAdminBypassRule ∈ rules self -> dev_mode_admin_all_tenants (config self) = true ->
      dev_mode_bypass_overrides_denies (config self) = true ->
      is_admin (principal request) (config self) = true -> check self request = true).
Proof.
  rewrite check_first. split.
  - intros r Hr Hd Ho. rewrite (proj2 (first_none _ _) Ho).
    destruct (first (denies request (config self)) (rules self)) eqn:E; [done|].
    exfalso. apply Hd. by apply (proj1 (first_none _ _) E).
  - intros Hr Hm Hb Ha. destruct (first (overrides request (config self)) (rules self)) eqn:E; [done|].
    pose proof (proj1 (first_none _ _) E _ Hr) as H. unfold overrides in H. cbn in H.
    by rewrite Hm, Ha, Hb in H.
Qed.
End Requests.

(** ** Examples *)
Section Examples.
#[local] Notation Request := (TenantIsolationRequest (Value := unit)).

Definition deny_b : TenantIsolationRule (Value := unit) :=
  mkRule "example.deny_b" (fun request _ =>
    if bool_decide (t_tenant_id (target request) = "b") then EDeny (mkRuleDecision DeniedByRule None) else Abstain).

Definition user_a : TenantPrincipal := principal_new "a" "user" ["b"].
Definition admin_a : TenantPrincipal := principal_new "a" "admin" ["c"].

Lemma deny_b_restrictive : Forall restrictive [deny_b].
Proof.
  apply Forall_singleton. intros request cfg d. cbn. by destruct (bool_decide _).
Qed.

(** The grant of a user who is no administrator counts for nothing. *)
Example user_not_granted : check (engine_new default_config) (request_new user_a "b" : Request) = false.
Proof. reflexivity. Qed.

Lemma tenants_isolated_witness :
  check (extended default_config [deny_b] []) (request_new admin_a "c" : Request) = true
  /\ (p_tenant_id admin_a = "c" \/ (is_admin admin_a default_config = true /\ granted default_config admin_a "c")).
Proof.
  split; [reflexivity|].
  exact (tenants_isolated default_config [deny_b] [] (request_new admin_a "c") deny_b_restrictive
           (Forall_nil_2 _) eq_refl).
Defined.

Lemma rule_order_irrelevant_witness :
  check (mkEngine default_config [deny_b; SameTenantRule]) (request_new admin_a "b" : Request)
  = check (mkEngine default_config [SameTenantRule; deny_b]) (request_new admin_a "b" : Request).
Proof. apply (rule_order_irrelevant default_config [deny_b; SameTenantRule] [SameTenantRule; deny_b]). apply perm_swap. Defined.

(** What was refused: a user at a resource of another tenant. *)
Example refused :
  validate (engine_new default_config) (request_new user_a "b" : Request)
  = Err (mkViolation "Tenant isolation violation: user tenant 'a' cannot access resource tenant 'b'" "a" "b"
           (Some "user") TenantMismatch None None).
Proof. reflexivity. Qed.
End Examples.
End TenantIsolation.
