(* ===== verification/RetryPolicy.v ===== *)
(** * Retries with backoff (adapteros-core/src/retry_policy.rs, retry_strategies.rs)

    A [RetryManager] holds an optional circuit breaker and an optional retry budget that
    its callers share ([shared]). [execute_with_policy] takes a guard of the budget, sends
    the whole retry loop through the breaker as one call, and drops the guard. What other
    callers do to the shared state is [others], numbered by the place where it happens.

    An operation is the outcomes of its successive calls, and what an execution does that
    its callers can see (calls, sleeps, metric records) is its list of events. A duration
    is a number of nanoseconds; an addition that overflows it panics, which is [Panicked].
    The random generator and HKDF are parameters. *)

From S2P Require Import Prelude Hashing Float32 Lifecycle CircuitBreaker.

Local Open Scope Z.
Local Open Scope aos.

(** [fastrand::Rng::new().u64(0..range)], the draw of an attempt. *)
Class Fastrand := {
  rng_u64 : Z -> Z -> Z;
  rng_in_range : forall draw range, 0 < range -> 0 <= rng_u64 draw range < range
}.

(** [Hkdf::<Sha256>::new(Some(salt), ikm)] and [expand] of an empty info to 8 bytes. *)
Class Hkdf := { hkdf_sha256_8 : list byte -> list byte -> list byte }.

Module RetryPolicy.
Import CircuitBreaker.

(** ** Durations *)

Definition duration_max : Z := u64_max * ns_per_sec + (ns_per_sec - 1).
Definition from_millis (ms : Z) : Z := ms * 1000000.
Definition from_secs (s : Z) : Z := s * ns_per_sec.
Definition as_millis (d : Z) : Z := d / 1000000.

Definition as_secs_f64 (d : Z) : f64 :=
  f64_add (f64_of_Z (d / ns_per_sec)) (f64_div (f64_of_Z (d mod ns_per_sec)) (f64_of_Z ns_per_sec)).

(** [u64::from_le_bytes]. *)
Definition u64_from_le_bytes (bs : list byte) : Z :=
  foldr (fun b acc => Z_of_byte b + 256 * acc) 0 bs.

(** ** Policies *)

Record RetryBudgetConfig : Type := mkBudgetConfig {
  max_concurrent_retries : Z;
  max_retry_rate_per_second : f64;
  budget_window : Z;
  max_budget_tokens : Z;
}.

Definition default_budget_config : RetryBudgetConfig :=
  mkBudgetConfig 50 (f64_lit 100 1) (from_secs 60) 500.

Record RetryPolicy : Type := mkPolicy {
  max_attempts : Z;
  base_delay : Z;
  max_delay : Z;
  backoff_factor : f64;
  jitter : bool;
  deterministic_jitter : bool;
  circuit_breaker : option CircuitBreakerConfig;
  retry_budget : option RetryBudgetConfig;
  service_type : string;
}.

Definition default_policy : RetryPolicy :=
  mkPolicy 3 (from_millis 100) (from_secs 30) (f64_lit 2 1) true false
    (Some CircuitBreaker.default_config) (Some default_budget_config) "default".

Definition fast (service : string) : RetryPolicy :=
  mkPolicy 3 (from_millis 50) (from_millis 500) (f64_lit 2 1) true false
    (Some (mkConfig 5 2 30000 2)) (Some default_budget_config) service.

Definition slow (service : string) : RetryPolicy :=
  mkPolicy 5 (from_millis 500) (from_secs 60) (f64_lit 3 2) true false
    (Some (mkConfig 3 2 120000 1)) (Some default_budget_config) service.

Definition database (service : string) : RetryPolicy :=
  mkPolicy 3 (from_millis 200) (from_secs 10) (f64_lit 3 2) true false
    (Some (mkConfig 5 3 60000 2))
    (Some (mkBudgetConfig 10 (f64_lit 20 1) (from_secs 60) 100)) service.

Definition network (service : string) : RetryPolicy :=
  mkPolicy 5 (from_millis 100) (from_secs 30) (f64_lit 2 1) true false
    (Some (mkConfig 3 2 45000 3)) (Some default_budget_config) service.

Definition without_circuit_breaker (service : string) : RetryPolicy :=
  default_policy <| circuit_breaker := None |> <| service_type := service |>.

Definition without_budget (service : string) : RetryPolicy :=
  default_policy <| retry_budget := None |> <| service_type := service |>.

(** ** The rate limiter and the budget *)

Record RateLimiter : Type := mkLimiter {
  max_rate : f64;
  window : Z;
  tokens : f64;
  last_refill : Z;
}.

Definition limiter_new (now : Z) (rate : f64) (win : Z) : RateLimiter := mkLimiter rate win rate now.

Definition refill (now : Z) (self : RateLimiter) : RateLimiter :=
  let elapsed := Z.max 0 (now - last_refill self) in
  let refill_amount :=
    f64_mul (f64_div (as_secs_f64 elapsed) (as_secs_f64 (window self))) (max_rate self) in
  self <| tokens := f64_min (f64_add (tokens self) refill_amount) (max_rate self) |>
       <| last_refill := now |>.

Definition allow (now : Z) (self : RateLimiter) : RateLimiter * bool :=
  let self := refill now self in
  if f64_le (f64_lit 1 1) (tokens self)
  then (self <| tokens := f64_sub (tokens self) (f64_lit 1 1) |>, true)
  else (self, false).

Record RetryBudget : Type := mkBudget {
  budget_config : RetryBudgetConfig;
  active_retries : Z;
  rate_limiter : RateLimiter;
}.

Definition budget_new (now : Z) (cfg : RetryBudgetConfig) : RetryBudget :=
  mkBudget cfg 0 (limiter_new now (max_retry_rate_per_second cfg) (budget_window cfg)).

Definition too_many_retries : AosError :=
  ResourceExhaustion "Retry budget exceeded: too many concurrent retries".
Definition rate_exceeded : AosError := ResourceExhaustion "Retry budget exceeded: rate limit".

(** [check_budget] is a load of the counter, then the limiter under its lock. *)
Definition check_active (self : RetryBudget) : bool :=
  max_concurrent_retries (budget_config self) <=? active_retries self.

Definition check_rate (now : Z) (self : RetryBudget) : RetryBudget * result unit AosError :=
  let '(l, ok) := allow now (rate_limiter self) in
  (self <| rate_limiter := l |>, if ok : bool then Ok tt else Err rate_exceeded).

(** The two halves of a guard's life. *)
Definition count_guard (self : RetryBudget) : RetryBudget :=
  self <| active_retries := u64_wrapping_add (active_retries self) 1 |>.
Definition drop_guard (self : RetryBudget) : RetryBudget :=
  self <| active_retries := u64_wrapping_sub (active_retries self) 1 |>.

(** What the other callers do at the places of an execution: to the budget after the
    counter is loaded (0), after the token is taken (1) and while the guard is held (2); to
    the breaker before the call enters it (0) and before it completes (1). *)
Record interference : Type := mkInterference {
  on_budget : nat -> RetryBudget -> RetryBudget;
  on_breaker : nat -> breaker -> breaker;
}.

Definition alone : interference := mkInterference (fun _ b => b) (fun _ b => b).

Definition check_budget (others : interference) (now : Z) (self : RetryBudget) :
    RetryBudget * result unit AosError :=
  if check_active self then (self, Err too_many_retries)
  else check_rate now (on_budget others 0 self).

Definition acquire (others : interference) (now : Z) (self : RetryBudget) :
    RetryBudget * result unit AosError :=
  match check_budget others now self with
  | (self, Ok _) => (count_guard (on_budget others 1 self), Ok tt)
  | (self, Err e) => (self, Err e)
  end.

(** *** Callers of one budget, interleaved

    [loaded] callers have read a counter below the limit, [rated] have their token too,
    [held] guards are alive. Every one of them can be dropped with its future. *)
Record callers : Type := mkCallers {
  shared_budget : RetryBudget;
  loaded : nat;
  rated : nat;
  held : nat;
}.

Inductive budget_step : callers -> callers -> Prop :=
| step_load b l r h :
    check_active b = false -> budget_step (mkCallers b l r h) (mkCallers b (S l) r h)
| step_rate now b b' l r h :
    check_rate now b = (b', Ok tt) ->
    budget_step (mkCallers b (S l) r h) (mkCallers b' l (S r) h)
| step_refused now b b' e l r h :
    check_rate now b = (b', Err e) -> budget_step (mkCallers b (S l) r h) (mkCallers b' l r h)
| step_count b l r h :
    budget_step (mkCallers b l (S r) h) (mkCallers (count_guard b) l r (S h))
| step_drop b l r h :
    budget_step (mkCallers b l r (S h)) (mkCallers (drop_guard b) l r h)
| step_leave b l r h : budget_step (mkCallers b (S l) r h) (mkCallers b l r h).

(** ** The retry loop *)

(** What an execution does besides its result: [Recorded...] are calls of the metrics
    reporter; a success within the loop is recorded with a duration of zero. *)
Inductive event : Type :=
| Called (attempt : Z)
| Slept (d : Z)
| RecordedStart
| RecordedAttempt (attempt : Z)
| RecordedSuccess (d : Z)
| RecordedFailure (d : Z).

Definition should_retry (error : AosError) : bool :=
  match error with
  | Network _ => true
  | Timeout _ => true
  | Io err =>
      let err_lower := Lifecycle.to_lowercase err in
      str_contains "connection" err_lower || str_contains "timeout" err_lower
      || str_contains "network" err_lower
  | _ => false
  end.

Inductive outcome (T : Type) : Type :=
| Returned (r : result T AosError)
| Panicked.
#[global] Arguments Returned {T} r.
#[global] Arguments Panicked {T}.

Section Loop.
Context `{Fastrand} `{Hkdf}.

Definition jitter_range (delay : Z) : Z :=
  f64_as_u64 (f64_mul (f64_of_Z (as_millis delay)) (f64_lit 1 10)).

Definition jitter_label (policy : RetryPolicy) (attempt : Z) : list byte :=
  as_bytes_of ("retry_jitter:" +:+ service_type policy +:+ ":" +:+ pretty attempt).

Definition generate_jitter (policy : RetryPolicy) (delay attempt : Z) : Z :=
  let range := jitter_range delay in
  if range =? 0 then 0
  else
    from_millis
      (if deterministic_jitter policy
       then u64_from_le_bytes (hkdf_sha256_8 (jitter_label policy attempt) (as_bytes_of "adapteros-retry"))
              mod range
       else rng_u64 attempt range).

(** The delay after the jitter, and the backoff of it. *)
Definition jittered (policy : RetryPolicy) (delay attempt : Z) : Z :=
  if jitter policy then delay + generate_jitter policy delay attempt else delay.

Definition backoff (policy : RetryPolicy) (delay : Z) : Z :=
  Z.min (from_millis (f64_as_u64 (f64_mul (f64_of_Z (as_millis delay)) (backoff_factor policy))))
    (max_delay policy).

Context {T : Type} (has_metrics : bool) (policy : RetryPolicy).

(** The n-th call of the operation, from 1. *)
Variable operation : Z -> result T AosError.

Definition recorded (e : event) : list event := if has_metrics then [e] else [].

(** [execute_with_retry]; [None] is a loop that has not ended within the fuel. *)
Fixpoint retry_loop (fuel : nat) (attempt delay : Z) : option (outcome T * list event) :=
  match fuel with
  | O => None
  | S fuel =>
      let attempt := (attempt + 1) mod u32_mod in
      match operation attempt with
      | Ok v =>
          Some (Returned (Ok v),
                Called attempt :: (if 1 <? attempt then recorded (RecordedSuccess 0) else []))
      | Err err =>
          if (max_attempts policy <? attempt) || negb (should_retry err) then
            Some (Returned (Err err), [Called attempt])
          else
            let before := Called attempt :: recorded (RecordedAttempt attempt) in
            let delay := jittered policy delay attempt in
            if duration_max <? delay then Some (Panicked, before)
            else
              let delay := backoff policy delay in
              r ← retry_loop fuel attempt delay; Some (r.1, before ++ Slept delay :: r.2)
      end
  end.

Definition execute_with_retry (fuel : nat) : option (outcome T * list event) :=
  retry_loop fuel 0 (base_delay policy).

End Loop.

(** ** The manager *)

Record RetryManager : Type := mkManager {
  manager_breaker : option breaker;
  manager_budget : option RetryBudget;
  manager_metrics : bool;
}.

Definition manager_new : RetryManager := mkManager None None false.

Definition with_circuit_breaker (clk : clock) (cfg : CircuitBreakerConfig) : RetryManager :=
  mkManager (Some (CircuitBreaker.new clk "retry-manager" cfg)) None false.

Definition with_budget (now : Z) (cfg : RetryBudgetConfig) : RetryManager :=
  mkManager None (Some (budget_new now cfg)) false.

Definition with_metrics : RetryManager := mkManager None None true.

Definition from_policy_defaults (clk : clock) (policy : RetryPolicy) : RetryManager :=
  mkManager
    ((fun cfg => CircuitBreaker.new clk ("retry-manager-" +:+ service_type policy) cfg)
       <$> circuit_breaker policy)
    (budget_new (now clk) <$> retry_budget policy) false.

Definition circuit_breaker_metrics (clk : clock) (contended : bool) (self : RetryManager) :
    option CircuitBreakerMetrics :=
  metrics clk contended <$> manager_breaker self.

(** The readings of the clocks of one execution. *)
Record times : Type := mkTimes {
  acquired_at : Z;
  entered_at : clock;
  completed_at : clock;
  elapsed : Z;
}.

Definition budget_not_configured : AosError := Config "Retry budget requested but not configured".

(** The guard of an execution: whether there is one, or why it is refused. *)
Definition take_guard (others : interference) (t : times) (policy : RetryPolicy)
    (bud : option RetryBudget) : option RetryBudget * result bool AosError :=
  match retry_budget policy with
  | None => (bud, Ok false)
  | Some _ =>
      match bud with
      | None => (bud, Err budget_not_configured)
      | Some b =>
          match acquire others (acquired_at t) b with
          | (b, Ok _) => (Some b, Ok true)
          | (b, Err e) => (Some b, Err e)
          end
      end
  end.

Definition release_guard (others : interference) (guarded : bool) (b : RetryBudget) : RetryBudget :=
  let b := on_budget others 2 b in if guarded then drop_guard b else b.

(** [circuit_breaker.call] around the loop, given as what it does when it runs. A rejected
    call drops the loop unrun; a panic leaves the breaker as the admission left it. *)
Definition execute_with_circuit_breaker {T} (others : interference) (t : times)
    (loop : option (outcome T * list event)) (cb : breaker) :
    option (outcome T * list event * breaker) :=
  match enter (entered_at t) (on_breaker others 0 cb) with
  | (Err e, cb) => Some (Returned (Err e), [], cb)
  | (Ok _, cb) =>
      r ← loop;
      let cb := on_breaker others 1 cb in
      Some (r, match r.1 with Returned v => complete (completed_at t) v cb | Panicked => cb end)
  end.

Section Execute.
Context `{Fastrand} `{Hkdf} {T : Type}.

Definition execute_with_policy (others : interference) (t : times) (fuel : nat)
    (policy : RetryPolicy) (operation : Z -> result T AosError) (self : RetryManager) :
    option (outcome T * list event * RetryManager) :=
  let rec := recorded (manager_metrics self) in
  let '(bud, taken) := take_guard others t policy (manager_budget self) in
  match taken with
  | Err e => Some (Returned (Err e), rec RecordedStart, self <| manager_budget := bud |>)
  | Ok guarded =>
      let loop := execute_with_retry (manager_metrics self) policy operation fuel in
      '(r, evs, cb) ←
        match manager_breaker self with
        | Some cb =>
            '(r, evs, cb) ← execute_with_circuit_breaker others t loop cb; Some (r, evs, Some cb)
        | None => '(r, evs) ← loop; Some (r, evs, None)
        end;
      let last :=
        match r with
        | Returned (Ok _) => rec (RecordedSuccess (elapsed t))
        | Returned (Err _) => rec (RecordedFailure (elapsed t))
        | Panicked => []
        end in
      Some (r, rec RecordedStart ++ evs ++ last,
            mkManager cb (release_guard others guarded <$> bud) (manager_metrics self))
  end.

End Execute.

(** ** The strategies of the service types *)

Inductive ServiceType : Type :=
| FastApi | Database | Network' | FileSystem | ModelInference | BackgroundTask | CriticalSystem
| BatchProcessing.

#[export] Instance ServiceType_eq_dec : EqDecision ServiceType.
Proof. solve_decision. Defined.

Definition as_str (s : ServiceType) : string :=
  match s with
  | FastApi => "fast_api" | Database => "database" | Network' => "network"
  | FileSystem => "filesystem" | ModelInference => "model_inference"
  | BackgroundTask => "background_task" | CriticalSystem => "critical_system"
  | BatchProcessing => "batch_processing"
  end.

(** [derive(Debug)]. *)
Definition debug (s : ServiceType) : string :=
  match s with
  | FastApi => "FastApi" | Database => "Database" | Network' => "Network"
  | FileSystem => "FileSystem" | ModelInference => "ModelInference"
  | BackgroundTask => "BackgroundTask" | CriticalSystem => "CriticalSystem"
  | BatchProcessing => "BatchProcessing"
  end.

Definition service_types : list ServiceType :=
  [FastApi; Database; Network'; FileSystem; ModelInference; BackgroundTask; CriticalSystem;
   BatchProcessing].

#[export] Instance ServiceType_countable : Countable ServiceType.
Proof.
  apply (inj_countable (fun s => list_find (s =.) service_types ≫= fun p => Some p.1)
           (fun n => n ≫= fun n => service_types !! n)).
  by intros [].
Defined.

Record RetryStrategy : Type := mkStrategy {
  strategy_service : ServiceType;
  strategy_policy : RetryPolicy;
  use_circuit_breaker : bool;
  use_budget : bool;
  description : string;
}.

Definition strategy_fast_api : RetryStrategy :=
  mkStrategy FastApi (fast (as_str FastApi)) true true
    "Fast retry strategy for low-latency API operations".

Definition strategy_database : RetryStrategy :=
  mkStrategy Database (database (as_str Database)) true true
    "Conservative retry strategy for database operations".

Definition strategy_network : RetryStrategy :=
  mkStrategy Network' (network (as_str Network')) true true
    "Network-aware retry strategy for external API calls".

Definition strategy_filesystem : RetryStrategy :=
  mkStrategy FileSystem
    (mkPolicy 3 (from_millis 200) (from_secs 5) (f64_lit 2 1) true false
       (Some (mkConfig 5 2 30000 3))
       (Some (mkBudgetConfig 20 (f64_lit 50 1) (from_secs 60) 200)) (as_str FileSystem))
    true true "File system retry strategy with conservative limits".

Definition strategy_model_inference : RetryStrategy :=
  mkStrategy ModelInference
    (mkPolicy 2 (from_millis 500) (from_secs 10) (f64_lit 2 1) true true
       (Some (mkConfig 3 2 120000 1))
       (Some (mkBudgetConfig 5 (f64_lit 10 1) (from_secs 60) 50)) (as_str ModelInference))
    true true "Conservative retry strategy for expensive model inference".

Definition strategy_background_task : RetryStrategy :=
  mkStrategy BackgroundTask
    (mkPolicy 5 (from_secs 1) (from_secs 300) (f64_lit 2 1) true false
       (Some (mkConfig 10 3 600000 5))
       (Some (mkBudgetConfig 100 (f64_lit 20 1) (from_secs 300) 1000)) (as_str BackgroundTask))
    true true "Patient retry strategy for background processing tasks".

Definition strategy_critical_system : RetryStrategy :=
  mkStrategy CriticalSystem
    (mkPolicy 10 (from_millis 100) (from_secs 60) (f64_lit 3 2) false false
       (Some (mkConfig 20 5 300000 10))
       (Some (mkBudgetConfig 50 (f64_lit 100 1) (from_secs 60) 500)) (as_str CriticalSystem))
    true true "Aggressive retry strategy for critical system operations".

Definition strategy_batch_processing : RetryStrategy :=
  mkStrategy BatchProcessing
    (mkPolicy 3 (from_secs 5) (from_secs 300) (f64_lit 2 1) true false
       (Some (mkConfig 5 2 1800000 2))
       (Some (mkBudgetConfig 10 (f64_lit 5 1) (from_secs 3600) 200)) (as_str BatchProcessing))
    true true "Batch processing retry strategy with long timeouts".

Definition strategy_custom (service : ServiceType) (policy : RetryPolicy) : RetryStrategy :=
  mkStrategy service policy (bool_decide (is_Some (circuit_breaker policy)))
    (bool_decide (is_Some (retry_budget policy)))
    ("Custom retry strategy for " +:+ debug service).

Definition effective_policy (self : RetryStrategy) (with_breaker with_budget : bool) : RetryPolicy :=
  let policy := strategy_policy self in
  let policy := if with_breaker then policy else policy <| circuit_breaker := None |> in
  if with_budget then policy else policy <| retry_budget := None |>.

Definition registry : Type := gmap ServiceType RetryStrategy.

Definition default_registry : registry :=
  list_to_map ((fun s => (strategy_service s, s)) <$>
    [strategy_fast_api; strategy_database; strategy_network; strategy_filesystem;
     strategy_model_inference; strategy_background_task; strategy_critical_system;
     strategy_batch_processing]).

Definition register (s : RetryStrategy) (self : registry) : registry :=
  <[strategy_service s := s]> self.

Definition create_manager (clk : clock) (self : registry) (service : ServiceType)
    (with_breaker with_budget : bool) : option RetryManager :=
  strategy ← self !! service;
  let policy := effective_policy strategy with_breaker with_budget in
  Some match circuit_breaker policy with
       | Some cfg => with_circuit_breaker clk cfg
       | None => manager_new
       end.

(** ** The loop *)

Section LoopFacts.
Context `{Fastrand} `{Hkdf} {T : Type} (has_metrics : bool) (policy : RetryPolicy).
Variable operation : Z -> result T AosError.

(** The delay before the attempt [k + 1], as the loop computes it. *)
Fixpoint delay_after (k : nat) : Z :=
  match k with
  | O => base_delay policy
  | S k => backoff policy (jittered policy (delay_after k) (Z.of_nat (S k)))
  end.

Definition calls_of (evs : list event) : list Z :=
  omap (fun e => match e with Called n => Some n | _ => None end) evs.
Definition sleeps_of (evs : list event) : list Z :=
  omap (fun e => match e with Slept d => Some d | _ => None end) evs.

(** A policy whose delays leave room for a jitter below the largest duration. *)
Record sane : Prop := {
  sane_attempts : 0 <= max_attempts policy < u32_max;
  sane_base : 0 <= base_delay policy <= duration_max - from_millis u64_max;
  sane_max : 0 <= max_delay policy <= duration_max - from_millis u64_max;
}.

(** The loop goes on after the outcome of an attempt. *)
Definition goes_on (attempt : Z) : bool :=
  match operation attempt with
  | Ok _ => false
  | Err e => should_retry e && (attempt <=? max_attempts policy)
  end.

Lemma generate_jitter_range delay attempt :
  0 <= generate_jitter policy delay attempt <= from_millis u64_max.
Proof.
  unfold generate_jitter, jitter_range. pose proof (f64_as_u64_range
    (f64_mul (f64_of_Z (as_millis delay)) (f64_lit 1 10))) as Hr.
  revert Hr. generalize (f64_as_u64 (f64_mul (f64_of_Z (as_millis delay)) (f64_lit 1 10))).
  intros r Hr. destruct (r =? 0) eqn:E; [unfold from_millis; lia|]. breflect.
  assert (0 <= (if deterministic_jitter policy
    then u64_from_le_bytes (hkdf_sha256_8 (jitter_label policy attempt)
           (as_bytes_of "adapteros-retry")) mod r
    else rng_u64 attempt r) < r); [|unfold from_millis; lia].
  destruct (deterministic_jitter policy); [apply Z.mod_pos_bound; lia|apply rng_in_range; lia].
Qed.

Lemma jittered_range delay attempt :
  0 <= delay <= duration_max - from_millis u64_max ->
  0 <= jittered policy delay attempt <= duration_max.
Proof.
  intros Hd. pose proof (generate_jitter_range delay attempt). unfold jittered.
  assert (0 <= from_millis u64_max) by done. destruct (jitter policy); lia.
Qed.

Lemma backoff_range delay : 0 <= max_delay policy -> 0 <= backoff policy delay <= max_delay policy.
Proof.
  intros Hm. unfold backoff, from_millis.
  pose proof (f64_as_u64_range (f64_mul (f64_of_Z (as_millis delay)) (backoff_factor policy))). lia.
Qed.

Lemma delay_after_range k :
  sane -> 0 <= delay_after k <= duration_max - from_millis u64_max.
Proof.
  intros [_ Hb Hm]. destruct k as [|k]; cbn [delay_after]; [done|].
  pose proof (backoff_range (jittered policy (delay_after k) (Z.of_nat (S k)))). lia.
Qed.

Lemma recorded_quiet e :
  match e with RecordedAttempt _ | RecordedSuccess _ => True | _ => False end ->
  calls_of (recorded has_metrics e) = [] /\ sleeps_of (recorded has_metrics e) = [].
Proof. unfold recorded. by destruct has_metrics, e. Qed.

(** One round of the loop. *)
Lemma retry_loop_stop fuel k :
  Z.of_nat k < u32_max -> goes_on (Z.of_nat (S k)) = false ->
  exists evs,
    retry_loop has_metrics policy operation (S fuel) (Z.of_nat k) (delay_after k)
      = Some (Returned (operation (Z.of_nat (S k))), evs)
    /\ calls_of evs = [Z.of_nat (S k)] /\ sleeps_of evs = [].
Proof.
  intros Hk. unfold goes_on. cbn [retry_loop].
  replace ((Z.of_nat k + 1) mod u32_mod) with (Z.of_nat (S k))
    by (rewrite Z.mod_small; unfold u32_max in *; lia).
  destruct (operation _) as [v|e] eqn:E; intros Hg.
  - eexists. split; [done|]. destruct (1 <? _); [|done].
    unfold recorded. by destruct has_metrics.
  - replace (_ || _) with true; [by eexists|]. symmetry.
    apply orb_true_iff. destruct (should_retry e); [|by right]. left. cbn [andb] in Hg. breflect. by apply Z.ltb_lt.
Qed.

Lemma retry_loop_step fuel k :
  sane -> Z.of_nat k < u32_max -> goes_on (Z.of_nat (S k)) = true ->
  retry_loop has_metrics policy operation (S fuel) (Z.of_nat k) (delay_after k)
  = (r ← retry_loop has_metrics policy operation fuel (Z.of_nat (S k)) (delay_after (S k));
     Some (r.1, (Called (Z.of_nat (S k)) :: recorded has_metrics (RecordedAttempt (Z.of_nat (S k))))
                  ++ Slept (delay_after (S k)) :: r.2)).
Proof.
  intros Hs Hk. unfold goes_on. cbn [retry_loop].
  replace ((Z.of_nat k + 1) mod u32_mod) with (Z.of_nat (S k))
    by (rewrite Z.mod_small; unfold u32_max in *; lia).
  destruct (operation _) as [v|e] eqn:E; [done|].
  intros [Hr Hm]%andb_true_iff. rewrite Hr. cbn [negb]. rewrite orb_false_r.
  replace (max_attempts policy <? _) with false by (symmetry; apply Z.ltb_ge; breflect; lia).
  pose proof (jittered_range (delay_after k) (Z.of_nat (S k)) (delay_after_range k Hs)).
  replace (duration_max <? _) with false by (symmetry; apply Z.ltb_ge; breflect; lia). done.
Qed.

(** The loop stops at the first attempt that does not go on. *)
Lemma retry_loop_runs m fuel k :
  sane -> Z.of_nat (k + m) < u32_max -> (m < fuel)%nat ->
  (forall i, (k < i <= k + m)%nat -> goes_on (Z.of_nat i) = true) ->
  goes_on (Z.of_nat (S (k + m))) = false ->
  exists evs,
    retry_loop has_metrics policy operation fuel (Z.of_nat k) (delay_after k)
      = Some (Returned (operation (Z.of_nat (S (k + m)))), evs)
    /\ calls_of evs = Z.of_nat <$> seq (S k) (S m)
    /\ sleeps_of evs = delay_after <$> seq (S k) m.
Proof.
  intros Hs. revert fuel k. induction m as [|m IH]; intros [|fuel] k Hk Hf Hgo Hstop; try lia.
  - rewrite Nat.add_0_r in *. by apply retry_loop_stop.
  - rewrite retry_loop_step by (try apply Hgo; try done; lia).
    rewrite Nat.add_succ_r in *.
    destruct (IH fuel (S k)) as (evs & -> & Ec & Es); try (simpl; done || lia).
    { intros i Hi. apply Hgo. lia. }
    eexists. split; [done|].
    destruct (recorded_quiet (RecordedAttempt (Z.of_nat (S k))) I) as [Qc Qs].
    unfold calls_of, sleeps_of in *. cbn. rewrite !omap_app, Qc, Qs. cbn. by rewrite Ec, Es.
Qed.

(** The least attempt that does not go on, if one does not. *)
Lemma first_stop N k :
  goes_on (Z.of_nat (S (k + N))) = false ->
  exists m, (m <= N)%nat
    /\ (forall i, (k < i <= k + m)%nat -> goes_on (Z.of_nat i) = true)
    /\ goes_on (Z.of_nat (S (k + m))) = false.
Proof.
  revert k. induction N as [|N IH]; intros k Hlast.
  { exists 0%nat. split_and!; [done|lia|done]. }
  destruct (goes_on (Z.of_nat (S k))) eqn:E.
  - rewrite Nat.add_succ_r in Hlast. destruct (IH (S k)) as (m & Hm & Hgo & Hs); [done|].
    exists (S m). rewrite Nat.add_succ_r. split_and!; [lia| |done].
    intros i Hi. destruct (decide (i = S k)) as [->|]; [done|]. apply Hgo. lia.
  - exists 0%nat. rewrite Nat.add_0_r. split_and!; [lia|lia|done].
Qed.

Lemma last_attempt_stops :
  0 <= max_attempts policy -> goes_on (Z.of_nat (S (0 + Z.to_nat (max_attempts policy)))) = false.
Proof.
  intros Hm. unfold goes_on. destruct (operation _); [done|].
  apply andb_false_iff. right. apply Z.leb_gt. lia.
Qed.

End LoopFacts.

(** ** The budget *)

Lemma check_rate_active now b b' r :
  check_rate now b = (b', r) ->
  active_retries b' = active_retries b /\ budget_config b' = budget_config b.
Proof.
  unfold check_rate. destruct (allow now (rate_limiter b)). intros [= <- _]. by destruct b.
Qed.

Lemma acquire_ok now b b' :
  acquire alone now b = (b', Ok tt) ->
  active_retries b < max_concurrent_retries (budget_config b)
  /\ active_retries b' = u64_wrapping_add (active_retries b) 1.
Proof.
  unfold acquire, check_budget, check_active.
  destruct (_ <=? _) eqn:E; [done|]. cbn [on_budget alone].
  destruct (check_rate now b) as [b1 [[]|]] eqn:Er; [|done]. intros [= <-].
  apply check_rate_active in Er as [Ea _]. breflect.
  split; [done|]. rewrite <- Ea. by destruct b1.
Qed.

Lemma acquire_err now b b' e :
  acquire alone now b = (b', Err e) -> active_retries b' = active_retries b.
Proof.
  unfold acquire, check_budget. destruct (check_active b); [by intros [= <- _]|].
  cbn [on_budget alone]. destruct (check_rate now b) as [b1 [|]] eqn:Er; [done|].
  intros [= <- _]. by apply check_rate_active in Er as [].
Qed.

Lemma take_guard_active t policy bud bud' g :
  take_guard alone t policy bud = (bud', Ok g) ->
  (forall b, bud = Some b -> is_u64 (active_retries b)) ->
  active_retries <$> (release_guard alone g <$> bud') = active_retries <$> bud.
Proof.
  unfold take_guard, release_guard. cbn [on_budget alone]. destruct (retry_budget policy).
  - destruct bud as [b|]; [|done]. destruct (acquire alone _ b) as [b1 [[]|e]] eqn:E; [|done].
    intros [= <- <-] Hb. specialize (Hb b eq_refl). apply acquire_ok in E as [_ E].
    cbn. f_equal. unfold drop_guard. destruct b1. cbn in *. rewrite E.
    unfold u64_wrapping_add, u64_wrapping_sub, is_u64 in *.
    rewrite Zminus_mod_idemp_l. replace (_ + 1 - 1) with (active_retries b) by lia.
    by apply Z.mod_small.
  - intros [= <- <-] _. by destruct bud.
Qed.

Lemma take_guard_refused t policy bud bud' e :
  take_guard alone t policy bud = (bud', Err e) ->
  active_retries <$> bud' = active_retries <$> bud.
Proof.
  unfold take_guard. destruct (retry_budget policy); [|done].
  destruct bud as [b|]; [|by intros [= <- _]].
  destruct (acquire alone _ b) as [b1 [|e1]] eqn:E; [done|].
  intros [= <- _]. cbn. f_equal. by apply acquire_err in E.
Qed.

Definition accounted (s : callers) : Prop :=
  active_retries (shared_budget s) = Z.of_nat (held s) mod u64_mod.

Lemma budget_step_accounted s s' : accounted s -> budget_step s s' -> accounted s'.
Proof.
  unfold accounted. intros Ha Hs. destruct Hs as [| ? ? ? ? ? ? Hr | ? ? ? ? ? ? ? Hr | b l r h | b l r h |];
    cbn in *; try done.
  - by apply check_rate_active in Hr as [-> _].
  - by apply check_rate_active in Hr as [-> _].
  - destruct b. cbn in *. subst. unfold u64_wrapping_add.
    rewrite Zplus_mod_idemp_l. f_equal. lia.
  - destruct b. cbn in *. subst. unfold u64_wrapping_sub.
    rewrite Zminus_mod_idemp_l. f_equal. lia.
Qed.

(** [n] callers take a token each at one instant. *)
Fixpoint rate_times (n : nat) (now : Z) (b : RetryBudget) : option RetryBudget :=
  match n with
  | O => Some b
  | S n => match check_rate now b with (b, Ok _) => rate_times n now b | (_, Err _) => None end
  end.

Lemma loads n b l r h :
  check_active b = false -> rtc budget_step (mkCallers b l r h) (mkCallers b (n + l) r h).
Proof.
  intros Hc. revert l. induction n as [|n IH]; intros l; [constructor|].
  eapply rtc_l; [by apply step_load|]. rewrite Nat.add_succ_comm. apply IH.
Qed.

Lemma rates n now b b' l r h :
  rate_times n now b = Some b' ->
  rtc budget_step (mkCallers b (n + l) r h) (mkCallers b' l (n + r) h).
Proof.
  revert b r. induction n as [|n IH]; intros b r; cbn [rate_times]; [intros [= ->]; constructor|].
  destruct (check_rate now b) as [b1 [[]|]] eqn:E; [|done]. intros Hn.
  eapply rtc_l; [by eapply step_rate|]. rewrite Nat.add_succ_comm. by apply IH.
Qed.

Lemma counts n b l r h :
  rtc budget_step (mkCallers b l (n + r) h) (mkCallers (Nat.iter n count_guard b) l r (n + h)).
Proof.
  revert b h. induction n as [|n IH]; intros b h; [constructor|].
  eapply rtc_l; [by apply step_count|]. rewrite Nat.iter_succ_r, Nat.add_succ_comm. apply IH.
Qed.

(** ** The executions *)

Section ExecuteFacts.
Context `{Fastrand} `{Hkdf} {T : Type}.

(** The records of an execution are no calls. *)
Lemma calls_between b (r : result T AosError) d evs :
  calls_of (recorded b RecordedStart ++ evs
    ++ match r with Ok _ => recorded b (RecordedSuccess d) | Err _ => recorded b (RecordedFailure d) end)
  = calls_of evs.
Proof.
  unfold calls_of. rewrite !omap_app. destruct b, r; cbn; by rewrite ?app_nil_r.
Qed.

Lemma execute_with_retry_ends has_metrics policy (operation : Z -> result T AosError) :
  sane policy ->
  exists m evs, (m <= Z.to_nat (max_attempts policy))%nat
    /\ execute_with_retry has_metrics policy operation (S (Z.to_nat (max_attempts policy)))
       = Some (Returned (operation (Z.of_nat (S m))), evs)
    /\ calls_of evs = Z.of_nat <$> seq 1 (S m)
    /\ sleeps_of evs = delay_after policy <$> seq 1 m
    /\ (forall i, (0 < i <= m)%nat -> goes_on policy operation (Z.of_nat i) = true)
    /\ goes_on policy operation (Z.of_nat (S m)) = false.
Proof.
  intros Hs. pose proof (sane_attempts _ Hs) as Hm.
  destruct (first_stop policy operation _ 0 (last_attempt_stops policy operation (proj1 Hm)))
    as (m & Hle & Hgo & Hstop).
  destruct (retry_loop_runs has_metrics policy operation m (S (Z.to_nat (max_attempts policy))) 0)
    as (evs & E & Ec & Es); [done|unfold u32_max, u32_mod in *; lia|lia|done|done|].
  by exists m, evs.
Qed.

End ExecuteFacts.

(** ** Properties *)

Section Properties.
Context `{Fastrand} `{Hkdf} {T : Type}.

(** [C29] The retry loop ends, at the first outcome that is a success, an error that is not
    retried or the last attempt the policy allows: that outcome is its result, the operation
    is called once for every attempt up to it, and between two attempts it sleeps the delay
    the backoff gives, never longer than the policy's maximum. *)
Theorem retry_outcome has_metrics policy (operation : Z -> result T AosError) :
  sane policy ->
  exists n evs, (n <= Z.to_nat (max_attempts policy))%nat
    /\ (forall i, (1 <= i <= n)%nat -> exists e, operation (Z.of_nat i) = Err e /\ should_retry e = true)
    /\ (forall e, operation (Z.of_nat (S n)) = Err e ->
          should_retry e = false \/ Z.of_nat n = max_attempts policy)
    /\ execute_with_retry has_metrics policy operation (S (Z.to_nat (max_attempts policy)))
       = Some (Returned (operation (Z.of_nat (S n))), evs)
    /\ calls_of evs = Z.of_nat <$> seq 1 (S n)
    /\ sleeps_of evs = delay_after policy <$> seq 1 n
    /\ Forall (fun d => 0 <= d <= max_delay policy) (sleeps_of evs).
Proof.
  intros Hs. pose proof (sane_attempts _ Hs).
  destruct (execute_with_retry_ends has_metrics policy operation Hs)
    as (n & evs & Hn & E & Ec & Es & Hgo & Hstop).
  exists n, evs. split_and!; try done.
  - intros i Hi. specialize (Hgo i ltac:(lia)). unfold goes_on in Hgo.
    destruct (operation (Z.of_nat i)) as [|e]; [done|]. apply andb_true_iff in Hgo as []. by exists e.
  - intros e Ee. unfold goes_on in Hstop. rewrite Ee in Hstop.
    apply andb_false_iff in Hstop as [|]; [by left|right]. breflect. lia.
  - rewrite Es. apply Forall_fmap, Forall_seq. intros [|k] Hk; [lia|]. cbn.
    apply backoff_range, (sane_max _ Hs).
Qed.

(** [C28] An execution with no other caller about: refused by the budget or by the breaker it
    calls nothing; otherwise its attempts, however many, are one call of the breaker, whose
    outcome is the last one. In every case the budget counts as many guards as before. *)
Theorem execution_exact t policy (operation : Z -> result T AosError) self cb :
  sane policy -> manager_breaker self = Some cb ->
  (forall b, manager_budget self = Some b -> is_u64 (active_retries b)) ->
  exists r evs self',
    execute_with_policy alone t (S (Z.to_nat (max_attempts policy))) policy operation self
      = Some (Returned r, evs, self')
    /\ active_retries <$> manager_budget self' = active_retries <$> manager_budget self
    /\ match (take_guard alone t policy (manager_budget self)).2 with
       | Err e => r = Err e /\ calls_of evs = [] /\ manager_breaker self' = Some cb
       | Ok _ =>
           match enter (entered_at t) cb with
           | (Err e, cb') => r = Err e /\ calls_of evs = [] /\ manager_breaker self' = Some cb'
           | (Ok _, _) =>
               exists n, (1 <= n <= S (Z.to_nat (max_attempts policy)))%nat
                 /\ r = operation (Z.of_nat n) /\ calls_of evs = Z.of_nat <$> seq 1 n
                 /\ manager_breaker self' = Some (call (entered_at t) (completed_at t) r cb).2
           end
       end.
Proof.
  intros Hs Hcb Hb. unfold execute_with_policy. rewrite Hcb.
  destruct (take_guard alone t policy (manager_budget self)) as [bud [g|e]] eqn:Eg; cbn [snd].
  2: { do 3 eexists. split; [done|]. split; [by destruct self; eapply take_guard_refused|].
       split_and!; [done| |by destruct self]. by destruct (manager_metrics self). }
  pose proof (take_guard_active _ _ _ _ _ Eg Hb) as Ha.
  unfold execute_with_circuit_breaker. cbn [on_breaker alone].
  destruct (enter (entered_at t) cb) as [[[]|e] cb'] eqn:Een.
  - destruct (execute_with_retry_ends (manager_metrics self) policy operation Hs)
      as (n & evs & Hn & -> & Ec & _ & _ & _). cbn.
    do 3 eexists. split; [done|]. split; [exact Ha|]. exists (S n).
    change (Zpos (Pos.of_succ_nat n)) with (Z.of_nat (S n)).
    split_and!; [lia|lia|done|by rewrite calls_between|]. unfold call. by rewrite Een.
  - cbn. do 3 eexists. split; [done|]. split; [exact Ha|].
    split_and!; try done. by destruct (manager_metrics self).
Qed.

(** The circuit breaker and the limits a policy names are never used: an execution is
    the same whatever they are, only whether the policy names a budget matters. *)
Theorem policy_configs_ignored others t fuel policy (operation : Z -> result T AosError) self
    breaker_config limits :
  execute_with_policy others t fuel
    (policy <| circuit_breaker := breaker_config |>
            <| retry_budget := (fun _ => limits) <$> retry_budget policy |>) operation self
  = execute_with_policy others t fuel policy operation self.
Proof.
  set (policy' := policy <| circuit_breaker := _ |> <| retry_budget := _ |>).
  assert (forall b k d fuel, retry_loop b policy' operation fuel k d = retry_loop b policy operation fuel k d)
    as Hl.
  { intros b k d f. revert k d. induction f as [|f IH]; intros k d; [done|]. cbn [retry_loop].
    destruct (operation _); [done|]. rewrite IH. by destruct policy. }
  unfold execute_with_policy. unfold execute_with_retry at 1. rewrite !Hl.
  replace (take_guard others t policy' (manager_budget self))
    with (take_guard others t policy (manager_budget self))
    by (unfold policy', take_guard; by destruct policy as [??????? []]).
  by destruct policy.
Qed.

(** A manager that the registry makes for a service type refuses every execution under
    that service type's own policy, and never calls the operation: the policy asks for a
    budget, which the manager is made without. *)
Theorem registry_manager_refuses clk service with_breaker :
  exists strategy manager,
    default_registry !! service = Some strategy
    /\ create_manager clk default_registry service with_breaker true = Some manager
    /\ forall others t fuel (operation : Z -> result T AosError),
         execute_with_policy others t fuel (effective_policy strategy with_breaker true) operation manager
         = Some (Returned (Err budget_not_configured), [], manager).
Proof.
  destruct service, with_breaker; eexists _, _; (split; [reflexivity|]); (split; [reflexivity|]); done.
Qed.

(** A success on the second attempt is reported to the metrics twice, once with a
    duration of zero. *)
Theorem retried_success_recorded_twice t policy (operation : Z -> result T AosError) self e v :
  sane policy -> 1 <= max_attempts policy -> retry_budget policy = None ->
  manager_breaker self = None -> manager_metrics self = true ->
  operation 1 = Err e -> should_retry e = true -> operation 2 = Ok v ->
  exists self', execute_with_policy alone t 2 policy operation self
    = Some (Returned (Ok v),
            [RecordedStart; Called 1; RecordedAttempt 1; Slept (delay_after policy 1); Called 2;
             RecordedSuccess 0; RecordedSuccess (elapsed t)], self').
Proof.
  intros Hs Hm Hb Hcb Hmet E1 He E2. eexists.
  unfold execute_with_policy, take_guard. rewrite Hb, Hcb, Hmet. unfold execute_with_retry.
  change 0 with (Z.of_nat 0). change (base_delay policy) with (delay_after policy 0).
  rewrite retry_loop_step; [|done|done|].
  - change (Z.of_nat 1) with 1. cbn [retry_loop]. change ((1 + 1) mod u32_mod) with 2. by rewrite E2.
  - unfold goes_on. change (Z.of_nat 1) with 1. rewrite E1, He. by apply Z.leb_le.
Qed.

End Properties.

(** However callers of a budget interleave, its counter is the number of guards alive. *)
Theorem budget_guards_accounted now cfg s :
  rtc budget_step (mkCallers (budget_new now cfg) 0 0 0) s ->
  Z.of_nat (held s) < u64_mod ->
  active_retries (shared_budget s) = Z.of_nat (held s).
Proof.
  intros Hr Hh. enough (accounted s) as Ha by (unfold accounted in Ha; rewrite Ha; apply Z.mod_small; lia).
  remember (mkCallers (budget_new now cfg) 0 0 0) as s0 eqn:E0.
  assert (accounted s0) as H0 by (by subst). clear E0 Hh.
  induction Hr as [|s0 s1 s2 Hst _ IH]; [done|]. by apply IH, (budget_step_accounted s0).
Qed.

(** A budget that is acquired by one caller at a time never has more guards alive than
    its limit, and a caller that finds the limit reached takes no token. *)
Theorem sequential_acquire_bounded now b b' r :
  acquire alone now b = (b', r) ->
  0 <= active_retries b <= max_concurrent_retries (budget_config b) ->
  max_concurrent_retries (budget_config b) < u64_mod ->
  active_retries b' <= max_concurrent_retries (budget_config b)
  /\ (active_retries b = max_concurrent_retries (budget_config b) ->
      b' = b /\ r = Err too_many_retries).
Proof.
  intros Ha Hr Hm. split.
  - destruct r as [[]|e].
    + apply acquire_ok in Ha as [Hlt ->]. rewrite u64_wrapping_add_small; lia.
    + apply acquire_err in Ha as ->. lia.
  - intros E. revert Ha. unfold acquire, check_budget, check_active. rewrite E.
    rewrite (proj2 (Z.leb_le _ _)) by lia. by intros [= <- <-].
Qed.

(** The budget of the database policy: 10 concurrent retries, 20 retries "per second". *)
Definition database_budget : RetryBudgetConfig :=
  mkBudgetConfig 10 (f64_lit 20 1) (from_secs 60) 100.

(** The limit on concurrent retries is checked before it is taken: twenty callers that
    read the counter before any of them counts itself all get a guard of a budget of ten. *)
Theorem concurrent_limit_overrun :
  max_concurrent_retries database_budget = 10
  /\ exists b, rtc budget_step (mkCallers (budget_new 0 database_budget) 0 0 0) (mkCallers b 0 0 20)
     /\ active_retries b = 20.
Proof.
  split; [done|].
  destruct (rate_times 20 0 (budget_new 0 database_budget)) as [b|] eqn:E; [|by vm_compute in E].
  exists (Nat.iter 20 count_guard b). split.
  - etrans; [by apply (loads 20)|]. etrans; [by apply (rates 20 0 _ b)|]. by apply (counts 20).
  - vm_compute in E. injection E as <-. by vm_compute.
Qed.

(** What the limiter answers at a list of instants. *)
Fixpoint allowed_at (times : list Z) (l : RateLimiter) : list bool :=
  match times with
  | [] => []
  | now :: times => let '(l, ok) := allow now l in ok :: allowed_at times l
  end.

(** The rate is not one of a second: the limiter gives its rate in tokens once, and then
    the same number per window, so that "20 per second" over a window of a minute allows no
    retry in the second after a burst, and one every three seconds. *)
Theorem rate_is_per_window :
  allowed_at (replicate 21 0 ++ [from_secs 1; from_secs 2; from_secs 3; from_secs 3; from_secs 6])
    (limiter_new 0 (max_retry_rate_per_second database_budget) (budget_window database_budget))
  = replicate 20 true ++ [false; false; false; true; false; true].
Proof. by vm_compute. Qed.

(** ** Examples *)

Section Examples.

#[local] Instance toy_rng : Fastrand.
Proof. refine {| rng_u64 draw range := draw mod range |}. intros. by apply Z.mod_pos_bound. Defined.
#[local] Instance toy_hkdf : Hkdf := {| hkdf_sha256_8 salt ikm := firstn 8 (salt ++ ikm) |}.

(** Two failures that are retried, then a success. *)
Definition flaky (n : Z) : result Z AosError :=
  if n =? 1 then Err (Network "refused") else if n =? 2 then Err (Io "Connection reset") else Ok n.

Definition plain : RetryPolicy := default_policy <| jitter := false |>.
Definition at_zero : times := mkTimes 0 (mkClock 0 0) (mkClock 0 0) 5.

Lemma plain_sane : sane plain.
Proof. split; by vm_compute. Qed.

(** The delays of the default policy without jitter: the base delay is never slept. *)
Theorem default_delays :
  base_delay plain = from_millis 100
  /\ delay_after plain <$> [1; 2; 3]%nat = [from_millis 200; from_millis 400; from_millis 800].
Proof. by vm_compute. Qed.

(** A deterministic jitter is the same in every run and below a tenth of the delay. *)
Example jitter_example :
  generate_jitter strategy_model_inference.(strategy_policy) (from_millis 500) 1
  = from_millis 22.
Proof. vm_compute. reflexivity. Qed.

Lemma retry_outcome_witness :
  sane plain
  /\ exists n evs, (n <= 3)%nat
       /\ execute_with_retry true plain flaky 4 = Some (Returned (flaky (Z.of_nat (S n))), evs).
Proof.
  split; [exact plain_sane|].
  destruct (retry_outcome true plain flaky plain_sane) as (n & evs & Hn & _ & _ & E & _).
  exists n, evs. split; [exact Hn|exact E].
Defined.

Lemma execution_exact_witness :
  exists r evs self',
    execute_with_policy alone at_zero 4 plain flaky (from_policy_defaults (mkClock 0 0) plain)
    = Some (Returned r, evs, self').
Proof.
  assert (forall b, manager_budget (from_policy_defaults (mkClock 0 0) plain) = Some b ->
    is_u64 (active_retries b)) as Hb by (intros b [= <-]; done).
  destruct (execution_exact at_zero plain flaky (from_policy_defaults (mkClock 0 0) plain) _
    plain_sane eq_refl Hb) as (r & evs & self' & E & _).
  exists r, evs, self'. exact E.
Defined.

Lemma retried_success_recorded_twice_witness :
  exists self', execute_with_policy alone at_zero 2 (plain <| retry_budget := None |>)
      (fun n => if n =? 1 then Err (Network "refused") else Ok n) with_metrics
    = Some (Returned (Ok 2),
            [RecordedStart; Called 1; RecordedAttempt 1; Slept (from_millis 200); Called 2;
             RecordedSuccess 0; RecordedSuccess 5], self').
Proof.
  assert (sane (plain <| retry_budget := None |>)) as Hs by (split; by vm_compute).
  assert (1 <= max_attempts (plain <| retry_budget := None |>)) as Hm by (by vm_compute).
  exact (retried_success_recorded_twice at_zero (plain <| retry_budget := None |>)
    (fun n => if n =? 1 then Err (Network "refused") else Ok n) with_metrics _ 2 Hs
    Hm eq_refl eq_refl eq_refl eq_refl eq_refl eq_refl).
Defined.

Lemma budget_guards_accounted_witness :
  exists s, rtc budget_step (mkCallers (budget_new 0 database_budget) 0 0 0) s
    /\ held s = 0%nat /\ active_retries (shared_budget s) = 0.
Proof.
  exists (mkCallers (budget_new 0 database_budget) 1 0 0).
  assert (rtc budget_step (mkCallers (budget_new 0 database_budget) 0 0 0)
    (mkCallers (budget_new 0 database_budget) 1 0 0)) as Hr by (apply rtc_once; by apply step_load).
  split; [exact Hr|]. split; [reflexivity|].
  exact (budget_guards_accounted 0 database_budget _ Hr ltac:(done)).
Defined.

Lemma sequential_acquire_bounded_witness :
  active_retries (acquire alone 0 (budget_new 0 database_budget)).1 <= 10.
Proof.
  exact (proj1 (sequential_acquire_bounded 0 (budget_new 0 database_budget) _ _
    (surjective_pairing _) ltac:(by vm_compute) ltac:(by vm_compute))).
Defined.

End Examples.

End RetryPolicy.
